(** * The VolSync handler of ramen's volume replication group controller

    A shallow embedding of [package volsync] (the [VSHandler] type and its
    helpers): the functions are transcribed from the Go source, the cluster
    API they talk to is an in-memory object store that may refuse requests,
    and the handler's private cache is part of the threaded state. *)

From Stdlib Require Import ZArith String Ascii List Bool Lia.
From stdpp Require Import base decidable option list gmap strings fin_maps.

Open Scope string_scope.
Open Scope Z_scope.

(** ** Constants of the package *)

Definition VolumeSnapshotKind : string := "VolumeSnapshot".
Definition VolumeSnapshotIsDefaultAnnotation : string :=
  "snapshot.storage.kubernetes.io/is-default-class".
Definition VolumeSnapshotIsDefaultAnnotationValue : string := "true".
Definition VRGOwnerLabel : string := "volumereplicationgroups-owner".
Definition FinalSyncTriggerString : string := "vrg-final-sync".
Definition SchedulingIntervalMinLength : nat := 2.
Definition CronSpecMaxDayOfMonth : Z := 28.
Definition VolSyncDoNotDeleteLabel : string := "volsync.backube/do-not-delete".
Definition VolSyncDoNotDeleteLabelVal : string := "true".
Definition ACMAppSubDoNotDeleteLabel : string := "do-not-delete".
Definition ACMAppSubDoNotDeleteLabelVal : string := "true".
Definition ACMReconcileOptionAnnotation : string :=
  "apps.open-cluster-management.io/reconcile-option".
Definition ACMAnnotationPrefix : string := "apps.open-cluster-management.io".
Definition SnapshotGroupName : string := "snapshot.storage.k8s.io".

(** ** Errors

    One constructor per error the package builds or receives.  [EApi] is a
    request the API server refused for a reason other than the object being
    absent or present; [EWrap] is [fmt.Errorf("... (%w)", err)], which keeps
    the wrapped error reachable for [kerrors.IsNotFound]. *)

Inductive Verb := VGet | VList | VCreate | VUpdate | VDelete.
Inductive Kind :=
  KSecret | KPVC | KRS | KRD | KPod | KSnapshot | KStorageClass | KVSClass
| KServiceExport.

Inductive error :=
| ENotFound (k : Kind) (name : string)
| EAlreadyExists (k : Kind) (name : string)
| EApi (v : Verb) (k : Kind) (name : string)
| EAlreadyOwned (name : string)
| ENotVolSyncEnabled (pvc : string)
| ENoStorageClassName
| ENoMatchingVSC (provisioner : string)
| ESelector
| EIntervalInvalid (interval : string)
| EIntervalPrefix (num : string)
| EIntervalUnit (interval : string)
| ENoLatestImage (pvc : string)
| ENeedsRecreate (pvc : string)
| EWrap (context : string) (e : error).

Inductive res (A : Type) := Ok (a : A) | Err (e : error).
Arguments Ok {A} a.
Arguments Err {A} e.

Fixpoint IsNotFound (e : error) : bool :=
  match e with
  | ENotFound _ _ => true
  | EWrap _ e' => IsNotFound e'
  | _ => false
  end.

(** ** Cron schedule translation *)

Module Cron.

(** [strconv.Atoi] on a 64-bit platform: an optional sign, at least one
    decimal digit, nothing else, and a value that fits an [int]. *)

Definition is_digit (c : ascii) : bool :=
  let n := nat_of_ascii c in (48 <=? n)%nat && (n <=? 57)%nat.

Definition digit_val (c : ascii) : Z := Z.of_nat (nat_of_ascii c) - 48.

Fixpoint digits_value (s : string) (acc : Z) : option Z :=
  match s with
  | EmptyString => Some acc
  | String c s' =>
      if is_digit c then digits_value s' (acc * 10 + digit_val c) else None
  end.

Definition maxInt : Z := 2 ^ 63 - 1.
Definition minInt : Z := - 2 ^ 63.

Definition Atoi (s : string) : option Z :=
  match s with
  | EmptyString => None
  | String c s' =>
      let neg := Ascii.eqb c "-" in
      let body := if neg || Ascii.eqb c "+" then s' else s in
      match body with
      | EmptyString => None
      | _ =>
          match digits_value body 0 with
          | None => None
          | Some n =>
              let v := if neg then - n else n in
              if (minInt <=? v) && (v <=? maxInt) then Some v else None
          end
      end
  end.

(** [strings.ToLower] as far as the translator can see it: on the one-byte
    unit suffix it lowers an ASCII capital and leaves every other ASCII byte
    alone.  (A byte above 127 becomes the replacement character in Go; here
    it stays as it is.  Either way it is none of m, h, d.) *)

Definition lower_ascii (c : ascii) : ascii :=
  let n := nat_of_ascii c in
  if (65 <=? n)%nat && (n <=? 90)%nat then ascii_of_nat (n + 32) else c.

Fixpoint ToLower (s : string) : string :=
  match s with
  | EmptyString => EmptyString
  | String c s' => String (lower_ascii c) (ToLower s')
  end.

Definition ConvertSchedulingIntervalToCronSpec (schedulingInterval : string)
  : res string :=
  let len := String.length schedulingInterval in
  if (len <? SchedulingIntervalMinLength)%nat then
    Err (EIntervalInvalid schedulingInterval)
  else
    let mhd := ToLower (substring (len - 1) 1 schedulingInterval) in
    let num := substring 0 (len - 1) schedulingInterval in
    match Atoi num with
    | None => Err (EIntervalPrefix num)
    | Some numInt =>
        let cronSpec :=
          if String.eqb mhd "m" then "*/" +:+ num +:+ " * * * *"
          else if String.eqb mhd "h" then "0 */" +:+ num +:+ " * * *"
          else if String.eqb mhd "d" then
            let num := if numInt >? CronSpecMaxDayOfMonth then "28" else num in
            "0 0 */" +:+ num +:+ " * *"
          else "" in
        if String.eqb cronSpec "" then Err (EIntervalUnit schedulingInterval)
        else Ok cronSpec
    end.

End Cron.

(** ** Objects

    Every namespaced object lives in the owner's namespace, the only one the
    handler addresses, so an object is keyed by kind and name.  UIDs and
    API versions are left out: an owner reference is identified by kind and
    name.  controller-runtime's [referSameObject] compares the API group as
    well; the embedding agrees with it as long as no two references of one
    object share kind and name across API groups. *)

Record OwnerReference := {
  orKind : string;
  orName : string;
  orController : bool;
  orBlockOwnerDeletion : bool }.

(** [created] is [!CreationTimestamp.IsZero()]. *)
Record ObjectMeta := {
  name : string;
  labels : gmap string string;
  annotations : gmap string string;
  ownerReferences : list OwnerReference;
  created : bool }.

Definition newMeta (n : string) : ObjectMeta :=
  {| name := n; labels := ∅; annotations := ∅; ownerReferences := [];
     created := false |}.

Record TypedLocalObjectReference := {
  refAPIGroup : option string;
  refKind : string;
  refName : string }.

(** [corev1.ResourceRequirements]; quantities are integers in a base unit. *)
Record ResourceRequirements := {
  limits : gmap string Z;
  requests : gmap string Z }.

Definition noResources : ResourceRequirements :=
  {| limits := ∅; requests := ∅ |}.

(** [Requests.Storage()]: the storage request, a zero quantity if absent. *)
Definition Storage (r : ResourceRequirements) : Z :=
  default 0 (requests r !! "storage").

Definition ReadWriteOnce : string := "ReadWriteOnce".
Definition ClaimBound : string := "Bound".
Definition CopyMethodSnapshot : string := "Snapshot".

Record Secret := { secretMeta : ObjectMeta }.

Record PersistentVolumeClaim := {
  pvcMeta : ObjectMeta;
  pvcAccessModes : list string;
  pvcStorageClassName : option string;
  pvcDataSource : option TypedLocalObjectReference;
  pvcResources : ResourceRequirements;
  pvcPhase : string }.

Record ReplicationSourceTriggerSpec := {
  trSchedule : option string;
  trManual : string }.

Record ReplicationSourceRsyncSpec := {
  rsSSHKeys : option string;
  rsAddress : option string;
  rsCopyMethod : string;
  rsVolumeSnapshotClassName : option string }.

(** A time is an integer instant; 0 is Go's zero time. *)
Record ReplicationSourceStatus := {
  LastSyncTime : option Z;
  LastManualSync : string }.

Record ReplicationSource := {
  rsMeta : ObjectMeta;
  rsSourcePVC : string;
  rsTrigger : option ReplicationSourceTriggerSpec;
  rsRsync : option ReplicationSourceRsyncSpec;
  rsStatus : option ReplicationSourceStatus }.

Record ReplicationDestinationRsyncSpec := {
  rdServiceType : option string;
  rdSSHKeys : option string;
  rdCopyMethod : string;
  rdCapacity : option Z;
  rdStorageClassName : option string;
  rdAccessModes : list string;
  rdVolumeSnapshotClassName : option string }.

Record ReplicationDestinationRsyncStatus := { rdAddress : option string }.

Record ReplicationDestinationStatus := {
  rdStatusRsync : option ReplicationDestinationRsyncStatus;
  LatestImage : option TypedLocalObjectReference }.

Record ReplicationDestination := {
  rdMeta : ObjectMeta;
  rdRsync : option ReplicationDestinationRsyncSpec;
  rdStatus : option ReplicationDestinationStatus }.

Record VolumeSnapshot := { snapMeta : ObjectMeta }.
Record ServiceExport := { seMeta : ObjectMeta }.

(** A pod, reduced to what the claim-name index sees of it. *)
Record Pod := { podName : string; podClaimNames : list string }.

Record StorageClass := { Provisioner : string }.

Record VolumeSnapshotClass := {
  vscName : string;
  vscLabels : gmap string string;
  vscAnnotations : gmap string string;
  Driver : string }.

#[global] Instance OwnerReference_eq_dec : EqDecision OwnerReference.
Proof. solve_decision. Defined.
#[global] Instance ObjectMeta_eq_dec : EqDecision ObjectMeta.
Proof. solve_decision. Defined.
#[global] Instance TypedLocalObjectReference_eq_dec :
  EqDecision TypedLocalObjectReference.
Proof. solve_decision. Defined.
#[global] Instance ResourceRequirements_eq_dec : EqDecision ResourceRequirements.
Proof. solve_decision. Defined.
#[global] Instance Secret_eq_dec : EqDecision Secret.
Proof. solve_decision. Defined.
#[global] Instance PersistentVolumeClaim_eq_dec : EqDecision PersistentVolumeClaim.
Proof. solve_decision. Defined.
#[global] Instance ReplicationSourceTriggerSpec_eq_dec :
  EqDecision ReplicationSourceTriggerSpec.
Proof. solve_decision. Defined.
#[global] Instance ReplicationSourceRsyncSpec_eq_dec :
  EqDecision ReplicationSourceRsyncSpec.
Proof. solve_decision. Defined.
#[global] Instance ReplicationSourceStatus_eq_dec :
  EqDecision ReplicationSourceStatus.
Proof. solve_decision. Defined.
#[global] Instance ReplicationSource_eq_dec : EqDecision ReplicationSource.
Proof. solve_decision. Defined.
#[global] Instance ReplicationDestinationRsyncSpec_eq_dec :
  EqDecision ReplicationDestinationRsyncSpec.
Proof. solve_decision. Defined.
#[global] Instance ReplicationDestinationRsyncStatus_eq_dec :
  EqDecision ReplicationDestinationRsyncStatus.
Proof. solve_decision. Defined.
#[global] Instance ReplicationDestinationStatus_eq_dec :
  EqDecision ReplicationDestinationStatus.
Proof. solve_decision. Defined.
#[global] Instance ReplicationDestination_eq_dec :
  EqDecision ReplicationDestination.
Proof. solve_decision. Defined.
#[global] Instance VolumeSnapshot_eq_dec : EqDecision VolumeSnapshot.
Proof. solve_decision. Defined.
#[global] Instance ServiceExport_eq_dec : EqDecision ServiceExport.
Proof. solve_decision. Defined.

(** ** The cluster and the handler's view of it *)

Record Cluster := {
  secrets : gmap string Secret;
  pvcs : gmap string PersistentVolumeClaim;
  rss : gmap string ReplicationSource;
  rds : gmap string ReplicationDestination;
  snapshots : gmap string VolumeSnapshot;
  serviceExports : gmap string ServiceExport;
  pods : list Pod;
  storageClasses : gmap string StorageClass;
  volumeSnapshotClasses : list VolumeSnapshotClass }.

(** What a run of the handler can change: the cluster as it is now, the
    clusters it went through (newest first; one entry per accepted write),
    and the handler's [volumeSnapshotClassList]. *)
Record State := {
  cluster : Cluster;
  history : list Cluster;
  volumeSnapshotClassList : option (list VolumeSnapshotClass) }.

(** The threaded state: a [State] and the number of requests sent so far. *)
Record World := {
  state : State;
  ticks : nat }.

(** Which requests the API server refuses: asked at the [n]-th request of a
    run for a verb on an object, [true] makes the request fail with [EApi]
    and leaves the cluster alone. *)
Definition Faults := nat → Verb → Kind → string → bool.

Definition M (A : Type) : Type := World → A * World.

Definition ret {A} (a : A) : M A := fun w => (a, w).

Definition bind {A B} (m : M A) (k : A → M B) : M B :=
  fun w => k (m w).1 (m w).2.

Notation "'do' x <- m ; k" := (bind m (fun x => k))
  (at level 10, x name, m at level 100, k at level 200, only parsing).
Notation "'do' ' p <- m ; k" := (bind m (fun x => match x with p => k end))
  (at level 10, p pattern, m at level 100, k at level 200, only parsing).

(** [x, err := call(); if err != nil { return h }] *)
Notation "'try' x <- m 'catch' e => h ; k" :=
  (bind m (fun r => match r with Ok x => k | Err e => ret h end))
  (at level 10, x name, e name, m at level 100, h at level 100,
   k at level 200, only parsing).

Definition refused (f : Faults) (v : Verb) (k : Kind) (n : string) : M bool :=
  fun w => (f (ticks w) v k n, {| state := state w; ticks := S (ticks w) |}).

Definition getCluster : M Cluster := fun w => (cluster (state w), w).

Definition written (c : Cluster) (s : State) : State :=
  {| cluster := c; history := cluster s :: history s;
     volumeSnapshotClassList := volumeSnapshotClassList s |}.

Definition commit (c : Cluster) : M unit :=
  fun w => (tt, {| state := written c (state w); ticks := ticks w |}).

(** A kind of object the handler reads and writes through the client. *)
Class Stored (T : Type) := {
  kindOf : Kind;
  metaOf : T → ObjectMeta;
  withMeta : ObjectMeta → T → T;
  table : Cluster → gmap string T;
  withTable : gmap string T → Cluster → Cluster }.

Definition nameOf {T} `{Stored T} (o : T) : string := name (metaOf o).

Definition setCreated (m : ObjectMeta) : ObjectMeta :=
  {| name := name m; labels := labels m; annotations := annotations m;
     ownerReferences := ownerReferences m; created := true |}.

Definition setLabels (l : gmap string string) (m : ObjectMeta) : ObjectMeta :=
  {| name := name m; labels := l; annotations := annotations m;
     ownerReferences := ownerReferences m; created := created m |}.

Definition setAnnotations (a : gmap string string) (m : ObjectMeta)
  : ObjectMeta :=
  {| name := name m; labels := labels m; annotations := a;
     ownerReferences := ownerReferences m; created := created m |}.

Definition setOwnerReferences (o : list OwnerReference) (m : ObjectMeta)
  : ObjectMeta :=
  {| name := name m; labels := labels m; annotations := annotations m;
     ownerReferences := o; created := created m |}.

#[global] Instance Secret_stored : Stored Secret := {|
  kindOf := KSecret;
  metaOf := secretMeta;
  withMeta m _ := {| secretMeta := m |};
  table := secrets;
  withTable t c :=
    {| secrets := t; pvcs := pvcs c; rss := rss c; rds := rds c;
       snapshots := snapshots c; serviceExports := serviceExports c;
       pods := pods c; storageClasses := storageClasses c;
       volumeSnapshotClasses := volumeSnapshotClasses c |} |}.

#[global] Instance PVC_stored : Stored PersistentVolumeClaim := {|
  kindOf := KPVC;
  metaOf := pvcMeta;
  withMeta m p :=
    {| pvcMeta := m; pvcAccessModes := pvcAccessModes p;
       pvcStorageClassName := pvcStorageClassName p;
       pvcDataSource := pvcDataSource p; pvcResources := pvcResources p;
       pvcPhase := pvcPhase p |};
  table := pvcs;
  withTable t c :=
    {| secrets := secrets c; pvcs := t; rss := rss c; rds := rds c;
       snapshots := snapshots c; serviceExports := serviceExports c;
       pods := pods c; storageClasses := storageClasses c;
       volumeSnapshotClasses := volumeSnapshotClasses c |} |}.

#[global] Instance RS_stored : Stored ReplicationSource := {|
  kindOf := KRS;
  metaOf := rsMeta;
  withMeta m r :=
    {| rsMeta := m; rsSourcePVC := rsSourcePVC r; rsTrigger := rsTrigger r;
       rsRsync := rsRsync r; rsStatus := rsStatus r |};
  table := rss;
  withTable t c :=
    {| secrets := secrets c; pvcs := pvcs c; rss := t; rds := rds c;
       snapshots := snapshots c; serviceExports := serviceExports c;
       pods := pods c; storageClasses := storageClasses c;
       volumeSnapshotClasses := volumeSnapshotClasses c |} |}.

#[global] Instance RD_stored : Stored ReplicationDestination := {|
  kindOf := KRD;
  metaOf := rdMeta;
  withMeta m r :=
    {| rdMeta := m; rdRsync := rdRsync r; rdStatus := rdStatus r |};
  table := rds;
  withTable t c :=
    {| secrets := secrets c; pvcs := pvcs c; rss := rss c; rds := t;
       snapshots := snapshots c; serviceExports := serviceExports c;
       pods := pods c; storageClasses := storageClasses c;
       volumeSnapshotClasses := volumeSnapshotClasses c |} |}.

#[global] Instance Snapshot_stored : Stored VolumeSnapshot := {|
  kindOf := KSnapshot;
  metaOf := snapMeta;
  withMeta m _ := {| snapMeta := m |};
  table := snapshots;
  withTable t c :=
    {| secrets := secrets c; pvcs := pvcs c; rss := rss c; rds := rds c;
       snapshots := t; serviceExports := serviceExports c;
       pods := pods c; storageClasses := storageClasses c;
       volumeSnapshotClasses := volumeSnapshotClasses c |} |}.

#[global] Instance ServiceExport_stored : Stored ServiceExport := {|
  kindOf := KServiceExport;
  metaOf := seMeta;
  withMeta m _ := {| seMeta := m |};
  table := serviceExports;
  withTable t c :=
    {| secrets := secrets c; pvcs := pvcs c; rss := rss c; rds := rds c;
       snapshots := snapshots c; serviceExports := t;
       pods := pods c; storageClasses := storageClasses c;
       volumeSnapshotClasses := volumeSnapshotClasses c |} |}.

(** ** The client

    [client.Client] against an API server that keeps the objects in
    [cluster]: a request is refused with [EApi] when the fault oracle says
    so, otherwise it is answered from the store. *)

Module client.
Section ops.
Context {T : Type} `{Stored T}.
Variable f : Faults.

Definition Get (n : string) : M (res T) :=
  do r <- refused f VGet kindOf n;
  if r then ret (Err (EApi VGet kindOf n))
  else
    do c <- getCluster;
    match table c !! n with
    | Some o => ret (Ok o)
    | None => ret (Err (ENotFound kindOf n))
    end.

(** The server stamps the creation time; the caller's object is
    refreshed with what was stored. *)
Definition Create (o : T) : M (res T) :=
  do r <- refused f VCreate kindOf (nameOf o);
  if r then ret (Err (EApi VCreate kindOf (nameOf o)))
  else
    do c <- getCluster;
    match table c !! nameOf o with
    | Some _ => ret (Err (EAlreadyExists kindOf (nameOf o)))
    | None =>
        let o' := withMeta (setCreated (metaOf o)) o in
        do _ <- commit (withTable (<[nameOf o := o']> (table c)) c);
        ret (Ok o')
    end.

Definition Update (o : T) : M (res T) :=
  do r <- refused f VUpdate kindOf (nameOf o);
  if r then ret (Err (EApi VUpdate kindOf (nameOf o)))
  else
    do c <- getCluster;
    match table c !! nameOf o with
    | None => ret (Err (ENotFound kindOf (nameOf o)))
    | Some _ =>
        do _ <- commit (withTable (<[nameOf o := o]> (table c)) c);
        ret (Ok o)
    end.

(** An accepted deletion removes the object at once.  Finalizers, which
    make a server keep the object with a deletion timestamp until they
    are cleared, are not part of the store. *)
Definition Delete (n : string) : M (option error) :=
  do r <- refused f VDelete kindOf n;
  if r then ret (Some (EApi VDelete kindOf n))
  else
    do c <- getCluster;
    match table c !! n with
    | None => ret (Some (ENotFound kindOf n))
    | Some _ =>
        do _ <- commit (withTable (delete n (table c)) c);
        ret None
    end.

(** [List] with [client.MatchingLabels]. *)
Definition List (matchLabels : gmap string string) : M (res (list T)) :=
  do r <- refused f VList kindOf "";
  if r then ret (Err (EApi VList kindOf ""))
  else
    do c <- getCluster;
    ret (Ok (filter (fun o => matchLabels ⊆ labels (metaOf o))
               (snd <$> map_to_list (table c)))).
End ops.
End client.

(** ** controller-runtime's [controllerutil] *)

Module ctrlutil.

Inductive OperationResult :=
  OperationResultNone | OperationResultCreated | OperationResultUpdated.

Definition referSameObject (a b : OwnerReference) : bool :=
  String.eqb (orKind a) (orKind b) && String.eqb (orName a) (orName b).

Fixpoint indexOwnerRef (owners : list OwnerReference) (ref : OwnerReference)
  : option nat :=
  match owners with
  | [] => None
  | o :: os =>
      if referSameObject o ref then Some O
      else S <$> indexOwnerRef os ref
  end.

Definition upsertOwnerRef (ref : OwnerReference) (owners : list OwnerReference)
  : list OwnerReference :=
  match indexOwnerRef owners ref with
  | None => owners ++ [ref]
  | Some idx => <[idx := ref]> owners
  end.

(** [metav1.GetControllerOf] *)
Definition GetControllerOf (m : ObjectMeta) : option OwnerReference :=
  head (filter (fun o => orController o = true) (ownerReferences m)).

(** The owner is always of a registered kind and in the object's own
    namespace, so the owner validation of these two functions passes. *)
Definition SetOwnerReference {T} `{Stored T} (ownerKind ownerName : string)
  (o : T) : T :=
  let ref := {| orKind := ownerKind; orName := ownerName;
                orController := false; orBlockOwnerDeletion := false |} in
  withMeta
    (setOwnerReferences (upsertOwnerRef ref (ownerReferences (metaOf o)))
       (metaOf o)) o.

Definition SetControllerReference {T} `{Stored T} (ownerKind ownerName : string)
  (o : T) : res T :=
  let ref := {| orKind := ownerKind; orName := ownerName;
                orController := true; orBlockOwnerDeletion := true |} in
  match GetControllerOf (metaOf o) with
  | Some existing =>
      if negb (referSameObject existing ref) then Err (EAlreadyOwned (nameOf o))
      else
        Ok (withMeta
              (setOwnerReferences
                 (upsertOwnerRef ref (ownerReferences (metaOf o))) (metaOf o))
              o)
  | None =>
      Ok (withMeta
            (setOwnerReferences
               (upsertOwnerRef ref (ownerReferences (metaOf o))) (metaOf o))
            o)
  end.

(** [CreateOrUpdate]: fetch the object; if it is absent, mutate the given
    one and create it; if it is there, mutate what was fetched and update
    it unless the mutation changed nothing.  [X] is what the mutation
    closure captures and assigns. *)
Definition CreateOrUpdate {T} `{Stored T} `{EqDecision T} {X : Type}
  (f : Faults) (obj : T) (mutate : T → X → X * res T) (x : X)
  : M (X * res (OperationResult * T)) :=
  do r <- client.Get f (nameOf obj);
  match r with
  | Err e =>
      if negb (IsNotFound e) then ret (x, Err e)
      else
        match mutate obj x with
        | (x', Err e') => ret (x', Err e')
        | (x', Ok obj') =>
            do c <- client.Create f obj';
            match c with
            | Err e' => ret (x', Err e')
            | Ok stored => ret (x', Ok (OperationResultCreated, stored))
            end
        end
  | Ok existing =>
      match mutate existing x with
      | (x', Err e') => ret (x', Err e')
      | (x', Ok obj') =>
          if decide (existing = obj') then ret (x', Ok (OperationResultNone, obj'))
          else
            do u <- client.Update f obj';
            match u with
            | Err e' => ret (x', Err e')
            | Ok stored => ret (x', Ok (OperationResultUpdated, stored))
            end
      end
  end.

End ctrlutil.

(** ** The handler *)

Record Owner := {
  ownerKind : string;
  ownerName : string;
  ownerNamespace : string }.

(** [volumeSnapshotClassSelector] is kept as what
    [metav1.LabelSelectorAsSelector] makes of it: a predicate on label
    sets, or [None] when the selector is rejected. *)
Record VSHandler := {
  owner : Owner;
  schedulingInterval : string;
  volumeSnapshotClassSelector : option (gmap string string → bool) }.

Record ProtectedPVC := {
  Name : string;
  ProtectedByVolSync : bool;
  StorageClassName : option string;
  Labels : gmap string string;
  AccessModes : list string;
  Resources : ResourceRequirements }.

Record VolSyncReplicationDestinationSpec := { rdProtectedPVC : ProtectedPVC }.
Record VolSyncReplicationSourceSpec := { rsProtectedPVC : ProtectedPVC }.

Definition isLatestImageReady (latestImage : option TypedLocalObjectReference)
  : bool :=
  match latestImage with
  | None => false
  | Some img =>
      if String.eqb (refName img) "" || negb (String.eqb (refKind img) VolumeSnapshotKind)
      then false else true
  end.

Definition rdStatusReady (rd : ReplicationDestination) : bool :=
  match rdStatus rd with
  | None => false
  | Some st =>
      match rdStatusRsync st with
      | None => false
      | Some r =>
          match rdAddress r with
          | None => false
          | Some _ => if negb (isLatestImageReady (LatestImage st)) then false else true
          end
      end
  end.

Definition isRSLastSyncTimeReady (rsStatus : option ReplicationSourceStatus)
  : bool :=
  match rsStatus with
  | Some st =>
      match LastSyncTime st with
      | Some t => if negb (t =? 0) then true else false
      | None => false
      end
  | None => false
  end.

Definition isFinalSyncComplete (replicationSource : ReplicationSource) : bool :=
  match rsStatus replicationSource with
  | None => false
  | Some st =>
      if negb (String.eqb (LastManualSync st) FinalSyncTriggerString) then false
      else true
  end.

Definition addVRGOwnerLabel {T} `{Stored T} (o : Owner) (obj : T) : T :=
  withMeta
    (setLabels (<[VRGOwnerLabel := ownerName o]> (labels (metaOf obj)))
       (metaOf obj)) obj.

Definition getReplicationDestinationName (pvcName : string) : string := pvcName.
Definition getReplicationSourceName (pvcName : string) : string := pvcName.

Definition getLocalServiceNameForRD (rdName : string) : string :=
  "volsync-rsync-dst-" +:+ rdName.

Definition getLocalServiceNameForRDFromPVCName (pvcName : string) : string :=
  getLocalServiceNameForRD (getReplicationDestinationName pvcName).

Definition getRemoteServiceNameForRDFromPVCName (pvcName rdNamespace : string)
  : string :=
  getLocalServiceNameForRDFromPVCName pvcName +:+ "." +:+ rdNamespace
  +:+ ".svc.clusterset.local".

Definition objectRefMatches (a b : option TypedLocalObjectReference) : bool :=
  match a, b with
  | None, None => true
  | None, Some _ => false
  | Some _, None => false
  | Some a, Some b =>
      String.eqb (refKind a) (refKind b) && String.eqb (refName a) (refName b)
  end.

Definition isDefaultVolumeSnapshotClass (c : VolumeSnapshotClass) : bool :=
  match vscAnnotations c !! VolumeSnapshotIsDefaultAnnotation with
  | Some a => String.eqb a VolumeSnapshotIsDefaultAnnotationValue
  | None => false
  end.

(** [err != nil] *)
Definition isErr (err : option error) : bool :=
  match err with Some _ => true | None => false end.

Definition cached (l : list VolumeSnapshotClass) (s : State) : State :=
  {| cluster := cluster s; history := history s;
     volumeSnapshotClassList := Some l |}.

Definition setVolumeSnapshotClassList (l : list VolumeSnapshotClass) : M unit :=
  fun w => (tt, {| state := cached l (state w); ticks := ticks w |}).

Definition getVolumeSnapshotClassList : M (option (list VolumeSnapshotClass)) :=
  fun w => (volumeSnapshotClassList (state w), w).

Section VSHandler.

(** Three names of the package that its other files define: the name of
    the owner's transport secret, the default schedule and the default
    service type. *)
Variable GetVolSyncSSHSecretNameFromVRGName : string → string.
Variable DefaultScheduleCronSpec : string.
Variable DefaultRsyncServiceType : string.

Variable f : Faults.
Variable v : VSHandler.

Definition addLabel {T} `{Stored T} (obj : T) (labelName labelValue : string)
  : T * bool :=
  match labels (metaOf obj) !! labelName with
  | Some val =>
      if negb (String.eqb val labelValue) then
        (withMeta (setLabels (<[labelName := labelValue]> (labels (metaOf obj)))
                     (metaOf obj)) obj, true)
      else (obj, false)
  | None =>
      (withMeta (setLabels (<[labelName := labelValue]> (labels (metaOf obj)))
                   (metaOf obj)) obj, true)
  end.

(** [needsUpdate] compares the owner references after the call with the
    slice read before it.  When the reference is already listed,
    [upsertOwnerRef] overwrites it inside that very slice, so the two are
    equal whatever was written; when it is appended, the lengths differ. *)
Definition addOwnerReference {T} `{Stored T} (obj : T)
  (ownerKind ownerName : string) : T * bool :=
  let currentOwnerRefs := ownerReferences (metaOf obj) in
  let ref := {| orKind := ownerKind; orName := ownerName;
                orController := false; orBlockOwnerDeletion := false |} in
  (ctrlutil.SetOwnerReference ownerKind ownerName obj,
   match ctrlutil.indexOwnerRef currentOwnerRefs ref with
   | Some _ => false
   | None => true
   end).

Definition addLabelAndVRGOwnerRefAndUpdate {T} `{Stored T} (obj : T)
  (labelName labelValue : string) : M (res T) :=
  let '(obj, labelsUpdated) := addLabel obj labelName labelValue in
  let '(obj, ownerRefUpdated) :=
    addOwnerReference obj (ownerKind (owner v)) (ownerName (owner v)) in
  if labelsUpdated || ownerRefUpdated then
    try obj <- client.Update f obj
      catch err => Err (EWrap "failed to add label or VRG owner reference" err);
    ret (Ok obj)
  else ret (Ok obj).

Definition addOwnerReferenceAndUpdate {T} `{Stored T} (obj : T)
  (ownerKind ownerName : string) : M (option error) :=
  let '(obj, needsUpdate) := addOwnerReference obj ownerKind ownerName in
  if needsUpdate then
    try _ <- client.Update f obj
      catch err => Some (EWrap "failed to add owner reference" err);
    ret None
  else ret None.

Definition getPVC (pvcName : string) : M (res PersistentVolumeClaim) :=
  client.Get f pvcName.

Definition isPvcInUse (pvcName : string) : M (bool * option error) :=
  do r <- refused f VList KPod pvcName;
  if r then
    ret (false, Some (EWrap "unable to lookup pods to check if pvc is in use"
                        (EApi VList KPod pvcName)))
  else
    do c <- getCluster;
    let podUsingPVCList :=
      filter (fun p => pvcName ∈ podClaimNames p) (pods c) in
    if (length podUsingPVCList =? 0)%nat then ret (false, None)
    else ret (true, None).

Definition pvcExistsAndInUse (pvcName : string) : M (bool * option error) :=
  do r <- getPVC pvcName;
  match r with
  | Err err => if IsNotFound err then ret (false, None) else ret (false, Some err)
  | Ok _ => isPvcInUse pvcName
  end.

Definition deletePVC (pvcName : string) : M (option error) :=
  do err <- client.Delete (T := PersistentVolumeClaim) f pvcName;
  match err with
  | Some e =>
      if negb (IsNotFound e) then ret (Some (EWrap "error deleting pvc" e))
      else ret None
  | None => ret None
  end.

Definition validatePVCAndAddVRGOwnerRef (pvcName : string)
  : M (res PersistentVolumeClaim) :=
  try pvc <- getPVC pvcName catch err => Err err;
  try pvc <- addLabelAndVRGOwnerRefAndUpdate pvc ACMAppSubDoNotDeleteLabel
               ACMAppSubDoNotDeleteLabelVal
    catch err => Err err;
  ret (Ok pvc).

Definition validateSecretAndAddVRGOwnerRef (secretName : string)
  : M (bool * option error) :=
  do r <- client.Get (T := Secret) f secretName;
  match r with
  | Err err =>
      if negb (IsNotFound err) then
        ret (false, Some (EWrap "error getting secret" err))
      else ret (false, None)
  | Ok secret =>
      do e <- addOwnerReferenceAndUpdate secret (ownerKind (owner v))
                (ownerName (owner v));
      match e with
      | Some err => ret (true, Some err)
      | None => ret (true, None)
      end
  end.

(** Lists only RS/RD with [VRGOwnerLabel] that matches the owner. *)
Definition listByOwner {T} `{Stored T} : M (res (list T)) :=
  let matchLabels : gmap string string :=
    {[ VRGOwnerLabel := ownerName (owner v) ]} in
  try l <- client.List f matchLabels
    catch err => Err (EWrap "error listing by label" err);
  ret (Ok l).

Definition listRSByOwner : M (res (list ReplicationSource)) := listByOwner.
Definition listRDByOwner : M (res (list ReplicationDestination)) := listByOwner.

(** The loop of [DeleteRS] and [DeleteRD]: errors of a deletion are
    logged and the loop goes on. *)
Fixpoint deleteNamed {T} `{Stored T} (items : list T) (n : string) : M unit :=
  match items with
  | [] => ret tt
  | o :: rest =>
      if String.eqb (nameOf o) n then
        do _ <- client.Delete (T := T) f (nameOf o);
        deleteNamed rest n
      else deleteNamed rest n
  end.

Definition DeleteRS (pvcName : string) : M (option error) :=
  try currentRSListByOwner <- listRSByOwner catch err => Some err;
  do _ <- deleteNamed currentRSListByOwner (getReplicationSourceName pvcName);
  ret None.

Definition DeleteRD (pvcName : string) : M (option error) :=
  try currentRDListByOwner <- listRDByOwner catch err => Some err;
  do _ <- deleteNamed currentRDListByOwner
            (getReplicationDestinationName pvcName);
  ret None.

Fixpoint cleanupNotIn (items : list ReplicationDestination)
  (rdSpecList : list VolSyncReplicationDestinationSpec) : M unit :=
  match items with
  | [] => ret tt
  | rd :: rest =>
      let foundInSpecList :=
        existsb (fun rdSpec =>
                   String.eqb (nameOf rd)
                     (getReplicationDestinationName (Name (rdProtectedPVC rdSpec))))
          rdSpecList in
      if negb foundInSpecList then
        do _ <- client.Delete (T := ReplicationDestination) f (nameOf rd);
        cleanupNotIn rest rdSpecList
      else cleanupNotIn rest rdSpecList
  end.

Definition CleanupRDNotInSpecList
  (rdSpecList : list VolSyncReplicationDestinationSpec) : M (option error) :=
  try currentRDListByOwner <- listRDByOwner catch err => Some err;
  do _ <- cleanupNotIn currentRDListByOwner rdSpecList;
  ret None.

Definition getRsyncServiceType : option string := Some DefaultRsyncServiceType.

Definition GetVolumeSnapshotClasses : M (res (list VolumeSnapshotClass)) :=
  do cached <- getVolumeSnapshotClassList;
  match cached with
  | Some l => ret (Ok l)
  | None =>
      match volumeSnapshotClassSelector v with
      | None => ret (Err (EWrap "unable to use volume snapshot label selector" ESelector))
      | Some selector =>
          do r <- refused f VList KVSClass "";
          if r then
            ret (Err (EWrap "error listing volumesnapshotclasses"
                        (EApi VList KVSClass "")))
          else
            do c <- getCluster;
            let vscList :=
              filter (fun c => selector (vscLabels c) = true)
                (volumeSnapshotClasses c) in
            do _ <- setVolumeSnapshotClassList vscList;
            ret (Ok vscList)
      end
  end.

(** The loop over the classes: the first class of the provisioner is
    kept unless a later one of the provisioner is the default. *)
Definition matchVolumeSnapshotClass (provisioner : string)
  (classes : list VolumeSnapshotClass) : string :=
  fold_left
    (fun matched c =>
       if String.eqb (Driver c) provisioner then
         if String.eqb matched "" || isDefaultVolumeSnapshotClass c
         then vscName c else matched
       else matched)
    classes "".

Definition GetVolumeSnapshotClassFromPVCStorageClass
  (storageClassName : option string) : M (res string) :=
  match storageClassName with
  | None => ret (Err ENoStorageClassName)
  | Some scName =>
      if String.eqb scName "" then ret (Err ENoStorageClassName)
      else
        do r <- refused f VGet KStorageClass scName;
        if r then
          ret (Err (EWrap "error getting storage class"
                      (EApi VGet KStorageClass scName)))
        else
          do c <- getCluster;
          match storageClasses c !! scName with
          | None =>
              ret (Err (EWrap "error getting storage class"
                          (ENotFound KStorageClass scName)))
          | Some storageClass =>
              try volumeSnapshotClasses <- GetVolumeSnapshotClasses
                catch err => Err err;
              let matched :=
                matchVolumeSnapshotClass (Provisioner storageClass)
                  volumeSnapshotClasses in
              if String.eqb matched "" then
                ret (Err (ENoMatchingVSC (Provisioner storageClass)))
              else ret (Ok matched)
          end
  end.

Definition getScheduleCronSpec : res string :=
  if negb (String.eqb (schedulingInterval v) "") then
    Cron.ConvertSchedulingIntervalToCronSpec (schedulingInterval v)
  else Ok DefaultScheduleCronSpec.

(** *** Replication destination *)

(** The mutation closure of [createOrUpdateRD]. *)
Definition mutateRD (rdSpec : VolSyncReplicationDestinationSpec)
  (sshKeysSecretName volumeSnapshotClassName : string)
  (rd : ReplicationDestination) (_ : unit) : unit * res ReplicationDestination :=
  let pvcAccessModes :=
    if (0 <? length (AccessModes (rdProtectedPVC rdSpec)))%nat
    then AccessModes (rdProtectedPVC rdSpec) else [ReadWriteOnce] in
  match ctrlutil.SetControllerReference (ownerKind (owner v))
          (ownerName (owner v)) rd with
  | Err err => (tt, Err err)
  | Ok rd =>
      let rd := addVRGOwnerLabel (owner v) rd in
      (tt,
       Ok {| rdMeta := rdMeta rd;
             rdRsync :=
               Some {| rdServiceType := getRsyncServiceType;
                       rdSSHKeys := Some sshKeysSecretName;
                       rdCopyMethod := CopyMethodSnapshot;
                       rdCapacity :=
                         Some (Storage (Resources (rdProtectedPVC rdSpec)));
                       rdStorageClassName :=
                         StorageClassName (rdProtectedPVC rdSpec);
                       rdAccessModes := pvcAccessModes;
                       rdVolumeSnapshotClassName :=
                         Some volumeSnapshotClassName |};
             rdStatus := rdStatus rd |})
  end.

Definition createOrUpdateRD (rdSpec : VolSyncReplicationDestinationSpec)
  (sshKeysSecretName : string) : M (res ReplicationDestination) :=
  try volumeSnapshotClassName <-
      GetVolumeSnapshotClassFromPVCStorageClass
        (StorageClassName (rdProtectedPVC rdSpec))
    catch err => Err err;
  let rd :=
    {| rdMeta :=
         newMeta (getReplicationDestinationName (Name (rdProtectedPVC rdSpec)));
       rdRsync := None; rdStatus := None |} in
  do '(_, r) <-
    ctrlutil.CreateOrUpdate f rd
      (mutateRD rdSpec sshKeysSecretName volumeSnapshotClassName) tt;
  match r with
  | Err err => ret (Err err)
  | Ok (_, rd) => ret (Ok rd)
  end.

(** The mutation closure of [reconcileServiceExportForRD]: the export
    is owned by the destination itself. *)
Definition mutateServiceExport (rd : ReplicationDestination)
  (svcExport : ServiceExport) (_ : unit) : unit * res ServiceExport :=
  (tt, Ok (ctrlutil.SetOwnerReference "ReplicationDestination" (nameOf rd)
             svcExport)).

Definition reconcileServiceExportForRD (rd : ReplicationDestination)
  : M (option error) :=
  let svcExport :=
    {| seMeta := newMeta (getLocalServiceNameForRD (nameOf rd)) |} in
  do '(_, r) <-
    ctrlutil.CreateOrUpdate f svcExport (mutateServiceExport rd) tt;
  match r with
  | Err err => ret (Some (EWrap "error creating or updating ServiceExport" err))
  | Ok _ => ret None
  end.

Definition ReconcileRD (rdSpec : VolSyncReplicationDestinationSpec)
  : M (option ReplicationDestination * option error) :=
  if negb (ProtectedByVolSync (rdProtectedPVC rdSpec)) then
    ret (None, Some (ENotVolSyncEnabled (Name (rdProtectedPVC rdSpec))))
  else
    let sshKeysSecretName :=
      GetVolSyncSSHSecretNameFromVRGName (ownerName (owner v)) in
    do '(secretExists, err) <- validateSecretAndAddVRGOwnerRef sshKeysSecretName;
    if isErr err || negb secretExists then ret (None, err)
    else
      do err <- DeleteRS (Name (rdProtectedPVC rdSpec));
      match err with
      | Some e => ret (None, Some e)
      | None =>
          try rd <- createOrUpdateRD rdSpec sshKeysSecretName
            catch err => (None, Some err);
          do err <- reconcileServiceExportForRD rd;
          match err with
          | Some e => ret (None, Some e)
          | None =>
              if negb (rdStatusReady rd) then ret (None, None)
              else ret (Some rd, None)
          end
      end.

(** *** Replication source *)

Definition validatePVCBeforeFinalSync (rsSpec : VolSyncReplicationSourceSpec)
  (runFinalSync : bool) : M (bool * option error) :=
  if negb runFinalSync then ret (true, None)
  else
    do '(existsAndInUse, err) <- pvcExistsAndInUse (Name (rsProtectedPVC rsSpec));
    match err with
    | Some e => ret (false, Some e)
    | None => if existsAndInUse then ret (false, None) else ret (true, None)
    end.

Definition cleanupAfterRSFinalSync (rsSpec : VolSyncReplicationSourceSpec)
  : M (option error) :=
  deletePVC (Name (rsProtectedPVC rsSpec)).

(** The mutation closure of [createOrUpdateRS]. *)
Definition mutateRS (rsSpec : VolSyncReplicationSourceSpec)
  (sshKeysSecretName volumeSnapshotClassName remoteAddress : string)
  (runFinalSync : bool)
  (rs : ReplicationSource) (_ : unit) : unit * res ReplicationSource :=
  match ctrlutil.SetControllerReference (ownerKind (owner v))
          (ownerName (owner v)) rs with
  | Err err => (tt, Err err)
  | Ok rs =>
      let rs := addVRGOwnerLabel (owner v) rs in
      let rsync :=
        Some {| rsSSHKeys := Some sshKeysSecretName;
                rsAddress := Some remoteAddress;
                rsCopyMethod := CopyMethodSnapshot;
                rsVolumeSnapshotClassName := Some volumeSnapshotClassName |} in
      if runFinalSync then
        (tt,
         Ok {| rsMeta := rsMeta rs;
               rsSourcePVC := Name (rsProtectedPVC rsSpec);
               rsTrigger :=
                 Some {| trSchedule := None;
                         trManual := FinalSyncTriggerString |};
               rsRsync := rsync;
               rsStatus := rsStatus rs |})
      else
        match getScheduleCronSpec with
        | Err err => (tt, Err err)
        | Ok scheduleCronSpec =>
            (tt,
             Ok {| rsMeta := rsMeta rs;
                   rsSourcePVC := Name (rsProtectedPVC rsSpec);
                   rsTrigger :=
                     Some {| trSchedule := Some scheduleCronSpec;
                             trManual := "" |};
                   rsRsync := rsync;
                   rsStatus := rsStatus rs |})
        end
  end.

Definition createOrUpdateRS (rsSpec : VolSyncReplicationSourceSpec)
  (sshKeysSecretName : string) (runFinalSync : bool)
  : M (res ReplicationSource) :=
  try volumeSnapshotClassName <-
      GetVolumeSnapshotClassFromPVCStorageClass
        (StorageClassName (rsProtectedPVC rsSpec))
    catch err => Err err;
  let remoteAddress :=
    getRemoteServiceNameForRDFromPVCName (Name (rsProtectedPVC rsSpec))
      (ownerNamespace (owner v)) in
  let rs :=
    {| rsMeta := newMeta (getReplicationSourceName (Name (rsProtectedPVC rsSpec)));
       rsSourcePVC := ""; rsTrigger := None; rsRsync := None;
       rsStatus := None |} in
  do '(_, r) <-
    ctrlutil.CreateOrUpdate f rs
      (mutateRS rsSpec sshKeysSecretName volumeSnapshotClassName remoteAddress
         runFinalSync) tt;
  match r with
  | Err err => ret (Err err)
  | Ok (_, rs) => ret (Ok rs)
  end.

Definition ReconcileRS (rsSpec : VolSyncReplicationSourceSpec)
  (runFinalSync : bool)
  : M (bool * option ReplicationSource * option error) :=
  if negb (ProtectedByVolSync (rsProtectedPVC rsSpec)) then
    ret (false, None, Some (ENotVolSyncEnabled (Name (rsProtectedPVC rsSpec))))
  else
    let sshKeysSecretName :=
      GetVolSyncSSHSecretNameFromVRGName (ownerName (owner v)) in
    do '(secretExists, err) <- validateSecretAndAddVRGOwnerRef sshKeysSecretName;
    if isErr err || negb secretExists then ret (false, None, err)
    else
      do err <- DeleteRD (Name (rsProtectedPVC rsSpec));
      match err with
      | Some e => ret (false, None, Some e)
      | None =>
          do '(pvcOk, err) <- validatePVCBeforeFinalSync rsSpec runFinalSync;
          if negb pvcOk || isErr err then ret (false, None, err)
          else
            try replicationSource <-
                createOrUpdateRS rsSpec sshKeysSecretName runFinalSync
              catch err => (false, None, Some err);
            if negb (isRSLastSyncTimeReady (rsStatus replicationSource)) then
              ret (false, None, None)
            else if runFinalSync && isFinalSyncComplete replicationSource then
              do err <- cleanupAfterRSFinalSync rsSpec;
              ret (true, Some replicationSource, err)
            else ret (false, Some replicationSource, None)
      end.

(** *** Handing a claim over before the final sync *)

Definition PreparePVCForFinalSync (pvcName : string) : M (bool * option error) :=
  try pvc <- validatePVCAndAddVRGOwnerRef pvcName catch err => (false, Some err);
  let waiting :=
    match annotations (pvcMeta pvc) !! ACMReconcileOptionAnnotation with
    | Some reconcileOption => negb (String.eqb reconcileOption "merge")
    | None => false
    end in
  if waiting then ret (false, None)
  else
    let updatedAnnotations :=
      filter (fun kv => String.prefix ACMAnnotationPrefix kv.1 = false)
        (annotations (pvcMeta pvc)) in
    let pvc := withMeta (setAnnotations updatedAnnotations (pvcMeta pvc)) pvc in
    try _ <- client.Update f pvc
      catch err =>
        (false,
         Some (EWrap "error updating annotations on PVC to break appsub ownership"
                 err));
    ret (true, None).

(** *** Turning the latest image into a claim *)

Definition validateSnapshotAndAddDoNotDeleteLabel
  (volumeSnapshotRef : TypedLocalObjectReference) : M (res VolumeSnapshot) :=
  try volSnap <- client.Get (T := VolumeSnapshot) f (refName volumeSnapshotRef)
    catch err => Err (EWrap "error getting volumesnapshot" err);
  let '(volSnap, labelsUpdated) :=
    addLabel volSnap VolSyncDoNotDeleteLabel VolSyncDoNotDeleteLabelVal in
  if labelsUpdated then
    try volSnap <- client.Update f volSnap
      catch err => Err (EWrap "failed to add label to snapshot" err);
    ret (Ok volSnap)
  else ret (Ok volSnap).

(** The mutation closure of [ensurePVCFromSnapshot]; the flag is the
    captured [pvcNeedsRecreation]. *)
Definition mutatePVC (rdSpec : VolSyncReplicationDestinationSpec)
  (snapshotRef : TypedLocalObjectReference)
  (pvc : PersistentVolumeClaim) (pvcNeedsRecreation : bool)
  : bool * res PersistentVolumeClaim :=
  if created (pvcMeta pvc)
     && negb (objectRefMatches (pvcDataSource pvc) (Some snapshotRef))
  then (true, Ok pvc)
  else if String.eqb (pvcPhase pvc) ClaimBound then
    (pvcNeedsRecreation, Ok pvc)
  else
    let meta :=
      setLabels (Labels (rdProtectedPVC rdSpec) ∪ labels (pvcMeta pvc))
        (pvcMeta pvc) in
    let accessModes :=
      if (0 <? length (AccessModes (rdProtectedPVC rdSpec)))%nat
      then AccessModes (rdProtectedPVC rdSpec) else [ReadWriteOnce] in
    if negb (created (pvcMeta pvc)) then
      (pvcNeedsRecreation,
       Ok {| pvcMeta := meta;
             pvcAccessModes := accessModes;
             pvcStorageClassName := StorageClassName (rdProtectedPVC rdSpec);
             pvcDataSource := Some snapshotRef;
             pvcResources := Resources (rdProtectedPVC rdSpec);
             pvcPhase := pvcPhase pvc |})
    else
      (pvcNeedsRecreation,
       Ok {| pvcMeta := meta;
             pvcAccessModes := pvcAccessModes pvc;
             pvcStorageClassName := pvcStorageClassName pvc;
             pvcDataSource := pvcDataSource pvc;
             pvcResources := Resources (rdProtectedPVC rdSpec);
             pvcPhase := pvcPhase pvc |}).

Definition ensurePVCFromSnapshot (rdSpec : VolSyncReplicationDestinationSpec)
  (snapshotRef : TypedLocalObjectReference) : M (res PersistentVolumeClaim) :=
  let pvc :=
    {| pvcMeta := newMeta (Name (rdProtectedPVC rdSpec));
       pvcAccessModes := []; pvcStorageClassName := None;
       pvcDataSource := None; pvcResources := noResources; pvcPhase := "" |} in
  do '(pvcNeedsRecreation, r) <-
    ctrlutil.CreateOrUpdate f pvc (mutatePVC rdSpec snapshotRef) false;
  match r with
  | Err err => ret (Err (EWrap "error creating or updating PVC from snapshot" err))
  | Ok (_, pvc) =>
      if pvcNeedsRecreation then
        do _ <- client.Delete (T := PersistentVolumeClaim) f (nameOf pvc);
        ret (Err (ENeedsRecreate (nameOf pvc)))
      else ret (Ok pvc)
  end.

Definition validateSnapshotAndEnsurePVC
  (rdSpec : VolSyncReplicationDestinationSpec)
  (snapshotRef : TypedLocalObjectReference) : M (option error) :=
  try snap <- validateSnapshotAndAddDoNotDeleteLabel snapshotRef
    catch err => Some err;
  try pvc <- ensurePVCFromSnapshot rdSpec snapshotRef catch err => Some err;
  addOwnerReferenceAndUpdate snap "PersistentVolumeClaim" (nameOf pvc).

Definition getRDLatestImage (pvcName : string)
  : M (res (option TypedLocalObjectReference)) :=
  do r <- client.Get (T := ReplicationDestination) f
            (getReplicationDestinationName pvcName);
  match r with
  | Err err =>
      if negb (IsNotFound err) then
        ret (Err (EWrap "error getting replicationdestination" err))
      else ret (Ok None)
  | Ok rdInst =>
      match rdStatus rdInst with
      | Some st => ret (Ok (LatestImage st))
      | None => ret (Ok None)
      end
  end.

Definition EnsurePVCfromRD (rdSpec : VolSyncReplicationDestinationSpec)
  : M (option error) :=
  try latestImage <- getRDLatestImage (Name (rdProtectedPVC rdSpec))
    catch err => Some err;
  if negb (isLatestImageReady latestImage) then
    ret (Some (ENoLatestImage (Name (rdProtectedPVC rdSpec))))
  else
    match latestImage with
    | None => ret (Some (ENoLatestImage (Name (rdProtectedPVC rdSpec))))
    | Some img =>
        let vsImageRef :=
          match refAPIGroup img with
          | Some g =>
              if String.eqb g "" then
                {| refAPIGroup := Some SnapshotGroupName;
                   refKind := refKind img; refName := refName img |}
              else img
          | None =>
              {| refAPIGroup := Some SnapshotGroupName;
                 refKind := refKind img; refName := refName img |}
          end in
        validateSnapshotAndEnsurePVC rdSpec vsImageRef
    end.

(** *** Data protection predicates *)

Definition IsRSDataProtected (pvcName : string) : M (bool * option error) :=
  do r <- client.Get (T := ReplicationSource) f (getReplicationSourceName pvcName);
  match r with
  | Err err =>
      if negb (IsNotFound err) then ret (false, Some err)
      else ret (false, None)
  | Ok rs => ret (isRSLastSyncTimeReady (rsStatus rs), None)
  end.

Definition IsRDDataProtected (pvcName : string) : M (bool * option error) :=
  try latestImage <- getRDLatestImage pvcName catch err => (false, Some err);
  ret (isLatestImageReady latestImage, None).

End VSHandler.

(** ** Sequences of reconcile calls

    What the owner's reconciler does to one handler over time: a list of
    calls, each met by the server in its own way. *)

Inductive Call :=
| CallRD (rdSpec : VolSyncReplicationDestinationSpec)
| CallRS (rsSpec : VolSyncReplicationSourceSpec) (runFinalSync : bool).

Section Calls.
Variable GetVolSyncSSHSecretNameFromVRGName : string → string.
Variable DefaultScheduleCronSpec : string.
Variable DefaultRsyncServiceType : string.
Variable v : VSHandler.

Definition runCall (f : Faults) (c : Call) : M unit :=
  match c with
  | CallRD rdSpec =>
      do _ <- ReconcileRD GetVolSyncSSHSecretNameFromVRGName
                DefaultRsyncServiceType f v rdSpec;
      ret tt
  | CallRS rsSpec runFinalSync =>
      do _ <- ReconcileRS GetVolSyncSSHSecretNameFromVRGName
                DefaultScheduleCronSpec f v rsSpec runFinalSync;
      ret tt
  end.

Fixpoint runCalls (calls : list (Faults * Call)) : M unit :=
  match calls with
  | [] => ret tt
  | (f, c) :: rest => do _ <- runCall f c; runCalls rest
  end.
End Calls.

(** * The S3 store accessors (package controllers) *)

Section S3StoreAccessors.

(** [ObjectStorer] and [ramen.S3StoreProfile] are declared in other files of
    the package, and so is the dummy profile name [NoS3StoreAvailable].  The
    getter is a closure: [St] is what it reads and changes when it is
    called, [GetError] what it fails with. *)
Variables ObjectStorer S3StoreProfile GetError St : Type.
Variable NoS3StoreAvailable : string.

(** The struct embeds an [ObjectStorer] and a [ramen.S3StoreProfile]. *)
Record s3StoreAccessor := {
  accessorObjectStorer : ObjectStorer;
  accessorS3StoreProfile : S3StoreProfile }.

(** The range loop over the profile names, with the slice built so far.
    The result is [None] for the nil slice the function returns when the
    getter fails. *)
Fixpoint s3StoreAccessorsRange
  (objectStorerGet : string → St → (ObjectStorer * S3StoreProfile + GetError) * St)
  (s3ProfileNames : list string) (s3StoreAccessors : list s3StoreAccessor)
  (st : St) : option (list s3StoreAccessor) * St :=
  match s3ProfileNames with
  | [] => (Some s3StoreAccessors, st)
  | s3ProfileName :: rest =>
      if String.eqb s3ProfileName NoS3StoreAvailable then
        s3StoreAccessorsRange objectStorerGet rest s3StoreAccessors st
      else
        match objectStorerGet s3ProfileName st with
        | (inr _, st') => (None, st')
        | (inl (objectStorer, s3StoreProfile), st') =>
            s3StoreAccessorsRange objectStorerGet rest
              (s3StoreAccessors
               ++ [{| accessorObjectStorer := objectStorer;
                      accessorS3StoreProfile := s3StoreProfile |}])%list st'
        end
  end.

Definition s3StoreAccessorsGet (s3ProfileNames : list string)
  (objectStorerGet : string → St → (ObjectStorer * S3StoreProfile + GetError) * St)
  : St → option (list s3StoreAccessor) * St :=
  s3StoreAccessorsRange objectStorerGet s3ProfileNames [].

End S3StoreAccessors.

Arguments accessorObjectStorer {ObjectStorer S3StoreProfile} _.
Arguments accessorS3StoreProfile {ObjectStorer S3StoreProfile} _.
Arguments s3StoreAccessorsRange {ObjectStorer S3StoreProfile GetError St}
  NoS3StoreAvailable objectStorerGet s3ProfileNames s3StoreAccessors st.
Arguments s3StoreAccessorsGet {ObjectStorer S3StoreProfile GetError St}
  NoS3StoreAvailable s3ProfileNames objectStorerGet _.

(** ** Sample clusters

    One owner, one claim named data, and the clusters the examples below
    start from. *)

Module Sample.

(** Stand-ins for the three names the rest of the package defines. *)
Definition secretNameOf (vrgName : string) : string := vrgName +:+ "-vs-secret".
Definition defaultSchedule : string := "*/10 * * * *".
Definition defaultServiceType : string := "ClusterIP".

Definition vrg : Owner :=
  {| ownerKind := "VolumeReplicationGroup"; ownerName := "vrg";
     ownerNamespace := "app" |}.

Definition handler : VSHandler :=
  {| owner := vrg; schedulingInterval := "5m";
     volumeSnapshotClassSelector := Some (fun _ => true) |}.

Definition noFaults : Faults := fun _ _ _ _ => false.

Definition refuseDeleteRS : Faults :=
  fun _ v k _ => match v, k with VDelete, KRS => true | _, _ => false end.

Definition refuseDeletePVC : Faults :=
  fun _ v k _ => match v, k with VDelete, KPVC => true | _, _ => false end.

Definition storage (q : Z) : ResourceRequirements :=
  {| limits := ∅; requests := {[ "storage" := q ]} |}.

Definition data : ProtectedPVC :=
  {| Name := "data"; ProtectedByVolSync := true; StorageClassName := Some "sc";
     Labels := ∅; AccessModes := []; Resources := storage 2 |}.

Definition rdSpec : VolSyncReplicationDestinationSpec := {| rdProtectedPVC := data |}.
Definition rsSpec : VolSyncReplicationSourceSpec := {| rsProtectedPVC := data |}.

Definition snapA : TypedLocalObjectReference :=
  {| refAPIGroup := Some SnapshotGroupName; refKind := VolumeSnapshotKind;
     refName := "snap-a" |}.
Definition snapB : TypedLocalObjectReference :=
  {| refAPIGroup := Some SnapshotGroupName; refKind := VolumeSnapshotKind;
     refName := "snap-b" |}.

Definition existing (n : string) : ObjectMeta := setCreated (newMeta n).

Definition ownedMeta (n : string) : ObjectMeta :=
  setLabels {[ VRGOwnerLabel := "vrg" ]} (existing n).

(** A claim restored from snapshot A, with one unit of storage. *)
Definition claimFromA (phase : string) (a : gmap string string)
  : PersistentVolumeClaim :=
  {| pvcMeta := setAnnotations a (existing "data");
     pvcAccessModes := [ReadWriteOnce]; pvcStorageClassName := Some "sc";
     pvcDataSource := Some snapA; pvcResources := storage 1;
     pvcPhase := phase |}.

(** A source of the owner, with the given status. *)
Definition source (st : option ReplicationSourceStatus) : ReplicationSource :=
  {| rsMeta := ownedMeta "data"; rsSourcePVC := "data"; rsTrigger := None;
     rsRsync := None; rsStatus := st |}.

Definition destination (st : option ReplicationDestinationStatus)
  : ReplicationDestination :=
  {| rdMeta := ownedMeta "data"; rdRsync := None; rdStatus := st |}.

(** A cluster with the storage class, its snapshot class, and the given
    secrets, claims, sources, destinations and pods. *)
Definition clusterWith (ss : gmap string Secret)
  (ps : gmap string PersistentVolumeClaim) (srcs : gmap string ReplicationSource)
  (dsts : gmap string ReplicationDestination) (pds : list Pod) : Cluster :=
  {| secrets := ss; pvcs := ps; rss := srcs; rds := dsts; snapshots := ∅;
     serviceExports := ∅; pods := pds;
     storageClasses := {[ "sc" := {| Provisioner := "csi" |} ]};
     volumeSnapshotClasses :=
       [ {| vscName := "vsc"; vscLabels := ∅; vscAnnotations := ∅;
            Driver := "csi" |} ] |}.

Definition theSecret : gmap string Secret :=
  {[ "vrg-vs-secret" := {| secretMeta := existing "vrg-vs-secret" |} ]}.

Definition start (c : Cluster) : World :=
  {| state := {| cluster := c; history := []; volumeSnapshotClassList := None |};
     ticks := 0 |}.

(** No secret yet; the secret and a source; the secret, a bound claim
    restored from snapshot A and a source; the secret and a claim; the
    secret and a destination. *)
Definition noSecret : World := start (clusterWith ∅ ∅ ∅ ∅ []).

Definition withSource (st : option ReplicationSourceStatus) : World :=
  start (clusterWith theSecret ∅ {[ "data" := source st ]} ∅ []).

Definition beforeFinalSync (st : ReplicationSourceStatus) : World :=
  start (clusterWith theSecret {[ "data" := claimFromA ClaimBound ∅ ]}
           {[ "data" := source (Some st) ]} ∅ []).

Definition withClaim (pvc : PersistentVolumeClaim) : World :=
  start (clusterWith theSecret {[ "data" := pvc ]} ∅ ∅ []).

Definition withDestination (st : option ReplicationDestinationStatus) : World :=
  start (clusterWith theSecret ∅ ∅ {[ "data" := destination st ]} []).

Definition echoOnly : ReplicationSourceStatus :=
  {| LastSyncTime := None; LastManualSync := FinalSyncTriggerString |}.

Definition synced : ReplicationSourceStatus :=
  {| LastSyncTime := Some 1700000000; LastManualSync := FinalSyncTriggerString |}.

Definition restored : ReplicationDestinationStatus :=
  {| rdStatusRsync := None; LatestImage := Some snapA |}.

(** Annotations of a claim an external workload manager has let go of. *)
Definition released : gmap string string :=
  {[ ACMReconcileOptionAnnotation := "merge"; "keep" := "yes" ]}.

(** A server that refuses every request. *)
Definition refuseAll : Faults := fun _ _ _ _ => true.

(** A snapshot class of a driver, marked as the default or not. *)
Definition class (n driver : string) (isDefault : bool) : VolumeSnapshotClass :=
  {| vscName := n; vscLabels := ∅;
     vscAnnotations :=
       if isDefault
       then {[ VolumeSnapshotIsDefaultAnnotation :=
                 VolumeSnapshotIsDefaultAnnotationValue ]}
       else ∅;
     Driver := driver |}.

(** The secret, the storage class and the given snapshot classes. *)
Definition withClasses (l : list VolumeSnapshotClass) : World :=
  start {| secrets := theSecret; pvcs := ∅; rss := ∅; rds := ∅; snapshots := ∅;
           serviceExports := ∅; pods := [];
           storageClasses := {[ "sc" := {| Provisioner := "csi" |} ]};
           volumeSnapshotClasses := l |}.

Definition fourClasses : list VolumeSnapshotClass :=
  [ class "first" "csi" false; class "other" "nfs" true;
    class "preferred" "csi" true; class "late" "csi" false ].

(** A handler whose interval has no unit the translation knows. *)
Definition badInterval : VSHandler :=
  {| owner := vrg; schedulingInterval := "5x";
     volumeSnapshotClassSelector := Some (fun _ => true) |}.

(** The owner's destinations data and old, and a destination of another
    owner. *)
Definition destinationNamed (o n : string) : ReplicationDestination :=
  {| rdMeta := setLabels {[ VRGOwnerLabel := o ]} (existing n);
     rdRsync := None; rdStatus := None |}.

Definition threeDestinations : World :=
  start (clusterWith theSecret ∅ ∅
           (<[ "data" := destinationNamed "vrg" "data" ]>
              (<[ "old" := destinationNamed "vrg" "old" ]>
                 {[ "foreign" := destinationNamed "other" "foreign" ]})) []).

(** A bound claim that a pod mounts. *)
Definition mounted : World :=
  start (clusterWith theSecret {[ "data" := claimFromA ClaimBound ∅ ]} ∅ ∅
           [ {| podName := "app"; podClaimNames := ["data"] |} ]).

(** A claim the external workload manager still owns. *)
Definition stillOwned : gmap string string :=
  {[ ACMReconcileOptionAnnotation := "mergeAndOwn" ]}.

(** A latest image that names snapshot A without an API group, and a
    cluster that has the snapshot and the destination that produced it. *)
Definition bareSnapA : TypedLocalObjectReference :=
  {| refAPIGroup := None; refKind := VolumeSnapshotKind; refName := "snap-a" |}.

Definition restoredBare : ReplicationDestinationStatus :=
  {| rdStatusRsync := None; LatestImage := Some bareSnapA |}.

Definition theSnapshot : VolumeSnapshot := {| snapMeta := existing "snap-a" |}.

Definition restorable : World :=
  start {| secrets := theSecret; pvcs := ∅; rss := ∅;
           rds := {[ "data" := destination (Some restoredBare) ]};
           snapshots := {[ "snap-a" := theSnapshot ]};
           serviceExports := ∅; pods := [];
           storageClasses := {[ "sc" := {| Provisioner := "csi" |} ]};
           volumeSnapshotClasses := [] |}.

(** A destination status with an address and snapshot A as latest image. *)
Definition ready : ReplicationDestinationStatus :=
  {| rdStatusRsync := Some {| rdAddress := Some "10.0.0.7" |};
     LatestImage := Some snapA |}.

End Sample.

(** * Specification vocabulary

    The predicates the properties below are stated with. *)

(** ** The server *)

(** The server never refuses this request. *)
Definition answers (f : Faults) (v : Verb) (k : Kind) (n : string) : Prop :=
  ∀ t, f t v k n = false.

(** The server refuses nothing. *)
Definition quiet (f : Faults) : Prop := ∀ t v k n, f t v k n = false.

(** The server accepts every deletion of a source or a destination. *)
Definition deletesAccepted (f : Faults) : Prop :=
  ∀ t n, f t VDelete KRS n = false ∧ f t VDelete KRD n = false.

(** ** Well-formed clusters *)

(** Objects are stored under their own names. *)
Definition keyedMap {T} `{Stored T} (t : gmap string T) : Prop :=
  ∀ n o, t !! n = Some o → nameOf o = n.

Definition keyed {T} `{Stored T} (c : Cluster) : Prop :=
  ∀ n o, table c !! n = Some o → nameOf o = n.

Definition wf (c : Cluster) : Prop :=
  keyed (T := Secret) c ∧ keyed (T := PersistentVolumeClaim) c
  ∧ keyed (T := ReplicationSource) c ∧ keyed (T := ReplicationDestination) c
  ∧ keyed (T := VolumeSnapshot) c ∧ keyed (T := ServiceExport) c.

(** The lens of a stored kind behaves as one. *)
Class StoredLaws (T : Type) `{Stored T} := {
  table_withTable : ∀ t c, table (withTable t c) = t;
  withTable_withTable : ∀ t t' c, withTable t (withTable t' c) = withTable t c;
  withTable_table : ∀ c, withTable (table c) c = c;
  metaOf_withMeta : ∀ m o, metaOf (withMeta m o) = m;
  withMeta_withMeta : ∀ m m' o, withMeta m (withMeta m' o) = withMeta m o;
  withMeta_metaOf : ∀ o, withMeta (metaOf o) o = o }.

#[global] Instance Secret_laws : StoredLaws Secret.
Proof. split; try reflexivity; intros []; reflexivity. Qed.
#[global] Instance PVC_laws : StoredLaws PersistentVolumeClaim.
Proof. split; try reflexivity; intros []; reflexivity. Qed.
#[global] Instance RS_laws : StoredLaws ReplicationSource.
Proof. split; try reflexivity; intros []; reflexivity. Qed.
#[global] Instance RD_laws : StoredLaws ReplicationDestination.
Proof. split; try reflexivity; intros []; reflexivity. Qed.
#[global] Instance Snapshot_laws : StoredLaws VolumeSnapshot.
Proof. split; try reflexivity; intros []; reflexivity. Qed.
#[global] Instance ServiceExport_laws : StoredLaws ServiceExport.
Proof. split; try reflexivity; intros []; reflexivity. Qed.

(** Replacing the table of one kind keeps the cluster well formed. *)
Class WfLaws (T : Type) `{Stored T} := {
  wf_table : ∀ c, wf c → keyedMap (table c);
  wf_withTable : ∀ t c, wf c → keyedMap t → wf (withTable t c) }.

#[global] Instance Secret_wf : WfLaws Secret.
Proof. split; unfold wf, keyed, keyedMap; cbn; intuition. Qed.
#[global] Instance PVC_wf : WfLaws PersistentVolumeClaim.
Proof. split; unfold wf, keyed, keyedMap; cbn; intuition. Qed.
#[global] Instance RS_wf : WfLaws ReplicationSource.
Proof. split; unfold wf, keyed, keyedMap; cbn; intuition. Qed.
#[global] Instance RD_wf : WfLaws ReplicationDestination.
Proof. split; unfold wf, keyed, keyedMap; cbn; intuition. Qed.
#[global] Instance Snapshot_wf : WfLaws VolumeSnapshot.
Proof. split; unfold wf, keyed, keyedMap; cbn; intuition. Qed.
#[global] Instance ServiceExport_wf : WfLaws ServiceExport.
Proof. split; unfold wf, keyed, keyedMap; cbn; intuition. Qed.

(** A step on kind [T]: it left the state as it was, or wrote one new
    table of that kind. *)
Definition stepOn (T : Type) `{Stored T} (s s' : State) : Prop :=
  s' = s ∨ ∃ t, keyedMap t ∧ s' = written (withTable (T := T) t (cluster s)) s.

(** No write was accepted between two states. *)
Definition unchanged (s s' : State) : Prop :=
  cluster s' = cluster s ∧ history s' = history s.

(** ** Ownership *)

(** The metadata carries the label of owner [o]. *)
Definition ownedBy (o : string) (m : ObjectMeta) : Prop :=
  labels m !! VRGOwnerLabel = Some o.

(** An object of kind [T] named [n] that carries the label of owner [o]. *)
Definition present (T : Type) `{Stored T} (c : Cluster) (o n : string) : Prop :=
  ∃ x : T, table c !! n = Some x ∧ ownedBy o (metaOf x).

(** The metadata lists an owner of this kind and name. *)
Definition hasOwnerRef (k n : string) (m : ObjectMeta) : Prop :=
  is_Some (ctrlutil.indexOwnerRef (ownerReferences m)
             {| orKind := k; orName := n; orController := false;
                orBlockOwnerDeletion := false |}).

(** The secret is there and lists the owner. *)
Definition secretSettled (v : VSHandler) (sn : string) (c : Cluster) : Prop :=
  ∃ sec, secrets c !! sn = Some sec
         ∧ hasOwnerRef (ownerKind (owner v)) (ownerName (owner v)) (secretMeta sec).

(** The reference among [l] that is marked as the controller. *)
Definition controllerOf (l : list OwnerReference) : option OwnerReference :=
  head (filter (fun o => orController o = true) l).

(** The reference [SetControllerReference] writes for the owner. *)
Definition controllerRef (v : VSHandler) : OwnerReference :=
  {| orKind := ownerKind (owner v); orName := ownerName (owner v);
     orController := true; orBlockOwnerDeletion := true |}.

(** The metadata a mutation leaves: the controller reference upserted and
    the owner label set. *)
Definition settledMeta (v : VSHandler) (m : ObjectMeta) : ObjectMeta :=
  setLabels (<[VRGOwnerLabel := ownerName (owner v)]> (labels m))
    (setOwnerReferences
       (ctrlutil.upsertOwnerRef (controllerRef v) (ownerReferences m)) m).

(** No other owner controls the object. *)
Definition controllable (v : VSHandler) (m : ObjectMeta) : Prop :=
  match controllerOf (ownerReferences m) with
  | Some e => ctrlutil.referSameObject e (controllerRef v) = true
  | None => True
  end.

(** ** What a create-or-update leaves *)

(** The object as the server stores it on creation. *)
Definition stamped {T} `{Stored T} (o : T) : T :=
  withMeta (setCreated (metaOf o)) o.

(** The claim after the label and the owner reference were added. *)
Definition stampedPVC (v : VSHandler) (pvc : PersistentVolumeClaim)
  : PersistentVolumeClaim :=
  ctrlutil.SetOwnerReference (ownerKind (owner v)) (ownerName (owner v))
    (addLabel pvc ACMAppSubDoNotDeleteLabel ACMAppSubDoNotDeleteLabelVal).1.

(** A mutation that keeps the name and reaches a fixed point at once,
    also across the stamping of a creation. *)
Record settling {T} `{Stored T} (mutate : T → unit → unit * res T) : Prop := {
  settling_name : ∀ x y, (mutate x tt).2 = Ok y → nameOf y = nameOf x;
  settling_fix : ∀ x y, (mutate x tt).2 = Ok y → (mutate y tt).2 = Ok y;
  settling_stamped :
    ∀ x y, (mutate x tt).2 = Ok y → (mutate (stamped y) tt).2 = Ok (stamped y) }.

Section Desired.
Variable DefaultScheduleCronSpec DefaultRsyncServiceType : string.
Variable v : VSHandler.

(** The destination the closure of [createOrUpdateRD] asks for. *)
Definition desiredRD (rdSpec : VolSyncReplicationDestinationSpec)
  (sn vsc : string) (rd : ReplicationDestination) : ReplicationDestination :=
  {| rdMeta := settledMeta v (rdMeta rd);
     rdRsync :=
       Some {| rdServiceType := Some DefaultRsyncServiceType;
               rdSSHKeys := Some sn;
               rdCopyMethod := CopyMethodSnapshot;
               rdCapacity := Some (Storage (Resources (rdProtectedPVC rdSpec)));
               rdStorageClassName := StorageClassName (rdProtectedPVC rdSpec);
               rdAccessModes :=
                 if (0 <? length (AccessModes (rdProtectedPVC rdSpec)))%nat
                 then AccessModes (rdProtectedPVC rdSpec) else [ReadWriteOnce];
               rdVolumeSnapshotClassName := Some vsc |};
     rdStatus := rdStatus rd |}.

(** The source the closure of [createOrUpdateRS] asks for, given the
    trigger. *)
Definition desiredRS (rsSpec : VolSyncReplicationSourceSpec)
  (sn vsc remoteAddress : string) (trigger : ReplicationSourceTriggerSpec)
  (rs : ReplicationSource) : ReplicationSource :=
  {| rsMeta := settledMeta v (rsMeta rs);
     rsSourcePVC := Name (rsProtectedPVC rsSpec);
     rsTrigger := Some trigger;
     rsRsync :=
       Some {| rsSSHKeys := Some sn;
               rsAddress := Some remoteAddress;
               rsCopyMethod := CopyMethodSnapshot;
               rsVolumeSnapshotClassName := Some vsc |};
     rsStatus := rsStatus rs |}.

(** The trigger of a run: the final-sync token, or the schedule. *)
Definition triggerFor (runFinalSync : bool) : res ReplicationSourceTriggerSpec :=
  if runFinalSync then
    Ok {| trSchedule := None; trManual := FinalSyncTriggerString |}
  else
    match getScheduleCronSpec DefaultScheduleCronSpec v with
    | Err e => Err e
    | Ok spec => Ok {| trSchedule := Some spec; trManual := "" |}
    end.
End Desired.

(** ** The snapshot class of a storage class *)

(** The classes the handler works with: its cached list, or what the
    selector keeps of the cluster's. *)
Definition classesSeen (v : VSHandler) (s : State)
  : option (list VolumeSnapshotClass) :=
  match volumeSnapshotClassList s with
  | Some l => Some l
  | None =>
      match volumeSnapshotClassSelector v with
      | None => None
      | Some selector =>
          Some (filter (fun c => selector (vscLabels c) = true)
                  (volumeSnapshotClasses (cluster s)))
      end
  end.

(** The class the handler picks, when it gets to pick one. *)
Definition snapshotClassFor (v : VSHandler) (s : State)
  (storageClassName : option string) : option string :=
  match storageClassName with
  | None => None
  | Some scName =>
      if String.eqb scName "" then None
      else
        match storageClasses (cluster s) !! scName with
        | None => None
        | Some storageClass =>
            match classesSeen v s with
            | None => None
            | Some classes =>
                let matched :=
                  matchVolumeSnapshotClass (Provisioner storageClass) classes in
                if String.eqb matched "" then None else Some matched
            end
        end
  end.

(** The state after the snapshot class lookup: as before, or with the
    class list loaded. *)
Definition afterLookup (v : VSHandler) (s s0 : State) : Prop :=
  s0 = s
  ∨ volumeSnapshotClassList s = None
    ∧ ∃ l, classesSeen v s = Some l ∧ s0 = cached l s.

(** ** Roles *)

(** The claim exists and a pod mounts it. *)
Definition inUse (c : Cluster) (n : string) : Prop :=
  is_Some (pvcs c !! n) ∧ ∃ p, p ∈ pods c ∧ n ∈ podClaimNames p.

(** No owner has a source and a destination of one name. *)
Definition exclusive (c : Cluster) : Prop :=
  ∀ o n, ¬ (present ReplicationSource c o n
            ∧ present ReplicationDestination c o n).

(** The clusters a run has shown so far. *)
Definition observed (s : State) : list Cluster := cluster s :: history s.

(** What every call keeps when deletions are accepted. *)
Definition Inv (s : State) : Prop :=
  wf (cluster s) ∧ Forall exclusive (observed s).

Section Settled.
Variable GetVolSyncSSHSecretNameFromVRGName : string → string.
Variable DefaultScheduleCronSpec DefaultRsyncServiceType : string.
Variable v : VSHandler.

Local Abbreviation secretName :=
  (GetVolSyncSSHSecretNameFromVRGName (ownerName (owner v))).

(** Where a call of [ReconcileRD] that reports no error leaves the
    cluster. *)
Definition settledRD (rdSpec : VolSyncReplicationDestinationSpec) (s : State)
  : Prop :=
  let n := Name (rdProtectedPVC rdSpec) in
  secrets (cluster s) !! secretName = None
  ∨ (secretSettled v secretName (cluster s)
     ∧ ¬ present ReplicationSource (cluster s) (ownerName (owner v)) n
     ∧ ∃ vsc rd se,
         snapshotClassFor v s (StorageClassName (rdProtectedPVC rdSpec))
         = Some vsc
         ∧ rds (cluster s) !! n = Some rd
         ∧ name (rdMeta rd) = n
         ∧ (mutateRD DefaultRsyncServiceType v rdSpec secretName vsc rd tt).2
           = Ok rd
         ∧ serviceExports (cluster s) !! getLocalServiceNameForRD n = Some se
         ∧ (mutateServiceExport rd se tt).2 = Ok se).

(** Where a call of [ReconcileRS] that reports no error leaves the
    cluster. *)
Definition settledRS (rsSpec : VolSyncReplicationSourceSpec)
  (runFinalSync : bool) (s : State) : Prop :=
  let n := Name (rsProtectedPVC rsSpec) in
  let addr := getRemoteServiceNameForRDFromPVCName n (ownerNamespace (owner v)) in
  secrets (cluster s) !! secretName = None
  ∨ (secretSettled v secretName (cluster s)
     ∧ ¬ present ReplicationDestination (cluster s) (ownerName (owner v)) n
     ∧ (runFinalSync = true ∧ inUse (cluster s) n
        ∨ (runFinalSync = true → ¬ inUse (cluster s) n)
          ∧ ∃ vsc rs,
              snapshotClassFor v s (StorageClassName (rsProtectedPVC rsSpec))
              = Some vsc
              ∧ rss (cluster s) !! n = Some rs
              ∧ (mutateRS DefaultScheduleCronSpec v rsSpec secretName vsc addr
                   runFinalSync rs tt).2 = Ok rs
              ∧ (isRSLastSyncTimeReady (rsStatus rs) = true →
                 runFinalSync = true → isFinalSyncComplete rs = true →
                 pvcs (cluster s) !! n = None))).
End Settled.

(** ** The choice among snapshot classes *)

(** The class the loop of [GetVolumeSnapshotClassFromPVCStorageClass]
    settles on: the last default class of the provisioner, or else the
    first class of the provisioner. *)
Definition preferredClass (provisioner : string)
  (classes : list VolumeSnapshotClass) : option VolumeSnapshotClass :=
  match last (filter (fun c => String.eqb (Driver c) provisioner
                               && isDefaultVolumeSnapshotClass c = true)
                classes) with
  | Some c => Some c
  | None => head (filter (fun c => String.eqb (Driver c) provisioner = true)
                    classes)
  end.

(** ** Getters for the S3 store accessors *)

(** A getter that answers from a fixed table and keeps the list of the
    names it was asked for. *)
Definition recording {A E : Type} (get : string → A + E)
  : string → list string → (A + E) * list string :=
  fun n asked => (get n, (asked ++ [n])%list).

(** The profile names that are not the dummy one. *)
Definition realProfiles (NoS3StoreAvailable : string) (names : list string)
  : list string :=
  filter (fun n => String.eqb n NoS3StoreAvailable = false) names.

(** * Properties *)

(** ** The schedule translator *)

Section CronFacts.
Import Cron.

Lemma length_snoc (a : string) (u : ascii) :
  String.length (a +:+ String u "") = S (String.length a).
Proof. induction a as [|c a IH]; simpl; [reflexivity | now rewrite IH]. Qed.

Lemma substring_snoc_prefix (a : string) (u : ascii) :
  substring 0 (String.length a) (a +:+ String u "") = a.
Proof. induction a as [|c a IH]; simpl; [reflexivity | now rewrite IH]. Qed.

Lemma substring_snoc_last (a : string) (u : ascii) :
  substring (String.length a) 1 (a +:+ String u "") = String u "".
Proof. induction a as [|c a IH]; simpl; [reflexivity | exact IH]. Qed.

Lemma Atoi_nonempty (num : string) (n : Z) : Atoi num = Some n → num ≠ "".
Proof. intros H ->. discriminate H. Qed.

(** What the translator does on a prefix followed by a unit byte. *)
Lemma Convert_snoc (num : string) (u : ascii) :
  num ≠ "" →
  ConvertSchedulingIntervalToCronSpec (num +:+ String u "") =
    match Atoi num with
    | None => Err (EIntervalPrefix num)
    | Some numInt =>
        let mhd := String (lower_ascii u) "" in
        let cronSpec :=
          if String.eqb mhd "m" then "*/" +:+ num +:+ " * * * *"
          else if String.eqb mhd "h" then "0 */" +:+ num +:+ " * * *"
          else if String.eqb mhd "d" then
            let num := if numInt >? CronSpecMaxDayOfMonth then "28" else num in
            "0 0 */" +:+ num +:+ " * *"
          else "" in
        if String.eqb cronSpec "" then
          Err (EIntervalUnit (num +:+ String u ""))
        else Ok cronSpec
    end.
Proof.
  intros Hne. unfold ConvertSchedulingIntervalToCronSpec.
  rewrite length_snoc.
  replace (S (String.length num) - 1)%nat with (String.length num) by lia.
  rewrite substring_snoc_prefix, substring_snoc_last.
  destruct num as [|c num]; [congruence|]. reflexivity.
Qed.

Lemma Convert_short (s : string) :
  (String.length s < 2)%nat →
  ConvertSchedulingIntervalToCronSpec s = Err (EIntervalInvalid s).
Proof.
  intros H. unfold ConvertSchedulingIntervalToCronSpec, SchedulingIntervalMinLength.
  destruct (Nat.ltb_spec (String.length s) 2); [reflexivity | lia].
Qed.

Lemma unit_eqb (c d : ascii) :
  String.eqb (String c "") (String d "") = Ascii.eqb c d.
Proof. simpl. now destruct (Ascii.eqb c d). Qed.
End CronFacts.

(** C4. The translator turns "10m" into the every-10-minutes spec and "4h"
    into the every-4-hours spec; a day interval whose count parses to more
    than 28 is clamped to 28; and it fails on every input shorter than two
    bytes, on every input whose prefix [Atoi] rejects, and on every input
    whose last byte is not m, h or d in either case. *)
Theorem schedule_translation :
  Cron.ConvertSchedulingIntervalToCronSpec "10m" = Ok "*/10 * * * *"
  ∧ Cron.ConvertSchedulingIntervalToCronSpec "4h" = Ok "0 */4 * * *"
  ∧ (∀ (num : string) (n : Z) (u : ascii),
        Cron.Atoi num = Some n → n > 28 → Cron.lower_ascii u = "d"%char →
        Cron.ConvertSchedulingIntervalToCronSpec (num +:+ String u "")
        = Ok "0 0 */28 * *")
  ∧ (∀ s : string,
        (String.length s < 2)%nat →
        Cron.ConvertSchedulingIntervalToCronSpec s = Err (EIntervalInvalid s))
  ∧ (∀ (num : string) (u : ascii),
        Cron.Atoi num = None →
        ∃ e, Cron.ConvertSchedulingIntervalToCronSpec (num +:+ String u "")
             = Err e)
  ∧ (∀ (num : string) (u : ascii),
        Cron.lower_ascii u ≠ "m"%char → Cron.lower_ascii u ≠ "h"%char →
        Cron.lower_ascii u ≠ "d"%char →
        ∃ e, Cron.ConvertSchedulingIntervalToCronSpec (num +:+ String u "")
             = Err e).
Proof.
  split; [reflexivity|]. split; [reflexivity|].
  split.
  { intros num n u Hn Hgt Hu.
    rewrite Convert_snoc by (eapply Atoi_nonempty; eassumption).
    rewrite Hn, Hu. cbn zeta.
    change (String.eqb "d" "m") with false. change (String.eqb "d" "h") with false.
    change (String.eqb "d" "d") with true. cbv iota.
    unfold CronSpecMaxDayOfMonth.
    destruct (Z.gtb_spec n 28) as [_|Hle]; [reflexivity | lia]. }
  split; [exact Convert_short|].
  split.
  { intros num u Hn. destruct num as [|c num].
    - eexists. apply Convert_short. simpl. lia.
    - rewrite Convert_snoc by discriminate. rewrite Hn. eauto. }
  intros num u Hm Hh Hd. destruct num as [|c num].
  { eexists. apply Convert_short. simpl. lia. }
  rewrite Convert_snoc by discriminate.
  destruct (Cron.Atoi (String c num)) as [n|]; [|eauto].
  cbn zeta. rewrite !unit_eqb.
  apply Ascii.eqb_neq in Hm, Hh, Hd. rewrite Hm, Hh, Hd. simpl. eauto.
Qed.

Lemma schedule_translation_witness :
  Cron.ConvertSchedulingIntervalToCronSpec "40D" = Ok "0 0 */28 * *"
  ∧ Cron.ConvertSchedulingIntervalToCronSpec "5" = Err (EIntervalInvalid "5")
  ∧ (∃ e, Cron.ConvertSchedulingIntervalToCronSpec "m" = Err e)
  ∧ (∃ e, Cron.ConvertSchedulingIntervalToCronSpec "5x" = Err e).
Proof.
  destruct schedule_translation as (_ & _ & Hclamp & Hshort & Hprefix & Hunit).
  split; [exact (Hclamp "40" 40 "D"%char eq_refl eq_refl eq_refl)|].
  split; [apply (Hshort "5"); simpl; lia|].
  split; [exact (Hprefix "" "m"%char eq_refl)|].
  apply (Hunit "5" "x"%char); discriminate.
Defined.

(** C10. The translator does not insist on a positive count: a prefix that
    parses to a non-positive integer, followed by a valid unit, yields a
    spec that embeds the prefix as written, without error; and a day count
    is replaced by 28 only when it parses to more than 28, so a negative
    day count passes through. *)
Theorem schedule_nonpositive_passes :
  (∀ (num : string) (n : Z) (u : ascii),
      Cron.Atoi num = Some n → n <= 0 →
      (Cron.lower_ascii u = "m"%char →
       Cron.ConvertSchedulingIntervalToCronSpec (num +:+ String u "")
       = Ok ("*/" +:+ num +:+ " * * * *"))
      ∧ (Cron.lower_ascii u = "h"%char →
         Cron.ConvertSchedulingIntervalToCronSpec (num +:+ String u "")
         = Ok ("0 */" +:+ num +:+ " * * *"))
      ∧ (Cron.lower_ascii u = "d"%char →
         Cron.ConvertSchedulingIntervalToCronSpec (num +:+ String u "")
         = Ok ("0 0 */" +:+ num +:+ " * *")))
  ∧ (∀ (num : string) (n : Z) (u : ascii),
        Cron.Atoi num = Some n → Cron.lower_ascii u = "d"%char →
        Cron.ConvertSchedulingIntervalToCronSpec (num +:+ String u "")
        = Ok ("0 0 */" +:+ (if n >? 28 then "28" else num) +:+ " * *"))
  ∧ Cron.ConvertSchedulingIntervalToCronSpec "0m" = Ok "*/0 * * * *"
  ∧ Cron.ConvertSchedulingIntervalToCronSpec "-5m" = Ok "*/-5 * * * *"
  ∧ Cron.ConvertSchedulingIntervalToCronSpec "-5d" = Ok "0 0 */-5 * *".
Proof.
  assert (Hday : ∀ (num : string) (n : Z) (u : ascii),
        Cron.Atoi num = Some n → Cron.lower_ascii u = "d"%char →
        Cron.ConvertSchedulingIntervalToCronSpec (num +:+ String u "")
        = Ok ("0 0 */" +:+ (if n >? 28 then "28" else num) +:+ " * *")).
  { intros num n u Hn Hu.
    rewrite Convert_snoc by (eapply Atoi_nonempty; eassumption).
    rewrite Hn, Hu. reflexivity. }
  split.
  { intros num n u Hn Hle. split; [|split]; intros Hu.
    - rewrite Convert_snoc by (eapply Atoi_nonempty; eassumption).
      rewrite Hn, Hu. reflexivity.
    - rewrite Convert_snoc by (eapply Atoi_nonempty; eassumption).
      rewrite Hn, Hu. reflexivity.
    - rewrite (Hday num n u Hn Hu).
      destruct (Z.gtb_spec n 28); [lia | reflexivity]. }
  split; [exact Hday|]. repeat split; reflexivity.
Qed.

Lemma schedule_nonpositive_passes_witness :
  Cron.ConvertSchedulingIntervalToCronSpec "-7H" = Ok "0 */-7 * * *"
  ∧ Cron.ConvertSchedulingIntervalToCronSpec "-40d" = Ok "0 0 */-40 * *".
Proof.
  destruct schedule_nonpositive_passes as (Hpass & Hday & _).
  split.
  - destruct (Hpass "-7" (-7) "H"%char eq_refl) as (_ & Hh & _); [lia|].
    exact (Hh eq_refl).
  - exact (Hday "-40" (-40) "d"%char eq_refl eq_refl).
Defined.

(** * Reasoning about runs *)

Lemma quiet_answers f v k n : quiet f → answers f v k n.
Proof. intros H t. apply H. Qed.

Section ClientFacts.
Context {T : Type} `{Stored T}.
Variable f : Faults.

Lemma refused_inv v k n w b w1 :
  refused f v k n w = (b, w1) → state w1 = state w ∧ b = f (ticks w) v k n.
Proof. intros E. injection E as <- <-. auto. Qed.

Lemma Get_inv n w r w1 :
  client.Get f n w = (r, w1) →
  state w1 = state w
  ∧ r = (if f (ticks w) VGet kindOf n then Err (EApi VGet kindOf n)
         else match table (cluster (state w)) !! n with
              | Some o => Ok o
              | None => Err (ENotFound kindOf n)
              end).
Proof.
  unfold client.Get, bind, refused, getCluster, ret. cbn.
  destruct (f (ticks w) VGet kindOf n); cbn.
  - intros E; injection E as <- <-. auto.
  - destruct (table (cluster (state w)) !! n); cbn;
      intros E; injection E as <- <-; auto.
Qed.

Lemma Update_inv o w r w1 :
  client.Update f o w = (r, w1) →
  if f (ticks w) VUpdate kindOf (nameOf o) then
    r = Err (EApi VUpdate kindOf (nameOf o)) ∧ state w1 = state w
  else
    match table (cluster (state w)) !! nameOf o with
    | None => r = Err (ENotFound kindOf (nameOf o)) ∧ state w1 = state w
    | Some _ =>
        r = Ok o
        ∧ state w1 =
            written (withTable (<[nameOf o := o]> (table (cluster (state w))))
                       (cluster (state w))) (state w)
    end.
Proof.
  unfold client.Update, bind, refused, getCluster, commit, ret. cbn.
  destruct (f (ticks w) VUpdate kindOf (nameOf o)); cbn.
  - intros E; injection E as <- <-. auto.
  - destruct (table (cluster (state w)) !! nameOf o); cbn;
      intros E; injection E as <- <-; auto.
Qed.

Lemma Create_inv o w r w1 :
  client.Create f o w = (r, w1) →
  if f (ticks w) VCreate kindOf (nameOf o) then
    r = Err (EApi VCreate kindOf (nameOf o)) ∧ state w1 = state w
  else
    match table (cluster (state w)) !! nameOf o with
    | Some _ => r = Err (EAlreadyExists kindOf (nameOf o)) ∧ state w1 = state w
    | None =>
        r = Ok (withMeta (setCreated (metaOf o)) o)
        ∧ state w1 =
            written (withTable
                       (<[nameOf o := withMeta (setCreated (metaOf o)) o]>
                          (table (cluster (state w))))
                       (cluster (state w))) (state w)
    end.
Proof.
  unfold client.Create, bind, refused, getCluster, commit, ret. cbn.
  destruct (f (ticks w) VCreate kindOf (nameOf o)); cbn.
  - intros E; injection E as <- <-. auto.
  - destruct (table (cluster (state w)) !! nameOf o); cbn;
      intros E; injection E as <- <-; auto.
Qed.

Lemma Delete_inv n w r w1 :
  client.Delete (T := T) f n w = (r, w1) →
  if f (ticks w) VDelete kindOf n then
    r = Some (EApi VDelete kindOf n) ∧ state w1 = state w
  else
    match table (cluster (state w)) !! n with
    | None => r = Some (ENotFound kindOf n) ∧ state w1 = state w
    | Some _ =>
        r = None
        ∧ state w1 =
            written (withTable (delete n (table (cluster (state w))))
                       (cluster (state w))) (state w)
    end.
Proof.
  unfold client.Delete, bind, refused, getCluster, commit, ret. cbn.
  destruct (f (ticks w) VDelete kindOf n); cbn.
  - intros E; injection E as <- <-. auto.
  - destruct (table (cluster (state w)) !! n); cbn;
      intros E; injection E as <- <-; auto.
Qed.

Lemma List_inv ml w r w1 :
  client.List (T := T) f ml w = (r, w1) →
  state w1 = state w
  ∧ r = (if f (ticks w) VList kindOf "" then Err (EApi VList kindOf "")
         else Ok (filter (fun o => ml ⊆ labels (metaOf o))
                    (snd <$> map_to_list (table (cluster (state w)))))).
Proof.
  unfold client.List, bind, refused, getCluster, ret. cbn.
  destruct (f (ticks w) VList kindOf ""); cbn;
    intros E; injection E as <- <-; auto.
Qed.
End ClientFacts.

(** ** The data protection predicates *)

Lemma getRDLatestImage_inv f pvcName w r w1 :
  getRDLatestImage f pvcName w = (r, w1) →
  state w1 = state w
  ∧ r = (if f (ticks w) VGet KRD pvcName then
           Err (EWrap "error getting replicationdestination"
                  (EApi VGet KRD pvcName))
         else
           match rds (cluster (state w)) !! pvcName with
           | Some rd =>
               Ok (match rdStatus rd with
                   | Some st => LatestImage st
                   | None => None
                   end)
           | None => Ok None
           end).
Proof.
  unfold getRDLatestImage, bind, getReplicationDestinationName.
  destruct (client.Get f pvcName w) as [g w'] eqn:E.
  apply Get_inv in E as [Hs ->]. cbn.
  destruct (f (ticks w) VGet KRD pvcName); cbn.
  - intros E; injection E as <- <-. auto.
  - destruct (rds (cluster (state w)) !! pvcName) as [rd|]; cbn.
    + destruct (rdStatus rd); cbn; intros E; injection E as <- <-; auto.
    + intros E; injection E as <- <-; auto.
Qed.

(** C7. The two predicates read one object and write nothing.  When the
    read is answered, [IsRDDataProtected] is true exactly when the
    destination's status carries a latest image with a non-empty name and
    the kind VolumeSnapshot, and [IsRSDataProtected] is true exactly when
    the source's status carries a last-sync time that is not the zero
    time; in both cases without error. *)
Theorem data_protected_reads_status (f : Faults)
  (pvcName : string) (w : World) :
  answers f VGet KRD pvcName → answers f VGet KRS pvcName →
  (state (IsRDDataProtected f pvcName w).2 = state w
   ∧ (IsRDDataProtected f pvcName w).1.2 = None
   ∧ ((IsRDDataProtected f pvcName w).1.1 = true ↔
      ∃ rd st img,
        rds (cluster (state w)) !! pvcName = Some rd
        ∧ rdStatus rd = Some st ∧ LatestImage st = Some img
        ∧ refName img ≠ "" ∧ refKind img = "VolumeSnapshot"))
  ∧ (state (IsRSDataProtected f pvcName w).2 = state w
     ∧ (IsRSDataProtected f pvcName w).1.2 = None
     ∧ ((IsRSDataProtected f pvcName w).1.1 = true ↔
        ∃ rs st t,
          rss (cluster (state w)) !! pvcName = Some rs
          ∧ rsStatus rs = Some st ∧ LastSyncTime st = Some t ∧ t ≠ 0)).
Proof.
  intros HRD HRS. split.
  - unfold IsRDDataProtected, bind.
    destruct (getRDLatestImage f pvcName w) as [r w1] eqn:E.
    apply getRDLatestImage_inv in E as [Hs ->]. rewrite HRD. cbn.
    destruct (rds (cluster (state w)) !! pvcName) as [rd|]; cbn.
    2:{ repeat split; auto; [discriminate | intros (?&?&?&?&_); discriminate]. }
    repeat split; auto.
    + intros Hready. destruct (rdStatus rd) as [st|] eqn:Hst; [|discriminate].
      destruct (LatestImage st) as [img|] eqn:Himg; [|discriminate].
      exists rd, st, img. cbn in Hready.
      destruct (String.eqb_spec (refName img) ""); [discriminate|].
      destruct (String.eqb_spec (refKind img) VolumeSnapshotKind);
        [|discriminate].
      auto.
    + intros (rd' & st & img & [= <-] & -> & -> & Hn & Hk). cbn.
      apply String.eqb_neq in Hn. rewrite Hn, Hk. reflexivity.
  - unfold IsRSDataProtected, bind, getReplicationSourceName.
    destruct (client.Get f pvcName w) as [r w1] eqn:E.
    apply Get_inv in E as [Hs ->]. rewrite HRS. cbn.
    destruct (rss (cluster (state w)) !! pvcName) as [rs|]; cbn.
    2:{ repeat split; auto; [discriminate | intros (?&?&?&?&_); discriminate]. }
    repeat split; auto.
    + unfold isRSLastSyncTimeReady. intros Hready.
      destruct (rsStatus rs) as [st|] eqn:Hst; [|discriminate].
      destruct (LastSyncTime st) as [t|] eqn:Ht; [|discriminate].
      exists rs, st, t. destruct (Z.eqb_spec t 0); [discriminate|]. auto.
    + intros (rs' & st & t & [= <-] & Hst & Ht & Hne).
      unfold isRSLastSyncTimeReady. rewrite Hst, Ht.
      apply Z.eqb_neq in Hne. now rewrite Hne.
Qed.

(** ** Facts about the handler's steps *)

Lemma addOwnerReferenceAndUpdate_inv {T} `{Stored T} f (obj : T) k n w r w1 :
  addOwnerReferenceAndUpdate f obj k n w = (r, w1) →
  let ref := {| orKind := k; orName := n; orController := false;
                orBlockOwnerDeletion := false |} in
  let obj' := ctrlutil.SetOwnerReference k n obj in
  match ctrlutil.indexOwnerRef (ownerReferences (metaOf obj)) ref with
  | Some _ => r = None ∧ state w1 = state w
  | None =>
      if f (ticks w) VUpdate kindOf (nameOf obj') then
        (∃ e, r = Some e) ∧ state w1 = state w
      else
        match table (cluster (state w)) !! nameOf obj' with
        | None => (∃ e, r = Some e) ∧ state w1 = state w
        | Some _ =>
            r = None
            ∧ state w1 =
                written (withTable (<[nameOf obj' := obj']>
                                      (table (cluster (state w))))
                           (cluster (state w))) (state w)
        end
  end.
Proof.
  unfold addOwnerReferenceAndUpdate, addOwnerReference. cbn zeta.
  destruct (ctrlutil.indexOwnerRef _ _).
  - intros E; injection E as <- <-. auto.
  - unfold bind.
    destruct (client.Update f _ w) as [u w'] eqn:E.
    apply Update_inv in E.
    destruct (f (ticks w) VUpdate kindOf _).
    + destruct E as [-> Hs]. cbn. intros E; injection E as <- <-. eauto.
    + destruct (table (cluster (state w)) !! _).
      * destruct E as [-> Hs]. cbn. intros E; injection E as <- <-. eauto.
      * destruct E as [-> Hs]. cbn. intros E; injection E as <- <-. eauto.
Qed.

Lemma validateSecret_missing f v sn w :
  answers f VGet KSecret sn →
  secrets (cluster (state w)) !! sn = None →
  (validateSecretAndAddVRGOwnerRef f v sn w).1 = (false, None)
  ∧ state (validateSecretAndAddVRGOwnerRef f v sn w).2 = state w.
Proof.
  intros Hf Hs. unfold validateSecretAndAddVRGOwnerRef, bind.
  destruct (client.Get f sn w) as [g w1] eqn:E.
  apply Get_inv in E as [Hs1 ->]. rewrite Hf. cbn. rewrite Hs. cbn. auto.
Qed.

Section Reconcile.
Variable GetVolSyncSSHSecretNameFromVRGName : string → string.
Variable DefaultScheduleCronSpec : string.
Variable DefaultRsyncServiceType : string.

Local Abbreviation reconcileRD :=
  (ReconcileRD GetVolSyncSSHSecretNameFromVRGName DefaultRsyncServiceType).
Local Abbreviation reconcileRS :=
  (ReconcileRS GetVolSyncSSHSecretNameFromVRGName DefaultScheduleCronSpec).
Local Abbreviation secretName v :=
  (GetVolSyncSSHSecretNameFromVRGName (ownerName (owner v))).

(** C5.  A missing transport secret is a not-ready signal, not an error:
    when the owner's transport secret is not on the cluster (the lookup
    being answered), [ReconcileRD] returns (nil, nil) and [ReconcileRS]
    returns (false, nil, nil), and neither writes anything.  The calls
    are those of a descriptor that is protected by VolSync, which both
    reconcilers require before they look for the secret. *)
Theorem missing_secret_is_not_ready (f : Faults) (v : VSHandler)
  (rdSpec : VolSyncReplicationDestinationSpec)
  (rsSpec : VolSyncReplicationSourceSpec) (runFinalSync : bool) (w : World) :
  answers f VGet KSecret (secretName v) →
  secrets (cluster (state w)) !! secretName v = None →
  (ProtectedByVolSync (rdProtectedPVC rdSpec) = true →
   (reconcileRD f v rdSpec w).1 = (None, None)
   ∧ state (reconcileRD f v rdSpec w).2 = state w)
  ∧ (ProtectedByVolSync (rsProtectedPVC rsSpec) = true →
     (reconcileRS f v rsSpec runFinalSync w).1 = (false, None, None)
     ∧ state (reconcileRS f v rsSpec runFinalSync w).2 = state w).
Proof.
  intros Hf Hs.
  destruct (validateSecret_missing f v _ w Hf Hs) as [Hr Hw].
  split; intros Hp.
  - unfold ReconcileRD. rewrite Hp. cbn [negb]. unfold bind.
    rewrite Hr. cbn. auto.
  - unfold ReconcileRS. rewrite Hp. cbn [negb]. unfold bind.
    rewrite Hr. cbn. auto.
Qed.
End Reconcile.

Ltac run_get :=
  match goal with
  | |- context [@client.Get ?T ?H ?f ?n ?w] =>
      let E := fresh "E" in
      let r := fresh "r" in
      let w' := fresh "w" in
      let Hs := fresh "Hs" in
      destruct (@client.Get T H f n w) as [r w'] eqn:E;
      apply Get_inv in E as [Hs ->]
  end.

Ltac run_update :=
  match goal with
  | |- context [@client.Update ?T ?H ?f ?o ?w] =>
      let E := fresh "E" in
      let r := fresh "r" in
      let w' := fresh "w" in
      destruct (@client.Update T H f o w) as [r w'] eqn:E;
      apply Update_inv in E
  end.

Ltac run_delete :=
  match goal with
  | |- context [@client.Delete ?T ?H ?f ?n ?w] =>
      let E := fresh "E" in
      let r := fresh "r" in
      let w' := fresh "w" in
      destruct (@client.Delete T H f n w) as [r w'] eqn:E;
      apply Delete_inv in E
  end.

Ltac run_create :=
  match goal with
  | |- context [@client.Create ?T ?H ?f ?o ?w] =>
      let E := fresh "E" in
      let r := fresh "r" in
      let w' := fresh "w" in
      destruct (@client.Create T H f o w) as [r w'] eqn:E;
      apply Create_inv in E
  end.

(** ** Handing a claim over *)

Arguments stampedPVC : simpl never.

Lemma validatePVC_found f v pvcName pvc w :
  answers f VGet KPVC pvcName → answers f VUpdate KPVC pvcName →
  pvcs (cluster (state w)) !! pvcName = Some pvc →
  name (pvcMeta pvc) = pvcName →
  (validatePVCAndAddVRGOwnerRef f v pvcName w).1 = Ok (stampedPVC v pvc)
  ∧ ∃ old,
      pvcs (cluster (state (validatePVCAndAddVRGOwnerRef f v pvcName w).2))
        !! pvcName = Some old.
Proof.
  intros HG HU Hp Hn.
  unfold validatePVCAndAddVRGOwnerRef, getPVC, bind.
  run_get. cbn. rewrite HG, Hp. cbn.
  unfold addLabelAndVRGOwnerRefAndUpdate, stampedPVC.
  destruct (addLabel pvc _ _) as [pvc1 lu] eqn:EL.
  assert (Hn1 : name (pvcMeta pvc1) = pvcName).
  { unfold addLabel in EL. cbn in EL.
    repeat case_match; injection EL as <- <-; cbn; auto. }
  unfold addOwnerReference. cbn [fst snd].
  remember (ctrlutil.SetOwnerReference _ _ pvc1) as pvc2 eqn:E2.
  assert (Hn2 : name (pvcMeta pvc2) = pvcName) by (subst pvc2; cbn; auto).
  destruct (lu || _).
  - unfold bind. run_update. unfold nameOf in E. cbn in E.
    rewrite Hn2, HU, Hs, Hp in E.
    destruct E as [-> Hs2]. cbn. split; [now rewrite E2|].
    rewrite Hs2. cbn. rewrite lookup_insert_eq. eauto.
  - cbn. split; [now rewrite E2|]. rewrite Hs, Hp. eauto.
Qed.

(** C8. [PreparePVCForFinalSync] fails when the claim does not exist.  For
    a claim that exists (the requests for it being answered) it returns
    (false, nil) whenever the claim carries the reconcile-option annotation
    with a value other than "merge"; otherwise it returns (true, nil) and
    the stored claim has lost every annotation whose key starts with
    apps.open-cluster-management.io and kept every other one. *)
Theorem prepare_pvc_for_final_sync (f : Faults) (v : VSHandler)
  (pvcName : string) (w : World) :
  answers f VGet KPVC pvcName → answers f VUpdate KPVC pvcName →
  keyed (T := PersistentVolumeClaim) (cluster (state w)) →
  match pvcs (cluster (state w)) !! pvcName with
  | None =>
      ∃ e, (PreparePVCForFinalSync f v pvcName w).1 = (false, Some e)
  | Some pvc =>
      match annotations (pvcMeta pvc) !! ACMReconcileOptionAnnotation with
      | Some opt =>
          if decide (opt = "merge") then
            (PreparePVCForFinalSync f v pvcName w).1 = (true, None)
            ∧ ∃ pvc',
                pvcs (cluster (state (PreparePVCForFinalSync f v pvcName w).2))
                  !! pvcName = Some pvc'
                ∧ ∀ k, annotations (pvcMeta pvc') !! k =
                       if String.prefix ACMAnnotationPrefix k then None
                       else annotations (pvcMeta pvc) !! k
          else (PreparePVCForFinalSync f v pvcName w).1 = (false, None)
      | None =>
          (PreparePVCForFinalSync f v pvcName w).1 = (true, None)
          ∧ ∃ pvc',
              pvcs (cluster (state (PreparePVCForFinalSync f v pvcName w).2))
                !! pvcName = Some pvc'
              ∧ ∀ k, annotations (pvcMeta pvc') !! k =
                     if String.prefix ACMAnnotationPrefix k then None
                     else annotations (pvcMeta pvc) !! k
      end
  end.
Proof.
  intros HG HU Hk.
  destruct (pvcs (cluster (state w)) !! pvcName) as [pvc|] eqn:Hp.
  2:{ unfold PreparePVCForFinalSync, validatePVCAndAddVRGOwnerRef, getPVC, bind.
      run_get. rewrite HG. cbn. rewrite Hp. cbn. eauto. }
  assert (Hn : name (pvcMeta pvc) = pvcName) by (apply (Hk _ _ Hp)).
  destruct (validatePVC_found f v pvcName pvc w HG HU Hp Hn) as [Hr [old Hold]].
  assert (Hann : annotations (pvcMeta (stampedPVC v pvc))
                 = annotations (pvcMeta pvc)).
  { unfold stampedPVC, addLabel. cbn. repeat case_match; reflexivity. }
  assert (Hname : name (pvcMeta (stampedPVC v pvc)) = pvcName).
  { unfold stampedPVC, addLabel. cbn. repeat case_match; cbn; auto. }
  assert (Hgo :
    (match annotations (pvcMeta pvc) !! ACMReconcileOptionAnnotation with
     | Some opt => negb (String.eqb opt "merge")
     | None => false
     end) = false →
    (PreparePVCForFinalSync f v pvcName w).1 = (true, None)
    ∧ ∃ pvc',
        pvcs (cluster (state (PreparePVCForFinalSync f v pvcName w).2))
          !! pvcName = Some pvc'
        ∧ ∀ k, annotations (pvcMeta pvc') !! k =
               if String.prefix ACMAnnotationPrefix k then None
               else annotations (pvcMeta pvc) !! k).
  { intros Hw. unfold PreparePVCForFinalSync, bind.
    destruct (validatePVCAndAddVRGOwnerRef f v pvcName w) as [r w1].
    cbn in Hr, Hold. subst r.
    remember (stampedPVC v pvc) as pvc1 eqn:E1 in *. clear E1.
    cbn. rewrite Hann, Hw. unfold bind.
    run_update. unfold nameOf in E. cbn in E. rewrite Hname, HU, Hold in E.
    destruct E as [-> Hs2]. cbn. split; [reflexivity|].
    rewrite Hs2. cbn. rewrite lookup_insert_eq. eexists; split; [reflexivity|].
    intros k. cbn.
    destruct (String.prefix ACMAnnotationPrefix k) eqn:Hpre.
    - apply map_lookup_filter_None. right. intros x _. cbn. congruence.
    - destruct (annotations (pvcMeta pvc) !! k) as [x|] eqn:Hx.
      + apply map_lookup_filter_Some. auto.
      + apply map_lookup_filter_None. auto. }
  destruct (annotations (pvcMeta pvc) !! ACMReconcileOptionAnnotation)
    as [opt|] eqn:Hopt; [|apply Hgo; reflexivity].
  destruct (decide (opt = "merge")) as [->|Hne]; [apply Hgo; reflexivity|].
  unfold PreparePVCForFinalSync, bind.
  destruct (validatePVCAndAddVRGOwnerRef f v pvcName w) as [r w1].
  cbn in Hr. subst r.
  remember (stampedPVC v pvc) as pvc1 eqn:E1 in *. clear E1.
  cbn. rewrite Hann, Hopt.
  apply String.eqb_neq in Hne. rewrite Hne. reflexivity.
Qed.

(** ** Create-or-update *)

Section CreateOrUpdateFacts.
Context {T : Type} `{Stored T} `{EqDecision T} {X : Type}.
Variable f : Faults.

(** The three ways a create-or-update can go, after the fetch. *)
Lemma CreateOrUpdate_inv (obj : T) (mutate : T → X → X * res T) (x : X)
  w r w1 :
  ctrlutil.CreateOrUpdate f obj mutate x w = (r, w1) →
  (r = (x, Err (EApi VGet kindOf (nameOf obj))) ∧ state w1 = state w
   ∧ ∃ t, f t VGet kindOf (nameOf obj) = true)
  ∨ (table (cluster (state w)) !! nameOf obj = None
     ∧ match mutate obj x with
       | (x', Err e) => r = (x', Err e) ∧ state w1 = state w
       | (x', Ok obj') =>
           (∃ e, r = (x', Err e) ∧ state w1 = state w
                 ∧ ((∃ t, f t VCreate kindOf (nameOf obj') = true)
                    ∨ is_Some (table (cluster (state w)) !! nameOf obj')))
           ∨ (table (cluster (state w)) !! nameOf obj' = None
              ∧ r = (x', Ok (ctrlutil.OperationResultCreated, stamped obj'))
              ∧ state w1 =
                  written (withTable (<[nameOf obj' := stamped obj']>
                                        (table (cluster (state w))))
                             (cluster (state w))) (state w))
       end)
  ∨ (∃ existing,
       table (cluster (state w)) !! nameOf obj = Some existing
       ∧ match mutate existing x with
         | (x', Err e) => r = (x', Err e) ∧ state w1 = state w
         | (x', Ok obj') =>
             if decide (existing = obj') then
               r = (x', Ok (ctrlutil.OperationResultNone, obj'))
               ∧ state w1 = state w
             else
               (∃ e, r = (x', Err e) ∧ state w1 = state w
                     ∧ ((∃ t, f t VUpdate kindOf (nameOf obj') = true)
                        ∨ table (cluster (state w)) !! nameOf obj' = None))
               ∨ (is_Some (table (cluster (state w)) !! nameOf obj')
                  ∧ r = (x', Ok (ctrlutil.OperationResultUpdated, obj'))
                  ∧ state w1 =
                      written (withTable (<[nameOf obj' := obj']>
                                            (table (cluster (state w))))
                                 (cluster (state w))) (state w))
         end).
Proof.
  unfold ctrlutil.CreateOrUpdate, bind, ret.
  destruct (client.Get f (nameOf obj) w) as [g w0] eqn:E.
  apply Get_inv in E as [Hs ->].
  destruct (f (ticks w) VGet kindOf (nameOf obj)) eqn:Hf.
  { cbn. intros E; injection E as <- <-. left. eauto. }
  destruct (table (cluster (state w)) !! nameOf obj) as [existing|] eqn:Ht.
  - cbn. destruct (mutate existing x) as [x' [obj'|e]] eqn:Hm.
    2:{ intros E; injection E as <- <-. right; right.
        exists existing. rewrite Hm. auto. }
    destruct (decide (existing = obj')) as [Heq|Hne].
    { intros E; injection E as <- <-. right; right.
      exists existing. rewrite Hm. rewrite decide_True by done. auto. }
    destruct (client.Update f obj' w0) as [u w2] eqn:E.
    apply Update_inv in E. rewrite Hs in E. cbn.
    intros E'. right; right. exists existing. rewrite Hm.
    rewrite decide_False by done. split; [reflexivity|].
    destruct (f (ticks w0) VUpdate kindOf (nameOf obj')) eqn:Hu.
    { destruct E as [-> Hs2]. injection E' as <- <-.
      left. eexists. split; [reflexivity|]. split; [congruence|]. eauto. }
    destruct (table (cluster (state w)) !! nameOf obj') eqn:Ht'.
    + destruct E as [-> Hs2]. injection E' as <- <-.
      right. split; [eauto|]. split; [reflexivity|]. congruence.
    + destruct E as [-> Hs2]. injection E' as <- <-.
      left. eexists. split; [reflexivity|]. split; [congruence|]. eauto.
  - cbn. destruct (mutate obj x) as [x' [obj'|e]] eqn:Hm.
    2:{ intros E; injection E as <- <-. right; left. auto. }
    destruct (client.Create f obj' w0) as [u w2] eqn:E.
    apply Create_inv in E. rewrite Hs in E. cbn.
    intros E'. right; left. split; [reflexivity|].
    destruct (f (ticks w0) VCreate kindOf (nameOf obj')) eqn:Hu.
    { destruct E as [-> Hs2]. injection E' as <- <-.
      left. eexists. split; [reflexivity|]. split; [congruence|]. eauto. }
    destruct (table (cluster (state w)) !! nameOf obj') eqn:Ht'.
    + destruct E as [-> Hs2]. injection E' as <- <-.
      left. eexists. split; [reflexivity|]. split; [congruence|]. eauto.
    + destruct E as [-> Hs2]. injection E' as <- <-.
      right. split; [reflexivity|]. split; [reflexivity|]. unfold stamped. congruence.
Qed.
End CreateOrUpdateFacts.

(** ** Turning a snapshot into a claim *)

Section EnsurePVC.
Variable f : Faults.
Variable rdSpec : VolSyncReplicationDestinationSpec.
Variable snapshotRef : TypedLocalObjectReference.

Local Abbreviation pvcName := (Name (rdProtectedPVC rdSpec)).

(** A claim that is not there yet is created from the snapshot. *)
Lemma ensurePVC_absent w :
  answers f VGet KPVC pvcName → answers f VCreate KPVC pvcName →
  pvcs (cluster (state w)) !! pvcName = None →
  ∃ pvc',
    (ensurePVCFromSnapshot f rdSpec snapshotRef w).1 = Ok pvc'
    ∧ pvcs (cluster (state (ensurePVCFromSnapshot f rdSpec snapshotRef w).2))
        !! pvcName = Some pvc'
    ∧ pvcDataSource pvc' = Some snapshotRef
    ∧ pvcResources pvc' = Resources (rdProtectedPVC rdSpec).
Proof.
  intros HG HC Hp. unfold ensurePVCFromSnapshot, bind.
  destruct (ctrlutil.CreateOrUpdate _ _ _ _ w) as [[x r] w1] eqn:E.
  apply CreateOrUpdate_inv in E. cbn in E.
  destruct E as [(_ & _ & t & Ht) | [(_ & E) | (existing & Hex & _)]].
  - rewrite HG in Ht. discriminate.
  - destruct E as [(e & _ & _ & [[t Ht] | Hsome]) | (_ & E & Hs)].
    + rewrite HC in Ht. discriminate.
    + rewrite Hp in Hsome. destruct Hsome; discriminate.
    + injection E as -> ->. cbn. rewrite Hs. cbn.
      rewrite lookup_insert_eq. eauto.
  - rewrite Hp in Hex. discriminate.
Qed.

(** A claim whose data source is another one is never patched: the call
    asks for its deletion and fails with the recreation error. *)
Lemma ensurePVC_mismatch w pvc :
  answers f VGet KPVC pvcName →
  pvcs (cluster (state w)) !! pvcName = Some pvc →
  name (pvcMeta pvc) = pvcName → created (pvcMeta pvc) = true →
  objectRefMatches (pvcDataSource pvc) (Some snapshotRef) = false →
  (ensurePVCFromSnapshot f rdSpec snapshotRef w).1 = Err (ENeedsRecreate pvcName)
  ∧ (pvcs (cluster (state (ensurePVCFromSnapshot f rdSpec snapshotRef w).2))
       !! pvcName = None
     ∨ state (ensurePVCFromSnapshot f rdSpec snapshotRef w).2 = state w
       ∧ ∃ t, f t VDelete KPVC pvcName = true).
Proof.
  intros HG Hp Hn Hc Hm. unfold ensurePVCFromSnapshot, bind.
  destruct (ctrlutil.CreateOrUpdate _ _ _ _ w) as [[x r] w1] eqn:E.
  apply CreateOrUpdate_inv in E. cbn in E.
  destruct E as [(_ & _ & t & Ht) | [(Hnone & _) | (existing & Hex & E)]].
  - rewrite HG in Ht. discriminate.
  - rewrite Hp in Hnone. discriminate.
  - rewrite Hp in Hex. injection Hex as <-.
    unfold mutatePVC in E. rewrite Hc, Hm in E. cbn in E.
    rewrite decide_True in E by reflexivity.
    destruct E as [E Hs]. injection E as -> ->. cbn. unfold bind.
    run_delete. unfold nameOf in *. cbn in E. rewrite Hn, Hs, Hp in E.
    destruct (f (ticks w1) VDelete KPVC pvcName) eqn:Hd.
    + destruct E as [-> Hs2]. cbn. rewrite Hn. split; [reflexivity|].
      right. split; [congruence | eauto].
    + destruct E as [-> Hs2]. cbn. rewrite Hn. split; [reflexivity|].
      left. rewrite Hs2. cbn. apply lookup_delete_eq.
Qed.

(** A bound claim with the wanted data source is left as it is. *)
Lemma ensurePVC_bound w pvc :
  answers f VGet KPVC pvcName →
  pvcs (cluster (state w)) !! pvcName = Some pvc →
  created (pvcMeta pvc) = true →
  objectRefMatches (pvcDataSource pvc) (Some snapshotRef) = true →
  pvcPhase pvc = ClaimBound →
  (ensurePVCFromSnapshot f rdSpec snapshotRef w).1 = Ok pvc
  ∧ state (ensurePVCFromSnapshot f rdSpec snapshotRef w).2 = state w.
Proof.
  intros HG Hp Hc Hm Hb. unfold ensurePVCFromSnapshot, bind.
  destruct (ctrlutil.CreateOrUpdate _ _ _ _ w) as [[x r] w1] eqn:E.
  apply CreateOrUpdate_inv in E. cbn in E.
  destruct E as [(_ & _ & t & Ht) | [(Hnone & _) | (existing & Hex & E)]].
  - rewrite HG in Ht. discriminate.
  - rewrite Hp in Hnone. discriminate.
  - rewrite Hp in Hex. injection Hex as <-.
    unfold mutatePVC in E. rewrite Hc, Hm, Hb in E. cbn in E.
    rewrite decide_True in E by reflexivity.
    destruct E as [E Hs]. injection E as -> ->. cbn. auto.
Qed.

(** An unbound claim with the wanted data source gets the descriptor's
    labels and resources; its data source is not touched. *)
Lemma ensurePVC_unbound w pvc :
  answers f VGet KPVC pvcName → answers f VUpdate KPVC pvcName →
  pvcs (cluster (state w)) !! pvcName = Some pvc →
  name (pvcMeta pvc) = pvcName → created (pvcMeta pvc) = true →
  objectRefMatches (pvcDataSource pvc) (Some snapshotRef) = true →
  pvcPhase pvc ≠ ClaimBound →
  ∃ pvc',
    (ensurePVCFromSnapshot f rdSpec snapshotRef w).1 = Ok pvc'
    ∧ pvcs (cluster (state (ensurePVCFromSnapshot f rdSpec snapshotRef w).2))
        !! pvcName = Some pvc'
    ∧ pvcDataSource pvc' = pvcDataSource pvc
    ∧ pvcResources pvc' = Resources (rdProtectedPVC rdSpec).
Proof.
  intros HG HU Hp Hn Hc Hm Hb. unfold ensurePVCFromSnapshot, bind.
  destruct (ctrlutil.CreateOrUpdate _ _ _ _ w) as [[x r] w1] eqn:E.
  apply CreateOrUpdate_inv in E. cbn in E.
  destruct E as [(_ & _ & t & Ht) | [(Hnone & _) | (existing & Hex & E)]].
  - rewrite HG in Ht. discriminate.
  - rewrite Hp in Hnone. discriminate.
  - rewrite Hp in Hex. injection Hex as <-.
    unfold mutatePVC in E. rewrite Hc, Hm in E.
    apply String.eqb_neq in Hb. rewrite Hb in E. cbn in E.
    destruct (decide _) as [Heq|Hne] in E.
    + destruct E as [E Hs]. injection E as -> ->. cbn.
      eexists. split; [reflexivity|]. rewrite Hs, <- Heq.
      split; [exact Hp|]. rewrite Heq at 2 3. cbn. auto.
    + unfold nameOf in E. cbn in E. rewrite Hn in E.
      destruct E as [(e & _ & _ & [[t Ht] | Hnone]) | (_ & E & Hs)].
      * rewrite HU in Ht. discriminate.
      * rewrite Hp in Hnone. discriminate.
      * injection E as -> ->. cbn. eexists. split; [reflexivity|].
        rewrite Hs. cbn. rewrite lookup_insert_eq. auto.
Qed.
End EnsurePVC.

(** C3, as amended.  When a claim of the target name exists whose data
    source differs in kind or name from the wanted snapshot, the call does
    not patch it: it asks for the claim's deletion and fails with the
    recreation-required error, and the claim is gone when the deletion is
    accepted.  A call that finds no claim creates one whose data source is
    the wanted snapshot; in particular the call that follows an accepted
    deletion does. *)
Theorem immutable_data_source_replace (f : Faults)
  (rdSpec : VolSyncReplicationDestinationSpec)
  (snapshotRef : TypedLocalObjectReference) (w : World)
  (pvc : PersistentVolumeClaim) :
  let pvcName := Name (rdProtectedPVC rdSpec) in
  let first := ensurePVCFromSnapshot f rdSpec snapshotRef w in
  let second := ensurePVCFromSnapshot f rdSpec snapshotRef first.2 in
  answers f VGet KPVC pvcName → answers f VCreate KPVC pvcName →
  pvcs (cluster (state w)) !! pvcName = Some pvc →
  name (pvcMeta pvc) = pvcName → created (pvcMeta pvc) = true →
  objectRefMatches (pvcDataSource pvc) (Some snapshotRef) = false →
  first.1 = Err (ENeedsRecreate pvcName)
  ∧ (pvcs (cluster (state first.2)) !! pvcName = None
     ∨ pvcs (cluster (state first.2)) !! pvcName = Some pvc)
  ∧ (answers f VDelete KPVC pvcName →
     pvcs (cluster (state first.2)) !! pvcName = None
     ∧ ∃ pvc',
         second.1 = Ok pvc'
         ∧ pvcs (cluster (state second.2)) !! pvcName = Some pvc'
         ∧ pvcDataSource pvc' = Some snapshotRef).
Proof.
  intros pvcName first second HG HC Hp Hn Hc Hm.
  destruct (ensurePVC_mismatch f rdSpec snapshotRef w pvc HG Hp Hn Hc Hm)
    as [Hr Hst].
  fold first in Hr, Hst. split; [exact Hr|]. split.
  { destruct Hst as [Hgone | [Hs _]]; [auto | right; now rewrite Hs]. }
  intros HD.
  assert (Hgone : pvcs (cluster (state first.2)) !! pvcName = None).
  { destruct Hst as [Hgone | [_ [t Ht]]]; [exact Hgone|].
    rewrite HD in Ht. discriminate. }
  split; [exact Hgone|].
  destruct (ensurePVC_absent f rdSpec snapshotRef first.2 HG HC Hgone)
    as (pvc' & H1 & H2 & H3 & _).
  eauto.
Qed.

(** C6, as amended.  The descriptor's resource requests are applied when
    the claim is created and when it is found unbound with the wanted data
    source.  When the claim is found bound (with the wanted data source)
    the mutation returns before it reaches the resources and the claim is
    left as it is; when it is found with another data source it is not
    patched either: it is deleted, or left as it is. *)
Theorem resources_applied_unless_bound (f : Faults)
  (rdSpec : VolSyncReplicationDestinationSpec)
  (snapshotRef : TypedLocalObjectReference) (w : World) :
  let pvcName := Name (rdProtectedPVC rdSpec) in
  let run := ensurePVCFromSnapshot f rdSpec snapshotRef w in
  answers f VGet KPVC pvcName → answers f VCreate KPVC pvcName →
  answers f VUpdate KPVC pvcName →
  match pvcs (cluster (state w)) !! pvcName with
  | None =>
      ∃ pvc', pvcs (cluster (state run.2)) !! pvcName = Some pvc'
              ∧ pvcResources pvc' = Resources (rdProtectedPVC rdSpec)
  | Some pvc =>
      name (pvcMeta pvc) = pvcName → created (pvcMeta pvc) = true →
      if objectRefMatches (pvcDataSource pvc) (Some snapshotRef) then
        if decide (pvcPhase pvc = ClaimBound) then
          run.1 = Ok pvc ∧ state run.2 = state w
        else
          ∃ pvc', pvcs (cluster (state run.2)) !! pvcName = Some pvc'
                  ∧ pvcResources pvc' = Resources (rdProtectedPVC rdSpec)
      else
        pvcs (cluster (state run.2)) !! pvcName = None
        ∨ pvcs (cluster (state run.2)) !! pvcName = Some pvc
  end.
Proof.
  intros pvcName run HG HC HU.
  destruct (pvcs (cluster (state w)) !! pvcName) as [pvc|] eqn:Hp.
  - intros Hn Hc.
    destruct (objectRefMatches (pvcDataSource pvc) (Some snapshotRef)) eqn:Hm.
    + destruct (decide (pvcPhase pvc = ClaimBound)) as [Hb|Hb].
      * exact (ensurePVC_bound f rdSpec snapshotRef w pvc HG Hp Hc Hm Hb).
      * destruct (ensurePVC_unbound f rdSpec snapshotRef w pvc HG HU Hp Hn Hc Hm Hb)
          as (pvc' & _ & H2 & _ & H4).
        eauto.
    + destruct (ensurePVC_mismatch f rdSpec snapshotRef w pvc HG Hp Hn Hc Hm)
        as [_ [Hgone | [Hs _]]]; [now left | right].
      fold run in Hs. now rewrite Hs.
  - destruct (ensurePVC_absent f rdSpec snapshotRef w HG HC Hp)
      as (pvc' & _ & H2 & _ & H4).
    eauto.
Qed.

(** ** Laws of the stored kinds *)

Lemma setOwnerReferences_id m : setOwnerReferences (ownerReferences m) m = m.
Proof. destruct m; reflexivity. Qed.

Lemma setLabels_id m : setLabels (labels m) m = m.
Proof. destruct m; reflexivity. Qed.

(** ** Owner references *)

Section OwnerRefs.
Import ctrlutil.

Lemma referSameObject_refl r : referSameObject r r = true.
Proof. unfold referSameObject. now rewrite !String.eqb_refl. Qed.

Lemma upsertOwnerRef_cons ref o os :
  upsertOwnerRef ref (o :: os) =
    if referSameObject o ref then ref :: os else o :: upsertOwnerRef ref os.
Proof.
  unfold upsertOwnerRef. cbn.
  destruct (referSameObject o ref); [reflexivity|].
  destruct (indexOwnerRef os ref); reflexivity.
Qed.

Lemma upsertOwnerRef_nil ref : upsertOwnerRef ref [] = [ref].
Proof. reflexivity. Qed.

Lemma indexOwnerRef_upsert ref l :
  is_Some (indexOwnerRef (upsertOwnerRef ref l) ref).
Proof.
  induction l as [|o os IH].
  - cbn. rewrite referSameObject_refl. eauto.
  - rewrite upsertOwnerRef_cons. destruct (referSameObject o ref) eqn:E.
    + cbn. rewrite referSameObject_refl. eauto.
    + cbn. rewrite E. destruct IH as [i ->]. cbn. eauto.
Qed.

Lemma upsertOwnerRef_idem ref l :
  upsertOwnerRef ref (upsertOwnerRef ref l) = upsertOwnerRef ref l.
Proof.
  induction l as [|o os IH].
  - cbn. unfold upsertOwnerRef. cbn. now rewrite referSameObject_refl.
  - rewrite upsertOwnerRef_cons. destruct (referSameObject o ref) eqn:E.
    + rewrite upsertOwnerRef_cons. now rewrite referSameObject_refl.
    + rewrite upsertOwnerRef_cons, E. now rewrite IH.
Qed.

(** Writing an owner reference that is listed with the same content
    changes nothing. *)
Lemma upsertOwnerRef_present ref l :
  ref ∈ l →
  (∀ o, o ∈ l → referSameObject o ref = true → o = ref) →
  upsertOwnerRef ref l = l.
Proof.
  induction l as [|o os IH]; intros Hin Huniq.
  - inversion Hin.
  - rewrite upsertOwnerRef_cons. destruct (referSameObject o ref) eqn:E.
    + rewrite (Huniq o) by (auto; left). reflexivity.
    + f_equal. apply IH.
      * inversion Hin; subst; [|assumption].
        rewrite referSameObject_refl in E. discriminate.
      * intros o' Ho'. apply Huniq. now right.
Qed.

Lemma controllerOf_cons o os :
  controllerOf (o :: os) = if orController o then Some o else controllerOf os.
Proof.
  unfold controllerOf. rewrite filter_cons.
  destruct (orController o) eqn:E.
  - rewrite decide_True by reflexivity. reflexivity.
  - rewrite decide_False by discriminate. reflexivity.
Qed.

(** After a controller reference was set, it is the controller. *)
Lemma controllerOf_upsert ref l :
  orController ref = true →
  match controllerOf l with
  | Some e => referSameObject e ref = true
  | None => True
  end →
  controllerOf (upsertOwnerRef ref l) = Some ref.
Proof.
  intros Hc. induction l as [|o os IH]; intros Hold.
  - cbn. unfold controllerOf. cbn. rewrite decide_True by assumption.
    reflexivity.
  - rewrite upsertOwnerRef_cons. rewrite controllerOf_cons in Hold.
    destruct (referSameObject o ref) eqn:E.
    + rewrite controllerOf_cons, Hc. reflexivity.
    + rewrite controllerOf_cons.
      destruct (orController o); [congruence|]. apply IH, Hold.
Qed.
End OwnerRefs.

Section ControllerRefs.
Context {T : Type} `{StoredLaws T}.
Import ctrlutil.

(** What [SetControllerReference] returns on success, in one piece. *)
Lemma SetControllerReference_ok k n (o o' : T) :
  SetControllerReference k n o = Ok o' →
  let ref := {| orKind := k; orName := n; orController := true;
                orBlockOwnerDeletion := true |} in
  o' = withMeta (setOwnerReferences
                   (upsertOwnerRef ref (ownerReferences (metaOf o)))
                   (metaOf o)) o
  ∧ controllerOf (ownerReferences (metaOf o')) = Some ref.
Proof.
  unfold SetControllerReference, GetControllerOf. intros E. cbv zeta.
  set (ref := {| orKind := k; orName := n; orController := true;
                 orBlockOwnerDeletion := true |}) in *.
  fold (controllerOf (ownerReferences (metaOf o))) in E.
  assert (Hold : match controllerOf (ownerReferences (metaOf o)) with
                 | Some e => referSameObject e ref = true
                 | None => True
                 end).
  { destruct (controllerOf (ownerReferences (metaOf o))) as [e|]; [|exact I].
    destruct (referSameObject e ref); [reflexivity|].
    discriminate. }
  assert (Ho' : o' = withMeta (setOwnerReferences
                   (upsertOwnerRef ref (ownerReferences (metaOf o)))
                   (metaOf o)) o).
  { destruct (controllerOf (ownerReferences (metaOf o))) as [e|].
    - destruct (referSameObject e ref); [|discriminate].
      now injection E as <-.
    - now injection E as <-. }
  split; [exact Ho'|]. rewrite Ho', metaOf_withMeta. cbn.
  now apply controllerOf_upsert.
Qed.

(** Setting the controller reference again changes nothing. *)
Lemma SetControllerReference_idem k n (o o' : T) :
  SetControllerReference k n o = Ok o' →
  SetControllerReference k n o' = Ok o'.
Proof.
  intros E. destruct (SetControllerReference_ok k n o o' E) as [Ho' Hc].
  unfold SetControllerReference, GetControllerOf.
  fold (controllerOf (ownerReferences (metaOf o'))). rewrite Hc.
  rewrite referSameObject_refl. cbn. f_equal.
  rewrite Ho' at 1 2 3. rewrite metaOf_withMeta. cbn.
  rewrite upsertOwnerRef_idem. rewrite Ho'. rewrite withMeta_withMeta.
  reflexivity.
Qed.

Lemma SetControllerReference_name k n (o o' : T) :
  SetControllerReference k n o = Ok o' → nameOf o' = nameOf o.
Proof.
  intros E. destruct (SetControllerReference_ok k n o o' E) as [-> _].
  unfold nameOf. now rewrite metaOf_withMeta.
Qed.

Lemma SetOwnerReference_idem k n (o : T) :
  SetOwnerReference k n (SetOwnerReference k n o) = SetOwnerReference k n o.
Proof.
  unfold SetOwnerReference. rewrite metaOf_withMeta. cbn.
  rewrite upsertOwnerRef_idem, withMeta_withMeta. reflexivity.
Qed.

Lemma SetOwnerReference_name k n (o : T) :
  nameOf (SetOwnerReference k n o) = nameOf o.
Proof. unfold nameOf, SetOwnerReference. now rewrite metaOf_withMeta. Qed.

Lemma stamped_name (o : T) : nameOf (stamped o) = nameOf o.
Proof. unfold nameOf, stamped. now rewrite metaOf_withMeta. Qed.
End ControllerRefs.

(** ** Ownership by label, and the deletion of the opposite role *)

Section DeleteFacts.
Context {T : Type} `{StoredLaws T}.
Variable f : Faults.

Lemma deleteNamed_inv (items : list T) n w w1 :
  (deleteNamed f items n w).2 = w1 →
  (state w1 = state w
   ∧ (Forall (fun o => nameOf o ≠ n) items
      ∨ table (cluster (state w)) !! n = None
      ∨ ∃ t, f t VDelete kindOf n = true))
  ∨ (is_Some (table (cluster (state w)) !! n)
     ∧ Exists (fun o => nameOf o = n) items
     ∧ state w1 =
         written (withTable (delete n (table (cluster (state w))))
                    (cluster (state w))) (state w)).
Proof.
  revert w w1. induction items as [|o rest IH]; intros w w1 E.
  - cbn in E. subst. left. split; [reflexivity|]. left. constructor.
  - cbn [deleteNamed] in E.
    destruct (String.eqb_spec (nameOf o) n) as [Hn|Hn].
    + unfold bind in E.
      destruct (client.Delete f (nameOf o) w) as [d w0] eqn:ED.
      apply Delete_inv in ED. rewrite Hn in ED. cbn in E.
      apply IH in E.
      destruct (f (ticks w) VDelete kindOf n) eqn:Hf.
      { destruct ED as [_ Hs0]. rewrite Hs0 in E.
        destruct E as [[Hs _] | (Hsome & Hex & Hs)]; [left | right; auto].
        split; [exact Hs|]. right; right. eauto. }
      destruct (table (cluster (state w)) !! n) eqn:Ht.
      * destruct ED as [_ Hs0]. right. split; [eauto|]. split; [now left|].
        destruct E as [[Hs _] | (Hsome & _ & Hs)]; [congruence|].
        rewrite Hs0 in Hsome. cbn in Hsome.
        rewrite table_withTable, lookup_delete_eq in Hsome.
        destruct Hsome; discriminate.
      * destruct ED as [_ Hs0]. rewrite Hs0 in E.
        destruct E as [[Hs _] | (Hsome & _ & Hs)].
        -- left. split; [exact Hs|]. right; left. reflexivity.
        -- rewrite Ht in Hsome. destruct Hsome; discriminate.
    + apply IH in E.
      destruct E as [[Hs Hwhy] | (Hsome & Hex & Hs)]; [left | right; auto].
      split; [exact Hs|]. destruct Hwhy as [Hall | Hwhy]; [left | right; exact Hwhy].
      constructor; assumption.
Qed.

(** What the owner's list contains. *)
Lemma listed_iff (c : Cluster) (o : string) (x : T) :
  x ∈ filter (fun x : T => ({[VRGOwnerLabel := o]} : gmap string string)
                           ⊆ labels (metaOf x))
        (snd <$> map_to_list (table c))
  ↔ ownedBy o (metaOf x) ∧ ∃ k, table c !! k = Some x.
Proof.
  rewrite list_elem_of_filter, list_elem_of_fmap.
  unfold ownedBy. rewrite map_singleton_subseteq_l.
  split.
  - intros [Hl ([k y] & -> & Hin)]. split; [exact Hl|].
    exists k. now apply elem_of_map_to_list.
  - intros [Hl [k Hk]]. split; [exact Hl|].
    exists (k, x). split; [reflexivity|]. now apply elem_of_map_to_list.
Qed.

Lemma none_listed (c : Cluster) (o n : string) :
  keyed (T := T) c →
  Forall (fun x : T => nameOf x ≠ n)
    (filter (fun x : T => ({[VRGOwnerLabel := o]} : gmap string string)
                          ⊆ labels (metaOf x))
       (snd <$> map_to_list (table c)))
  ↔ ¬ present T c o n.
Proof.
  intros Hk. rewrite Forall_forall. split.
  - intros Hall (x & Hx & Ho). apply (Hall x); [|exact (Hk _ _ Hx)].
    apply listed_iff. eauto.
  - intros Hno x Hin Hn. apply listed_iff in Hin as [Ho [k Hx]].
    apply Hno. exists x. split; [|exact Ho].
    rewrite <- Hn. now rewrite (Hk _ _ Hx).
Qed.

(** The list-and-delete of [DeleteRS] and [DeleteRD]. *)
Lemma deleteOwned_inv (v : VSHandler) n w r w1
  (run : M (option error)) :
  run =
    (try items <- listByOwner (T := T) f v catch err => Some err;
     do _ <- deleteNamed f items n;
     ret None) →
  run w = (r, w1) →
  keyed (T := T) (cluster (state w)) →
  ((∃ e, r = Some e) ∧ state w1 = state w
   ∧ ∃ t, f t VList kindOf "" = true)
  ∨ (r = None
     ∧ ((state w1 = state w
         ∧ (¬ present T (cluster (state w)) (ownerName (owner v)) n
            ∨ ∃ t, f t VDelete kindOf n = true))
        ∨ (present T (cluster (state w)) (ownerName (owner v)) n
           ∧ state w1 =
               written (withTable (delete n (table (cluster (state w))))
                          (cluster (state w))) (state w)))).
Proof.
  intros -> E Hk. unfold listByOwner, bind, ret in E.
  destruct (client.List f _ w) as [l w0] eqn:EL.
  apply List_inv in EL as [Hs0 ->].
  destruct (f (ticks w) VList kindOf "") eqn:Hf; cbn in E.
  { injection E as <- <-. left. split; [eauto|]. split; [exact Hs0|]. eauto. }
  match type of E with
  | (_, (deleteNamed f ?items n w0).2) = _ =>
      pose proof (deleteNamed_inv items n w0 _ eq_refl) as Hd
  end.
  injection E as <- <-. right. split; [reflexivity|].
  rewrite Hs0 in Hd.
  destruct Hd as [[Hs Hwhy] | (_ & Hex & Hd)]; [left | right].
  2:{ split; [|exact Hd]. apply Exists_exists in Hex as (x & Hin & Hn).
      apply (listed_iff (cluster (state w)) (ownerName (owner v)) x) in Hin
        as [Ho [k Hx]].
      exists x. split; [|exact Ho]. rewrite <- Hn. now rewrite (Hk _ _ Hx). }
  split; [exact Hs|].
  destruct Hwhy as [Hall | [Hnone | Hr]].
  - left. now apply none_listed.
  - left. intros (x & Hx & _). congruence.
  - right. exact Hr.
Qed.
End DeleteFacts.

Lemma DeleteRS_inv f v n w r w1 :
  DeleteRS f v n w = (r, w1) →
  keyed (T := ReplicationSource) (cluster (state w)) →
  ((∃ e, r = Some e) ∧ state w1 = state w ∧ ∃ t, f t VList KRS "" = true)
  ∨ (r = None
     ∧ ((state w1 = state w
         ∧ (¬ present ReplicationSource (cluster (state w)) (ownerName (owner v)) n
            ∨ ∃ t, f t VDelete KRS n = true))
        ∨ (present ReplicationSource (cluster (state w)) (ownerName (owner v)) n
           ∧ state w1 =
               written (withTable (T := ReplicationSource)
                          (delete n (rss (cluster (state w))))
                          (cluster (state w))) (state w)))).
Proof.
  intros E Hk.
  exact (deleteOwned_inv (T := ReplicationSource) f v n w r w1 _ eq_refl E Hk).
Qed.

Lemma DeleteRD_inv f v n w r w1 :
  DeleteRD f v n w = (r, w1) →
  keyed (T := ReplicationDestination) (cluster (state w)) →
  ((∃ e, r = Some e) ∧ state w1 = state w ∧ ∃ t, f t VList KRD "" = true)
  ∨ (r = None
     ∧ ((state w1 = state w
         ∧ (¬ present ReplicationDestination (cluster (state w))
                (ownerName (owner v)) n
            ∨ ∃ t, f t VDelete KRD n = true))
        ∨ (present ReplicationDestination (cluster (state w))
               (ownerName (owner v)) n
           ∧ state w1 =
               written (withTable (T := ReplicationDestination)
                          (delete n (rds (cluster (state w))))
                          (cluster (state w))) (state w)))).
Proof.
  intros E Hk.
  exact (deleteOwned_inv (T := ReplicationDestination) f v n w r w1 _ eq_refl E Hk).
Qed.

(** From here on the handler's functions are unfolded by name only. *)
Arguments client.Get : simpl never.
Arguments client.Create : simpl never.
Arguments client.Update : simpl never.
Arguments client.Delete : simpl never.
Arguments client.List : simpl never.
Arguments ctrlutil.CreateOrUpdate : simpl never.
Arguments ctrlutil.SetOwnerReference : simpl never.
Arguments ctrlutil.SetControllerReference : simpl never.
Arguments stamped : simpl never.
Arguments addOwnerReferenceAndUpdate : simpl never.
Arguments addLabelAndVRGOwnerRefAndUpdate : simpl never.
Arguments validateSecretAndAddVRGOwnerRef : simpl never.
Arguments deleteNamed : simpl never.
Arguments DeleteRS : simpl never.
Arguments DeleteRD : simpl never.
Arguments GetVolumeSnapshotClasses : simpl never.
Arguments GetVolumeSnapshotClassFromPVCStorageClass : simpl never.
Arguments createOrUpdateRD : simpl never.
Arguments createOrUpdateRS : simpl never.
Arguments reconcileServiceExportForRD : simpl never.
Arguments validatePVCBeforeFinalSync : simpl never.
Arguments pvcExistsAndInUse : simpl never.
Arguments isPvcInUse : simpl never.
Arguments deletePVC : simpl never.
Arguments cleanupAfterRSFinalSync : simpl never.
Arguments mutateRD : simpl never.
Arguments mutateRS : simpl never.
Arguments mutatePVC : simpl never.
Arguments mutateServiceExport : simpl never.
Arguments addVRGOwnerLabel : simpl never.

(** ** The transport secret *)

Lemma validateSecret_inv f v sn w r w1 :
  validateSecretAndAddVRGOwnerRef f v sn w = (r, w1) →
  keyed (T := Secret) (cluster (state w)) →
  ((∃ e, r.2 = Some e) ∧ state w1 = state w
   ∧ ∃ t V, f t V KSecret sn = true)
  ∨ (r = (false, None) ∧ state w1 = state w
     ∧ secrets (cluster (state w)) !! sn = None)
  ∨ (r = (true, None) ∧ state w1 = state w
     ∧ secretSettled v sn (cluster (state w)))
  ∨ (r = (true, None)
     ∧ ∃ sec sec',
         secrets (cluster (state w)) !! sn = Some sec
         ∧ ¬ hasOwnerRef (ownerKind (owner v)) (ownerName (owner v)) (secretMeta sec)
         ∧ name (secretMeta sec') = sn
         ∧ hasOwnerRef (ownerKind (owner v)) (ownerName (owner v)) (secretMeta sec')
         ∧ state w1 =
             written (withTable (T := Secret)
                        (<[sn := sec']> (secrets (cluster (state w))))
                        (cluster (state w))) (state w)).
Proof.
  intros E Hk. unfold validateSecretAndAddVRGOwnerRef, bind, ret in E.
  destruct (client.Get f sn w) as [g w0] eqn:EG.
  apply Get_inv in EG as [Hs0 ->]. cbn in E.
  destruct (f (ticks w) VGet KSecret sn) eqn:Hf; cbn in E.
  { injection E as <- <-. left. cbn. split; [eauto|]. split; [exact Hs0|]. eauto. }
  destruct (secrets (cluster (state w)) !! sn) as [sec|] eqn:Hsec; cbn in E.
  2:{ injection E as <- <-. right; left. auto. }
  assert (Hn : nameOf sec = sn) by exact (Hk _ _ Hsec).
  destruct (addOwnerReferenceAndUpdate f sec _ _ w0) as [u w2] eqn:EU.
  apply addOwnerReferenceAndUpdate_inv in EU. cbn zeta in EU.
  rewrite SetOwnerReference_name, Hn, Hs0 in EU. cbn in EU, E.
  destruct (ctrlutil.indexOwnerRef _ _) eqn:Hidx in EU.
  { destruct EU as [-> Hs2]. injection E as <- <-.
    right; right; left. split; [reflexivity|]. split; [congruence|].
    exists sec. split; [exact Hsec|]. unfold hasOwnerRef. cbn. rewrite Hidx. eauto. }
  destruct (f (ticks w0) VUpdate KSecret sn) eqn:Hu.
  { destruct EU as [[e ->] Hs2]. injection E as <- <-.
    left. cbn. split; [eauto|]. split; [congruence|]. eauto. }
  rewrite Hsec in EU. destruct EU as [-> Hs2]. injection E as <- <-.
  right; right; right. split; [reflexivity|].
  eexists sec, _. split; [reflexivity|].
  split; [unfold hasOwnerRef; cbn; rewrite Hidx; intros [? ?]; discriminate|].
  split; [|split; [|exact Hs2]].
  - exact Hn.
  - unfold hasOwnerRef, ctrlutil.SetOwnerReference. cbn.
    apply indexOwnerRef_upsert.
Qed.

(** ** The snapshot class of a storage class *)

Lemma GetVolumeSnapshotClasses_inv f v w r w1 :
  GetVolumeSnapshotClasses f v w = (r, w1) →
  match r with
  | Ok l =>
      classesSeen v (state w) = Some l
      ∧ (state w1 = state w ∧ volumeSnapshotClassList (state w) = Some l
         ∨ state w1 = cached l (state w)
           ∧ volumeSnapshotClassList (state w) = None)
  | Err _ =>
      state w1 = state w ∧ volumeSnapshotClassList (state w) = None
      ∧ (classesSeen v (state w) = None ∨ ∃ t, f t VList KVSClass "" = true)
  end.
Proof.
  unfold GetVolumeSnapshotClasses, bind, ret, getVolumeSnapshotClassList,
    classesSeen, refused, getCluster, setVolumeSnapshotClassList.
  cbn. destruct (volumeSnapshotClassList (state w)) as [l|] eqn:Hc.
  { intros E; injection E as <- <-. auto. }
  destruct (volumeSnapshotClassSelector v) as [sel|].
  2:{ intros E; injection E as <- <-. auto. }
  cbn. destruct (f (ticks w) VList KVSClass "") eqn:Hf; cbn.
  - intros E; injection E as <- <-. split; [reflexivity|]. split; [reflexivity|].
    eauto.
  - intros E; injection E as <- <-. split; [reflexivity|]. right. auto.
Qed.

Lemma GetVSCFromSC_inv f v sc w r w1 :
  GetVolumeSnapshotClassFromPVCStorageClass f v sc w = (r, w1) →
  (state w1 = state w
   ∨ volumeSnapshotClassList (state w) = None
     ∧ ∃ l, classesSeen v (state w) = Some l ∧ state w1 = cached l (state w))
  ∧ match r with
    | Ok vsc => snapshotClassFor v (state w) sc = Some vsc
    | Err _ =>
        snapshotClassFor v (state w) sc = None
        ∨ ∃ t V K n, f t V K n = true
    end.
Proof.
  unfold GetVolumeSnapshotClassFromPVCStorageClass, snapshotClassFor.
  destruct sc as [scName|].
  2:{ intros E; injection E as <- <-. auto. }
  destruct (String.eqb scName "").
  { intros E; injection E as <- <-. auto. }
  unfold bind, ret, refused, getCluster. cbn.
  destruct (f (ticks w) VGet KStorageClass scName) eqn:Hf; cbn.
  { intros E; injection E as <- <-. split; [auto|]. right. eauto 6. }
  destruct (storageClasses (cluster (state w)) !! scName) as [class|]; cbn.
  2:{ intros E; injection E as <- <-. auto. }
  match goal with
  | |- context [GetVolumeSnapshotClasses f v ?w0] =>
      destruct (GetVolumeSnapshotClasses f v w0) as [g w2] eqn:EG
  end.
  apply GetVolumeSnapshotClasses_inv in EG. cbn in EG.
  destruct g as [l|e]; cbn.
  - destruct EG as [Hseen Hst]. rewrite Hseen.
    assert (Hst' : state w2 = state w
               ∨ volumeSnapshotClassList (state w) = None
                 ∧ ∃ l0, Some l = Some l0 ∧ state w2 = cached l0 (state w)).
    { destruct Hst as [[H1 _] | [H1 H2]]; [left; exact H1 | right].
      split; [exact H2|]. exists l. auto. }
    clear Hst.
    destruct (String.eqb (matchVolumeSnapshotClass (Provisioner class) l) "");
      intros E; injection E as <- <-; (split; [exact Hst' | auto]).
  - destruct EG as (Hs & Hc & Hwhy). intros E; injection E as <- <-.
    split; [auto|]. destruct Hwhy as [->|[t Ht]]; [auto | right; eauto 6].
Qed.

(** Once the list is loaded, asking again changes nothing, whatever the
    server does. *)
Lemma GetVSCFromSC_loaded f v sc w :
  is_Some (volumeSnapshotClassList (state w)) →
  state (GetVolumeSnapshotClassFromPVCStorageClass f v sc w).2 = state w.
Proof.
  intros [l Hl].
  destruct (GetVolumeSnapshotClassFromPVCStorageClass f v sc w) as [r w1] eqn:E.
  apply GetVSCFromSC_inv in E as [[Hs | [Hnone _]] _]; [exact Hs | congruence].
Qed.

(** ** The mutation closures reach a fixed point at once *)

Lemma addVRGOwnerLabel_owned {T} `{StoredLaws T} (o : Owner) (x : T) :
  ownedBy (ownerName o) (metaOf (addVRGOwnerLabel o x)).
Proof.
  unfold addVRGOwnerLabel, ownedBy. rewrite metaOf_withMeta. cbn.
  apply lookup_insert_eq.
Qed.

Section MetaFix.
Import ctrlutil.
Variable v : VSHandler.

Lemma settledMeta_idem m : settledMeta v (settledMeta v m) = settledMeta v m.
Proof.
  unfold settledMeta. destruct m as [n l a o c]. cbn.
  rewrite upsertOwnerRef_idem, insert_insert_eq. reflexivity.
Qed.

Lemma settledMeta_created m :
  settledMeta v (setCreated m) = setCreated (settledMeta v m).
Proof. reflexivity. Qed.

Lemma settledMeta_name m : name (settledMeta v m) = name m.
Proof. reflexivity. Qed.

Lemma settledMeta_owned m : ownedBy (ownerName (owner v)) (settledMeta v m).
Proof. unfold ownedBy, settledMeta. cbn. apply lookup_insert_eq. Qed.

Lemma controllable_settled m : controllable v m → controllable v (settledMeta v m).
Proof.
  intros Hc. unfold controllable, settledMeta. cbn.
  rewrite controllerOf_upsert by (auto; exact Hc).
  apply referSameObject_refl.
Qed.

Lemma controllable_created m : controllable v (setCreated m) ↔ controllable v m.
Proof. reflexivity. Qed.

Lemma SetControllerReference_spec {T} `{StoredLaws T} (o : T) :
  SetControllerReference (ownerKind (owner v)) (ownerName (owner v)) o =
    match controllerOf (ownerReferences (metaOf o)) with
    | Some e =>
        if referSameObject e (controllerRef v) then
          Ok (withMeta (setOwnerReferences
                          (upsertOwnerRef (controllerRef v) (ownerReferences (metaOf o)))
                          (metaOf o)) o)
        else Err (EAlreadyOwned (nameOf o))
    | None =>
        Ok (withMeta (setOwnerReferences
                        (upsertOwnerRef (controllerRef v) (ownerReferences (metaOf o)))
                        (metaOf o)) o)
    end.
Proof.
  unfold SetControllerReference, GetControllerOf.
  fold (controllerOf (ownerReferences (metaOf o))).
  destruct (controllerOf (ownerReferences (metaOf o))) as [e|]; [|reflexivity].
  fold (controllerRef v). destruct (referSameObject e (controllerRef v)); reflexivity.
Qed.

(** Set the controller reference, then the owner label. *)
Lemma settle_spec {T} `{StoredLaws T} (o : T) :
  match SetControllerReference (ownerKind (owner v)) (ownerName (owner v)) o with
  | Ok o' =>
      controllable v (metaOf o)
      ∧ metaOf (addVRGOwnerLabel (owner v) o') = settledMeta v (metaOf o)
      ∧ addVRGOwnerLabel (owner v) o' = withMeta (settledMeta v (metaOf o)) o
  | Err e => ¬ controllable v (metaOf o)
  end.
Proof.
  rewrite SetControllerReference_spec. unfold controllable.
  destruct (controllerOf (ownerReferences (metaOf o))) as [e|].
  - destruct (referSameObject e (controllerRef v)); [|discriminate].
    split; [reflexivity|]. unfold addVRGOwnerLabel.
    rewrite !metaOf_withMeta, withMeta_withMeta. auto.
  - split; [exact I|]. unfold addVRGOwnerLabel.
    rewrite !metaOf_withMeta, withMeta_withMeta. auto.
Qed.
End MetaFix.

Section Settling.
Context {T : Type} `{StoredLaws T} `{EqDecision T}.
Variable f : Faults.
Variable mutate : T → unit → unit * res T.
Hypothesis Hsettling : settling mutate.

(** A create-or-update with a settling mutation either fails and writes
    nothing, or leaves under the object's name an object the mutation
    no longer changes. *)
Lemma CreateOrUpdate_settles (obj : T) w r w1 :
  ctrlutil.CreateOrUpdate f obj mutate tt w = (r, w1) →
  keyed (T := T) (cluster (state w)) →
  match r.2 with
  | Err e =>
      state w1 = state w
      ∧ ((∃ t V, f t V kindOf (nameOf obj) = true)
         ∨ ∃ base,
             (mutate base tt).2 = Err e
             ∧ (table (cluster (state w)) !! nameOf obj = Some base
                ∨ table (cluster (state w)) !! nameOf obj = None ∧ base = obj))
  | Ok (_, y) =>
      nameOf y = nameOf obj
      ∧ (mutate y tt).2 = Ok y
      ∧ table (cluster (state w1)) !! nameOf obj = Some y
      ∧ ((state w1 = state w
          ∨ state w1 =
              written (withTable (<[nameOf obj := y]> (table (cluster (state w))))
                         (cluster (state w))) (state w))
         ∧ ∃ base y',
             (mutate base tt).2 = Ok y'
             ∧ (table (cluster (state w)) !! nameOf obj = Some base ∧ y = y'
                ∨ table (cluster (state w)) !! nameOf obj = None
                  ∧ base = obj ∧ y = stamped y'))
  end.
Proof.
  intros E Hk. apply CreateOrUpdate_inv in E.
  destruct E as [(-> & Hs & t & Ht) | [(Hnone & E) | (existing & Hex & E)]].
  - cbn. split; [exact Hs|]. left. eauto.
  - destruct (mutate obj tt) as [[] [y|e]] eqn:Hm.
    2:{ destruct E as [-> Hs]. cbn. split; [exact Hs|]. right.
        exists obj. rewrite Hm. auto. }
    assert (Hm' : (mutate obj tt).2 = Ok y) by now rewrite Hm.
    pose proof (settling_name _ Hsettling _ _ Hm') as Hn.
    rewrite Hn in E.
    destruct E as [(e & -> & Hs & Hwhy) | (_ & -> & Hs)]; cbn.
    + split; [exact Hs|]. left.
      destruct Hwhy as [[t Ht] | Hsome]; [eauto|].
      rewrite Hnone in Hsome. destruct Hsome; discriminate.
    + rewrite stamped_name. split; [exact Hn|].
      split; [exact (settling_stamped _ Hsettling _ _ Hm')|].
      rewrite Hs. cbn. rewrite table_withTable, lookup_insert_eq.
      split; [reflexivity|]. split; [auto|].
      exists obj, y. auto.
  - assert (Hne : nameOf existing = nameOf obj) by exact (Hk _ _ Hex).
    destruct (mutate existing tt) as [[] [y|e]] eqn:Hm.
    2:{ destruct E as [-> Hs]. cbn. split; [exact Hs|]. right.
        exists existing. rewrite Hm. auto. }
    assert (Hm' : (mutate existing tt).2 = Ok y) by now rewrite Hm.
    pose proof (settling_name _ Hsettling _ _ Hm') as Hn.
    rewrite Hn, Hne in E.
    destruct (decide (existing = y)) as [<-|Hneq].
    + destruct E as [-> Hs]. cbn. split; [exact Hne|].
      split; [exact Hm'|]. rewrite Hs. split; [exact Hex|].
      split; [auto|]. exists existing, existing. auto.
    + destruct E as [(e & -> & Hs & Hwhy) | (_ & -> & Hs)]; cbn.
      * split; [exact Hs|]. left.
        destruct Hwhy as [[t Ht] | Hnone]; [eauto | congruence].
      * split; [congruence|].
        split; [exact (settling_fix _ Hsettling _ _ Hm')|].
        rewrite Hs. cbn. rewrite table_withTable, lookup_insert_eq.
        split; [reflexivity|]. split; [auto|].
        exists existing, y. auto.
Qed.

(** Once settled, a further create-or-update writes nothing. *)
Lemma CreateOrUpdate_settled (obj y : T) w :
  table (cluster (state w)) !! nameOf obj = Some y →
  (mutate y tt).2 = Ok y →
  state (ctrlutil.CreateOrUpdate f obj mutate tt w).2 = state w
  ∧ ((ctrlutil.CreateOrUpdate f obj mutate tt w).1.2
       = Ok (ctrlutil.OperationResultNone, y)
     ∨ ∃ e, (ctrlutil.CreateOrUpdate f obj mutate tt w).1.2 = Err e).
Proof.
  intros Hy Hm.
  destruct (ctrlutil.CreateOrUpdate f obj mutate tt w) as [r w1] eqn:E.
  apply CreateOrUpdate_inv in E.
  destruct E as [(-> & Hs & _) | [(Hnone & _) | (existing & Hex & E)]]; cbn.
  - eauto.
  - congruence.
  - rewrite Hy in Hex. injection Hex as <-.
    destruct (mutate y tt) as [[] [y'|e]]; cbn in Hm; [|discriminate].
    injection Hm as ->. rewrite decide_True in E by reflexivity.
    destruct E as [-> Hs]. cbn. auto.
Qed.
End Settling.

(** The closures of the handler are settling. *)

Section MutateFix.
Variable DefaultScheduleCronSpec DefaultRsyncServiceType : string.
Variable v : VSHandler.

Lemma mutateRD_spec rdSpec sn vsc rd :
  (mutateRD DefaultRsyncServiceType v rdSpec sn vsc rd tt).2 =
    match ctrlutil.SetControllerReference (ownerKind (owner v))
            (ownerName (owner v)) rd with
    | Err e => Err e
    | Ok _ => Ok (desiredRD DefaultRsyncServiceType v rdSpec sn vsc rd)
    end.
Proof.
  unfold mutateRD. pose proof (settle_spec v rd) as Hs.
  destruct (ctrlutil.SetControllerReference _ _ rd) as [rd1|e]; [|reflexivity].
  destruct Hs as (_ & _ & ->). reflexivity.
Qed.

Lemma mutateRD_ok rdSpec sn vsc rd rd' :
  (mutateRD DefaultRsyncServiceType v rdSpec sn vsc rd tt).2 = Ok rd' →
  rd' = desiredRD DefaultRsyncServiceType v rdSpec sn vsc rd ∧ controllable v (rdMeta rd).
Proof.
  rewrite mutateRD_spec. pose proof (settle_spec v rd) as Hs.
  destruct (ctrlutil.SetControllerReference _ _ rd); [|discriminate].
  intros [= <-]. split; [reflexivity|]. apply Hs.
Qed.

Lemma mutateRD_controllable rdSpec sn vsc rd :
  controllable v (rdMeta rd) →
  (mutateRD DefaultRsyncServiceType v rdSpec sn vsc rd tt).2
  = Ok (desiredRD DefaultRsyncServiceType v rdSpec sn vsc rd).
Proof.
  rewrite mutateRD_spec. pose proof (settle_spec v rd) as Hs.
  destruct (ctrlutil.SetControllerReference _ _ rd); [reflexivity|].
  intros Hc. contradiction.
Qed.

Lemma mutateRD_settling rdSpec sn vsc :
  settling (mutateRD DefaultRsyncServiceType v rdSpec sn vsc).
Proof.
  split; intros x y Hm; apply mutateRD_ok in Hm as [-> Hc].
  - reflexivity.
  - rewrite mutateRD_controllable by (now apply controllable_settled).
    f_equal. unfold desiredRD. cbn. now rewrite settledMeta_idem.
  - rewrite mutateRD_controllable by (now apply controllable_settled).
    f_equal. unfold desiredRD, stamped. cbn. f_equal.
    rewrite settledMeta_created, settledMeta_idem. reflexivity.
Qed.

Lemma mutateRS_spec rsSpec sn vsc addr runFinalSync rs :
  (mutateRS DefaultScheduleCronSpec v rsSpec sn vsc addr runFinalSync rs tt).2 =
    match ctrlutil.SetControllerReference (ownerKind (owner v))
            (ownerName (owner v)) rs with
    | Err e => Err e
    | Ok _ =>
        match triggerFor DefaultScheduleCronSpec v runFinalSync with
        | Err e => Err e
        | Ok trigger => Ok (desiredRS v rsSpec sn vsc addr trigger rs)
        end
    end.
Proof.
  unfold mutateRS, triggerFor. pose proof (settle_spec v rs) as Hs.
  destruct (ctrlutil.SetControllerReference _ _ rs) as [rs1|e]; [|reflexivity].
  destruct Hs as (_ & _ & ->).
  destruct runFinalSync; [reflexivity|].
  destruct (getScheduleCronSpec _ _); reflexivity.
Qed.

Lemma mutateRS_ok rsSpec sn vsc addr runFinalSync rs rs' :
  (mutateRS DefaultScheduleCronSpec v rsSpec sn vsc addr runFinalSync rs tt).2
  = Ok rs' →
  ∃ trigger,
    triggerFor DefaultScheduleCronSpec v runFinalSync = Ok trigger
    ∧ rs' = desiredRS v rsSpec sn vsc addr trigger rs
    ∧ controllable v (rsMeta rs).
Proof.
  rewrite mutateRS_spec. pose proof (settle_spec v rs) as Hs.
  destruct (ctrlutil.SetControllerReference _ _ rs); [|discriminate].
  destruct (triggerFor DefaultScheduleCronSpec v runFinalSync) as [trigger|]; [|discriminate].
  intros [= <-]. exists trigger. split; [reflexivity|].
  split; [reflexivity|]. apply Hs.
Qed.

Lemma mutateRS_controllable rsSpec sn vsc addr runFinalSync rs trigger :
  controllable v (rsMeta rs) → triggerFor DefaultScheduleCronSpec v runFinalSync = Ok trigger →
  (mutateRS DefaultScheduleCronSpec v rsSpec sn vsc addr runFinalSync rs tt).2
  = Ok (desiredRS v rsSpec sn vsc addr trigger rs).
Proof.
  rewrite mutateRS_spec. pose proof (settle_spec v rs) as Hs.
  destruct (ctrlutil.SetControllerReference _ _ rs).
  - intros _ ->. reflexivity.
  - intros Hc. contradiction.
Qed.

Lemma mutateRS_settling rsSpec sn vsc addr runFinalSync :
  settling (mutateRS DefaultScheduleCronSpec v rsSpec sn vsc addr runFinalSync).
Proof.
  split; intros x y Hm; apply mutateRS_ok in Hm as (trigger & Ht & -> & Hc).
  - reflexivity.
  - rewrite (mutateRS_controllable _ _ _ _ _ _ trigger)
      by (auto; now apply controllable_settled).
    f_equal. unfold desiredRS. cbn. now rewrite settledMeta_idem.
  - rewrite (mutateRS_controllable _ _ _ _ _ _ trigger)
      by (auto; now apply controllable_settled).
    f_equal. unfold desiredRS, stamped. cbn. f_equal.
    rewrite settledMeta_created, settledMeta_idem. reflexivity.
Qed.

Lemma mutateServiceExport_settling rd : settling (mutateServiceExport rd).
Proof.
  split; intros x y; unfold mutateServiceExport; cbn; intros [= <-].
  - apply SetOwnerReference_name.
  - now rewrite SetOwnerReference_idem.
  - f_equal. unfold stamped, ctrlutil.SetOwnerReference. cbn.
    rewrite upsertOwnerRef_idem. reflexivity.
Qed.
End MutateFix.

(** ** The create-or-update of the two roles *)

Section Roles.
Variable GetVolSyncSSHSecretNameFromVRGName : string → string.
Variable DefaultScheduleCronSpec DefaultRsyncServiceType : string.
Variable f : Faults.
Variable v : VSHandler.

Lemma afterLookup_cluster s s0 : afterLookup v s s0 → cluster s0 = cluster s.
Proof. intros [-> | (_ & l & _ & ->)]; reflexivity. Qed.

Lemma afterLookup_history s s0 : afterLookup v s s0 → history s0 = history s.
Proof. intros [-> | (_ & l & _ & ->)]; reflexivity. Qed.

Lemma afterLookup_class s s0 sc :
  afterLookup v s s0 → snapshotClassFor v s0 sc = snapshotClassFor v s sc.
Proof.
  intros [-> | (Hn & l & Hl & ->)]; [reflexivity|].
  unfold snapshotClassFor, classesSeen in *. cbn. rewrite Hn in *.
  destruct sc as [n|]; [|reflexivity].
  destruct (String.eqb n ""); [reflexivity|].
  destruct (storageClasses (cluster s) !! n); [|reflexivity].
  now rewrite Hl.
Qed.

Lemma createOrUpdateRD_inv rdSpec sn w r w1 :
  createOrUpdateRD DefaultRsyncServiceType f v rdSpec sn w = (r, w1) →
  keyed (T := ReplicationDestination) (cluster (state w)) →
  let n := Name (rdProtectedPVC rdSpec) in
  let sc := StorageClassName (rdProtectedPVC rdSpec) in
  ∃ s0, afterLookup v (state w) s0
    ∧ match r with
      | Err e =>
          state w1 = s0
          ∧ (snapshotClassFor v (state w) sc = None
             ∨ (∃ t V K m, f t V K m = true)
             ∨ ∃ base, ¬ controllable v (rdMeta base)
                       ∧ rds (cluster (state w)) !! n = Some base)
      | Ok rd =>
          ∃ vsc,
            snapshotClassFor v (state w) sc = Some vsc
            ∧ name (rdMeta rd) = n
            ∧ (mutateRD DefaultRsyncServiceType v rdSpec sn vsc rd tt).2 = Ok rd
            ∧ rds (cluster (state w1)) !! n = Some rd
            ∧ (state w1 = s0
               ∨ state w1 =
                   written (withTable (T := ReplicationDestination)
                              (<[n := rd]> (rds (cluster s0))) (cluster s0)) s0)
            ∧ rdStatus rd =
                match rds (cluster (state w)) !! n with
                | Some old => rdStatus old
                | None => None
                end
      end.
Proof.
  intros E Hk n sc. unfold createOrUpdateRD, bind, ret in E.
  destruct (GetVolumeSnapshotClassFromPVCStorageClass f v _ w) as [g w0] eqn:EG.
  apply GetVSCFromSC_inv in EG as [Hlook Hg].
  exists (state w0). split; [exact Hlook|].
  pose proof (afterLookup_cluster _ _ Hlook) as Hc.
  destruct g as [vsc|e]; cbn in E.
  2:{ injection E as <- <-. split; [reflexivity|].
      destruct Hg as [Hg | Hg]; [left; exact Hg | right; left; exact Hg]. }
  destruct (ctrlutil.CreateOrUpdate f _ _ tt w0) as [[[] c] w2] eqn:EC.
  apply (CreateOrUpdate_settles f _ (mutateRD_settling _ _ _ _ _)) in EC;
    [|rewrite Hc; exact Hk].
  cbn in EC. unfold nameOf in EC. cbn in EC.
  unfold getReplicationDestinationName in EC. rewrite Hc in EC.
  fold n in EC.
  destruct c as [[op rd]|e]; cbn in E; injection E as <- <-.
  - destruct EC as (Hn & Hfix & Hstored & Hst & base & y' & Hm & Hbase).
    exists vsc. split; [exact Hg|]. split; [exact Hn|]. split; [exact Hfix|].
    split; [exact Hstored|]. split; [rewrite Hc; exact Hst|].
    apply mutateRD_ok in Hm as [-> _].
    destruct Hbase as [[-> ->] | (-> & -> & ->)]; reflexivity.
  - destruct EC as [Hs Hwhy]. split; [exact Hs|].
    destruct Hwhy as [(t & V & Ht) | (base & Hm & Hbase)].
    + right; left. eauto 6.
    + right; right. rewrite mutateRD_spec in Hm.
      pose proof (settle_spec v base) as Hset.
      destruct (ctrlutil.SetControllerReference _ _ base); [discriminate|].
      destruct Hbase as [Hb | [_ ->]]; [eauto|].
      exfalso. apply Hset. exact I.
Qed.

Lemma createOrUpdateRS_inv rsSpec sn runFinalSync w r w1 :
  createOrUpdateRS DefaultScheduleCronSpec f v rsSpec sn runFinalSync w = (r, w1) →
  keyed (T := ReplicationSource) (cluster (state w)) →
  let n := Name (rsProtectedPVC rsSpec) in
  let sc := StorageClassName (rsProtectedPVC rsSpec) in
  let addr := getRemoteServiceNameForRDFromPVCName n (ownerNamespace (owner v)) in
  ∃ s0, afterLookup v (state w) s0
    ∧ match r with
      | Err e =>
          state w1 = s0
          ∧ (snapshotClassFor v (state w) sc = None
             ∨ (∃ t V K m, f t V K m = true)
             ∨ (∃ base, ¬ controllable v (rsMeta base)
                        ∧ rss (cluster (state w)) !! n = Some base)
             ∨ triggerFor DefaultScheduleCronSpec v runFinalSync = Err e)
      | Ok rs =>
          ∃ vsc trigger,
            snapshotClassFor v (state w) sc = Some vsc
            ∧ triggerFor DefaultScheduleCronSpec v runFinalSync = Ok trigger
            ∧ name (rsMeta rs) = n
            ∧ rsTrigger rs = Some trigger
            ∧ (mutateRS DefaultScheduleCronSpec v rsSpec sn vsc addr
                 runFinalSync rs tt).2 = Ok rs
            ∧ rss (cluster (state w1)) !! n = Some rs
            ∧ (state w1 = s0
               ∨ state w1 =
                   written (withTable (T := ReplicationSource)
                              (<[n := rs]> (rss (cluster s0))) (cluster s0)) s0)
            ∧ rsStatus rs =
                match rss (cluster (state w)) !! n with
                | Some old => rsStatus old
                | None => None
                end
      end.
Proof.
  intros E Hk n sc addr. unfold createOrUpdateRS, bind, ret in E.
  destruct (GetVolumeSnapshotClassFromPVCStorageClass f v _ w) as [g w0] eqn:EG.
  apply GetVSCFromSC_inv in EG as [Hlook Hg].
  exists (state w0). split; [exact Hlook|].
  pose proof (afterLookup_cluster _ _ Hlook) as Hc.
  destruct g as [vsc|e]; cbn in E.
  2:{ injection E as <- <-. split; [reflexivity|].
      destruct Hg as [Hg | Hg]; [left; exact Hg | right; left; exact Hg]. }
  destruct (ctrlutil.CreateOrUpdate f _ _ tt w0) as [[[] c] w2] eqn:EC.
  apply (CreateOrUpdate_settles f _ (mutateRS_settling _ _ _ _ _ _ _)) in EC;
    [|rewrite Hc; exact Hk].
  cbn in EC. unfold nameOf in EC. cbn in EC.
  unfold getReplicationSourceName in EC. rewrite Hc in EC.
  fold n in EC. fold addr in EC.
  destruct c as [[op rs]|e]; cbn in E; injection E as <- <-.
  - destruct EC as (Hn & Hfix & Hstored & Hst & base & y' & Hm & Hbase).
    destruct (mutateRS_ok _ _ _ _ _ _ _ _ _ Hfix) as (trigger & Ht & Hrs & _).
    exists vsc, trigger. split; [exact Hg|]. split; [exact Ht|].
    split; [exact Hn|]. split; [now rewrite Hrs|]. split; [exact Hfix|].
    split; [exact Hstored|]. split; [rewrite Hc; exact Hst|].
    apply mutateRS_ok in Hm as (tr' & _ & -> & _).
    destruct Hbase as [[-> ->] | (-> & -> & ->)]; reflexivity.
  - destruct EC as [Hs Hwhy]. split; [exact Hs|].
    destruct Hwhy as [(t & V & Ht) | (base & Hm & Hbase)].
    + right; left. eauto 6.
    + right; right. rewrite mutateRS_spec in Hm.
      pose proof (settle_spec v base) as Hset.
      destruct (ctrlutil.SetControllerReference _ _ base).
      * right. destruct (triggerFor _ _ runFinalSync); [discriminate|].
        congruence.
      * left. destruct Hbase as [Hb | [_ ->]]; [eauto|].
        exfalso. apply Hset. exact I.
Qed.

Lemma reconcileServiceExportForRD_inv rd w r w1 :
  reconcileServiceExportForRD f rd w = (r, w1) →
  keyed (T := ServiceExport) (cluster (state w)) →
  let n := getLocalServiceNameForRD (name (rdMeta rd)) in
  match r with
  | Some e => state w1 = state w ∧ ∃ t V K m, f t V K m = true
  | None =>
      ∃ se,
        name (seMeta se) = n
        ∧ (mutateServiceExport rd se tt).2 = Ok se
        ∧ serviceExports (cluster (state w1)) !! n = Some se
        ∧ (state w1 = state w
           ∨ state w1 =
               written (withTable (T := ServiceExport)
                          (<[n := se]> (serviceExports (cluster (state w))))
                          (cluster (state w))) (state w))
  end.
Proof.
  intros E Hk n. unfold reconcileServiceExportForRD, bind, ret in E.
  destruct (ctrlutil.CreateOrUpdate f _ _ tt w) as [[[] c] w2] eqn:EC.
  apply (CreateOrUpdate_settles f _ (mutateServiceExport_settling _)) in EC;
    [|exact Hk].
  cbn in EC. unfold nameOf in EC. cbn in EC. fold n in EC.
  destruct c as [[op se]|e]; cbn in E; injection E as <- <-.
  - destruct EC as (Hn & Hfix & Hstored & Hst & _).
    exists se. auto.
  - destruct EC as [Hs Hwhy]. split; [exact Hs|].
    destruct Hwhy as [(t & V & Ht) | (base & Hm & _)]; [eauto 6|].
    discriminate.
Qed.
End Roles.

(** ** What a step leaves alone *)

Lemma keyedMap_insert {T} `{Stored T} (t : gmap string T) n o :
  keyedMap t → nameOf o = n → keyedMap (<[n := o]> t).
Proof.
  intros Hk Hn m x. rewrite lookup_insert. case_decide.
  - subst. now intros [= <-].
  - apply Hk.
Qed.

Lemma keyedMap_delete {T} `{Stored T} (t : gmap string T) n :
  keyedMap t → keyedMap (delete n t).
Proof.
  intros Hk m x. rewrite lookup_delete. case_decide; [discriminate|]. apply Hk.
Qed.

Lemma wf_keyed {T} `{WfLaws T} c : wf c → keyed (T := T) c.
Proof. intros Hw. exact (wf_table c Hw). Qed.

Lemma stepOn_refl T `{Stored T} s : stepOn T s s.
Proof. now left. Qed.

Lemma stepOn_insert T `{WfLaws T} s n (o : T) :
  wf (cluster s) → nameOf o = n →
  stepOn T s (written (withTable (<[n := o]> (table (cluster s))) (cluster s)) s).
Proof.
  intros Hw Hn. right. eexists. split; [|reflexivity].
  apply keyedMap_insert; [now apply wf_table | exact Hn].
Qed.

Lemma stepOn_delete T `{WfLaws T} s n :
  wf (cluster s) →
  stepOn T s (written (withTable (delete n (table (cluster s))) (cluster s)) s).
Proof.
  intros Hw. right. eexists. split; [|reflexivity].
  apply keyedMap_delete. now apply wf_table.
Qed.

Lemma stepOn_wf T `{WfLaws T} s s' : stepOn T s s' → wf (cluster s) → wf (cluster s').
Proof.
  intros [-> | (t & Ht & ->)] Hw; [exact Hw|]. cbn. now apply wf_withTable.
Qed.

Lemma stepOn_cache T `{Stored T} s s' :
  stepOn T s s' → volumeSnapshotClassList s' = volumeSnapshotClassList s.
Proof. intros [-> | (t & _ & ->)]; reflexivity. Qed.

(** The tables a step on another kind cannot change. *)
Ltac untouched H :=
  let H' := fresh "Hsame" in
  destruct H as [H' | (? & _ & H')]; rewrite H'; reflexivity.

Section Untouched.
Variables s s' : State.

Lemma secret_step_others :
  stepOn Secret s s' →
  pvcs (cluster s') = pvcs (cluster s) ∧ rss (cluster s') = rss (cluster s)
  ∧ rds (cluster s') = rds (cluster s)
  ∧ serviceExports (cluster s') = serviceExports (cluster s)
  ∧ pods (cluster s') = pods (cluster s)
  ∧ storageClasses (cluster s') = storageClasses (cluster s)
  ∧ volumeSnapshotClasses (cluster s') = volumeSnapshotClasses (cluster s).
Proof. intros H; repeat split; untouched H. Qed.

Lemma pvc_step_others :
  stepOn PersistentVolumeClaim s s' →
  secrets (cluster s') = secrets (cluster s) ∧ rss (cluster s') = rss (cluster s)
  ∧ rds (cluster s') = rds (cluster s)
  ∧ serviceExports (cluster s') = serviceExports (cluster s)
  ∧ pods (cluster s') = pods (cluster s)
  ∧ storageClasses (cluster s') = storageClasses (cluster s)
  ∧ volumeSnapshotClasses (cluster s') = volumeSnapshotClasses (cluster s).
Proof. intros H; repeat split; untouched H. Qed.

Lemma rs_step_others :
  stepOn ReplicationSource s s' →
  secrets (cluster s') = secrets (cluster s) ∧ pvcs (cluster s') = pvcs (cluster s)
  ∧ rds (cluster s') = rds (cluster s)
  ∧ serviceExports (cluster s') = serviceExports (cluster s)
  ∧ pods (cluster s') = pods (cluster s)
  ∧ storageClasses (cluster s') = storageClasses (cluster s)
  ∧ volumeSnapshotClasses (cluster s') = volumeSnapshotClasses (cluster s).
Proof. intros H; repeat split; untouched H. Qed.

Lemma rd_step_others :
  stepOn ReplicationDestination s s' →
  secrets (cluster s') = secrets (cluster s) ∧ pvcs (cluster s') = pvcs (cluster s)
  ∧ rss (cluster s') = rss (cluster s)
  ∧ serviceExports (cluster s') = serviceExports (cluster s)
  ∧ pods (cluster s') = pods (cluster s)
  ∧ storageClasses (cluster s') = storageClasses (cluster s)
  ∧ volumeSnapshotClasses (cluster s') = volumeSnapshotClasses (cluster s).
Proof. intros H; repeat split; untouched H. Qed.

Lemma se_step_others :
  stepOn ServiceExport s s' →
  secrets (cluster s') = secrets (cluster s) ∧ pvcs (cluster s') = pvcs (cluster s)
  ∧ rss (cluster s') = rss (cluster s) ∧ rds (cluster s') = rds (cluster s)
  ∧ pods (cluster s') = pods (cluster s)
  ∧ storageClasses (cluster s') = storageClasses (cluster s)
  ∧ volumeSnapshotClasses (cluster s') = volumeSnapshotClasses (cluster s).
Proof. intros H; repeat split; untouched H. Qed.
End Untouched.

Lemma snapshotClassFor_same v s s' sc :
  storageClasses (cluster s') = storageClasses (cluster s) →
  volumeSnapshotClasses (cluster s') = volumeSnapshotClasses (cluster s) →
  volumeSnapshotClassList s' = volumeSnapshotClassList s →
  snapshotClassFor v s' sc = snapshotClassFor v s sc.
Proof.
  intros H1 H2 H3. unfold snapshotClassFor, classesSeen. now rewrite H1, H2, H3.
Qed.

(** ** Whether the claim is mounted, and its deletion *)

Lemma isPvcInUse_inv f n w r w1 :
  isPvcInUse f n w = (r, w1) →
  state w1 = state w
  ∧ ((∃ e, r = (false, Some e)) ∧ (∃ t, f t VList KPod n = true)
     ∨ r = (true, None) ∧ (∃ p, p ∈ pods (cluster (state w)) ∧ n ∈ podClaimNames p)
     ∨ r = (false, None)
       ∧ ¬ (∃ p, p ∈ pods (cluster (state w)) ∧ n ∈ podClaimNames p)).
Proof.
  unfold isPvcInUse, bind, ret, refused, getCluster. cbn.
  destruct (f (ticks w) VList KPod n) eqn:Hf.
  { intros E; injection E as <- <-. split; [reflexivity|]. left. eauto. }
  cbn.
  destruct (filter (fun p => n ∈ podClaimNames p) (pods (cluster (state w))))
    as [|p l] eqn:Hl; cbn; intros E; injection E as <- <-;
    (split; [reflexivity|]); right.
  - right. split; [reflexivity|]. intros (p & Hp & Hn).
    assert (Hin : p ∈ filter (fun p => n ∈ podClaimNames p)
                    (pods (cluster (state w))))
      by (apply list_elem_of_filter; auto).
    rewrite Hl in Hin. inversion Hin.
  - left. split; [reflexivity|]. exists p.
    assert (Hin : p ∈ filter (fun p => n ∈ podClaimNames p)
                    (pods (cluster (state w))))
      by (rewrite Hl; left).
    apply list_elem_of_filter in Hin. tauto.
Qed.

Lemma validatePVCBeforeFinalSync_inv f rsSpec runFinalSync w r w1 :
  validatePVCBeforeFinalSync f rsSpec runFinalSync w = (r, w1) →
  let n := Name (rsProtectedPVC rsSpec) in
  state w1 = state w
  ∧ if runFinalSync then
      (∃ e, r = (false, Some e)) ∧ (∃ t V K m, f t V K m = true)
      ∨ r = (false, None) ∧ inUse (cluster (state w)) n
      ∨ r = (true, None) ∧ ¬ inUse (cluster (state w)) n
    else r = (true, None).
Proof.
  intros E n. unfold validatePVCBeforeFinalSync in E.
  destruct runFinalSync; cbn in E.
  2:{ injection E as <- <-. auto. }
  unfold pvcExistsAndInUse, getPVC, bind, ret in E. fold n in E.
  destruct (client.Get f n w) as [g w0] eqn:EG.
  apply Get_inv in EG as [Hs0 ->]. cbn in E.
  destruct (f (ticks w) VGet KPVC n) eqn:Hf; cbn in E.
  { injection E as <- <-. split; [exact Hs0|]. left. split; [eauto|]. eauto 6. }
  destruct (pvcs (cluster (state w)) !! n) as [pvc|] eqn:Hp; cbn in E.
  2:{ injection E as <- <-. split; [exact Hs0|]. right; right.
      split; [reflexivity|]. intros [[x Hx] _]. congruence. }
  destruct (isPvcInUse f n w0) as [u w2] eqn:EU.
  apply isPvcInUse_inv in EU as [Hs2 Hu].
  rewrite Hs0 in Hu, Hs2. cbn in E.
  destruct Hu as [[[e ->] Hr] | [[-> Hin] | [-> Hnot]]]; cbn in E;
    injection E as <- <-; (split; [exact Hs2|]).
  - left. split; [eauto|]. destruct Hr as [t Ht]. eauto 6.
  - right; left. split; [reflexivity|]. split; [eauto|exact Hin].
  - right; right. split; [reflexivity|]. intros [_ Hin]. auto.
Qed.

Lemma deletePVC_inv f n w r w1 :
  deletePVC f n w = (r, w1) →
  (∃ e, r = Some e) ∧ state w1 = state w ∧ (∃ t, f t VDelete KPVC n = true)
  ∨ r = None ∧ state w1 = state w ∧ pvcs (cluster (state w)) !! n = None
  ∨ r = None ∧ is_Some (pvcs (cluster (state w)) !! n)
    ∧ state w1 =
        written (withTable (T := PersistentVolumeClaim)
                   (delete n (pvcs (cluster (state w)))) (cluster (state w)))
          (state w).
Proof.
  unfold deletePVC, bind, ret.
  destruct (client.Delete f n w) as [d w0] eqn:ED. apply Delete_inv in ED.
  cbn in ED. destruct (f (ticks w) VDelete KPVC n) eqn:Hf.
  { destruct ED as [-> Hs]. cbn. intros E; injection E as <- <-.
    left. split; [eauto|]. split; [exact Hs|]. eauto. }
  destruct (pvcs (cluster (state w)) !! n) eqn:Hp.
  - destruct ED as [-> Hs]. cbn. intros E; injection E as <- <-.
    right; right. split; [reflexivity|]. split; [eauto|]. exact Hs.
  - destruct ED as [-> Hs]. cbn. intros E; injection E as <- <-.
    right; left. auto.
Qed.

(** ** The steps, as steps on one kind *)

Lemma validateSecret_step f v sn w r w1 :
  validateSecretAndAddVRGOwnerRef f v sn w = (r, w1) →
  wf (cluster (state w)) →
  stepOn Secret (state w) (state w1)
  ∧ match r with
    | (_, Some _) => ∃ t V, f t V KSecret sn = true
    | (false, None) =>
        state w1 = state w ∧ secrets (cluster (state w)) !! sn = None
    | (true, None) =>
        secretSettled v sn (cluster (state w1))
        ∧ is_Some (secrets (cluster (state w)) !! sn)
    end.
Proof.
  intros E Hw. apply validateSecret_inv in E; [|now apply wf_keyed].
  destruct E as [([e He] & Hs & Hr) | [(-> & Hs & Hnone) | [(-> & Hs & Hset)
    | (-> & sec & sec' & Hsec & _ & Hn & Href & Hs)]]].
  - rewrite Hs. split; [apply stepOn_refl|]. destruct r as [b o]. cbn in He.
    subst o. destruct b; exact Hr.
  - rewrite Hs. split; [apply stepOn_refl|]. auto.
  - rewrite Hs. split; [apply stepOn_refl|]. split; [exact Hset|].
    destruct Hset as (sec & -> & _). eauto.
  - rewrite Hs. split; [exact (stepOn_insert Secret (state w) sn sec' Hw Hn)|].
    split; [|eauto]. exists sec'. cbn. rewrite lookup_insert_eq. auto.
Qed.

Lemma deleteOwned_step {T} `{StoredLaws T} `{!WfLaws T}
  (v : VSHandler) (f : Faults) (n : string) (r : option error) (s s' : State) :
  ((∃ e, r = Some e) ∧ s' = s ∧ ∃ t, f t VList kindOf "" = true)
  ∨ (r = None
     ∧ ((s' = s
         ∧ (¬ present T (cluster s) (ownerName (owner v)) n
            ∨ ∃ t, f t VDelete kindOf n = true))
        ∨ (present T (cluster s) (ownerName (owner v)) n
           ∧ s' = written (withTable (delete n (table (cluster s))) (cluster s)) s))) →
  wf (cluster s) →
  stepOn T s s'
  ∧ (∀ o m, present T (cluster s') o m → present T (cluster s) o m)
  ∧ match r with
    | Some _ => ∃ t, f t VList kindOf "" = true
    | None =>
        ¬ present T (cluster s') (ownerName (owner v)) n
        ∨ s' = s ∧ ∃ t, f t VDelete kindOf n = true
    end.
Proof.
  intros E Hw.
  destruct E as [([e ->] & -> & Hr) | (-> & [(-> & Hwhy) | (Hsome & ->)])].
  - split; [apply stepOn_refl|]. split; [auto|]. exact Hr.
  - split; [apply stepOn_refl|]. split; [auto|].
    destruct Hwhy; [left; assumption | right; auto].
  - split; [exact (stepOn_delete T s n Hw)|]. split.
    + intros o m (x & Hx & Ho). cbn in Hx. rewrite table_withTable in Hx.
      apply lookup_delete_Some in Hx as [_ Hx]. exists x. auto.
    + left. intros (x & Hx & _). cbn in Hx.
      rewrite table_withTable, lookup_delete_eq in Hx. discriminate.
Qed.

Lemma DeleteRS_step f v n w r w1 :
  DeleteRS f v n w = (r, w1) → wf (cluster (state w)) →
  stepOn ReplicationSource (state w) (state w1)
  ∧ (∀ o m, present ReplicationSource (cluster (state w1)) o m →
            present ReplicationSource (cluster (state w)) o m)
  ∧ match r with
    | Some _ => ∃ t, f t VList KRS "" = true
    | None =>
        ¬ present ReplicationSource (cluster (state w1)) (ownerName (owner v)) n
        ∨ state w1 = state w ∧ ∃ t, f t VDelete KRS n = true
    end.
Proof.
  intros E Hw. apply DeleteRS_inv in E; [|now apply wf_keyed].
  exact (deleteOwned_step (T := ReplicationSource) v f n r _ _ E Hw).
Qed.

Lemma DeleteRD_step f v n w r w1 :
  DeleteRD f v n w = (r, w1) → wf (cluster (state w)) →
  stepOn ReplicationDestination (state w) (state w1)
  ∧ (∀ o m, present ReplicationDestination (cluster (state w1)) o m →
            present ReplicationDestination (cluster (state w)) o m)
  ∧ match r with
    | Some _ => ∃ t, f t VList KRD "" = true
    | None =>
        ¬ present ReplicationDestination (cluster (state w1))
            (ownerName (owner v)) n
        ∨ state w1 = state w ∧ ∃ t, f t VDelete KRD n = true
    end.
Proof.
  intros E Hw. apply DeleteRD_inv in E; [|now apply wf_keyed].
  exact (deleteOwned_step (T := ReplicationDestination) v f n r _ _ E Hw).
Qed.

(** ** Mutual exclusion of the two roles *)

Lemma Inv_written s c :
  Inv s → wf c → exclusive c → Inv (written c s).
Proof.
  intros [Hw Hex] Hwc Hc. split; [exact Hwc|].
  unfold observed. cbn. constructor; assumption.
Qed.

Lemma Inv_cached s l : Inv s → Inv (cached l s).
Proof. intros H. exact H. Qed.

Lemma Inv_afterLookup v s s0 : afterLookup v s s0 → Inv s → Inv s0.
Proof. intros [-> | (_ & l & _ & ->)] H; [exact H | now apply Inv_cached]. Qed.

Lemma Inv_exclusive s : Inv s → exclusive (cluster s).
Proof. intros [_ H]. now inversion H. Qed.

Lemma Inv_secret s s' : stepOn Secret s s' → Inv s → Inv s'.
Proof.
  intros Hstep Hi. pose proof (stepOn_wf _ _ _ Hstep (proj1 Hi)) as Hw.
  destruct Hstep as [-> | (t & Ht & ->)]; [exact Hi|].
  apply Inv_written; [exact Hi | exact Hw | exact (Inv_exclusive _ Hi)].
Qed.

Lemma Inv_pvc s s' : stepOn PersistentVolumeClaim s s' → Inv s → Inv s'.
Proof.
  intros Hstep Hi. pose proof (stepOn_wf _ _ _ Hstep (proj1 Hi)) as Hw.
  destruct Hstep as [-> | (t & Ht & ->)]; [exact Hi|].
  apply Inv_written; [exact Hi | exact Hw | exact (Inv_exclusive _ Hi)].
Qed.

Lemma Inv_serviceExport s s' : stepOn ServiceExport s s' → Inv s → Inv s'.
Proof.
  intros Hstep Hi. pose proof (stepOn_wf _ _ _ Hstep (proj1 Hi)) as Hw.
  destruct Hstep as [-> | (t & Ht & ->)]; [exact Hi|].
  apply Inv_written; [exact Hi | exact Hw | exact (Inv_exclusive _ Hi)].
Qed.

(** Taking objects of one role away keeps the exclusion. *)
Lemma Inv_fewer_RS s s' :
  stepOn ReplicationSource s s' →
  (∀ o m, present ReplicationSource (cluster s') o m →
          present ReplicationSource (cluster s) o m) →
  Inv s → Inv s'.
Proof.
  intros Hstep Hmono Hi. pose proof (stepOn_wf _ _ _ Hstep (proj1 Hi)) as Hw.
  pose proof (rs_step_others _ _ Hstep) as (_ & _ & Hrds & _).
  destruct Hstep as [-> | (t & Ht & Hs)]; [exact Hi|].
  rewrite Hs in *. apply Inv_written; [exact Hi | exact Hw |].
  intros o m [Hrs (x & Hx & Ho)]. apply (Inv_exclusive _ Hi o m).
  split; [now apply Hmono|]. exists x. split; [|exact Ho]. exact Hx.
Qed.

Lemma Inv_fewer_RD s s' :
  stepOn ReplicationDestination s s' →
  (∀ o m, present ReplicationDestination (cluster s') o m →
          present ReplicationDestination (cluster s) o m) →
  Inv s → Inv s'.
Proof.
  intros Hstep Hmono Hi. pose proof (stepOn_wf _ _ _ Hstep (proj1 Hi)) as Hw.
  destruct Hstep as [-> | (t & Ht & Hs)]; [exact Hi|].
  rewrite Hs in *. apply Inv_written; [exact Hi | exact Hw |].
  intros o m [(x & Hx & Ho) Hrd]. apply (Inv_exclusive _ Hi o m).
  split; [|now apply Hmono]. exists x. split; [|exact Ho]. exact Hx.
Qed.

(** Writing a destination of the owner under a name the owner has no
    source of keeps the exclusion; and the other way round. *)
Lemma Inv_put_RD s o n rd :
  Inv s → name (rdMeta rd) = n → ownedBy o (rdMeta rd) →
  ¬ present ReplicationSource (cluster s) o n →
  Inv (written (withTable (T := ReplicationDestination)
                  (<[n := rd]> (rds (cluster s))) (cluster s)) s).
Proof.
  intros Hi Hn Ho Hno. apply Inv_written; [exact Hi | |].
  - apply (wf_withTable (T := ReplicationDestination)); [exact (proj1 Hi)|].
    apply keyedMap_insert; [|exact Hn].
    exact (wf_table (T := ReplicationDestination) _ (proj1 Hi)).
  - intros o' m [Hrs (x & Hx & Hox)]. cbn in Hx.
    rewrite lookup_insert in Hx. case_decide as Hm.
    + injection Hx as <-. subst m.
      assert (o' = o) by (unfold ownedBy in *; cbn in *; congruence). subst o'.
      apply Hno. exact Hrs.
    + apply (Inv_exclusive _ Hi o' m). split; [exact Hrs|]. exists x. auto.
Qed.

Lemma Inv_put_RS s o n rs :
  Inv s → name (rsMeta rs) = n → ownedBy o (rsMeta rs) →
  ¬ present ReplicationDestination (cluster s) o n →
  Inv (written (withTable (T := ReplicationSource)
                  (<[n := rs]> (rss (cluster s))) (cluster s)) s).
Proof.
  intros Hi Hn Ho Hno. apply Inv_written; [exact Hi | |].
  - apply (wf_withTable (T := ReplicationSource)); [exact (proj1 Hi)|].
    apply keyedMap_insert; [|exact Hn].
    exact (wf_table (T := ReplicationSource) _ (proj1 Hi)).
  - intros o' m [(x & Hx & Hox) Hrd]. cbn in Hx.
    rewrite lookup_insert in Hx. case_decide as Hm.
    + injection Hx as <-. subst m.
      assert (o' = o) by (unfold ownedBy in *; cbn in *; congruence). subst o'.
      apply Hno. exact Hrd.
    + apply (Inv_exclusive _ Hi o' m). split; [|exact Hrd]. exists x. auto.
Qed.

Arguments ReconcileRD : simpl never.
Arguments ReconcileRS : simpl never.

Section Exclusion.
Variable GetVolSyncSSHSecretNameFromVRGName : string → string.
Variable DefaultScheduleCronSpec DefaultRsyncServiceType : string.
Variable v : VSHandler.

Local Abbreviation reconcileRD :=
  (ReconcileRD GetVolSyncSSHSecretNameFromVRGName DefaultRsyncServiceType).
Local Abbreviation reconcileRS :=
  (ReconcileRS GetVolSyncSSHSecretNameFromVRGName DefaultScheduleCronSpec).

Lemma createOrUpdateRD_Inv f rdSpec sn w :
  Inv (state w) →
  ¬ present ReplicationSource (cluster (state w)) (ownerName (owner v))
      (Name (rdProtectedPVC rdSpec)) →
  Inv (state (createOrUpdateRD DefaultRsyncServiceType f v rdSpec sn w).2)
  ∧ ∀ rd, (createOrUpdateRD DefaultRsyncServiceType f v rdSpec sn w).1 = Ok rd →
          name (rdMeta rd) = Name (rdProtectedPVC rdSpec).
Proof.
  intros Hi Hno.
  destruct (createOrUpdateRD _ f v rdSpec sn w) as [r w1] eqn:E.
  apply createOrUpdateRD_inv in E; [|exact (wf_keyed _ (proj1 Hi))].
  cbn zeta in E. destruct E as (s0 & Hlook & E).
  pose proof (Inv_afterLookup _ _ _ Hlook Hi) as Hi0.
  pose proof (afterLookup_cluster _ _ _ Hlook) as Hc.
  destruct r as [rd|e]; cbn.
  - destruct E as (vsc & _ & Hn & Hfix & _ & Hst & _).
    split; [|intros ? [= <-]; exact Hn].
    destruct Hst as [-> | ->]; [exact Hi0|].
    apply (Inv_put_RD s0 (ownerName (owner v))); auto.
    + apply mutateRD_ok in Hfix as [Hrd _]. rewrite Hrd. cbn.
      apply settledMeta_owned.
    + now rewrite Hc.
  - destruct E as [-> _]. split; [exact Hi0 | discriminate].
Qed.

Lemma createOrUpdateRS_Inv f rsSpec sn runFinalSync w :
  Inv (state w) →
  ¬ present ReplicationDestination (cluster (state w)) (ownerName (owner v))
      (Name (rsProtectedPVC rsSpec)) →
  Inv (state (createOrUpdateRS DefaultScheduleCronSpec f v rsSpec sn
                runFinalSync w).2).
Proof.
  intros Hi Hno.
  destruct (createOrUpdateRS _ f v rsSpec sn runFinalSync w) as [r w1] eqn:E.
  apply createOrUpdateRS_inv in E; [|exact (wf_keyed _ (proj1 Hi))].
  cbn zeta in E. destruct E as (s0 & Hlook & E).
  pose proof (Inv_afterLookup _ _ _ Hlook Hi) as Hi0.
  pose proof (afterLookup_cluster _ _ _ Hlook) as Hc.
  destruct r as [rs|e]; cbn.
  - destruct E as (vsc & trigger & _ & _ & Hn & _ & Hfix & _ & Hst & _).
    destruct Hst as [-> | ->]; [exact Hi0|].
    apply (Inv_put_RS s0 (ownerName (owner v))); auto.
    + apply mutateRS_ok in Hfix as (tr & _ & Hrs & _). rewrite Hrs. cbn.
      apply settledMeta_owned.
    + now rewrite Hc.
  - destruct E as [-> _]. exact Hi0.
Qed.

Lemma reconcileServiceExportForRD_Inv f rd w :
  Inv (state w) → Inv (state (reconcileServiceExportForRD f rd w).2).
Proof.
  intros Hi. destruct (reconcileServiceExportForRD f rd w) as [r w1] eqn:E.
  apply reconcileServiceExportForRD_inv in E; [|exact (wf_keyed _ (proj1 Hi))].
  cbn zeta in E. cbn. destruct r as [e|].
  - destruct E as [-> _]. exact Hi.
  - destruct E as (se & Hn & _ & _ & [-> | ->]); [exact Hi|].
    apply (Inv_serviceExport (state w)); [|exact Hi].
    exact (stepOn_insert ServiceExport (state w) _ se (proj1 Hi) Hn).
Qed.

Lemma deletePVC_Inv f n w :
  Inv (state w) → Inv (state (deletePVC f n w).2).
Proof.
  intros Hi. destruct (deletePVC f n w) as [r w1] eqn:E.
  apply deletePVC_inv in E. cbn.
  destruct E as [(_ & -> & _) | [(_ & -> & _) | (_ & _ & ->)]];
    try exact Hi.
  apply (Inv_pvc (state w)); [|exact Hi].
  exact (stepOn_delete PersistentVolumeClaim (state w) n (proj1 Hi)).
Qed.

(** One call of [ReconcileRD] keeps the exclusion in every cluster it
    shows, when the server accepts the deletions. *)
Lemma ReconcileRD_Inv f rdSpec w :
  deletesAccepted f → Inv (state w) →
  Inv (state (reconcileRD f v rdSpec w).2).
Proof.
  intros Hdel Hi. unfold ReconcileRD.
  destruct (negb (ProtectedByVolSync (rdProtectedPVC rdSpec))); [exact Hi|].
  unfold bind at 1.
  destruct (validateSecretAndAddVRGOwnerRef f v _ w) as [[ok err] w1] eqn:E1.
  apply validateSecret_step in E1 as [Hstep1 _]; [|exact (proj1 Hi)].
  pose proof (Inv_secret _ _ Hstep1 Hi) as Hi1. cbn [fst snd].
  destruct (isErr err || negb ok); [exact Hi1|].
  unfold bind at 1.
  destruct (DeleteRS f v _ w1) as [derr w2] eqn:E2.
  apply DeleteRS_step in E2 as (Hstep2 & Hmono & Hpost); [|exact (proj1 Hi1)].
  pose proof (Inv_fewer_RS _ _ Hstep2 Hmono Hi1) as Hi2. cbn [fst snd].
  destruct derr as [e|]; [exact Hi2|].
  assert (Hno : ¬ present ReplicationSource (cluster (state w2))
                  (ownerName (owner v)) (Name (rdProtectedPVC rdSpec))).
  { destruct Hpost as [Hno | [_ [t Ht]]]; [exact Hno|].
    destruct (Hdel t (Name (rdProtectedPVC rdSpec))) as [Hd _]. congruence. }
  unfold bind at 1.
  destruct (createOrUpdateRD_Inv f rdSpec
              (GetVolSyncSSHSecretNameFromVRGName (ownerName (owner v))) w2 Hi2 Hno)
    as [Hi3 _].
  destruct (createOrUpdateRD _ f v rdSpec _ w2) as [[rd|e] w3]; cbn [fst snd] in *;
    [|exact Hi3].
  unfold bind at 1.
  pose proof (reconcileServiceExportForRD_Inv f rd w3 Hi3) as Hi4.
  destruct (reconcileServiceExportForRD f rd w3) as [[e|] w4]; cbn [fst snd] in *;
    [exact Hi4|].
  destruct (negb (rdStatusReady rd)); exact Hi4.
Qed.

Lemma ReconcileRS_Inv f rsSpec runFinalSync w :
  deletesAccepted f → Inv (state w) →
  Inv (state (reconcileRS f v rsSpec runFinalSync w).2).
Proof.
  intros Hdel Hi. unfold ReconcileRS.
  destruct (negb (ProtectedByVolSync (rsProtectedPVC rsSpec))); [exact Hi|].
  unfold bind at 1.
  destruct (validateSecretAndAddVRGOwnerRef f v _ w) as [[ok err] w1] eqn:E1.
  apply validateSecret_step in E1 as [Hstep1 _]; [|exact (proj1 Hi)].
  pose proof (Inv_secret _ _ Hstep1 Hi) as Hi1. cbn [fst snd].
  destruct (isErr err || negb ok); [exact Hi1|].
  unfold bind at 1.
  destruct (DeleteRD f v _ w1) as [derr w2] eqn:E2.
  apply DeleteRD_step in E2 as (Hstep2 & Hmono & Hpost); [|exact (proj1 Hi1)].
  pose proof (Inv_fewer_RD _ _ Hstep2 Hmono Hi1) as Hi2. cbn [fst snd].
  destruct derr as [e|]; [exact Hi2|].
  assert (Hno : ¬ present ReplicationDestination (cluster (state w2))
                  (ownerName (owner v)) (Name (rsProtectedPVC rsSpec))).
  { destruct Hpost as [Hno | [_ [t Ht]]]; [exact Hno|].
    destruct (Hdel t (Name (rsProtectedPVC rsSpec))) as [_ Hd]. congruence. }
  unfold bind at 1.
  destruct (validatePVCBeforeFinalSync f rsSpec runFinalSync w2)
    as [[pvcOk verr] w3] eqn:E3.
  apply validatePVCBeforeFinalSync_inv in E3 as [Hs3 _]. cbn [fst snd].
  assert (Hi3 : Inv (state w3)) by now rewrite Hs3.
  rewrite <- Hs3 in Hno.
  destruct (negb pvcOk || isErr verr); [exact Hi3|].
  unfold bind at 1.
  pose proof (createOrUpdateRS_Inv f rsSpec
                (GetVolSyncSSHSecretNameFromVRGName (ownerName (owner v)))
                runFinalSync w3 Hi3 Hno) as Hi4.
  destruct (createOrUpdateRS _ f v rsSpec _ runFinalSync w3) as [[rs|e] w4];
    cbn [fst snd] in *; [|exact Hi4].
  destruct (negb (isRSLastSyncTimeReady (rsStatus rs))); [exact Hi4|].
  destruct (runFinalSync && isFinalSyncComplete rs); [|exact Hi4].
  unfold bind, cleanupAfterRSFinalSync. cbn [fst snd].
  apply deletePVC_Inv. exact Hi4.
Qed.

Lemma runCalls_Inv calls w :
  Forall (fun fc => deletesAccepted fc.1) calls → Inv (state w) →
  Inv (state (runCalls GetVolSyncSSHSecretNameFromVRGName DefaultScheduleCronSpec
                DefaultRsyncServiceType v calls w).2).
Proof.
  revert w. induction calls as [|[f c] rest IH]; intros w Hall Hi.
  - exact Hi.
  - inversion Hall as [|? ? Hf Hrest]; subst. cbn [runCalls].
    unfold bind at 1. apply IH; [exact Hrest|].
    destruct c as [rdSpec | rsSpec runFinalSync]; unfold runCall, bind; cbn [fst snd].
    + now apply ReconcileRD_Inv.
    + now apply ReconcileRS_Inv.
Qed.

(** C1, as amended.  Start from a cluster (with whatever it went through)
    in which no owner has both a source and a destination of one name,
    and let the server accept every deletion of a source or destination.
    Then after any sequence of [ReconcileRD] and [ReconcileRS] calls,
    and in every cluster shown on the way, no owner has both a source
    and a destination of one name. *)
Theorem roles_exclusive_when_deletions_accepted
  (calls : list (Faults * Call)) (w : World) :
  wf (cluster (state w)) →
  Forall exclusive (observed (state w)) →
  Forall (fun fc => deletesAccepted fc.1) calls →
  Forall exclusive
    (observed
       (state (runCalls GetVolSyncSSHSecretNameFromVRGName
                 DefaultScheduleCronSpec DefaultRsyncServiceType v calls w).2)).
Proof.
  intros Hw Hex Hall.
  exact (proj2 (runCalls_Inv calls w Hall (conj Hw Hex))).
Qed.
End Exclusion.

(** ** The final sync *)

Lemma quiet_never f : quiet f → ¬ ∃ t V K m, f t V K m = true.
Proof. intros Hq (t & V & K & m & H). rewrite Hq in H. discriminate. Qed.

Lemma inUse_same c c' n :
  pvcs c' = pvcs c → pods c' = pods c → inUse c' n ↔ inUse c n.
Proof. intros H1 H2. unfold inUse. now rewrite H1, H2. Qed.

Section FinalSync.
Variable GetVolSyncSSHSecretNameFromVRGName : string → string.
Variable DefaultScheduleCronSpec : string.
Variable f : Faults.
Variable v : VSHandler.
Variable rsSpec : VolSyncReplicationSourceSpec.

Local Abbreviation reconcileRS :=
  (ReconcileRS GetVolSyncSSHSecretNameFromVRGName DefaultScheduleCronSpec).
Local Abbreviation secretName :=
  (GetVolSyncSSHSecretNameFromVRGName (ownerName (owner v))).
Local Abbreviation n := (Name (rsProtectedPVC rsSpec)).
Local Abbreviation sc := (StorageClassName (rsProtectedPVC rsSpec)).

Hypothesis Hquiet : quiet f.

(** The run up to the check of the claim: the secret and the
    destinations may have been written, nothing else. *)
Lemma final_sync_prefix w :
  wf (cluster (state w)) →
  ProtectedByVolSync (rsProtectedPVC rsSpec) = true →
  is_Some (secrets (cluster (state w)) !! secretName) →
  ∃ w2,
    wf (cluster (state w2))
    ∧ pvcs (cluster (state w2)) = pvcs (cluster (state w))
    ∧ rss (cluster (state w2)) = rss (cluster (state w))
    ∧ pods (cluster (state w2)) = pods (cluster (state w))
    ∧ storageClasses (cluster (state w2)) = storageClasses (cluster (state w))
    ∧ volumeSnapshotClasses (cluster (state w2))
      = volumeSnapshotClasses (cluster (state w))
    ∧ volumeSnapshotClassList (state w2) = volumeSnapshotClassList (state w)
    ∧ reconcileRS f v rsSpec true w =
        (do '(pvcOk, err) <- validatePVCBeforeFinalSync f rsSpec true;
         if negb pvcOk || isErr err then ret (false, None, err)
         else
           try replicationSource <-
               createOrUpdateRS DefaultScheduleCronSpec f v rsSpec secretName true
             catch err => (false, None, Some err);
           if negb (isRSLastSyncTimeReady (rsStatus replicationSource)) then
             ret (false, None, None)
           else if true && isFinalSyncComplete replicationSource then
             do err <- cleanupAfterRSFinalSync f rsSpec;
             ret (true, Some replicationSource, err)
           else ret (false, Some replicationSource, None)) w2.
Proof.
  intros Hw Hp Hsec. unfold ReconcileRS. rewrite Hp. cbn [negb].
  unfold bind at 1.
  destruct (validateSecretAndAddVRGOwnerRef f v _ w) as [[ok err] w1] eqn:E1.
  apply validateSecret_step in E1 as [Hstep1 Hr1]; [|exact Hw].
  pose proof (stepOn_wf _ _ _ Hstep1 Hw) as Hw1.
  pose proof (stepOn_cache _ _ _ Hstep1) as Hc1.
  pose proof (secret_step_others _ _ Hstep1) as (P1 & R1 & D1 & _ & O1 & S1 & V1).
  destruct err as [e|].
  { exfalso. destruct ok; destruct Hr1 as (t & V & Ht);
      rewrite Hquiet in Ht; discriminate. }
  destruct ok.
  2:{ destruct Hr1 as [_ Hnone]. rewrite Hnone in Hsec.
      destruct Hsec; discriminate. }
  cbn [fst snd isErr negb orb]. unfold bind at 1.
  destruct (DeleteRD f v _ w1) as [derr w2] eqn:E2.
  apply DeleteRD_step in E2 as (Hstep2 & _ & Hpost); [|exact Hw1].
  pose proof (stepOn_wf _ _ _ Hstep2 Hw1) as Hw2.
  pose proof (stepOn_cache _ _ _ Hstep2) as Hc2.
  pose proof (rd_step_others _ _ Hstep2) as (_ & P2 & R2 & _ & O2 & S2 & V2).
  destruct derr as [e|].
  { destruct Hpost as [t Ht]. rewrite Hquiet in Ht. discriminate. }
  cbn [fst snd]. exists w2.
  split; [exact Hw2|]. repeat split; congruence.
Qed.

(** C2, as amended.  For a descriptor protected by VolSync, with the
    transport secret on the cluster and a server that answers every
    request, a call with [runFinalSync] true (1) returns
    (false, nil, nil) and leaves the sources alone while the claim
    exists and a pod mounts it; (2) otherwise, when the snapshot class
    resolves and no other owner controls the source, leaves a source
    whose trigger is the manual final-sync token and no schedule; and
    (3) when moreover the status of the source found carries a last-sync
    time that is not zero and a last-manual-sync equal to the token,
    returns (true, source, nil) with the claim gone. *)
Theorem final_sync_protocol (w : World) :
  let run := reconcileRS f v rsSpec true w in
  wf (cluster (state w)) →
  ProtectedByVolSync (rsProtectedPVC rsSpec) = true →
  is_Some (secrets (cluster (state w)) !! secretName) →
  (inUse (cluster (state w)) n →
   run.1 = (false, None, None)
   ∧ rss (cluster (state run.2)) = rss (cluster (state w)))
  ∧ (¬ inUse (cluster (state w)) n →
     is_Some (snapshotClassFor v (state w) sc) →
     (∀ old, rss (cluster (state w)) !! n = Some old →
             controllable v (rsMeta old)) →
     ∃ rs,
       rss (cluster (state run.2)) !! n = Some rs
       ∧ rsTrigger rs
         = Some {| trSchedule := None; trManual := FinalSyncTriggerString |}
       ∧ ∀ old st t,
           rss (cluster (state w)) !! n = Some old →
           rsStatus old = Some st →
           LastSyncTime st = Some t → t ≠ 0 →
           LastManualSync st = FinalSyncTriggerString →
           run.1 = (true, Some rs, None)
           ∧ pvcs (cluster (state run.2)) !! n = None).
Proof.
  intros run Hw Hp Hsec. subst run.
  destruct (final_sync_prefix w Hw Hp Hsec)
    as (w2 & Hw2 & P2 & R2 & O2 & S2 & V2 & C2 & ->).
  match goal with
  | |- context [(?m w2).1] => destruct (m w2) as [out wfin] eqn:Erun
  end.
  cbn [fst snd]. unfold ret in Erun. unfold bind at 1 in Erun.
  destruct (validatePVCBeforeFinalSync f rsSpec true w2)
    as [[pvcOk verr] w3] eqn:E3.
  apply validatePVCBeforeFinalSync_inv in E3 as [Hs3 Hr3]. cbn zeta in Hr3.
  rewrite (inUse_same _ _ _ P2 O2) in Hr3. cbn [fst snd] in Erun.
  split.
  { intros Hin.
    destruct Hr3 as [[_ Hr] | [[[= -> ->] _] | [_ Hnot]]].
    - exfalso. exact (quiet_never f Hquiet Hr).
    - cbn in Erun. injection Erun as <- <-. rewrite Hs3. auto.
    - contradiction. }
  intros Hnot [vsc Hvsc] Hctl.
  destruct Hr3 as [[_ Hr] | [[_ Hin] | [[= -> ->] _]]].
  { exfalso. exact (quiet_never f Hquiet Hr). }
  { contradiction. }
  cbn [negb orb isErr] in Erun. unfold bind at 1 in Erun.
  destruct (createOrUpdateRS _ f v rsSpec _ true w3) as [r w4] eqn:E4.
  apply createOrUpdateRS_inv in E4; [|rewrite Hs3; exact (wf_keyed _ Hw2)].
  cbn zeta in E4. destruct E4 as (s0 & Hlook & E4).
  rewrite Hs3 in Hlook, E4. rewrite R2 in E4.
  rewrite (snapshotClassFor_same v (state w) (state w2) sc S2 V2 C2) in E4.
  pose proof (afterLookup_cluster _ _ _ Hlook) as Hc0.
  destruct r as [rs|e].
  2:{ exfalso. destruct E4 as [_ [Hn | [Hr | [(base & Hb & Hbase) | Ht]]]].
      - congruence.
      - exact (quiet_never f Hquiet Hr).
      - exact (Hb (Hctl _ Hbase)).
      - discriminate. }
  destruct E4 as (vsc' & trigger & _ & Ht & Hn & Htr & _ & Hstored & Hst & Hstatus).
  cbn in Ht. injection Ht as <-. cbn [fst snd] in Erun.
  destruct (negb (isRSLastSyncTimeReady (rsStatus rs))) eqn:Hready.
  { injection Erun as <- <-.
    exists rs. split; [exact Hstored|]. split; [exact Htr|].
    intros old st t Hold Hst' Ht Hne Hm. exfalso.
    rewrite Hold, Hst' in Hstatus. rewrite Hstatus in Hready.
    unfold isRSLastSyncTimeReady in Hready. rewrite Ht in Hready.
    apply Z.eqb_neq in Hne. rewrite Hne in Hready. discriminate. }
  cbn [andb] in Erun.
  destruct (isFinalSyncComplete rs) eqn:Hdone.
  2:{ injection Erun as <- <-.
      exists rs. split; [exact Hstored|]. split; [exact Htr|].
      intros old st t Hold Hst' Ht Hne Hm. exfalso.
      unfold isFinalSyncComplete in Hdone.
      rewrite Hstatus, Hold, Hst', Hm in Hdone.
      rewrite String.eqb_refl in Hdone. discriminate. }
  unfold bind, cleanupAfterRSFinalSync in Erun. cbn [fst snd] in Erun.
  destruct (deletePVC f n w4) as [derr w5] eqn:E5. apply deletePVC_inv in E5.
  cbn [fst snd] in Erun. injection Erun as <- <-.
  destruct E5 as [(_ & _ & t & Ht) | [(-> & Hs5 & Hgone) | (-> & _ & Hs5)]].
  { rewrite Hquiet in Ht. discriminate. }
  - exists rs. rewrite Hs5. split; [exact Hstored|]. split; [exact Htr|].
    intros. split; [reflexivity | exact Hgone].
  - exists rs. rewrite Hs5. cbn. split; [exact Hstored|]. split; [exact Htr|].
    intros. split; [reflexivity|]. apply lookup_delete_eq.
Qed.
End FinalSync.

(** ** Reconciling again *)

Lemma unchanged_refl s : unchanged s s.
Proof. split; reflexivity. Qed.

Lemma unchanged_eq s s' : s' = s → unchanged s s'.
Proof. intros ->. apply unchanged_refl. Qed.

Lemma unchanged_trans s1 s2 s3 : unchanged s1 s2 → unchanged s2 s3 → unchanged s1 s3.
Proof. intros [H1 H2] [H3 H4]. split; congruence. Qed.

Lemma afterLookup_unchanged v s s0 : afterLookup v s s0 → unchanged s s0.
Proof.
  intros H. split; [exact (afterLookup_cluster _ _ _ H)|].
  exact (afterLookup_history _ _ _ H).
Qed.

Lemma validateSecret_again f v sn w :
  keyed (T := Secret) (cluster (state w)) →
  secretSettled v sn (cluster (state w))
  ∨ secrets (cluster (state w)) !! sn = None →
  state (validateSecretAndAddVRGOwnerRef f v sn w).2 = state w
  ∧ match (validateSecretAndAddVRGOwnerRef f v sn w).1 with
    | (_, Some _) => True
    | (true, None) => secretSettled v sn (cluster (state w))
    | (false, None) => secrets (cluster (state w)) !! sn = None
    end.
Proof.
  intros Hk Hpre.
  destruct (validateSecretAndAddVRGOwnerRef f v sn w) as [r w1] eqn:E.
  apply validateSecret_inv in E; [|exact Hk]. cbn [fst snd].
  destruct E as [([e He] & Hs & _) | [(-> & Hs & Hnone) | [(-> & Hs & Hset)
    | (-> & sec & sec' & Hsec & Hno & _)]]].
  - split; [exact Hs|]. destruct r as [[] o]; cbn in He; subst o; exact I.
  - auto.
  - auto.
  - exfalso. destruct Hpre as [(sec0 & Hsec0 & Href) | Hnone]; [|congruence].
    rewrite Hsec in Hsec0. injection Hsec0 as <-. exact (Hno Href).
Qed.

Lemma DeleteRS_again f v n w :
  keyed (T := ReplicationSource) (cluster (state w)) →
  ¬ present ReplicationSource (cluster (state w)) (ownerName (owner v)) n →
  state (DeleteRS f v n w).2 = state w.
Proof.
  intros Hk Hno. destruct (DeleteRS f v n w) as [r w1] eqn:E.
  apply DeleteRS_inv in E; [|exact Hk]. cbn.
  destruct E as [(_ & Hs & _) | (_ & [(Hs & _) | (Hp & _)])]; auto.
  contradiction.
Qed.

Lemma DeleteRD_again f v n w :
  keyed (T := ReplicationDestination) (cluster (state w)) →
  ¬ present ReplicationDestination (cluster (state w)) (ownerName (owner v)) n →
  state (DeleteRD f v n w).2 = state w.
Proof.
  intros Hk Hno. destruct (DeleteRD f v n w) as [r w1] eqn:E.
  apply DeleteRD_inv in E; [|exact Hk]. cbn.
  destruct E as [(_ & Hs & _) | (_ & [(Hs & _) | (Hp & _)])]; auto.
  contradiction.
Qed.

Lemma deletePVC_again f n w :
  pvcs (cluster (state w)) !! n = None →
  state (deletePVC f n w).2 = state w.
Proof.
  intros Hnone. destruct (deletePVC f n w) as [r w1] eqn:E.
  apply deletePVC_inv in E. cbn.
  destruct E as [(_ & Hs & _) | [(_ & Hs & _) | (_ & [x Hx] & _)]]; auto.
  congruence.
Qed.

Section Again.
Variable GetVolSyncSSHSecretNameFromVRGName : string → string.
Variable DefaultScheduleCronSpec DefaultRsyncServiceType : string.
Variable v : VSHandler.

Local Abbreviation reconcileRD :=
  (ReconcileRD GetVolSyncSSHSecretNameFromVRGName DefaultRsyncServiceType).
Local Abbreviation reconcileRS :=
  (ReconcileRS GetVolSyncSSHSecretNameFromVRGName DefaultScheduleCronSpec).
Local Abbreviation rdSettled :=
  (settledRD GetVolSyncSSHSecretNameFromVRGName DefaultRsyncServiceType v).
Local Abbreviation rsSettled :=
  (settledRS GetVolSyncSSHSecretNameFromVRGName DefaultScheduleCronSpec v).
Local Abbreviation secretName :=
  (GetVolSyncSSHSecretNameFromVRGName (ownerName (owner v))).

Lemma createOrUpdateRD_again f rdSpec sn vsc rd w :
  let n := Name (rdProtectedPVC rdSpec) in
  snapshotClassFor v (state w) (StorageClassName (rdProtectedPVC rdSpec))
  = Some vsc →
  rds (cluster (state w)) !! n = Some rd →
  (mutateRD DefaultRsyncServiceType v rdSpec sn vsc rd tt).2 = Ok rd →
  unchanged (state w)
    (state (createOrUpdateRD DefaultRsyncServiceType f v rdSpec sn w).2)
  ∧ ((createOrUpdateRD DefaultRsyncServiceType f v rdSpec sn w).1 = Ok rd
     ∨ ∃ e, (createOrUpdateRD DefaultRsyncServiceType f v rdSpec sn w).1 = Err e).
Proof.
  intros n Hvsc Hrd Hfix. unfold createOrUpdateRD, bind, ret.
  destruct (GetVolumeSnapshotClassFromPVCStorageClass f v _ w) as [g w0] eqn:EG.
  apply GetVSCFromSC_inv in EG as [Hlook Hg]. fold (afterLookup v (state w) (state w0)) in Hlook.
  pose proof (afterLookup_unchanged _ _ _ Hlook) as Hun.
  destruct g as [vsc'|e]; cbn [fst snd].
  2:{ split; [exact Hun | eauto]. }
  assert (vsc' = vsc) by congruence. subst vsc'.
  match goal with
  | |- context [ctrlutil.CreateOrUpdate f ?o ?m tt w0] =>
      pose proof (CreateOrUpdate_settled f m o rd w0) as Hset
  end.
  unfold nameOf at 1 in Hset. cbn in Hset.
  unfold getReplicationDestinationName in Hset.
  rewrite (proj1 Hun) in Hset. specialize (Hset Hrd Hfix).
  destruct (ctrlutil.CreateOrUpdate f _ _ tt w0) as [[[] c] w1].
  cbn [fst snd] in *. destruct Hset as [Hs Hr].
  destruct Hr as [-> | [e ->]]; cbn [fst snd].
  - split; [|auto]. apply (unchanged_trans _ _ _ Hun). now apply unchanged_eq.
  - split; [|eauto]. apply (unchanged_trans _ _ _ Hun). now apply unchanged_eq.
Qed.

Lemma createOrUpdateRS_again f rsSpec sn runFinalSync vsc rs w :
  let n := Name (rsProtectedPVC rsSpec) in
  let addr := getRemoteServiceNameForRDFromPVCName n (ownerNamespace (owner v)) in
  snapshotClassFor v (state w) (StorageClassName (rsProtectedPVC rsSpec))
  = Some vsc →
  rss (cluster (state w)) !! n = Some rs →
  (mutateRS DefaultScheduleCronSpec v rsSpec sn vsc addr runFinalSync rs tt).2
  = Ok rs →
  unchanged (state w)
    (state (createOrUpdateRS DefaultScheduleCronSpec f v rsSpec sn
              runFinalSync w).2)
  ∧ ((createOrUpdateRS DefaultScheduleCronSpec f v rsSpec sn runFinalSync w).1
     = Ok rs
     ∨ ∃ e, (createOrUpdateRS DefaultScheduleCronSpec f v rsSpec sn
               runFinalSync w).1 = Err e).
Proof.
  intros n addr Hvsc Hrs Hfix. unfold createOrUpdateRS, bind, ret.
  destruct (GetVolumeSnapshotClassFromPVCStorageClass f v _ w) as [g w0] eqn:EG.
  apply GetVSCFromSC_inv in EG as [Hlook Hg]. fold (afterLookup v (state w) (state w0)) in Hlook.
  pose proof (afterLookup_unchanged _ _ _ Hlook) as Hun.
  destruct g as [vsc'|e]; cbn [fst snd].
  2:{ split; [exact Hun | eauto]. }
  assert (vsc' = vsc) by congruence. subst vsc'.
  match goal with
  | |- context [ctrlutil.CreateOrUpdate f ?o ?m tt w0] =>
      pose proof (CreateOrUpdate_settled f m o rs w0) as Hset
  end.
  unfold nameOf at 1 in Hset. cbn in Hset.
  unfold getReplicationSourceName in Hset.
  rewrite (proj1 Hun) in Hset. specialize (Hset Hrs Hfix).
  destruct (ctrlutil.CreateOrUpdate f _ _ tt w0) as [[[] c] w1].
  cbn [fst snd] in *. destruct Hset as [Hs Hr].
  destruct Hr as [-> | [e ->]]; cbn [fst snd].
  - split; [|auto]. apply (unchanged_trans _ _ _ Hun). now apply unchanged_eq.
  - split; [|eauto]. apply (unchanged_trans _ _ _ Hun). now apply unchanged_eq.
Qed.

Lemma reconcileServiceExportForRD_again f rd se w :
  serviceExports (cluster (state w)) !! getLocalServiceNameForRD (name (rdMeta rd))
  = Some se →
  (mutateServiceExport rd se tt).2 = Ok se →
  state (reconcileServiceExportForRD f rd w).2 = state w.
Proof.
  intros Hse Hfix. unfold reconcileServiceExportForRD, bind, ret.
  match goal with
  | |- context [ctrlutil.CreateOrUpdate f ?o ?m tt w] =>
      pose proof (CreateOrUpdate_settled f m o se w Hse Hfix) as [Hs _]
  end.
  destruct (ctrlutil.CreateOrUpdate f _ _ tt w) as [[[] [c|e]] w1];
    cbn [fst snd] in *; exact Hs.
Qed.

Lemma ReconcileRD_settles f rdSpec w :
  wf (cluster (state w)) → deletesAccepted f →
  (reconcileRD f v rdSpec w).1.2 = None →
  wf (cluster (state (reconcileRD f v rdSpec w).2))
  ∧ rdSettled rdSpec (state (reconcileRD f v rdSpec w).2).
Proof.
  intros Hw Hdel.
  destruct (reconcileRD f v rdSpec w) as [out wfin] eqn:Erun.
  cbn [fst snd]. unfold ReconcileRD in Erun.
  destruct (negb (ProtectedByVolSync (rdProtectedPVC rdSpec))).
  { injection Erun as <- <-. discriminate. }
  unfold ret in Erun. unfold bind at 1 in Erun.
  destruct (validateSecretAndAddVRGOwnerRef f v _ w) as [[ok err] w1] eqn:E1.
  apply validateSecret_step in E1 as [Hstep1 Hr1]; [|exact Hw].
  pose proof (stepOn_wf _ _ _ Hstep1 Hw) as Hw1. cbn [fst snd] in Erun.
  destruct err as [e|].
  { destruct ok; injection Erun as <- <-; discriminate. }
  destruct ok; cbn [isErr negb orb] in Erun.
  2:{ injection Erun as <- <-. intros _. destruct Hr1 as [Hs1 Hnone].
      split; [exact Hw1|]. left. now rewrite Hs1. }
  destruct Hr1 as [Hset1 _].
  unfold bind at 1 in Erun.
  destruct (DeleteRS f v _ w1) as [derr w2] eqn:E2.
  apply DeleteRS_step in E2 as (Hstep2 & _ & Hpost); [|exact Hw1].
  pose proof (stepOn_wf _ _ _ Hstep2 Hw1) as Hw2.
  pose proof (rs_step_others _ _ Hstep2) as (Hsec2 & _).
  cbn [fst snd] in Erun.
  destruct derr as [e|]; [injection Erun as <- <-; discriminate|].
  assert (Hno : ¬ present ReplicationSource (cluster (state w2))
                  (ownerName (owner v)) (Name (rdProtectedPVC rdSpec))).
  { destruct Hpost as [Hno | [_ [t Ht]]]; [exact Hno|].
    destruct (Hdel t (Name (rdProtectedPVC rdSpec))) as [Hd _]. congruence. }
  unfold bind at 1 in Erun.
  destruct (createOrUpdateRD _ f v rdSpec _ w2) as [r w3] eqn:E3.
  apply createOrUpdateRD_inv in E3; [|exact (wf_keyed _ Hw2)].
  cbn zeta in E3. destruct E3 as (s0 & Hlook & E3). cbn [fst snd] in Erun.
  destruct r as [rd|e]; [|injection Erun as <- <-; discriminate].
  destruct E3 as (vsc & Hvsc & Hn & Hfix & Hstored & Hst & _).
  pose proof (afterLookup_cluster _ _ _ Hlook) as Hc0.
  assert (Hw0 : wf (cluster s0)) by (rewrite Hc0; exact Hw2).
  assert (Hstep3 : stepOn ReplicationDestination s0 (state w3)).
  { destruct Hst as [-> | ->]; [apply stepOn_refl|].
    exact (stepOn_insert ReplicationDestination s0 _ rd Hw0 Hn). }
  pose proof (stepOn_wf _ _ _ Hstep3 Hw0) as Hw3.
  pose proof (rd_step_others _ _ Hstep3) as (Hsec3 & _ & Hrss3 & _ & _ & Hsc3 & Hvs3).
  pose proof (stepOn_cache _ _ _ Hstep3) as Hca3.
  assert (Hvsc3 : snapshotClassFor v (state w3)
                    (StorageClassName (rdProtectedPVC rdSpec)) = Some vsc).
  { rewrite (snapshotClassFor_same v s0 (state w3) _ Hsc3 Hvs3 Hca3).
    now rewrite (afterLookup_class _ _ _ _ Hlook). }
  unfold bind at 1 in Erun.
  destruct (reconcileServiceExportForRD f rd w3) as [serr w4] eqn:E4.
  apply reconcileServiceExportForRD_inv in E4; [|exact (wf_keyed _ Hw3)].
  cbn zeta in E4. cbn [fst snd] in Erun.
  destruct serr as [e|]; [injection Erun as <- <-; discriminate|].
  destruct E4 as (se & Hsen & Hsefix & Hsestored & Hst4).
  assert (Hstep4 : stepOn ServiceExport (state w3) (state w4)).
  { destruct Hst4 as [-> | ->]; [apply stepOn_refl|].
    exact (stepOn_insert ServiceExport (state w3) _ se Hw3 Hsen). }
  pose proof (stepOn_wf _ _ _ Hstep4 Hw3) as Hw4.
  pose proof (se_step_others _ _ Hstep4) as (Hsec4 & _ & Hrss4 & Hrds4 & _ & Hsc4 & Hvs4).
  pose proof (stepOn_cache _ _ _ Hstep4) as Hca4.
  intros _.
  assert (Hfinal : wf (cluster (state w4)) ∧ rdSettled rdSpec (state w4)).
  { split; [exact Hw4|]. right. split; [|split].
    - unfold secretSettled. rewrite Hsec4, Hsec3, Hc0, Hsec2. exact Hset1.
    - unfold present. cbn. rewrite Hrss4, Hrss3, Hc0. exact Hno.
    - exists vsc, rd, se.
      rewrite (snapshotClassFor_same v (state w3) (state w4) _ Hsc4 Hvs4 Hca4).
      rewrite Hrds4. rewrite Hn in Hsestored. auto 10. }
  destruct (negb (rdStatusReady rd)); injection Erun as <- <-; exact Hfinal.
Qed.

Lemma ReconcileRD_again f rdSpec w :
  wf (cluster (state w)) → rdSettled rdSpec (state w) →
  unchanged (state w) (state (reconcileRD f v rdSpec w).2).
Proof.
  intros Hw Hset. unfold ReconcileRD.
  destruct (negb (ProtectedByVolSync (rdProtectedPVC rdSpec)));
    [apply unchanged_refl|].
  unfold bind at 1.
  assert (Hpre : secretSettled v secretName (cluster (state w))
                 ∨ secrets (cluster (state w)) !! secretName = None).
  { destruct Hset as [Hnone | [Hs _]]; auto. }
  destruct (validateSecret_again f v secretName w (wf_keyed _ Hw) Hpre)
    as [Hs1 Hr1].
  destruct (validateSecretAndAddVRGOwnerRef f v _ w) as [[ok err] w1].
  cbn [fst snd] in *.
  destruct err as [e|]; [destruct ok; now apply unchanged_eq|].
  destruct ok; cbn [isErr negb orb]; [|now apply unchanged_eq].
  destruct Hset as [Hnone | (_ & Hno & vsc & rd & se & Hvsc & Hrd & Hn & Hfix & Hse & Hsefix)].
  { destruct Hr1 as (sec & Hsec & _). congruence. }
  unfold bind at 1.
  pose proof (DeleteRS_again f v (Name (rdProtectedPVC rdSpec)) w1) as Hs2.
  rewrite Hs1 in Hs2. specialize (Hs2 (wf_keyed _ Hw) Hno).
  destruct (DeleteRS f v _ w1) as [derr w2]. cbn [fst snd] in *.
  assert (Hs2' : state w2 = state w) by congruence.
  destruct derr as [e|]; [now apply unchanged_eq|].
  unfold bind at 1.
  pose proof (createOrUpdateRD_again f rdSpec secretName vsc rd w2) as H3.
  cbn zeta in H3. rewrite Hs2' in H3. specialize (H3 Hvsc Hrd Hfix).
  destruct (createOrUpdateRD _ f v rdSpec _ w2) as [r w3]. cbn [fst snd] in *.
  destruct H3 as [Hun3 Hr3].
  destruct Hr3 as [-> | [e ->]]; [|exact Hun3].
  unfold bind at 1.
  pose proof (reconcileServiceExportForRD_again f rd se w3) as H4.
  rewrite (proj1 Hun3), Hn in H4. specialize (H4 Hse Hsefix).
  destruct (reconcileServiceExportForRD f rd w3) as [serr w4]. cbn [fst snd] in *.
  assert (Hun4 : unchanged (state w) (state w4)).
  { apply (unchanged_trans _ _ _ Hun3). now apply unchanged_eq. }
  destruct serr as [e|]; [exact Hun4|].
  destruct (negb (rdStatusReady rd)); exact Hun4.
Qed.

Lemma ReconcileRS_settles f rsSpec runFinalSync w :
  wf (cluster (state w)) → deletesAccepted f →
  (reconcileRS f v rsSpec runFinalSync w).1.2 = None →
  wf (cluster (state (reconcileRS f v rsSpec runFinalSync w).2))
  ∧ rsSettled rsSpec runFinalSync (state (reconcileRS f v rsSpec runFinalSync w).2).
Proof.
  intros Hw Hdel.
  destruct (reconcileRS f v rsSpec runFinalSync w) as [out wfin] eqn:Erun.
  cbn [fst snd]. unfold ReconcileRS in Erun.
  destruct (negb (ProtectedByVolSync (rsProtectedPVC rsSpec))).
  { injection Erun as <- <-. discriminate. }
  unfold ret in Erun. unfold bind at 1 in Erun.
  destruct (validateSecretAndAddVRGOwnerRef f v _ w) as [[ok err] w1] eqn:E1.
  apply validateSecret_step in E1 as [Hstep1 Hr1]; [|exact Hw].
  pose proof (stepOn_wf _ _ _ Hstep1 Hw) as Hw1. cbn [fst snd] in Erun.
  destruct err as [e|].
  { destruct ok; injection Erun as <- <-; discriminate. }
  destruct ok; cbn [isErr negb orb] in Erun.
  2:{ injection Erun as <- <-. intros _. destruct Hr1 as [Hs1 Hnone].
      split; [exact Hw1|]. left. now rewrite Hs1. }
  destruct Hr1 as [Hset1 _].
  unfold bind at 1 in Erun.
  destruct (DeleteRD f v _ w1) as [derr w2] eqn:E2.
  apply DeleteRD_step in E2 as (Hstep2 & _ & Hpost); [|exact Hw1].
  pose proof (stepOn_wf _ _ _ Hstep2 Hw1) as Hw2.
  pose proof (rd_step_others _ _ Hstep2) as (Hsec2 & _).
  cbn [fst snd] in Erun.
  destruct derr as [e|]; [injection Erun as <- <-; discriminate|].
  assert (Hno : ¬ present ReplicationDestination (cluster (state w2))
                  (ownerName (owner v)) (Name (rsProtectedPVC rsSpec))).
  { destruct Hpost as [Hno | [_ [t Ht]]]; [exact Hno|].
    destruct (Hdel t (Name (rsProtectedPVC rsSpec))) as [_ Hd]. congruence. }
  assert (Hset2 : secretSettled v secretName (cluster (state w2))).
  { unfold secretSettled. now rewrite Hsec2. }
  clear Hstep1 Hstep2 Hpost Hset1 Hsec2 Hw1.
  unfold bind at 1 in Erun.
  destruct (validatePVCBeforeFinalSync f rsSpec runFinalSync w2)
    as [[pvcOk verr] w3] eqn:E3.
  apply validatePVCBeforeFinalSync_inv in E3 as [Hs3 Hr3]. cbn zeta in Hr3.
  cbn [fst snd] in Erun.
  assert (Hgo : pvcOk = true ∧ verr = None ∧
                (runFinalSync = true →
                 ¬ inUse (cluster (state w2)) (Name (rsProtectedPVC rsSpec)))
                ∨ verr ≠ None
                ∨ pvcOk = false ∧ verr = None ∧ runFinalSync = true
                  ∧ inUse (cluster (state w2)) (Name (rsProtectedPVC rsSpec))).
  { destruct runFinalSync.
    - destruct Hr3 as [[[e [= -> ->]] _] | [[[= -> ->] Hin] | [[= -> ->] Hnot]]].
      + right; left. discriminate.
      + right; right. auto.
      + left. auto.
    - injection Hr3 as -> ->. left. split; [reflexivity|].
      split; [reflexivity|]. discriminate. }
  clear Hr3.
  destruct Hgo as [(-> & -> & Hfree) | [Herr | (-> & -> & Hfinal & Hin)]].
  2:{ destruct verr as [e|]; [|congruence].
      destruct pvcOk; injection Erun as <- <-; discriminate. }
  2:{ injection Erun as <- <-. intros _. rewrite Hs3.
      split; [exact Hw2|]. right. split; [exact Hset2|].
      split; [exact Hno|]. left. auto. }
  cbn [negb orb isErr] in Erun. unfold bind at 1 in Erun.
  destruct (createOrUpdateRS _ f v rsSpec _ runFinalSync w3) as [r w4] eqn:E4.
  apply createOrUpdateRS_inv in E4; [|rewrite Hs3; exact (wf_keyed _ Hw2)].
  cbn zeta in E4. destruct E4 as (s0 & Hlook & E4).
  rewrite Hs3 in Hlook, E4. cbn [fst snd] in Erun.
  destruct r as [rs|e]; [|injection Erun as <- <-; discriminate].
  destruct E4 as (vsc & trigger & Hvsc & _ & Hn & _ & Hfix & Hstored & Hst & _).
  pose proof (afterLookup_cluster _ _ _ Hlook) as Hc0.
  assert (Hw0 : wf (cluster s0)) by (rewrite Hc0; exact Hw2).
  assert (Hstep4 : stepOn ReplicationSource s0 (state w4)).
  { destruct Hst as [-> | ->]; [apply stepOn_refl|].
    exact (stepOn_insert ReplicationSource s0 _ rs Hw0 Hn). }
  pose proof (stepOn_wf _ _ _ Hstep4 Hw0) as Hw4.
  pose proof (rs_step_others _ _ Hstep4) as (Hsec4 & Hpvc4 & Hrds4 & _ & Hpod4 & Hsc4 & Hvs4).
  pose proof (stepOn_cache _ _ _ Hstep4) as Hca4.
  assert (Hvsc4 : snapshotClassFor v (state w4)
                    (StorageClassName (rsProtectedPVC rsSpec)) = Some vsc).
  { rewrite (snapshotClassFor_same v s0 (state w4) _ Hsc4 Hvs4 Hca4).
    now rewrite (afterLookup_class _ _ _ _ Hlook). }
  assert (Hset4 : secretSettled v secretName (cluster (state w4))).
  { unfold secretSettled. rewrite Hsec4, Hc0. exact Hset2. }
  assert (Hno4 : ¬ present ReplicationDestination (cluster (state w4))
                   (ownerName (owner v)) (Name (rsProtectedPVC rsSpec))).
  { unfold present. cbn. rewrite Hrds4, Hc0. exact Hno. }
  assert (Hfree4 : runFinalSync = true →
                   ¬ inUse (cluster (state w4)) (Name (rsProtectedPVC rsSpec))).
  { intros Hf. rewrite (inUse_same (cluster (state w2)) (cluster (state w4)));
      [auto | congruence | congruence]. }
  clear Hstep4 Hst Hlook Hsec4 Hrds4 Hsc4 Hvs4 Hca4 Hset2 Hno Hfree Hvsc.
  destruct (negb (isRSLastSyncTimeReady (rsStatus rs))) eqn:Hready.
  { injection Erun as <- <-. intros _. split; [exact Hw4|].
    right. split; [exact Hset4|]. split; [exact Hno4|]. right.
    split; [exact Hfree4|]. exists vsc, rs. repeat split; auto.
    intros Hr. rewrite Hr in Hready. discriminate. }
  destruct (runFinalSync && isFinalSyncComplete rs) eqn:Hdone.
  2:{ injection Erun as <- <-. intros _. split; [exact Hw4|].
      right. split; [exact Hset4|]. split; [exact Hno4|]. right.
      split; [exact Hfree4|]. exists vsc, rs. repeat split; auto.
      intros _ Hf Hc. rewrite Hf, Hc in Hdone. discriminate. }
  unfold bind, cleanupAfterRSFinalSync in Erun. cbn [fst snd] in Erun.
  destruct (deletePVC f _ w4) as [cerr w5] eqn:E5. apply deletePVC_inv in E5.
  cbn [fst snd] in Erun. injection Erun as <- <-. cbn [snd]. intros ->.
  assert (Hstep5 : stepOn PersistentVolumeClaim (state w4) (state w5)
                   ∧ pvcs (cluster (state w5)) !! Name (rsProtectedPVC rsSpec)
                     = None).
  { destruct E5 as [([e He] & _) | [(_ & -> & Hgone) | (_ & _ & ->)]].
    - discriminate.
    - split; [apply stepOn_refl | exact Hgone].
    - split; [exact (stepOn_delete PersistentVolumeClaim (state w4) _ Hw4)|].
      cbn. apply lookup_delete_eq. }
  destruct Hstep5 as [Hstep5 Hgone].
  pose proof (stepOn_wf _ _ _ Hstep5 Hw4) as Hw5.
  pose proof (pvc_step_others _ _ Hstep5) as (Hsec5 & Hrss5 & Hrds5 & _ & _ & Hsc5 & Hvs5).
  pose proof (stepOn_cache _ _ _ Hstep5) as Hca5.
  split; [exact Hw5|]. right. split; [|split].
  - unfold secretSettled. now rewrite Hsec5.
  - unfold present. cbn. now rewrite Hrds5.
  - right. split.
    + intros _ [[x Hx] _]. congruence.
    + exists vsc, rs.
      rewrite (snapshotClassFor_same v (state w4) (state w5) _ Hsc5 Hvs5 Hca5).
      rewrite Hrss5. auto.
Qed.

Lemma ReconcileRS_again f rsSpec runFinalSync w :
  wf (cluster (state w)) → rsSettled rsSpec runFinalSync (state w) →
  unchanged (state w) (state (reconcileRS f v rsSpec runFinalSync w).2).
Proof.
  intros Hw Hset. unfold ReconcileRS.
  destruct (negb (ProtectedByVolSync (rsProtectedPVC rsSpec)));
    [apply unchanged_refl|].
  unfold bind at 1.
  assert (Hpre : secretSettled v secretName (cluster (state w))
                 ∨ secrets (cluster (state w)) !! secretName = None).
  { destruct Hset as [Hnone | [Hs _]]; auto. }
  destruct (validateSecret_again f v secretName w (wf_keyed _ Hw) Hpre)
    as [Hs1 Hr1].
  destruct (validateSecretAndAddVRGOwnerRef f v _ w) as [[ok err] w1].
  cbn [fst snd] in *.
  destruct err as [e|]; [destruct ok; now apply unchanged_eq|].
  destruct ok; cbn [isErr negb orb]; [|now apply unchanged_eq].
  destruct Hset as [Hnone | (_ & Hno & Hrest)].
  { destruct Hr1 as (sec & Hsec & _). congruence. }
  unfold bind at 1.
  pose proof (DeleteRD_again f v (Name (rsProtectedPVC rsSpec)) w1) as Hs2.
  rewrite Hs1 in Hs2. specialize (Hs2 (wf_keyed _ Hw) Hno).
  destruct (DeleteRD f v _ w1) as [derr w2]. cbn [fst snd] in *.
  assert (Hs2' : state w2 = state w) by congruence.
  destruct derr as [e|]; [now apply unchanged_eq|].
  unfold bind at 1.
  destruct (validatePVCBeforeFinalSync f rsSpec runFinalSync w2)
    as [[pvcOk verr] w3] eqn:E3.
  apply validatePVCBeforeFinalSync_inv in E3 as [Hs3 Hr3]. cbn zeta in Hr3.
  rewrite Hs2' in Hr3, Hs3. cbn [fst snd].
  destruct (negb pvcOk || isErr verr) eqn:Hstop; [now apply unchanged_eq|].
  assert (pvcOk = true ∧ verr = None) as [-> ->].
  { destruct pvcOk, verr; cbn in Hstop; try discriminate. auto. }
  destruct Hrest as [[-> Hin] | (_ & vsc & rs & Hvsc & Hrs & Hfix & Hclean)].
  { exfalso. destruct Hr3 as [[[e He] _] | [[He _] | [_ Hnot]]];
      try discriminate. contradiction. }
  unfold bind at 1.
  pose proof (createOrUpdateRS_again f rsSpec secretName runFinalSync vsc rs w3)
    as H4.
  cbn zeta in H4. rewrite Hs3 in H4. specialize (H4 Hvsc Hrs Hfix).
  destruct (createOrUpdateRS _ f v rsSpec _ runFinalSync w3) as [r w4].
  cbn [fst snd] in *. destruct H4 as [Hun4 Hr4].
  destruct Hr4 as [-> | [e ->]]; [|exact Hun4].
  destruct (negb (isRSLastSyncTimeReady (rsStatus rs))) eqn:Hready;
    [exact Hun4|].
  destruct runFinalSync; cbn [andb]; [|exact Hun4].
  destruct (isFinalSyncComplete rs) eqn:Hdone; [|exact Hun4].
  unfold bind, cleanupAfterRSFinalSync. cbn [fst snd].
  apply (unchanged_trans _ _ _ Hun4). apply unchanged_eq.
  apply deletePVC_again. rewrite (proj1 Hun4). apply Hclean; auto.
  now apply negb_false_iff in Hready.
Qed.

(** C9, as amended.  After a call of [ReconcileRD] (or of [ReconcileRS])
    that reported no error and during which the server accepted every
    deletion of a source or destination, a second call with the same
    descriptor has no write accepted, whatever the server does during
    it: the cluster is what the first call left and it has shown no new
    one. *)
Theorem reconcile_again_writes_nothing (f1 f2 : Faults)
  (rdSpec : VolSyncReplicationDestinationSpec)
  (rsSpec : VolSyncReplicationSourceSpec) (runFinalSync : bool) (w : World) :
  wf (cluster (state w)) → deletesAccepted f1 →
  ((reconcileRD f1 v rdSpec w).1.2 = None →
   unchanged (state (reconcileRD f1 v rdSpec w).2)
     (state (reconcileRD f2 v rdSpec (reconcileRD f1 v rdSpec w).2).2))
  ∧ ((reconcileRS f1 v rsSpec runFinalSync w).1.2 = None →
     unchanged (state (reconcileRS f1 v rsSpec runFinalSync w).2)
       (state (reconcileRS f2 v rsSpec runFinalSync
                 (reconcileRS f1 v rsSpec runFinalSync w).2).2)).
Proof.
  intros Hw Hdel. split; intros Hok.
  - destruct (ReconcileRD_settles f1 rdSpec w Hw Hdel Hok) as [Hw1 Hset].
    now apply ReconcileRD_again.
  - destruct (ReconcileRS_settles f1 rsSpec runFinalSync w Hw Hdel Hok)
      as [Hw1 Hset].
    now apply ReconcileRS_again.
Qed.
End Again.

(** * The claims on the sample clusters *)

Lemma noFaults_quiet : quiet Sample.noFaults.
Proof. intros t v k n. reflexivity. Qed.

Lemma keyedMap_empty {T} `{Stored T} : keyedMap (∅ : gmap string T).
Proof. intros n o Hn. rewrite lookup_empty in Hn. discriminate. Qed.

Lemma keyedMap_singleton {T} `{Stored T} (n : string) (o : T) :
  nameOf o = n → keyedMap ({[ n := o ]} : gmap string T).
Proof.
  intros Hn m x Hx. apply lookup_singleton_Some in Hx as [<- <-]. exact Hn.
Qed.

Lemma clusterWith_wf ss ps srcs dsts pds :
  keyedMap ss → keyedMap ps → keyedMap srcs → keyedMap dsts →
  wf (Sample.clusterWith ss ps srcs dsts pds).
Proof.
  intros H1 H2 H3 H4. repeat split; try assumption;
    intros n o Hn; cbn in Hn; rewrite lookup_empty in Hn; discriminate.
Qed.

Lemma theSecret_keyed : keyedMap Sample.theSecret.
Proof. now apply keyedMap_singleton. Qed.

Lemma withSource_wf st : wf (cluster (state (Sample.withSource st))).
Proof.
  apply clusterWith_wf;
    [exact theSecret_keyed | apply keyedMap_empty
    | now apply keyedMap_singleton | apply keyedMap_empty].
Qed.

Lemma beforeFinalSync_wf st : wf (cluster (state (Sample.beforeFinalSync st))).
Proof.
  apply clusterWith_wf;
    [exact theSecret_keyed | now apply keyedMap_singleton
    | now apply keyedMap_singleton | apply keyedMap_empty].
Qed.

Lemma withSource_exclusive st :
  Forall exclusive (observed (state (Sample.withSource st))).
Proof.
  repeat constructor. intros o n [_ (x & Hx & _)]. cbn in Hx.
  rewrite lookup_empty in Hx. discriminate.
Qed.

(** [present] can be checked by evaluation. *)
Lemma present_check (T : Type) `{Stored T} (c : Cluster) (o n : string) :
  from_option (fun x : T => bool_decide (labels (metaOf x) !! VRGOwnerLabel = Some o))
    false (table c !! n) = true →
  present T c o n.
Proof.
  destruct (table c !! n) as [x|] eqn:E; cbn; [|discriminate].
  intros Hb. apply bool_decide_eq_true in Hb. exists x. split; [exact E|exact Hb].
Qed.

Lemma beforeFinalSync_idle st : ¬ inUse (cluster (state (Sample.beforeFinalSync st))) "data".
Proof. intros [_ (p & Hp & _)]. cbn in Hp. inversion Hp. Qed.

(** ** C1 *)

(** C1, counterexample.  The owner has a source named data and no
    destination; the server refuses to delete sources.  [ReconcileRD] logs
    the refusal and goes on to create the destination: the owner then has
    both a source and a destination named data. *)
Lemma roles_coexist_after_refused_deletion :
  let w := Sample.withSource None in
  let run := runCalls Sample.secretNameOf Sample.defaultSchedule
               Sample.defaultServiceType Sample.handler
               [(Sample.refuseDeleteRS, CallRD Sample.rdSpec)] w in
  (wf (cluster (state w)) ∧ Forall exclusive (observed (state w)))
  ∧ (present ReplicationSource (cluster (state run.2)) "vrg" "data"
     ∧ present ReplicationDestination (cluster (state run.2)) "vrg" "data")
  ∧ ¬ Forall exclusive (observed (state run.2)).
Proof.
  cbv zeta.
  assert (Hboth :
    present ReplicationSource
      (cluster (state (runCalls Sample.secretNameOf Sample.defaultSchedule
         Sample.defaultServiceType Sample.handler
         [(Sample.refuseDeleteRS, CallRD Sample.rdSpec)]
         (Sample.withSource None)).2)) "vrg" "data"
    ∧ present ReplicationDestination
      (cluster (state (runCalls Sample.secretNameOf Sample.defaultSchedule
         Sample.defaultServiceType Sample.handler
         [(Sample.refuseDeleteRS, CallRD Sample.rdSpec)]
         (Sample.withSource None)).2)) "vrg" "data").
  { split; apply present_check; vm_compute; reflexivity. }
  split; [|split; [exact Hboth|]].
  - split; [apply withSource_wf | apply withSource_exclusive].
  - intros Hall. apply Forall_cons in Hall as [Hex _].
    exact (Hex "vrg" "data" Hboth).
Qed.

(** The amended statement on two quiet calls, the destination first. *)
Lemma roles_exclusive_when_deletions_accepted_witness :
  let w := Sample.withSource None in
  let calls := [(Sample.noFaults, CallRD Sample.rdSpec);
                (Sample.noFaults, CallRS Sample.rsSpec false)] in
  wf (cluster (state w))
  ∧ Forall exclusive (observed (state w))
  ∧ Forall (fun fc : Faults * Call => deletesAccepted fc.1) calls
  ∧ Forall exclusive
      (observed
         (state (runCalls Sample.secretNameOf Sample.defaultSchedule
                   Sample.defaultServiceType Sample.handler calls w).2)).
Proof.
  cbv zeta.
  assert (Hacc : Forall (fun fc : Faults * Call => deletesAccepted fc.1)
            [(Sample.noFaults, CallRD Sample.rdSpec);
             (Sample.noFaults, CallRS Sample.rsSpec false)]).
  { repeat constructor. }
  split; [apply withSource_wf|]. split; [apply withSource_exclusive|].
  split; [exact Hacc|].
  exact (roles_exclusive_when_deletions_accepted Sample.secretNameOf
           Sample.defaultSchedule Sample.defaultServiceType Sample.handler
           _ _ (withSource_wf None) (withSource_exclusive None) Hacc).
Defined.

(** ** C2 *)

(** C2, counterexample.  The claim is mounted by no pod and the status of
    the source echoes the final-sync token, but carries no last-sync time:
    the call returns (false, nil, nil) and the claim is still there. *)
Lemma final_sync_echo_without_sync_time :
  let w := Sample.beforeFinalSync Sample.echoOnly in
  let run := ReconcileRS Sample.secretNameOf Sample.defaultSchedule
               Sample.noFaults Sample.handler Sample.rsSpec true w in
  (rsStatus <$> rss (cluster (state w)) !! "data" = Some (Some Sample.echoOnly)
   ∧ LastManualSync Sample.echoOnly = FinalSyncTriggerString)
  ∧ ¬ inUse (cluster (state w)) "data"
  ∧ run.1 = (false, None, None)
  ∧ pvcs (cluster (state run.2)) !! "data"
    = Some (Sample.claimFromA ClaimBound ∅).
Proof.
  cbv zeta. split; [split; reflexivity|].
  split; [apply beforeFinalSync_idle|].
  split; vm_compute; reflexivity.
Qed.

(** The amended statement where the status carries a last-sync time as
    well: the call reports completion and the claim is gone. *)
Lemma final_sync_protocol_witness :
  let w := Sample.beforeFinalSync Sample.synced in
  let run := ReconcileRS Sample.secretNameOf Sample.defaultSchedule
               Sample.noFaults Sample.handler Sample.rsSpec true w in
  quiet Sample.noFaults
  ∧ wf (cluster (state w))
  ∧ ProtectedByVolSync (rsProtectedPVC Sample.rsSpec) = true
  ∧ is_Some (secrets (cluster (state w)) !! "vrg-vs-secret")
  ∧ ¬ inUse (cluster (state w)) "data"
  ∧ ∃ rs, run.1 = (true, Some rs, None)
          ∧ rsTrigger rs
            = Some {| trSchedule := None; trManual := FinalSyncTriggerString |}
          ∧ pvcs (cluster (state run.2)) !! "data" = None.
Proof.
  cbv zeta.
  assert (Hsec : is_Some (secrets (cluster (state
            (Sample.beforeFinalSync Sample.synced))) !! "vrg-vs-secret")).
  { eexists. reflexivity. }
  split; [exact noFaults_quiet|]. split; [apply beforeFinalSync_wf|].
  split; [reflexivity|]. split; [exact Hsec|].
  split; [apply beforeFinalSync_idle|].
  destruct (final_sync_protocol Sample.secretNameOf Sample.defaultSchedule
              Sample.noFaults Sample.handler Sample.rsSpec noFaults_quiet
              (Sample.beforeFinalSync Sample.synced)
              (beforeFinalSync_wf Sample.synced) eq_refl Hsec) as [_ Hidle].
  destruct Hidle as (rs & Hrs & Htrigger & Hdone).
  - apply beforeFinalSync_idle.
  - eexists. vm_compute. reflexivity.
  - intros old Hold. vm_compute in Hold. injection Hold as <-.
    vm_compute. exact I.
  - destruct (Hdone (Sample.source (Some Sample.synced)) Sample.synced
                1700000000) as [Hout Hgone];
      [reflexivity | reflexivity | reflexivity | lia | reflexivity |].
    exists rs. auto.
Defined.

(** ** C3 *)

(** C3, counterexample.  The claim was restored from snapshot A and
    snapshot B is wanted; the server refuses to delete claims.  The call
    fails with the recreation-required error, and the claim is still
    there, as it was. *)
Lemma mismatched_claim_survives_refused_deletion :
  let w := Sample.withClaim (Sample.claimFromA ClaimBound ∅) in
  let run := ensurePVCFromSnapshot Sample.refuseDeletePVC Sample.rdSpec
               Sample.snapB w in
  objectRefMatches (pvcDataSource (Sample.claimFromA ClaimBound ∅))
    (Some Sample.snapB) = false
  ∧ run.1 = Err (ENeedsRecreate "data")
  ∧ pvcs (cluster (state run.2)) !! "data"
    = Some (Sample.claimFromA ClaimBound ∅).
Proof. cbv zeta. repeat split; vm_compute; reflexivity. Qed.

(** The amended statement on a server that refuses nothing: the claim
    restored from snapshot A is deleted, and the next call creates one from
    snapshot B. *)
Lemma immutable_data_source_replace_witness :
  let w := Sample.withClaim (Sample.claimFromA ClaimBound ∅) in
  let first := ensurePVCFromSnapshot Sample.noFaults Sample.rdSpec
                 Sample.snapB w in
  let second := ensurePVCFromSnapshot Sample.noFaults Sample.rdSpec
                  Sample.snapB first.2 in
  (answers Sample.noFaults VGet KPVC "data"
   ∧ answers Sample.noFaults VCreate KPVC "data"
   ∧ answers Sample.noFaults VDelete KPVC "data")
  ∧ first.1 = Err (ENeedsRecreate "data")
  ∧ pvcs (cluster (state first.2)) !! "data" = None
  ∧ ∃ pvc', second.1 = Ok pvc'
            ∧ pvcs (cluster (state second.2)) !! "data" = Some pvc'
            ∧ pvcDataSource pvc' = Some Sample.snapB.
Proof.
  cbv zeta.
  split; [repeat split; apply quiet_answers, noFaults_quiet|].
  destruct (immutable_data_source_replace Sample.noFaults Sample.rdSpec
              Sample.snapB (Sample.withClaim (Sample.claimFromA ClaimBound ∅))
              (Sample.claimFromA ClaimBound ∅)
              (quiet_answers _ _ _ _ noFaults_quiet)
              (quiet_answers _ _ _ _ noFaults_quiet)
              eq_refl eq_refl eq_refl eq_refl) as (Hfirst & _ & Hnext).
  destruct (Hnext (quiet_answers _ _ _ _ noFaults_quiet)) as [Hgone Hsecond].
  split; [exact Hfirst|]. split; [exact Hgone|]. exact Hsecond.
Defined.

(** ** C5 *)

(** The statement on a cluster without the secret. *)
Lemma missing_secret_is_not_ready_witness :
  let w := Sample.noSecret in
  let rd := ReconcileRD Sample.secretNameOf Sample.defaultServiceType
              Sample.noFaults Sample.handler Sample.rdSpec w in
  let rs := ReconcileRS Sample.secretNameOf Sample.defaultSchedule
              Sample.noFaults Sample.handler Sample.rsSpec false w in
  (answers Sample.noFaults VGet KSecret (Sample.secretNameOf "vrg")
   ∧ secrets (cluster (state w)) !! Sample.secretNameOf "vrg" = None)
  ∧ (rd.1 = (None, None) ∧ state rd.2 = state w)
  ∧ (rs.1 = (false, None, None) ∧ state rs.2 = state w).
Proof.
  cbv zeta.
  assert (Hnone : secrets (cluster (state Sample.noSecret))
                   !! Sample.secretNameOf "vrg" = None) by reflexivity.
  split; [split; [apply quiet_answers, noFaults_quiet | exact Hnone]|].
  destruct (missing_secret_is_not_ready Sample.secretNameOf
              Sample.defaultSchedule Sample.defaultServiceType
              Sample.noFaults Sample.handler Sample.rdSpec Sample.rsSpec false
              Sample.noSecret
              (quiet_answers _ _ _ _ noFaults_quiet) Hnone) as [Hrd Hrs].
  split; [exact (Hrd eq_refl) | exact (Hrs eq_refl)].
Defined.

(** ** C6 *)

(** C6, counterexample.  The claim is bound, restored from the wanted
    snapshot, and requests one unit of storage; the descriptor asks for
    two.  The call succeeds and the claim still requests one. *)
Lemma bound_claim_keeps_its_resources :
  let w := Sample.withClaim (Sample.claimFromA ClaimBound ∅) in
  let run := ensurePVCFromSnapshot Sample.noFaults Sample.rdSpec
               Sample.snapA w in
  Resources (rdProtectedPVC Sample.rdSpec) = Sample.storage 2
  ∧ run.1 = Ok (Sample.claimFromA ClaimBound ∅)
  ∧ (pvcResources <$> pvcs (cluster (state run.2)) !! "data")
    = Some (Sample.storage 1)
  ∧ Sample.storage 1 ≠ Sample.storage 2.
Proof.
  cbv zeta. split; [reflexivity|].
  split; [vm_compute; reflexivity|]. split; [vm_compute; reflexivity|].
  intros E. apply (f_equal Storage) in E. vm_compute in E. discriminate.
Qed.

(** The amended statement on the same claim while it is still pending: the
    call brings its request to the descriptor's two units. *)
Lemma resources_applied_unless_bound_witness :
  let w := Sample.withClaim (Sample.claimFromA "Pending" ∅) in
  let run := ensurePVCFromSnapshot Sample.noFaults Sample.rdSpec
               Sample.snapA w in
  (answers Sample.noFaults VGet KPVC "data"
   ∧ answers Sample.noFaults VCreate KPVC "data"
   ∧ answers Sample.noFaults VUpdate KPVC "data")
  ∧ ∃ pvc', pvcs (cluster (state run.2)) !! "data" = Some pvc'
            ∧ pvcResources pvc' = Sample.storage 2.
Proof.
  cbv zeta.
  split; [repeat split; apply quiet_answers, noFaults_quiet|].
  pose proof (resources_applied_unless_bound Sample.noFaults Sample.rdSpec
                Sample.snapA (Sample.withClaim (Sample.claimFromA "Pending" ∅))
                (quiet_answers _ _ _ _ noFaults_quiet)
                (quiet_answers _ _ _ _ noFaults_quiet)
                (quiet_answers _ _ _ _ noFaults_quiet)) as Happlied.
  change (pvcs (cluster (state (Sample.withClaim (Sample.claimFromA "Pending" ∅))))
          !! Name (rdProtectedPVC Sample.rdSpec))
    with (Some (Sample.claimFromA "Pending" ∅)) in Happlied.
  specialize (Happlied eq_refl eq_refl).
  change (objectRefMatches (pvcDataSource (Sample.claimFromA "Pending" ∅))
            (Some Sample.snapA)) with true in Happlied.
  cbv beta iota in Happlied.
  destruct (decide (pvcPhase (Sample.claimFromA "Pending" ∅) = ClaimBound))
    as [Hbound|_]; [discriminate Hbound|].
  exact Happlied.
Defined.

(** ** C7 *)

(** The statement on a destination whose status names a snapshot, with no
    source beside it. *)
Lemma data_protected_reads_status_witness :
  let w := Sample.withDestination (Some Sample.restored) in
  (answers Sample.noFaults VGet KRD "data"
   ∧ answers Sample.noFaults VGet KRS "data")
  ∧ ((IsRDDataProtected Sample.noFaults "data" w).1 = (true, None)
     ∧ state (IsRDDataProtected Sample.noFaults "data" w).2 = state w)
  ∧ ((IsRSDataProtected Sample.noFaults "data" w).1 = (false, None)
     ∧ state (IsRSDataProtected Sample.noFaults "data" w).2 = state w).
Proof.
  cbv zeta.
  split; [split; apply quiet_answers, noFaults_quiet|].
  destruct (data_protected_reads_status Sample.noFaults "data"
              (Sample.withDestination (Some Sample.restored))
              (quiet_answers _ _ _ _ noFaults_quiet)
              (quiet_answers _ _ _ _ noFaults_quiet))
    as [(Hrd_state & Hrd_err & Hrd) (Hrs_state & Hrs_err & Hrs)].
  split; (split; [|assumption]).
  - apply injective_projections; [|exact Hrd_err].
    apply Hrd. exists (Sample.destination (Some Sample.restored)),
      Sample.restored, Sample.snapA.
    repeat split; try reflexivity. discriminate.
  - apply injective_projections; [|exact Hrs_err].
    apply not_true_is_false. intros Htrue. apply Hrs in Htrue.
    destruct Htrue as (rs & _ & _ & Hrs_found & _).
    vm_compute in Hrs_found. discriminate Hrs_found.
Defined.

(** ** C8 *)

Lemma withClaim_wf pvc :
  name (pvcMeta pvc) = "data" → wf (cluster (state (Sample.withClaim pvc))).
Proof.
  intros Hn. apply clusterWith_wf;
    [exact theSecret_keyed | now apply keyedMap_singleton
    | apply keyedMap_empty | apply keyedMap_empty].
Qed.

(** The statement on a claim whose reconcile option is merge and which
    carries one annotation of its own. *)
Lemma prepare_pvc_for_final_sync_witness :
  let pvc := Sample.claimFromA ClaimBound Sample.released in
  let w := Sample.withClaim pvc in
  let run := PreparePVCForFinalSync Sample.noFaults Sample.handler "data" w in
  (answers Sample.noFaults VGet KPVC "data"
   ∧ answers Sample.noFaults VUpdate KPVC "data"
   ∧ keyed (T := PersistentVolumeClaim) (cluster (state w)))
  ∧ run.1 = (true, None)
  ∧ ∃ pvc', pvcs (cluster (state run.2)) !! "data" = Some pvc'
            ∧ annotations (pvcMeta pvc') !! ACMReconcileOptionAnnotation = None
            ∧ annotations (pvcMeta pvc') !! "keep" = Some "yes".
Proof.
  cbv zeta.
  assert (Hkeyed : keyed (T := PersistentVolumeClaim)
            (cluster (state (Sample.withClaim
               (Sample.claimFromA ClaimBound Sample.released))))).
  { apply (withClaim_wf (Sample.claimFromA ClaimBound Sample.released)).
    reflexivity. }
  split; [repeat split; try apply quiet_answers, noFaults_quiet; exact Hkeyed|].
  pose proof (prepare_pvc_for_final_sync Sample.noFaults Sample.handler "data"
                (Sample.withClaim (Sample.claimFromA ClaimBound Sample.released))
                (quiet_answers _ _ _ _ noFaults_quiet)
                (quiet_answers _ _ _ _ noFaults_quiet) Hkeyed) as Hprep.
  change (pvcs (cluster (state (Sample.withClaim
            (Sample.claimFromA ClaimBound Sample.released)))) !! "data")
    with (Some (Sample.claimFromA ClaimBound Sample.released)) in Hprep.
  cbv beta iota in Hprep.
  assert (Hopt : annotations (pvcMeta (Sample.claimFromA ClaimBound Sample.released))
                 !! ACMReconcileOptionAnnotation = Some "merge")
    by (vm_compute; reflexivity).
  rewrite Hopt in Hprep.
  destruct (decide ("merge" = "merge")) as [_|Hne]; [|now destruct Hne].
  destruct Hprep as [Hout (pvc' & Hstored & Hkept)].
  split; [exact Hout|]. exists pvc'. split; [exact Hstored|].
  split.
  - rewrite (Hkept ACMReconcileOptionAnnotation). reflexivity.
  - rewrite (Hkept "keep"). vm_compute. reflexivity.
Defined.

(** ** C9 *)

(** C9, counterexample.  The owner has a source named data and the server
    refuses to delete sources during the first call: [ReconcileRD] logs the
    refusal and reports no error.  The second call, on a server that
    refuses nothing, deletes the source. *)
Lemma second_call_deletes_what_the_first_left :
  let w := Sample.withSource None in
  let first := ReconcileRD Sample.secretNameOf Sample.defaultServiceType
                 Sample.refuseDeleteRS Sample.handler Sample.rdSpec w in
  let second := ReconcileRD Sample.secretNameOf Sample.defaultServiceType
                  Sample.noFaults Sample.handler Sample.rdSpec first.2 in
  first.1 = (None, None)
  ∧ rss (cluster (state first.2)) !! "data"
    = Some (Sample.source None)
  ∧ rss (cluster (state second.2)) !! "data" = None
  ∧ ¬ unchanged (state first.2) (state second.2).
Proof.
  cbv zeta.
  assert (Hleft : rss (cluster (state (ReconcileRD Sample.secretNameOf
            Sample.defaultServiceType Sample.refuseDeleteRS Sample.handler
            Sample.rdSpec (Sample.withSource None)).2)) !! "data"
          = Some (Sample.source None)) by (vm_compute; reflexivity).
  assert (Hgone : rss (cluster (state (ReconcileRD Sample.secretNameOf
            Sample.defaultServiceType Sample.noFaults Sample.handler
            Sample.rdSpec (ReconcileRD Sample.secretNameOf
              Sample.defaultServiceType Sample.refuseDeleteRS Sample.handler
              Sample.rdSpec (Sample.withSource None)).2).2)) !! "data" = None)
    by (vm_compute; reflexivity).
  split; [vm_compute; reflexivity|]. split; [exact Hleft|].
  split; [exact Hgone|].
  intros [Hsame _]. rewrite Hsame, Hleft in Hgone. discriminate Hgone.
Qed.

(** The amended statement from the same cluster, on a server that refuses
    nothing. *)
Lemma reconcile_again_writes_nothing_witness :
  let w := Sample.withSource None in
  let rd := ReconcileRD Sample.secretNameOf Sample.defaultServiceType
              Sample.noFaults Sample.handler Sample.rdSpec in
  let rs := ReconcileRS Sample.secretNameOf Sample.defaultSchedule
              Sample.noFaults Sample.handler Sample.rsSpec false in
  (wf (cluster (state w)) ∧ deletesAccepted Sample.noFaults)
  ∧ ((rd w).1.2 = None ∧ unchanged (state (rd w).2) (state (rd (rd w).2).2))
  ∧ ((rs w).1.2 = None ∧ unchanged (state (rs w).2) (state (rs (rs w).2).2)).
Proof.
  cbv zeta.
  assert (Hacc : deletesAccepted Sample.noFaults) by (intros t n; split; reflexivity).
  split; [split; [apply withSource_wf | exact Hacc]|].
  destruct (reconcile_again_writes_nothing Sample.secretNameOf
              Sample.defaultSchedule Sample.defaultServiceType Sample.handler
              Sample.noFaults Sample.noFaults Sample.rdSpec Sample.rsSpec false
              (Sample.withSource None) (withSource_wf None) Hacc)
    as [Hrd Hrs].
  assert (Hrd_ok : (ReconcileRD Sample.secretNameOf Sample.defaultServiceType
            Sample.noFaults Sample.handler Sample.rdSpec
            (Sample.withSource None)).1.2 = None) by (vm_compute; reflexivity).
  assert (Hrs_ok : (ReconcileRS Sample.secretNameOf Sample.defaultSchedule
            Sample.noFaults Sample.handler Sample.rsSpec false
            (Sample.withSource None)).1.2 = None) by (vm_compute; reflexivity).
  split; (split; [assumption|]).
  - exact (Hrd Hrd_ok).
  - exact (Hrs Hrs_ok).
Defined.

(** * Further properties of the handler *)

(** ** The snapshot class of a storage class *)

Lemma matchVolumeSnapshotClass_snoc provisioner classes c :
  matchVolumeSnapshotClass provisioner (classes ++ [c]) =
  let matched := matchVolumeSnapshotClass provisioner classes in
  if String.eqb (Driver c) provisioner then
    if String.eqb matched "" || isDefaultVolumeSnapshotClass c
    then vscName c else matched
  else matched.
Proof. unfold matchVolumeSnapshotClass. now rewrite fold_left_app. Qed.

Lemma matchVolumeSnapshotClass_preferred provisioner classes :
  (∀ c, c ∈ classes → vscName c ≠ "") →
  matchVolumeSnapshotClass provisioner classes =
  from_option vscName "" (preferredClass provisioner classes).
Proof.
  induction classes as [|c classes IH] using rev_ind; intros Hnames.
  { reflexivity. }
  rewrite matchVolumeSnapshotClass_snoc. cbn zeta.
  rewrite IH by (intros x Hx; apply Hnames, elem_of_app; now left).
  assert (Hc : vscName c ≠ "").
  { apply Hnames, elem_of_app. right. now apply list_elem_of_singleton. }
  assert (Hpref : ∀ x, preferredClass provisioner classes = Some x →
                       vscName x ≠ "").
  { intros x Hx. apply Hnames, elem_of_app. left.
    unfold preferredClass in Hx.
    destruct (last _) as [y|] eqn:Hl.
    - injection Hx as ->. apply last_Some_elem_of in Hl.
      now apply list_elem_of_filter in Hl as [_ Hl].
    - apply head_Some_elem_of in Hx.
      now apply list_elem_of_filter in Hx as [_ Hx]. }
  unfold preferredClass in *. rewrite !filter_app, !filter_cons, !filter_nil.
  remember (filter (fun c => String.eqb (Driver c) provisioner
                             && isDefaultVolumeSnapshotClass c = true) classes)
    as defaults eqn:Hdefaults.
  remember (filter (fun c => String.eqb (Driver c) provisioner = true) classes)
    as matching eqn:Hmatching.
  destruct (String.eqb (Driver c) provisioner) eqn:Hd; cbn [andb].
  - destruct (isDefaultVolumeSnapshotClass c) eqn:Hdef.
    + rewrite decide_True by reflexivity. rewrite last_snoc.
      rewrite orb_true_r. reflexivity.
    + rewrite decide_False by discriminate. rewrite app_nil_r.
      rewrite decide_True by reflexivity. rewrite orb_false_r.
      destruct (last defaults) as [y|] eqn:Hl; cbn.
      * specialize (Hpref y eq_refl). apply String.eqb_neq in Hpref.
        now rewrite Hpref.
      * destruct matching as [|z zs]; cbn; [reflexivity|].
        specialize (Hpref z eq_refl). apply String.eqb_neq in Hpref.
        now rewrite Hpref.
  - rewrite !decide_False by discriminate. rewrite !app_nil_r. reflexivity.
Qed.

(** X1. Which snapshot class a storage class gets.  When the storage class
    exists, the requests are answered and every class has a name, the
    handler picks the last class of the provisioner that is marked as the
    default, or else the first class of the provisioner, and fails when the
    provisioner has no class. *)
Theorem snapshot_class_is_the_preferred_one (f : Faults) (v : VSHandler)
  (scName : string) (sc : StorageClass) (l : list VolumeSnapshotClass)
  (w : World) :
  answers f VGet KStorageClass scName → answers f VList KVSClass "" →
  scName ≠ "" →
  storageClasses (cluster (state w)) !! scName = Some sc →
  classesSeen v (state w) = Some l →
  (∀ c, c ∈ l → vscName c ≠ "") →
  (GetVolumeSnapshotClassFromPVCStorageClass f v (Some scName) w).1 =
    match preferredClass (Provisioner sc) l with
    | Some c => Ok (vscName c)
    | None => Err (ENoMatchingVSC (Provisioner sc))
    end.
Proof.
  intros HG HL Hne Hsc Hseen Hnames.
  unfold GetVolumeSnapshotClassFromPVCStorageClass.
  apply String.eqb_neq in Hne. rewrite Hne.
  unfold bind at 1.
  destruct (refused f VGet KStorageClass scName w) as [b w0] eqn:E0.
  apply refused_inv in E0 as [Hs0 ->]. rewrite HG. cbn [fst snd].
  unfold bind at 1, getCluster. cbn [fst snd]. rewrite Hs0, Hsc.
  unfold bind at 1.
  destruct (GetVolumeSnapshotClasses f v w0) as [r w1] eqn:E.
  apply GetVolumeSnapshotClasses_inv in E. rewrite Hs0 in E. cbn [fst snd].
  destruct r as [l'|e].
  - destruct E as [Hl' _]. rewrite Hseen in Hl'. injection Hl' as <-.
    rewrite (matchVolumeSnapshotClass_preferred _ _ Hnames).
    destruct (preferredClass (Provisioner sc) l) as [c|] eqn:Hp; cbn.
    + assert (Hc : vscName c ≠ "").
      { apply Hnames. unfold preferredClass in Hp.
        destruct (last _) as [y|] eqn:Hlast.
        - injection Hp as ->. apply last_Some_elem_of in Hlast.
          now apply list_elem_of_filter in Hlast as [_ Hlast].
        - apply head_Some_elem_of in Hp.
          now apply list_elem_of_filter in Hp as [_ Hp]. }
      apply String.eqb_neq in Hc. now rewrite Hc.
    + reflexivity.
  - destruct E as (_ & _ & [Hnone | [t Ht]]); [congruence|].
    rewrite HL in Ht. discriminate.
Qed.

(** X2. The snapshot classes are listed once.  After a call of
    [GetVolumeSnapshotClasses] that succeeded, every later call on the same
    handler returns the same list and sends no request, whatever has become
    of the classes on the cluster and whatever the server would answer. *)
Theorem snapshot_classes_are_listed_once (f f' : Faults) (v : VSHandler)
  (w w' : World) (l : list VolumeSnapshotClass) :
  (GetVolumeSnapshotClasses f v w).1 = Ok l →
  volumeSnapshotClassList (state w')
  = volumeSnapshotClassList (state (GetVolumeSnapshotClasses f v w).2) →
  GetVolumeSnapshotClasses f' v w' = (Ok l, w').
Proof.
  destruct (GetVolumeSnapshotClasses f v w) as [r w1] eqn:E. cbn [fst snd].
  intros -> Hcache. apply GetVolumeSnapshotClasses_inv in E as [_ E].
  assert (Hl : volumeSnapshotClassList (state w') = Some l).
  { rewrite Hcache. destruct E as [[-> Hc] | [-> _]]; [exact Hc | reflexivity]. }
  unfold GetVolumeSnapshotClasses, bind, getVolumeSnapshotClassList, ret.
  cbn [fst snd]. now rewrite Hl.
Qed.

(** ** The two reconcile calls, step by step *)

Section Runs.
Variable GetVolSyncSSHSecretNameFromVRGName : string → string.
Variable DefaultScheduleCronSpec DefaultRsyncServiceType : string.
Variable f : Faults.
Variable v : VSHandler.

Local Abbreviation reconcileRD :=
  (ReconcileRD GetVolSyncSSHSecretNameFromVRGName DefaultRsyncServiceType).
Local Abbreviation reconcileRS :=
  (ReconcileRS GetVolSyncSSHSecretNameFromVRGName DefaultScheduleCronSpec).
Local Abbreviation secretName :=
  (GetVolSyncSSHSecretNameFromVRGName (ownerName (owner v))).

(** The calls [ReconcileRD] makes, in order, and where each outcome makes
    it return. *)
Lemma ReconcileRD_run rdSpec w :
  ProtectedByVolSync (rdProtectedPVC rdSpec) = true →
  ∃ ok err w1,
    validateSecretAndAddVRGOwnerRef f v secretName w = ((ok, err), w1)
    ∧ if isErr err || negb ok then reconcileRD f v rdSpec w = ((None, err), w1)
      else
        ∃ derr w2,
          DeleteRS f v (Name (rdProtectedPVC rdSpec)) w1 = (derr, w2)
          ∧ match derr with
            | Some e => reconcileRD f v rdSpec w = ((None, Some e), w2)
            | None =>
                ∃ r w3,
                  createOrUpdateRD DefaultRsyncServiceType f v rdSpec secretName w2
                  = (r, w3)
                  ∧ match r with
                    | Err e => reconcileRD f v rdSpec w = ((None, Some e), w3)
                    | Ok rd =>
                        ∃ serr w4,
                          reconcileServiceExportForRD f rd w3 = (serr, w4)
                          ∧ reconcileRD f v rdSpec w =
                            (match serr with
                             | Some e => (None, Some e)
                             | None =>
                                 if rdStatusReady rd then (Some rd, None)
                                 else (None, None)
                             end, w4)
                    end
            end.
Proof.
  intros Hp. remember (reconcileRD f v rdSpec w) as run eqn:Erun.
  unfold ReconcileRD in Erun. rewrite Hp in Erun. cbn [negb] in Erun.
  unfold bind at 1 in Erun.
  destruct (validateSecretAndAddVRGOwnerRef f v secretName w) as [[ok err] w1].
  exists ok, err, w1. split; [reflexivity|]. cbn [fst snd] in Erun.
  destruct (isErr err || negb ok); [exact Erun|].
  unfold bind at 1 in Erun.
  destruct (DeleteRS f v _ w1) as [derr w2]. exists derr, w2.
  split; [reflexivity|]. cbn [fst snd] in Erun.
  destruct derr as [e|]; [exact Erun|].
  unfold bind at 1 in Erun.
  destruct (createOrUpdateRD _ f v rdSpec _ w2) as [r w3]. exists r, w3.
  split; [reflexivity|]. cbn [fst snd] in Erun.
  destruct r as [rd|e]; [|exact Erun].
  unfold bind at 1 in Erun.
  destruct (reconcileServiceExportForRD f rd w3) as [serr w4]. exists serr, w4.
  split; [reflexivity|]. cbn [fst snd] in Erun.
  destruct serr as [e|]; [exact Erun|].
  destruct (rdStatusReady rd); exact Erun.
Qed.

(** The calls [ReconcileRS] makes, in order, and where each outcome makes
    it return. *)
Lemma ReconcileRS_run rsSpec runFinalSync w :
  ProtectedByVolSync (rsProtectedPVC rsSpec) = true →
  ∃ ok err w1,
    validateSecretAndAddVRGOwnerRef f v secretName w = ((ok, err), w1)
    ∧ if isErr err || negb ok
      then reconcileRS f v rsSpec runFinalSync w = ((false, None, err), w1)
      else
        ∃ derr w2,
          DeleteRD f v (Name (rsProtectedPVC rsSpec)) w1 = (derr, w2)
          ∧ match derr with
            | Some e =>
                reconcileRS f v rsSpec runFinalSync w = ((false, None, Some e), w2)
            | None =>
                ∃ pvcOk verr w3,
                  validatePVCBeforeFinalSync f rsSpec runFinalSync w2
                  = ((pvcOk, verr), w3)
                  ∧ if negb pvcOk || isErr verr
                    then reconcileRS f v rsSpec runFinalSync w
                         = ((false, None, verr), w3)
                    else
                      ∃ r w4,
                        createOrUpdateRS DefaultScheduleCronSpec f v rsSpec
                          secretName runFinalSync w3 = (r, w4)
                        ∧ match r with
                          | Err e =>
                              reconcileRS f v rsSpec runFinalSync w
                              = ((false, None, Some e), w4)
                          | Ok rs =>
                              if negb (isRSLastSyncTimeReady (rsStatus rs))
                              then reconcileRS f v rsSpec runFinalSync w
                                   = ((false, None, None), w4)
                              else if runFinalSync && isFinalSyncComplete rs
                              then
                                ∃ cerr w5,
                                  deletePVC f (Name (rsProtectedPVC rsSpec)) w4
                                  = (cerr, w5)
                                  ∧ reconcileRS f v rsSpec runFinalSync w
                                    = ((true, Some rs, cerr), w5)
                              else reconcileRS f v rsSpec runFinalSync w
                                   = ((false, Some rs, None), w4)
                          end
            end.
Proof.
  intros Hp. remember (reconcileRS f v rsSpec runFinalSync w) as run eqn:Erun.
  unfold ReconcileRS in Erun. rewrite Hp in Erun. cbn [negb] in Erun.
  unfold bind at 1 in Erun.
  destruct (validateSecretAndAddVRGOwnerRef f v secretName w) as [[ok err] w1].
  exists ok, err, w1. split; [reflexivity|]. cbn [fst snd] in Erun.
  destruct (isErr err || negb ok); [exact Erun|].
  unfold bind at 1 in Erun.
  destruct (DeleteRD f v _ w1) as [derr w2]. exists derr, w2.
  split; [reflexivity|]. cbn [fst snd] in Erun.
  destruct derr as [e|]; [exact Erun|].
  unfold bind at 1 in Erun.
  destruct (validatePVCBeforeFinalSync f rsSpec runFinalSync w2)
    as [[pvcOk verr] w3].
  exists pvcOk, verr, w3. split; [reflexivity|]. cbn [fst snd] in Erun.
  destruct (negb pvcOk || isErr verr); [exact Erun|].
  unfold bind at 1 in Erun.
  destruct (createOrUpdateRS _ f v rsSpec _ runFinalSync w3) as [r w4].
  exists r, w4. split; [reflexivity|]. cbn [fst snd] in Erun.
  destruct r as [rs|e]; [|exact Erun].
  destruct (negb (isRSLastSyncTimeReady (rsStatus rs))); [exact Erun|].
  destruct (runFinalSync && isFinalSyncComplete rs); [|exact Erun].
  unfold bind, cleanupAfterRSFinalSync in Erun. cbn [fst snd] in Erun.
  destruct (deletePVC f _ w4) as [cerr w5]. exists cerr, w5.
  split; [reflexivity | exact Erun].
Qed.
End Runs.

(** ** What the reconcile calls leave alone *)

Lemma createOrUpdateRD_step DefaultRsyncServiceType f v rdSpec sn w r w1 :
  createOrUpdateRD DefaultRsyncServiceType f v rdSpec sn w = (r, w1) →
  wf (cluster (state w)) →
  ∃ s0, afterLookup v (state w) s0
        ∧ stepOn ReplicationDestination s0 (state w1).
Proof.
  intros E Hw. apply createOrUpdateRD_inv in E; [|exact (wf_keyed _ Hw)].
  cbn zeta in E. destruct E as (s0 & Hlook & E). exists s0.
  split; [exact Hlook|].
  assert (Hw0 : wf (cluster s0))
    by (rewrite (afterLookup_cluster _ _ _ Hlook); exact Hw).
  destruct r as [rd|e].
  - destruct E as (vsc & _ & Hn & _ & _ & [-> | ->] & _); [apply stepOn_refl|].
    exact (stepOn_insert ReplicationDestination s0 _ rd Hw0 Hn).
  - destruct E as [-> _]. apply stepOn_refl.
Qed.

Lemma createOrUpdateRS_step DefaultScheduleCronSpec f v rsSpec sn runFinalSync
  w r w1 :
  createOrUpdateRS DefaultScheduleCronSpec f v rsSpec sn runFinalSync w = (r, w1) →
  wf (cluster (state w)) →
  ∃ s0, afterLookup v (state w) s0
        ∧ stepOn ReplicationSource s0 (state w1).
Proof.
  intros E Hw. apply createOrUpdateRS_inv in E; [|exact (wf_keyed _ Hw)].
  cbn zeta in E. destruct E as (s0 & Hlook & E). exists s0.
  split; [exact Hlook|].
  assert (Hw0 : wf (cluster s0))
    by (rewrite (afterLookup_cluster _ _ _ Hlook); exact Hw).
  destruct r as [rs|e].
  - destruct E as (vsc & tr & _ & _ & Hn & _ & _ & _ & [-> | ->] & _);
      [apply stepOn_refl|].
    exact (stepOn_insert ReplicationSource s0 _ rs Hw0 Hn).
  - destruct E as [-> _]. apply stepOn_refl.
Qed.

Lemma reconcileServiceExportForRD_step f rd w r w1 :
  reconcileServiceExportForRD f rd w = (r, w1) → wf (cluster (state w)) →
  stepOn ServiceExport (state w) (state w1).
Proof.
  intros E Hw. apply reconcileServiceExportForRD_inv in E; [|exact (wf_keyed _ Hw)].
  cbn zeta in E. destruct r as [e|].
  - destruct E as [-> _]. apply stepOn_refl.
  - destruct E as (se & Hn & _ & _ & [-> | ->]); [apply stepOn_refl|].
    exact (stepOn_insert ServiceExport (state w) _ se Hw Hn).
Qed.

Lemma deletePVC_step f n w r w1 :
  deletePVC f n w = (r, w1) → wf (cluster (state w)) →
  stepOn PersistentVolumeClaim (state w) (state w1).
Proof.
  intros E Hw. apply deletePVC_inv in E.
  destruct E as [(_ & -> & _) | [(_ & -> & _) | (_ & _ & ->)]];
    try apply stepOn_refl.
  exact (stepOn_delete PersistentVolumeClaim (state w) n Hw).
Qed.

(** No step on another kind changes the snapshots. *)
Lemma steps_keep_snapshots s s' :
  stepOn Secret s s' ∨ stepOn PersistentVolumeClaim s s'
  ∨ stepOn ReplicationSource s s' ∨ stepOn ReplicationDestination s s'
  ∨ stepOn ServiceExport s s' →
  snapshots (cluster s') = snapshots (cluster s).
Proof. intros [H | [H | [H | [H | H]]]]; untouched H. Qed.

Section Spared.
Variable GetVolSyncSSHSecretNameFromVRGName : string → string.
Variable DefaultScheduleCronSpec DefaultRsyncServiceType : string.
Variable f : Faults.
Variable v : VSHandler.

Local Abbreviation reconcileRD :=
  (ReconcileRD GetVolSyncSSHSecretNameFromVRGName DefaultRsyncServiceType).
Local Abbreviation reconcileRS :=
  (ReconcileRS GetVolSyncSSHSecretNameFromVRGName DefaultScheduleCronSpec).

(** The tables [ReconcileRD] cannot change. *)
Lemma ReconcileRD_spares rdSpec w :
  wf (cluster (state w)) →
  wf (cluster (state (reconcileRD f v rdSpec w).2))
  ∧ pvcs (cluster (state (reconcileRD f v rdSpec w).2)) = pvcs (cluster (state w))
  ∧ snapshots (cluster (state (reconcileRD f v rdSpec w).2))
    = snapshots (cluster (state w)).
Proof.
  intros Hw.
  destruct (ProtectedByVolSync (rdProtectedPVC rdSpec)) eqn:Hp.
  2:{ unfold ReconcileRD. rewrite Hp. cbn. auto. }
  destruct (ReconcileRD_run GetVolSyncSSHSecretNameFromVRGName
              DefaultRsyncServiceType f v rdSpec w Hp)
    as (ok & err & w1 & E1 & Hrun).
  apply validateSecret_step in E1 as [Hstep1 _]; [|exact Hw].
  pose proof (stepOn_wf _ _ _ Hstep1 Hw) as Hw1.
  pose proof (secret_step_others _ _ Hstep1) as (Hp1 & _).
  pose proof (steps_keep_snapshots _ _ (or_introl Hstep1)) as Hv1.
  destruct (isErr err || negb ok).
  { rewrite Hrun. cbn. auto. }
  destruct Hrun as (derr & w2 & E2 & Hrun).
  apply DeleteRS_step in E2 as (Hstep2 & _); [|exact Hw1].
  pose proof (stepOn_wf _ _ _ Hstep2 Hw1) as Hw2.
  pose proof (rs_step_others _ _ Hstep2) as (_ & Hp2 & _).
  pose proof (steps_keep_snapshots _ _ (or_intror (or_intror (or_introl Hstep2))))
    as Hv2.
  destruct derr as [e|].
  { rewrite Hrun. cbn. split; [exact Hw2|]. split; congruence. }
  destruct Hrun as (r & w3 & E3 & Hrun).
  apply createOrUpdateRD_step in E3 as (s0 & Hlook & Hstep3); [|exact Hw2].
  pose proof (afterLookup_cluster _ _ _ Hlook) as Hc0.
  assert (Hw0 : wf (cluster s0)) by (rewrite Hc0; exact Hw2).
  pose proof (stepOn_wf _ _ _ Hstep3 Hw0) as Hw3.
  pose proof (rd_step_others _ _ Hstep3) as (_ & Hp3 & _).
  pose proof (steps_keep_snapshots _ _
                (or_intror (or_intror (or_intror (or_introl Hstep3))))) as Hv3.
  rewrite Hc0 in Hp3, Hv3.
  destruct r as [rd|e].
  2:{ rewrite Hrun. cbn. split; [exact Hw3|]. split; congruence. }
  destruct Hrun as (serr & w4 & E4 & Hrun).
  apply reconcileServiceExportForRD_step in E4; [|exact Hw3].
  pose proof (stepOn_wf _ _ _ E4 Hw3) as Hw4.
  pose proof (se_step_others _ _ E4) as (_ & Hp4 & _).
  pose proof (steps_keep_snapshots _ _
                (or_intror (or_intror (or_intror (or_intror E4))))) as Hv4.
  rewrite Hrun. cbn. split; [exact Hw4|]. split; congruence.
Qed.

(** X3. Neither reconcile call ever creates, changes or removes a snapshot,
    and neither changes a claim.  [ReconcileRD] leaves the claims as they
    are; [ReconcileRS] leaves them as they are unless it reports the final
    sync as complete, in which case the one thing it has done to them is to
    delete the protected claim. *)
Theorem reconcile_spares_claims_and_snapshots
  (rdSpec : VolSyncReplicationDestinationSpec)
  (rsSpec : VolSyncReplicationSourceSpec) (runFinalSync : bool) (w : World) :
  wf (cluster (state w)) →
  let rd := reconcileRD f v rdSpec w in
  let rs := reconcileRS f v rsSpec runFinalSync w in
  (pvcs (cluster (state rd.2)) = pvcs (cluster (state w))
   ∧ snapshots (cluster (state rd.2)) = snapshots (cluster (state w)))
  ∧ snapshots (cluster (state rs.2)) = snapshots (cluster (state w))
  ∧ (pvcs (cluster (state rs.2)) = pvcs (cluster (state w))
     ∨ rs.1.1.1 = true ∧ runFinalSync = true
       ∧ pvcs (cluster (state rs.2))
         = delete (Name (rsProtectedPVC rsSpec)) (pvcs (cluster (state w)))).
Proof.
  intros Hw rd rs. split; [exact (proj2 (ReconcileRD_spares rdSpec w Hw))|].
  subst rs.
  destruct (ProtectedByVolSync (rsProtectedPVC rsSpec)) eqn:Hp.
  2:{ unfold ReconcileRS. rewrite Hp. cbn. auto. }
  destruct (ReconcileRS_run GetVolSyncSSHSecretNameFromVRGName
              DefaultScheduleCronSpec f v rsSpec runFinalSync w Hp)
    as (ok & err & w1 & E1 & Hrun).
  apply validateSecret_step in E1 as [Hstep1 _]; [|exact Hw].
  pose proof (stepOn_wf _ _ _ Hstep1 Hw) as Hw1.
  pose proof (secret_step_others _ _ Hstep1) as (Hp1 & _).
  pose proof (steps_keep_snapshots _ _ (or_introl Hstep1)) as Hv1.
  destruct (isErr err || negb ok).
  { rewrite Hrun. cbn. auto. }
  destruct Hrun as (derr & w2 & E2 & Hrun).
  apply DeleteRD_step in E2 as (Hstep2 & _); [|exact Hw1].
  pose proof (stepOn_wf _ _ _ Hstep2 Hw1) as Hw2.
  pose proof (rd_step_others _ _ Hstep2) as (_ & Hp2 & _).
  pose proof (steps_keep_snapshots _ _
                (or_intror (or_intror (or_intror (or_introl Hstep2))))) as Hv2.
  destruct derr as [e|].
  { rewrite Hrun. cbn. split; [congruence | left; congruence]. }
  destruct Hrun as (pvcOk & verr & w3 & E3 & Hrun).
  apply validatePVCBeforeFinalSync_inv in E3 as [Hs3 _].
  destruct (negb pvcOk || isErr verr).
  { rewrite Hrun. cbn. rewrite Hs3. split; [congruence | left; congruence]. }
  destruct Hrun as (r & w4 & E4 & Hrun).
  apply createOrUpdateRS_step in E4 as (s0 & Hlook & Hstep4);
    [|rewrite Hs3; exact Hw2].
  pose proof (afterLookup_cluster _ _ _ Hlook) as Hc0. rewrite Hs3 in Hc0.
  assert (Hw0 : wf (cluster s0)) by (rewrite Hc0; exact Hw2).
  pose proof (stepOn_wf _ _ _ Hstep4 Hw0) as Hw4.
  pose proof (rs_step_others _ _ Hstep4) as (_ & Hp4 & _).
  pose proof (steps_keep_snapshots _ _
                (or_intror (or_intror (or_introl Hstep4)))) as Hv4.
  rewrite Hc0 in Hp4, Hv4.
  assert (Hsame : snapshots (cluster (state w4)) = snapshots (cluster (state w))
                  ∧ pvcs (cluster (state w4)) = pvcs (cluster (state w)))
    by (split; congruence).
  destruct r as [rs|e].
  2:{ rewrite Hrun. cbn. split; [apply Hsame | left; apply Hsame]. }
  destruct (negb (isRSLastSyncTimeReady (rsStatus rs))).
  { rewrite Hrun. cbn. split; [apply Hsame | left; apply Hsame]. }
  destruct (runFinalSync && isFinalSyncComplete rs) eqn:Hfinal.
  2:{ rewrite Hrun. cbn. split; [apply Hsame | left; apply Hsame]. }
  destruct Hrun as (cerr & w5 & E5 & Hrun). rewrite Hrun. cbn.
  apply andb_true_iff in Hfinal as [-> _].
  apply deletePVC_inv in E5.
  destruct E5 as [(_ & -> & _) | [(_ & -> & _) | (_ & _ & ->)]];
    try (split; [apply Hsame | left; apply Hsame]).
  cbn. split; [apply Hsame|]. right. split; [reflexivity|].
  split; [reflexivity|]. now rewrite (proj2 Hsame).
Qed.
End Spared.

(** ** When the create-or-update cannot go ahead *)

Section Blocked.
Variable GetVolSyncSSHSecretNameFromVRGName : string → string.
Variable DefaultScheduleCronSpec DefaultRsyncServiceType : string.
Variable f : Faults.
Variable v : VSHandler.

Local Abbreviation reconcileRD :=
  (ReconcileRD GetVolSyncSSHSecretNameFromVRGName DefaultRsyncServiceType).
Local Abbreviation reconcileRS :=
  (ReconcileRS GetVolSyncSSHSecretNameFromVRGName DefaultScheduleCronSpec).
Local Abbreviation secretName :=
  (GetVolSyncSSHSecretNameFromVRGName (ownerName (owner v))).

(** A destination that came out of the create-or-update was not under
    another controller before. *)
Lemma createOrUpdateRD_controllable rdSpec sn w rd w1 old :
  createOrUpdateRD DefaultRsyncServiceType f v rdSpec sn w = (Ok rd, w1) →
  keyed (T := ReplicationDestination) (cluster (state w)) →
  rds (cluster (state w)) !! Name (rdProtectedPVC rdSpec) = Some old →
  controllable v (rdMeta old).
Proof.
  intros E Hk Hold. unfold createOrUpdateRD, bind, ret in E.
  destruct (GetVolumeSnapshotClassFromPVCStorageClass f v _ w) as [g w0] eqn:EG.
  apply GetVSCFromSC_inv in EG as [Hlook _].
  pose proof (afterLookup_cluster _ _ _ Hlook) as Hc.
  destruct g as [vsc|e]; cbn in E; [|discriminate].
  destruct (ctrlutil.CreateOrUpdate f _ _ tt w0) as [[[] c] w2] eqn:EC.
  apply (CreateOrUpdate_settles f _ (mutateRD_settling _ _ _ _ _)) in EC;
    [|rewrite Hc; exact Hk].
  cbn in EC. unfold nameOf in EC. cbn in EC.
  unfold getReplicationDestinationName in EC. rewrite Hc in EC.
  destruct c as [[op rd']|e]; cbn in E; [|discriminate].
  destruct EC as (_ & _ & _ & _ & base & y' & Hm & Hbase).
  apply mutateRD_ok in Hm as [_ Hctl].
  destruct Hbase as [[Hb _] | (Hb & _)]; [|congruence].
  rewrite Hold in Hb. injection Hb as <-. exact Hctl.
Qed.

Lemma createOrUpdateRS_controllable rsSpec sn runFinalSync w rs w1 old :
  createOrUpdateRS DefaultScheduleCronSpec f v rsSpec sn runFinalSync w
  = (Ok rs, w1) →
  keyed (T := ReplicationSource) (cluster (state w)) →
  rss (cluster (state w)) !! Name (rsProtectedPVC rsSpec) = Some old →
  controllable v (rsMeta old).
Proof.
  intros E Hk Hold. unfold createOrUpdateRS, bind, ret in E.
  destruct (GetVolumeSnapshotClassFromPVCStorageClass f v _ w) as [g w0] eqn:EG.
  apply GetVSCFromSC_inv in EG as [Hlook _].
  pose proof (afterLookup_cluster _ _ _ Hlook) as Hc.
  destruct g as [vsc|e]; cbn in E; [|discriminate].
  destruct (ctrlutil.CreateOrUpdate f _ _ tt w0) as [[[] c] w2] eqn:EC.
  apply (CreateOrUpdate_settles f _ (mutateRS_settling _ _ _ _ _ _ _)) in EC;
    [|rewrite Hc; exact Hk].
  cbn in EC. unfold nameOf in EC. cbn in EC.
  unfold getReplicationSourceName in EC. rewrite Hc in EC.
  destruct c as [[op rs']|e]; cbn in E; [|discriminate].
  destruct EC as (_ & _ & _ & _ & base & y' & Hm & Hbase).
  apply mutateRS_ok in Hm as (trigger & _ & _ & Hctl).
  destruct Hbase as [[Hb _] | (Hb & _)]; [|congruence].
  rewrite Hold in Hb. injection Hb as <-. exact Hctl.
Qed.

(** The snapshot class of a storage class is the same after a step that
    leaves the storage classes, the snapshot classes and the handler's list
    alone. *)
Lemma snapshotClassFor_step (T : Type) `{Stored T} s s' sc :
  stepOn T s s' →
  storageClasses (cluster s') = storageClasses (cluster s) →
  volumeSnapshotClasses (cluster s') = volumeSnapshotClasses (cluster s) →
  snapshotClassFor v s' sc = snapshotClassFor v s sc.
Proof.
  intros Hstep H1 H2. apply snapshotClassFor_same; auto.
  exact (stepOn_cache _ _ _ Hstep).
Qed.

(** X4. When no snapshot class resolves for the descriptor's storage
    class, or the object of the role is there under another controller, the
    reconcile call does not create or change the object of its role.
    [ReconcileRD] then returns an error; so does [ReconcileRS], unless it
    stopped before, because the claim of a final sync is still mounted. *)
Theorem blocked_reconcile_writes_no_role
  (rdSpec : VolSyncReplicationDestinationSpec)
  (rsSpec : VolSyncReplicationSourceSpec) (runFinalSync : bool) (w : World) :
  wf (cluster (state w)) →
  is_Some (secrets (cluster (state w)) !! secretName) →
  let rd := reconcileRD f v rdSpec w in
  let rs := reconcileRS f v rsSpec runFinalSync w in
  (ProtectedByVolSync (rdProtectedPVC rdSpec) = true →
   snapshotClassFor v (state w) (StorageClassName (rdProtectedPVC rdSpec)) = None
   ∨ (∃ old, rds (cluster (state w)) !! Name (rdProtectedPVC rdSpec) = Some old
             ∧ ¬ controllable v (rdMeta old)) →
   is_Some rd.1.2 ∧ rds (cluster (state rd.2)) = rds (cluster (state w)))
  ∧ (ProtectedByVolSync (rsProtectedPVC rsSpec) = true →
     snapshotClassFor v (state w) (StorageClassName (rsProtectedPVC rsSpec)) = None
     ∨ (∃ old, rss (cluster (state w)) !! Name (rsProtectedPVC rsSpec) = Some old
               ∧ ¬ controllable v (rsMeta old)) →
     rss (cluster (state rs.2)) = rss (cluster (state w))
     ∧ (rs.1.2 = None →
        runFinalSync = true
        ∧ inUse (cluster (state w)) (Name (rsProtectedPVC rsSpec)))).
Proof.
  intros Hw Hsec rd rs. subst rd rs. split; intros Hp Hwhy.
  - destruct (ReconcileRD_run GetVolSyncSSHSecretNameFromVRGName
                DefaultRsyncServiceType f v rdSpec w Hp)
      as (ok & err & w1 & E1 & Hrun).
    apply validateSecret_step in E1 as [Hstep1 Hr1]; [|exact Hw].
    pose proof (stepOn_wf _ _ _ Hstep1 Hw) as Hw1.
    pose proof (secret_step_others _ _ Hstep1) as (_ & _ & Hrds1 & _ & _ & Hsc1 & Hvs1).
    destruct err as [e|]; cbn [isErr orb] in Hrun.
    { rewrite Hrun. cbn. split; [eauto | exact Hrds1]. }
    destruct ok; cbn [negb] in Hrun.
    2:{ destruct Hr1 as [_ Hnone]. rewrite Hnone in Hsec.
        now destruct Hsec. }
    destruct Hrun as (derr & w2 & E2 & Hrun).
    apply DeleteRS_step in E2 as (Hstep2 & _); [|exact Hw1].
    pose proof (stepOn_wf _ _ _ Hstep2 Hw1) as Hw2.
    pose proof (rs_step_others _ _ Hstep2) as (_ & _ & Hrds2 & _ & _ & Hsc2 & Hvs2).
    destruct derr as [e|].
    { rewrite Hrun. cbn. split; [eauto | congruence]. }
    destruct Hrun as (r & w3 & E3 & Hrun).
    destruct r as [rd|e].
    + exfalso. destruct Hwhy as [Hnone | (old & Hold & Hctl)].
      * apply createOrUpdateRD_inv in E3; [|exact (wf_keyed _ Hw2)].
        cbn zeta in E3. destruct E3 as (s0 & _ & vsc & Hvsc & _).
        rewrite (snapshotClassFor_step _ _ _ _ Hstep2 Hsc2 Hvs2) in Hvsc.
        rewrite (snapshotClassFor_step _ _ _ _ Hstep1 Hsc1 Hvs1) in Hvsc.
        congruence.
      * apply Hctl.
        apply (createOrUpdateRD_controllable _ _ _ _ _ _ E3 (wf_keyed _ Hw2)).
        now rewrite Hrds2, Hrds1.
    + apply createOrUpdateRD_inv in E3; [|exact (wf_keyed _ Hw2)].
      cbn zeta in E3. destruct E3 as (s0 & Hlook & Hs3 & _).
      rewrite Hrun. cbn. split; [eauto|].
      rewrite Hs3, (afterLookup_cluster _ _ _ Hlook). congruence.
  - destruct (ReconcileRS_run GetVolSyncSSHSecretNameFromVRGName
                DefaultScheduleCronSpec f v rsSpec runFinalSync w Hp)
      as (ok & err & w1 & E1 & Hrun).
    apply validateSecret_step in E1 as [Hstep1 Hr1]; [|exact Hw].
    pose proof (stepOn_wf _ _ _ Hstep1 Hw) as Hw1.
    pose proof (secret_step_others _ _ Hstep1)
      as (Hpvc1 & Hrss1 & _ & _ & Hpod1 & Hsc1 & Hvs1).
    destruct err as [e|]; cbn [isErr orb] in Hrun.
    { rewrite Hrun. cbn. split; [exact Hrss1 | discriminate]. }
    destruct ok; cbn [negb] in Hrun.
    2:{ destruct Hr1 as [_ Hnone]. rewrite Hnone in Hsec.
        now destruct Hsec. }
    destruct Hrun as (derr & w2 & E2 & Hrun).
    apply DeleteRD_step in E2 as (Hstep2 & _); [|exact Hw1].
    pose proof (stepOn_wf _ _ _ Hstep2 Hw1) as Hw2.
    pose proof (rd_step_others _ _ Hstep2)
      as (_ & Hpvc2 & Hrss2 & _ & Hpod2 & Hsc2 & Hvs2).
    destruct derr as [e|].
    { rewrite Hrun. cbn. split; [congruence | discriminate]. }
    destruct Hrun as (pvcOk & verr & w3 & E3 & Hrun).
    apply validatePVCBeforeFinalSync_inv in E3 as [Hs3 Hr3]. cbn zeta in Hr3.
    assert (Huse : inUse (cluster (state w2)) (Name (rsProtectedPVC rsSpec)) ↔
                   inUse (cluster (state w)) (Name (rsProtectedPVC rsSpec))).
    { etrans; [apply inUse_same; [exact Hpvc2 | exact Hpod2]|].
      apply inUse_same; [exact Hpvc1 | exact Hpod1]. }
    destruct verr as [e|].
    { rewrite orb_true_r in Hrun. rewrite Hrun. cbn. rewrite Hs3.
      split; [congruence | discriminate]. }
    destruct pvcOk; cbn [negb orb isErr] in Hrun.
    2:{ rewrite Hrun. cbn. rewrite Hs3. split; [congruence|]. intros _.
        destruct runFinalSync; [|discriminate Hr3].
        destruct Hr3 as [[(e & He) _] | [[_ Hin] | [He _]]]; try discriminate.
        split; [reflexivity | now apply Huse]. }
    destruct Hrun as (r & w4 & E4 & Hrun).
    assert (Hw3 : wf (cluster (state w3))) by (rewrite Hs3; exact Hw2).
    destruct r as [rs|e].
    + exfalso. destruct Hwhy as [Hnone | (old & Hold & Hctl)].
      * apply createOrUpdateRS_inv in E4; [|exact (wf_keyed _ Hw3)].
        cbn zeta in E4. destruct E4 as (s0 & _ & vsc & tr & Hvsc & _).
        rewrite Hs3 in Hvsc.
        rewrite (snapshotClassFor_step _ _ _ _ Hstep2 Hsc2 Hvs2) in Hvsc.
        rewrite (snapshotClassFor_step _ _ _ _ Hstep1 Hsc1 Hvs1) in Hvsc.
        congruence.
      * apply Hctl.
        apply (createOrUpdateRS_controllable _ _ _ _ _ _ _ E4 (wf_keyed _ Hw3)).
        now rewrite Hs3, Hrss2, Hrss1.
    + apply createOrUpdateRS_inv in E4; [|exact (wf_keyed _ Hw3)].
      cbn zeta in E4. destruct E4 as (s0 & Hlook & Hs4 & _).
      rewrite Hrun. cbn. split; [|discriminate].
      rewrite Hs4, (afterLookup_cluster _ _ _ Hlook), Hs3. congruence.
Qed.
End Blocked.

(** ** The schedule of a source *)

Section Schedule.
Variable GetVolSyncSSHSecretNameFromVRGName : string → string.
Variable DefaultScheduleCronSpec : string.
Variable f : Faults.
Variable v : VSHandler.

Local Abbreviation reconcileRS :=
  (ReconcileRS GetVolSyncSSHSecretNameFromVRGName DefaultScheduleCronSpec).
Local Abbreviation secretName :=
  (GetVolSyncSSHSecretNameFromVRGName (ownerName (owner v))).

Lemma triggerFor_schedule :
  triggerFor DefaultScheduleCronSpec v false =
  match getScheduleCronSpec DefaultScheduleCronSpec v with
  | Err e => Err e
  | Ok spec => Ok {| trSchedule := Some spec; trManual := "" |}
  end.
Proof. reflexivity. Qed.

(** X5. A scheduling interval that does not translate stops a regular
    reconcile of the source: on a server that answers every request, with
    the secret in place, a snapshot class that resolves and no other
    controller on the source, [ReconcileRS] without final sync returns the
    translator's error and neither creates nor changes a source. *)
Theorem untranslatable_interval_stops_the_source
  (rsSpec : VolSyncReplicationSourceSpec) (w : World) (e : error) :
  quiet f → wf (cluster (state w)) →
  ProtectedByVolSync (rsProtectedPVC rsSpec) = true →
  is_Some (secrets (cluster (state w)) !! secretName) →
  is_Some (snapshotClassFor v (state w) (StorageClassName (rsProtectedPVC rsSpec))) →
  (∀ old, rss (cluster (state w)) !! Name (rsProtectedPVC rsSpec) = Some old →
          controllable v (rsMeta old)) →
  getScheduleCronSpec DefaultScheduleCronSpec v = Err e →
  (reconcileRS f v rsSpec false w).1 = (false, None, Some e)
  ∧ rss (cluster (state (reconcileRS f v rsSpec false w).2))
    = rss (cluster (state w)).
Proof.
  intros Hq Hw Hp Hsec Hvsc Hctl Hsched.
  destruct (ReconcileRS_run GetVolSyncSSHSecretNameFromVRGName
              DefaultScheduleCronSpec f v rsSpec false w Hp)
    as (ok & err & w1 & E1 & Hrun).
  apply validateSecret_step in E1 as [Hstep1 Hr1]; [|exact Hw].
  pose proof (stepOn_wf _ _ _ Hstep1 Hw) as Hw1.
  pose proof (secret_step_others _ _ Hstep1)
    as (_ & Hrss1 & _ & _ & _ & Hsc1 & Hvs1).
  destruct err as [e1|].
  { destruct ok; destruct Hr1 as (t & V & Ht); rewrite Hq in Ht; discriminate. }
  destruct ok; cbn [isErr negb orb] in Hrun.
  2:{ destruct Hr1 as [_ Hnone]. rewrite Hnone in Hsec. now destruct Hsec. }
  destruct Hrun as (derr & w2 & E2 & Hrun).
  apply DeleteRD_step in E2 as (Hstep2 & _ & Hr2); [|exact Hw1].
  pose proof (stepOn_wf _ _ _ Hstep2 Hw1) as Hw2.
  pose proof (rd_step_others _ _ Hstep2)
    as (_ & _ & Hrss2 & _ & _ & Hsc2 & Hvs2).
  destruct derr as [e2|].
  { destruct Hr2 as [t Ht]. rewrite Hq in Ht. discriminate. }
  destruct Hrun as (pvcOk & verr & w3 & E3 & Hrun).
  apply validatePVCBeforeFinalSync_inv in E3 as [Hs3 Hr3]. cbn zeta in Hr3.
  injection Hr3 as -> ->. cbn [negb orb isErr] in Hrun.
  destruct Hrun as (r & w4 & E4 & Hrun).
  apply createOrUpdateRS_inv in E4; [|rewrite Hs3; exact (wf_keyed _ Hw2)].
  cbn zeta in E4. destruct E4 as (s0 & Hlook & E4).
  rewrite triggerFor_schedule, Hsched in E4.
  destruct r as [rs|e4].
  { destruct E4 as (vsc & tr & _ & Htr & _). discriminate Htr. }
  destruct E4 as [Hs4 Hwhy]. rewrite Hrun. cbn.
  split.
  - destruct Hwhy as [Hnone | [(t & V & K & m & Ht) | [(base & Hb & Hbase) | Htr]]].
    + rewrite Hs3 in Hnone.
      rewrite (snapshotClassFor_step v _ _ _ _ Hstep2 Hsc2 Hvs2) in Hnone.
      rewrite (snapshotClassFor_step v _ _ _ _ Hstep1 Hsc1 Hvs1) in Hnone.
      rewrite Hnone in Hvsc. now destruct Hvsc.
    + rewrite Hq in Ht. discriminate.
    + exfalso. apply Hb, Hctl. rewrite <- Hrss1, <- Hrss2, <- Hs3. exact Hbase.
    + now injection Htr as ->.
  - rewrite Hs4, (afterLookup_cluster _ _ _ Hlook), Hs3. congruence.
Qed.
End Schedule.

(** ** What a reconcile call that went through leaves *)

Lemma upsertOwnerRef_elem ref l : ref ∈ ctrlutil.upsertOwnerRef ref l.
Proof.
  induction l as [|o os IH].
  - rewrite upsertOwnerRef_nil. apply list_elem_of_singleton. reflexivity.
  - rewrite upsertOwnerRef_cons. destruct (ctrlutil.referSameObject o ref).
    + apply elem_of_cons. now left.
    + apply elem_of_cons. now right.
Qed.

Lemma settledMeta_controller v m :
  controllerRef v ∈ ownerReferences (settledMeta v m).
Proof. unfold settledMeta. cbn. apply upsertOwnerRef_elem. Qed.

Section Reconciled.
Variable GetVolSyncSSHSecretNameFromVRGName : string → string.
Variable DefaultScheduleCronSpec DefaultRsyncServiceType : string.
Variable f : Faults.
Variable v : VSHandler.

Local Abbreviation reconcileRD :=
  (ReconcileRD GetVolSyncSSHSecretNameFromVRGName DefaultRsyncServiceType).
Local Abbreviation reconcileRS :=
  (ReconcileRS GetVolSyncSSHSecretNameFromVRGName DefaultScheduleCronSpec).
Local Abbreviation secretName :=
  (GetVolSyncSSHSecretNameFromVRGName (ownerName (owner v))).

(** What [ReconcileRD] leaves when it reports no error. *)
Lemma ReconcileRD_reconciled (rdSpec : VolSyncReplicationDestinationSpec)
  (w : World) :
  let run := reconcileRD f v rdSpec w in
  let p := rdProtectedPVC rdSpec in
  wf (cluster (state w)) →
  ProtectedByVolSync p = true →
  is_Some (secrets (cluster (state w)) !! secretName) →
  run.1.2 = None →
  ∃ rd vsc se,
    rds (cluster (state run.2)) !! Name p = Some rd
    ∧ run.1.1 = (if rdStatusReady rd then Some rd else None)
    ∧ snapshotClassFor v (state w) (StorageClassName p) = Some vsc
    ∧ rdRsync rd
      = Some {| rdServiceType := Some DefaultRsyncServiceType;
                rdSSHKeys := Some secretName;
                rdCopyMethod := CopyMethodSnapshot;
                rdCapacity := Some (Storage (Resources p));
                rdStorageClassName := StorageClassName p;
                rdAccessModes :=
                  if (0 <? length (AccessModes p))%nat
                  then AccessModes p else [ReadWriteOnce];
                rdVolumeSnapshotClassName := Some vsc |}
    ∧ ownedBy (ownerName (owner v)) (rdMeta rd)
    ∧ controllerRef v ∈ ownerReferences (rdMeta rd)
    ∧ rdStatus rd = (rds (cluster (state w)) !! Name p) ≫= rdStatus
    ∧ serviceExports (cluster (state run.2)) !! ("volsync-rsync-dst-" +:+ Name p)
      = Some se
    ∧ hasOwnerRef "ReplicationDestination" (Name p) (seMeta se).
Proof.
  intros run p Hw Hp Hsec. subst run p.
  destruct (ReconcileRD_run GetVolSyncSSHSecretNameFromVRGName
              DefaultRsyncServiceType f v rdSpec w Hp)
    as (ok & err & w1 & E1 & Hrun).
  apply validateSecret_step in E1 as [Hstep1 Hr1]; [|exact Hw].
  pose proof (stepOn_wf _ _ _ Hstep1 Hw) as Hw1.
  pose proof (secret_step_others _ _ Hstep1)
    as (_ & _ & Hrds1 & _ & _ & Hsc1 & Hvs1).
  destruct err as [e|]; cbn [isErr orb] in Hrun.
  { rewrite Hrun. discriminate. }
  destruct ok; cbn [negb] in Hrun.
  2:{ destruct Hr1 as [_ Hnone]. rewrite Hnone in Hsec. now destruct Hsec. }
  destruct Hrun as (derr & w2 & E2 & Hrun).
  apply DeleteRS_step in E2 as (Hstep2 & _); [|exact Hw1].
  pose proof (stepOn_wf _ _ _ Hstep2 Hw1) as Hw2.
  pose proof (rs_step_others _ _ Hstep2)
    as (_ & _ & Hrds2 & _ & _ & Hsc2 & Hvs2).
  destruct derr as [e|]; [rewrite Hrun; discriminate|].
  destruct Hrun as (r & w3 & E3 & Hrun).
  pose proof E3 as E3'.
  apply createOrUpdateRD_step in E3' as (s0' & Hlook' & Hstep3); [|exact Hw2].
  apply createOrUpdateRD_inv in E3; [|exact (wf_keyed _ Hw2)].
  cbn zeta in E3. destruct E3 as (s0 & Hlook & E3).
  destruct r as [rd|e]; [|rewrite Hrun; discriminate].
  destruct E3 as (vsc & Hvsc & Hn & Hfix & Hstored & _ & Hstatus).
  assert (Hw3 : wf (cluster (state w3))).
  { apply (stepOn_wf _ _ _ Hstep3).
    rewrite (afterLookup_cluster _ _ _ Hlook'). exact Hw2. }
  destruct Hrun as (serr & w4 & E4 & Hrun).
  pose proof E4 as E4'.
  apply reconcileServiceExportForRD_step in E4'; [|exact Hw3].
  pose proof (se_step_others _ _ E4') as (_ & _ & _ & Hrds4 & _).
  apply reconcileServiceExportForRD_inv in E4; [|exact (wf_keyed _ Hw3)].
  cbn zeta in E4. rewrite Hrun. cbn [fst snd].
  destruct serr as [e|]; [discriminate|]. intros _.
  destruct E4 as (se & Hsen & Hsefix & Hsestored & _).
  apply mutateRD_ok in Hfix as [Hrd _].
  exists rd, vsc, se. rewrite Hrds4.
  split; [exact Hstored|].
  split; [now destruct (rdStatusReady rd)|].
  split.
  { rewrite <- (snapshotClassFor_step v _ _ _ _ Hstep1 Hsc1 Hvs1).
    rewrite <- (snapshotClassFor_step v _ _ _ _ Hstep2 Hsc2 Hvs2).
    exact Hvsc. }
  split; [rewrite Hrd; reflexivity|].
  split; [rewrite Hrd; apply settledMeta_owned|].
  split; [rewrite Hrd; apply settledMeta_controller|].
  split.
  { rewrite Hstatus, Hrds2, Hrds1.
    now destruct (rds (cluster (state w)) !! Name (rdProtectedPVC rdSpec)). }
  split.
  { rewrite Hn in Hsestored. exact Hsestored. }
  unfold mutateServiceExport in Hsefix. cbn in Hsefix.
  injection Hsefix as Hse. rewrite <- Hse. unfold nameOf. cbn. rewrite Hn.
  unfold hasOwnerRef, ctrlutil.SetOwnerReference. cbn.
  apply indexOwnerRef_upsert.
Qed.

(** What a regular [ReconcileRS] leaves when it reports no error. *)
Lemma ReconcileRS_reconciled (rsSpec : VolSyncReplicationSourceSpec) (w : World) :
  let run := reconcileRS f v rsSpec false w in
  let p := rsProtectedPVC rsSpec in
  wf (cluster (state w)) →
  ProtectedByVolSync p = true →
  is_Some (secrets (cluster (state w)) !! secretName) →
  run.1.2 = None →
  ∃ rs vsc spec,
    rss (cluster (state run.2)) !! Name p = Some rs
    ∧ run.1.1
      = (false, if isRSLastSyncTimeReady (rsStatus rs) then Some rs else None)
    ∧ snapshotClassFor v (state w) (StorageClassName p) = Some vsc
    ∧ getScheduleCronSpec DefaultScheduleCronSpec v = Ok spec
    ∧ rsSourcePVC rs = Name p
    ∧ rsTrigger rs = Some {| trSchedule := Some spec; trManual := "" |}
    ∧ rsRsync rs
      = Some {| rsSSHKeys := Some secretName;
                rsAddress :=
                  Some (getRemoteServiceNameForRDFromPVCName (Name p)
                          (ownerNamespace (owner v)));
                rsCopyMethod := CopyMethodSnapshot;
                rsVolumeSnapshotClassName := Some vsc |}
    ∧ ownedBy (ownerName (owner v)) (rsMeta rs)
    ∧ controllerRef v ∈ ownerReferences (rsMeta rs)
    ∧ rsStatus rs = (rss (cluster (state w)) !! Name p) ≫= rsStatus.
Proof.
  intros run p Hw Hp Hsec. subst run p.
  destruct (ReconcileRS_run GetVolSyncSSHSecretNameFromVRGName
              DefaultScheduleCronSpec f v rsSpec false w Hp)
    as (ok & err & w1 & E1 & Hrun).
  apply validateSecret_step in E1 as [Hstep1 Hr1]; [|exact Hw].
  pose proof (stepOn_wf _ _ _ Hstep1 Hw) as Hw1.
  pose proof (secret_step_others _ _ Hstep1)
    as (_ & Hrss1 & _ & _ & _ & Hsc1 & Hvs1).
  destruct err as [e|]; cbn [isErr orb] in Hrun.
  { rewrite Hrun. discriminate. }
  destruct ok; cbn [negb] in Hrun.
  2:{ destruct Hr1 as [_ Hnone]. rewrite Hnone in Hsec. now destruct Hsec. }
  destruct Hrun as (derr & w2 & E2 & Hrun).
  apply DeleteRD_step in E2 as (Hstep2 & _); [|exact Hw1].
  pose proof (stepOn_wf _ _ _ Hstep2 Hw1) as Hw2.
  pose proof (rd_step_others _ _ Hstep2)
    as (_ & _ & Hrss2 & _ & _ & Hsc2 & Hvs2).
  destruct derr as [e|]; [rewrite Hrun; discriminate|].
  destruct Hrun as (pvcOk & verr & w3 & E3 & Hrun).
  apply validatePVCBeforeFinalSync_inv in E3 as [Hs3 Hr3]. cbn zeta in Hr3.
  injection Hr3 as -> ->. cbn [negb orb isErr] in Hrun.
  destruct Hrun as (r & w4 & E4 & Hrun).
  apply createOrUpdateRS_inv in E4; [|rewrite Hs3; exact (wf_keyed _ Hw2)].
  cbn zeta in E4. destruct E4 as (s0 & Hlook & E4).
  destruct r as [rs|e]; [|rewrite Hrun; discriminate].
  destruct E4 as (vsc & tr & Hvsc & Htr & Hn & Htrigger & Hfix & Hstored & _ & Hstatus).
  rewrite triggerFor_schedule in Htr.
  destruct (getScheduleCronSpec DefaultScheduleCronSpec v) as [spec|e] eqn:Hspec;
    [|discriminate]. injection Htr as <-.
  apply mutateRS_ok in Hfix as (tr' & _ & Hrs & _).
  intros Hok. exists rs, vsc, spec.
  assert (Hout : reconcileRS f v rsSpec false w
                 = ((false,
                     if isRSLastSyncTimeReady (rsStatus rs) then Some rs else None,
                     None), w4)).
  { destruct (isRSLastSyncTimeReady (rsStatus rs)); exact Hrun. }
  rewrite Hout. cbn [fst snd].
  split; [exact Hstored|]. split; [reflexivity|].
  split.
  { rewrite <- (snapshotClassFor_step v _ _ _ _ Hstep1 Hsc1 Hvs1).
    rewrite <- (snapshotClassFor_step v _ _ _ _ Hstep2 Hsc2 Hvs2).
    rewrite <- Hs3. exact Hvsc. }
  split; [reflexivity|].
  split; [rewrite Hrs; reflexivity|].
  split; [exact Htrigger|].
  split; [rewrite Hrs; reflexivity|].
  split; [rewrite Hrs; apply settledMeta_owned|].
  split; [rewrite Hrs; apply settledMeta_controller|].
  rewrite Hstatus, Hs3, Hrss2, Hrss1.
  now destruct (rss (cluster (state w)) !! Name (rsProtectedPVC rsSpec)).
Qed.

(** X6. What [ReconcileRD] leaves when it reports no error and the secret
    was there.  A destination named after the claim is stored; its rsync
    section is built from the descriptor (the storage request as capacity,
    the storage class, the access modes or ReadWriteOnce when the
    descriptor lists none), the secret and the resolved snapshot class; it
    carries the owner's label and the owner as controller, and the status
    it had.  The call returns that destination when its status shows an
    address and a latest image that is a named snapshot, and nil otherwise.
    A service export named volsync-rsync-dst-<name> is stored and lists the
    destination as an owner. *)
Theorem reconciled_destination (rdSpec : VolSyncReplicationDestinationSpec)
  (w : World) :
  let run := reconcileRD f v rdSpec w in
  let p := rdProtectedPVC rdSpec in
  wf (cluster (state w)) →
  ProtectedByVolSync p = true →
  is_Some (secrets (cluster (state w)) !! secretName) →
  run.1.2 = None →
  ∃ rd vsc se,
    rds (cluster (state run.2)) !! Name p = Some rd
    ∧ run.1.1 = (if rdStatusReady rd then Some rd else None)
    ∧ snapshotClassFor v (state w) (StorageClassName p) = Some vsc
    ∧ rdRsync rd
      = Some {| rdServiceType := Some DefaultRsyncServiceType;
                rdSSHKeys := Some secretName;
                rdCopyMethod := CopyMethodSnapshot;
                rdCapacity := Some (Storage (Resources p));
                rdStorageClassName := StorageClassName p;
                rdAccessModes :=
                  if (0 <? length (AccessModes p))%nat
                  then AccessModes p else [ReadWriteOnce];
                rdVolumeSnapshotClassName := Some vsc |}
    ∧ ownedBy (ownerName (owner v)) (rdMeta rd)
    ∧ controllerRef v ∈ ownerReferences (rdMeta rd)
    ∧ rdStatus rd = (rds (cluster (state w)) !! Name p) ≫= rdStatus
    ∧ serviceExports (cluster (state run.2)) !! ("volsync-rsync-dst-" +:+ Name p)
      = Some se
    ∧ hasOwnerRef "ReplicationDestination" (Name p) (seMeta se).
Proof. exact (ReconcileRD_reconciled rdSpec w). Qed.

(** X7. What a regular [ReconcileRS] (no final sync) leaves when it
    reports no error and the secret was there.  A source named after the
    claim is stored; it names the claim as its source, its trigger is the
    schedule translated from the handler's interval (the default schedule
    when the interval is empty) with no manual trigger, its rsync section
    holds the secret, the remote service address of the destination and the
    resolved snapshot class; it carries the owner's label and the owner as
    controller, and the status it had.  The call returns it once its status
    shows a last-sync time, and nil before; it never reports a final sync
    as complete. *)
Theorem reconciled_source (rsSpec : VolSyncReplicationSourceSpec) (w : World) :
  let run := reconcileRS f v rsSpec false w in
  let p := rsProtectedPVC rsSpec in
  wf (cluster (state w)) →
  ProtectedByVolSync p = true →
  is_Some (secrets (cluster (state w)) !! secretName) →
  run.1.2 = None →
  ∃ rs vsc spec,
    rss (cluster (state run.2)) !! Name p = Some rs
    ∧ run.1.1
      = (false, if isRSLastSyncTimeReady (rsStatus rs) then Some rs else None)
    ∧ snapshotClassFor v (state w) (StorageClassName p) = Some vsc
    ∧ getScheduleCronSpec DefaultScheduleCronSpec v = Ok spec
    ∧ rsSourcePVC rs = Name p
    ∧ rsTrigger rs = Some {| trSchedule := Some spec; trManual := "" |}
    ∧ rsRsync rs
      = Some {| rsSSHKeys := Some secretName;
                rsAddress :=
                  Some (getRemoteServiceNameForRDFromPVCName (Name p)
                          (ownerNamespace (owner v)));
                rsCopyMethod := CopyMethodSnapshot;
                rsVolumeSnapshotClassName := Some vsc |}
    ∧ ownedBy (ownerName (owner v)) (rsMeta rs)
    ∧ controllerRef v ∈ ownerReferences (rsMeta rs)
    ∧ rsStatus rs = (rss (cluster (state w)) !! Name p) ≫= rsStatus.
Proof. exact (ReconcileRS_reconciled rsSpec w). Qed.

(** X19.  The result of a reconcile call agrees with the data protection
    predicates.  When [ReconcileRD] reports no error and returns the
    destination, [IsRDDataProtected] on what it left is true; when a
    regular [ReconcileRS] reports no error, [IsRSDataProtected] on what it
    left is true exactly when the call returned the source.  (The reads of
    the predicates being answered.) *)
Theorem ready_role_is_data_protected
  (rdSpec : VolSyncReplicationDestinationSpec)
  (rsSpec : VolSyncReplicationSourceSpec) (w : World) :
  let rd := reconcileRD f v rdSpec w in
  let rs := reconcileRS f v rsSpec false w in
  wf (cluster (state w)) →
  is_Some (secrets (cluster (state w)) !! secretName) →
  (ProtectedByVolSync (rdProtectedPVC rdSpec) = true →
   answers f VGet KRD (Name (rdProtectedPVC rdSpec)) →
   rd.1.2 = None → is_Some rd.1.1 →
   (IsRDDataProtected f (Name (rdProtectedPVC rdSpec)) rd.2).1 = (true, None))
  ∧ (ProtectedByVolSync (rsProtectedPVC rsSpec) = true →
     answers f VGet KRS (Name (rsProtectedPVC rsSpec)) →
     rs.1.2 = None →
     (IsRSDataProtected f (Name (rsProtectedPVC rsSpec)) rs.2).1.2 = None
     ∧ ((IsRSDataProtected f (Name (rsProtectedPVC rsSpec)) rs.2).1.1 = true
        ↔ is_Some rs.1.1.2)).
Proof.
  intros rd rs Hw Hsec. subst rd rs. split.
  - intros Hp HG Hok Hsome.
    destruct (ReconcileRD_reconciled rdSpec w Hw Hp Hsec Hok)
      as (rd & _ & _ & Hrd & Hret & _).
    rewrite Hret in Hsome.
    destruct (rdStatusReady rd) eqn:Hready; [|now destruct Hsome].
    unfold IsRDDataProtected, bind, ret.
    destruct (getRDLatestImage f _ _) as [g w1] eqn:EG.
    apply getRDLatestImage_inv in EG as [_ ->]. rewrite HG, Hrd.
    unfold rdStatusReady in Hready.
    destruct (rdStatus rd) as [st|]; [|discriminate].
    destruct (rdStatusRsync st) as [r|]; [|discriminate].
    destruct (rdAddress r); [|discriminate].
    destruct (isLatestImageReady (LatestImage st)) eqn:Himg; [|discriminate].
    cbn. now rewrite Himg.
  - intros Hp HG Hok.
    destruct (ReconcileRS_reconciled rsSpec w Hw Hp Hsec Hok)
      as (rs & _ & _ & Hrs & Hret & _).
    rewrite Hret. cbn [fst snd].
    unfold IsRSDataProtected, bind, ret.
    destruct (client.Get f _ _) as [g w1] eqn:EG.
    apply Get_inv in EG as [_ ->]. rewrite HG.
    change (table (T := ReplicationSource)) with rss.
    unfold getReplicationSourceName. rewrite Hrs. cbn.
    split; [reflexivity|].
    destruct (isRSLastSyncTimeReady (rsStatus rs)); split; eauto;
      try discriminate. intros [? ?]. discriminate.
Qed.
End Reconciled.

(** ** Cleaning up the destinations that are no longer wanted *)

Section Listing.
Context {T : Type} `{StoredLaws T}.
Variable f : Faults.
Variable v : VSHandler.

(** What [listByOwner] returns: the objects of the kind that carry the
    owner's label. *)
Lemma listByOwner_inv w r w1 :
  listByOwner (T := T) f v w = (r, w1) →
  state w1 = state w
  ∧ match r with
    | Err _ => ∃ t, f t VList (kindOf (T := T)) "" = true
    | Ok items =>
        ∀ x, x ∈ items ↔
             ownedBy (ownerName (owner v)) (metaOf x)
             ∧ ∃ k, table (cluster (state w)) !! k = Some x
    end.
Proof.
  unfold listByOwner, bind, ret. intros E.
  destruct (client.List f _ w) as [l w0] eqn:EL.
  apply List_inv in EL as [Hs0 ->].
  destruct (f (ticks w) VList kindOf "") eqn:Hf; cbn in E;
    injection E as <- <-; (split; [exact Hs0|]).
  - eauto.
  - intros x. apply listed_iff.
Qed.
End Listing.

Section Cleanup.
Variable f : Faults.
Variable v : VSHandler.

(** The loop of [CleanupRDNotInSpecList]: the destinations are the only
    table it changes, it only takes entries away, each one the name of an
    item that the list does not mention, and it takes each of those away
    when the server accepts the deletions. *)
Lemma cleanupNotIn_inv items rdSpecList w w' :
  (cleanupNotIn f items rdSpecList w).2 = w' →
  let unlisted rd :=
    existsb (fun rdSpec => String.eqb (name (rdMeta rd))
                             (Name (rdProtectedPVC rdSpec))) rdSpecList = false in
  let c := cluster (state w) in
  let c' := cluster (state w') in
  c' = withTable (rds c') c
  ∧ rds c' ⊆ rds c
  ∧ (∀ n, is_Some (rds c !! n) → rds c' !! n = None →
          ∃ x, x ∈ items ∧ name (rdMeta x) = n ∧ unlisted x)
  ∧ ((∀ t n, f t VDelete KRD n = false) →
     ∀ x, x ∈ items → unlisted x → rds c' !! name (rdMeta x) = None).
Proof.
  cbn zeta. revert w w'. induction items as [|rd rest IH]; intros w w' E.
  { cbn in E. subst w'.
    split; [now destruct (cluster (state w))|]. split; [reflexivity|].
    split.
    - intros n [x Hx] Hn. congruence.
    - intros _ x Hx. inversion Hx. }
  cbn [cleanupNotIn] in E.
  unfold nameOf, getReplicationDestinationName in E. cbn [metaOf RD_stored] in E.
  destruct (existsb _ rdSpecList) eqn:Hfound; cbn [negb] in E.
  - destruct (IH w w' E) as (Hc & Hsub & Hgone & Hall).
    split; [exact Hc|]. split; [exact Hsub|]. split.
    + intros n Hn Hnone. destruct (Hgone n Hn Hnone) as (x & Hx & Hxn & Hun).
      exists x. split; [now apply elem_of_cons; right | auto].
    + intros Hdel x Hx Hun. apply elem_of_cons in Hx as [-> | Hx].
      * congruence.
      * now apply Hall.
  - unfold bind at 1 in E.
    destruct (client.Delete (T := ReplicationDestination) f (name (rdMeta rd)) w)
      as [d w0] eqn:ED.
    apply Delete_inv in ED. cbn [fst snd] in E.
    destruct (IH w0 w' E) as (Hc & Hsub & Hgone & Hall).
    assert (Hstep : cluster (state w0) = cluster (state w)
                    ∨ (f (ticks w) VDelete KRD (name (rdMeta rd)) = false
                       ∧ cluster (state w0)
                         = withTable (delete (name (rdMeta rd))
                                        (rds (cluster (state w))))
                             (cluster (state w)))).
    { cbn in ED. destruct (f (ticks w) VDelete KRD (name (rdMeta rd))).
      - left. now destruct ED as [_ ->].
      - destruct (rds (cluster (state w)) !! name (rdMeta rd)).
        + right. split; [reflexivity|]. now destruct ED as [_ ->].
        + left. now destruct ED as [_ ->]. }
    destruct Hstep as [Hsame | [Hacc Hdeleted]].
    + rewrite Hsame in *. split; [exact Hc|]. split; [exact Hsub|]. split.
      * intros n Hn Hnone. destruct (Hgone n Hn Hnone) as (x & Hx & Hxn & Hun).
        exists x. split; [now apply elem_of_cons; right | auto].
      * intros Hdel x Hx Hun. apply elem_of_cons in Hx as [-> | Hx];
          [|now apply Hall].
        cbn in ED. rewrite Hdel in ED.
        destruct (rds (cluster (state w)) !! name (rdMeta rd)) eqn:Hl.
        -- destruct ED as [_ Hs0]. rewrite Hs0 in Hsame. cbn in Hsame.
           apply (f_equal rds) in Hsame. cbn in Hsame.
           apply (f_equal (lookup (name (rdMeta rd)))) in Hsame.
           rewrite lookup_delete_eq, Hl in Hsame. discriminate.
        -- apply (lookup_weaken_None _ _ _ Hl Hsub).
    + rewrite Hdeleted in Hc, Hsub, Hgone. cbn in Hc, Hsub, Hgone.
      split.
      { rewrite Hc. now destruct (cluster (state w)). }
      split.
      { etrans; [exact Hsub|]. apply delete_subseteq. }
      split.
      * intros n Hn Hnone.
        destruct (decide (n = name (rdMeta rd))) as [->|Hne].
        { exists rd. split; [now apply elem_of_cons; left | auto]. }
        destruct (Hgone n) as (x & Hx & Hxn & Hun); [|exact Hnone|].
        { now rewrite lookup_delete_ne. }
        exists x. split; [now apply elem_of_cons; right | auto].
      * intros Hdel x Hx Hun. apply elem_of_cons in Hx as [-> | Hx];
          [|now apply Hall].
        apply (lookup_weaken_None _ (delete (name (rdMeta rd))
                                       (rds (cluster (state w))))); [|exact Hsub].
        apply lookup_delete_eq.
Qed.

Lemma unlisted_iff (rdSpecList : list VolSyncReplicationDestinationSpec) n :
  existsb (fun rdSpec => String.eqb n (Name (rdProtectedPVC rdSpec))) rdSpecList
  = false
  ↔ n ∉ (fun rdSpec => Name (rdProtectedPVC rdSpec)) <$> rdSpecList.
Proof.
  rewrite <- not_true_iff_false, existsb_exists, list_elem_of_fmap.
  split; intros Hno.
  - intros (s & -> & Hs). apply Hno. exists s.
    split; [now apply list_elem_of_In | apply String.eqb_refl].
  - intros (s & Hs & Heq). apply Hno. exists s.
    apply String.eqb_eq in Heq. split; [exact Heq | now apply list_elem_of_In].
Qed.

(** X8. [CleanupRDNotInSpecList] touches nothing but destinations, and of
    those it can only remove ones that carry the owner's label and whose
    name no descriptor of the list mentions; every other destination stays
    as it is.  When the listing is answered it returns nil, whatever
    becomes of the deletions; when the server accepts the deletions, every
    destination of the owner that the list does not mention is gone. *)
Theorem cleanup_removes_only_the_unlisted
  (rdSpecList : list VolSyncReplicationDestinationSpec) (w : World) :
  let run := CleanupRDNotInSpecList f v rdSpecList w in
  let names := (fun rdSpec => Name (rdProtectedPVC rdSpec)) <$> rdSpecList in
  let before := rds (cluster (state w)) in
  let after := rds (cluster (state run.2)) in
  wf (cluster (state w)) → answers f VList KRD "" →
  run.1 = None
  ∧ cluster (state run.2) = withTable after (cluster (state w))
  ∧ after ⊆ before
  ∧ (∀ n rd, before !! n = Some rd → after !! n = None →
             ownedBy (ownerName (owner v)) (rdMeta rd) ∧ n ∉ names)
  ∧ ((∀ t n, f t VDelete KRD n = false) →
     ∀ n rd, before !! n = Some rd →
             ownedBy (ownerName (owner v)) (rdMeta rd) → n ∉ names →
             after !! n = None).
Proof.
  intros run names before after Hw HL. subst run names before after.
  pose proof (wf_keyed (T := ReplicationDestination) _ Hw) as Hk.
  destruct (CleanupRDNotInSpecList f v rdSpecList w) as [r w'] eqn:E.
  unfold CleanupRDNotInSpecList, listRDByOwner in E. unfold bind at 1 in E.
  destruct (listByOwner (T := ReplicationDestination) f v w) as [l w0] eqn:EL.
  apply listByOwner_inv in EL as [Hs0 Hl]. cbn [fst snd] in E.
  destruct l as [items|e].
  2:{ destruct Hl as [t Ht]. cbn in Ht. rewrite HL in Ht. discriminate. }
  unfold bind, ret in E. cbn [fst snd] in E. injection E as <- <-.
  cbn [fst snd].
  pose proof (cleanupNotIn_inv items rdSpecList w0 _ eq_refl) as Hloop.
  cbn zeta in Hloop. rewrite Hs0 in Hloop.
  destruct Hloop as (Hc & Hsub & Hgone & Hall).
  split; [reflexivity|]. split; [exact Hc|]. split; [exact Hsub|].
  split.
  - intros n rd Hn Hnone.
    destruct (Hgone n) as (x & Hx & Hxn & Hun); [eauto | exact Hnone |].
    apply Hl in Hx as [Ho [k Hx]].
    pose proof (Hk _ _ Hx) as Hkx. unfold nameOf in Hkx. cbn in Hkx.
    assert (k = n) as -> by congruence.
    assert (Some x = Some rd) as Hxr by (rewrite <- Hx; exact Hn).
    injection Hxr as ->.
    split; [exact Ho|]. apply unlisted_iff. now rewrite <- Hxn.
  - intros Hdel n rd Hn Ho Hnot.
    pose proof (Hk _ _ Hn) as Hkn. unfold nameOf in Hkn. cbn in Hkn.
    rewrite <- Hkn. apply (Hall Hdel).
    + apply Hl. split; [exact Ho | eauto].
    + apply unlisted_iff. now rewrite Hkn.
Qed.
End Cleanup.

(** ** Removing a role *)

Section DeleteEffect.
Context {T : Type} `{StoredLaws T}.

(** The three outcomes of deleting the owner's object named [n], read as
    what happened to the table of the kind. *)
Lemma deleteOwned_effect (v : VSHandler) (f : Faults) (n : string)
  (r : option error) (s s' : State) :
  ((∃ e, r = Some e) ∧ s' = s ∧ ∃ t, f t VList (kindOf (T := T)) "" = true)
  ∨ (r = None
     ∧ ((s' = s
         ∧ (¬ present T (cluster s) (ownerName (owner v)) n
            ∨ ∃ t, f t VDelete (kindOf (T := T)) n = true))
        ∨ (present T (cluster s) (ownerName (owner v)) n
           ∧ s' = written (withTable (delete n (table (cluster s))) (cluster s)) s))) →
  let before := table (T := T) (cluster s) in
  let after := table (T := T) (cluster s') in
  cluster s' = withTable after (cluster s)
  ∧ (after = before
     ∨ present T (cluster s) (ownerName (owner v)) n ∧ after = delete n before)
  ∧ (answers f VList (kindOf (T := T)) "" → answers f VDelete (kindOf (T := T)) n →
     r = None ∧ ¬ present T (cluster s') (ownerName (owner v)) n).
Proof.
  intros E before after. subst before after.
  destruct E as [([e ->] & -> & [t Ht]) | (-> & [(-> & Hwhy) | (Hsome & ->)])].
  - split; [now rewrite withTable_table|]. split; [now left|].
    intros HL _. rewrite HL in Ht. discriminate.
  - split; [now rewrite withTable_table|]. split; [now left|].
    intros _ HD. split; [reflexivity|].
    destruct Hwhy as [Hno | [t Ht]]; [exact Hno|].
    rewrite HD in Ht. discriminate.
  - cbn. rewrite table_withTable. split; [reflexivity|]. split; [now right|].
    intros _ _. split; [reflexivity|].
    intros (x & Hx & _). rewrite table_withTable, lookup_delete_eq in Hx.
    discriminate.
Qed.
End DeleteEffect.

(** X9.  [DeleteRS] and [DeleteRD] change nothing but the table of their
    kind, and there nothing but the entry of the given name, which they
    remove only when it carries the owner's label: a source or destination
    of another name or of another owner stays.  When the server answers the
    listing and the deletion, they report no error and the owner has no
    object of that name left. *)
Theorem delete_role_spares_the_others (f : Faults) (v : VSHandler)
  (n : string) (w : World) :
  wf (cluster (state w)) →
  let o := ownerName (owner v) in
  let rs := DeleteRS f v n w in
  let rd := DeleteRD f v n w in
  (cluster (state rs.2)
   = withTable (rss (cluster (state rs.2))) (cluster (state w))
   ∧ (∀ k x, rss (cluster (state w)) !! k = Some x →
             k ≠ n ∨ ¬ ownedBy o (rsMeta x) →
             rss (cluster (state rs.2)) !! k = Some x)
   ∧ rss (cluster (state rs.2)) ⊆ rss (cluster (state w))
   ∧ (answers f VList KRS "" → answers f VDelete KRS n →
      rs.1 = None ∧ ¬ present ReplicationSource (cluster (state rs.2)) o n))
  ∧ (cluster (state rd.2)
     = withTable (rds (cluster (state rd.2))) (cluster (state w))
     ∧ (∀ k x, rds (cluster (state w)) !! k = Some x →
               k ≠ n ∨ ¬ ownedBy o (rdMeta x) →
               rds (cluster (state rd.2)) !! k = Some x)
     ∧ rds (cluster (state rd.2)) ⊆ rds (cluster (state w))
     ∧ (answers f VList KRD "" → answers f VDelete KRD n →
        rd.1 = None
        ∧ ¬ present ReplicationDestination (cluster (state rd.2)) o n)).
Proof.
  intros Hw o rs rd. subst o rs rd. split.
  - destruct (DeleteRS f v n w) as [r w1] eqn:E.
    apply DeleteRS_inv in E; [|now apply wf_keyed].
    pose proof (deleteOwned_effect (H := RS_stored) v f n r _ _ E)
      as (Hc & Ht & Hok).
    cbn [fst snd]. split; [exact Hc|]. split; [|split; [|exact Hok]].
    + intros k x Hx Hor.
      destruct Ht as [Ht | [(y & Hy & Ho) Ht]]; cbn in Ht; rewrite Ht;
        [exact Hx|].
      rewrite lookup_delete_ne; [exact Hx|].
      intros <-. destruct Hor as [Hne | Hno]; [now apply Hne|].
      apply Hno. cbn in Hy. rewrite Hx in Hy. now injection Hy as <-.
    + destruct Ht as [Ht | [_ Ht]]; cbn in Ht; rewrite Ht;
        [reflexivity | apply delete_subseteq].
  - destruct (DeleteRD f v n w) as [r w1] eqn:E.
    apply DeleteRD_inv in E; [|now apply wf_keyed].
    pose proof (deleteOwned_effect (H := RD_stored) v f n r _ _ E)
      as (Hc & Ht & Hok).
    cbn [fst snd]. split; [exact Hc|]. split; [|split; [|exact Hok]].
    + intros k x Hx Hor.
      destruct Ht as [Ht | [(y & Hy & Ho) Ht]]; cbn in Ht; rewrite Ht;
        [exact Hx|].
      rewrite lookup_delete_ne; [exact Hx|].
      intros <-. destruct Hor as [Hne | Hno]; [now apply Hne|].
      apply Hno. cbn in Hy. rewrite Hx in Hy. now injection Hy as <-.
    + destruct Ht as [Ht | [_ Ht]]; cbn in Ht; rewrite Ht;
        [reflexivity | apply delete_subseteq].
Qed.

(** ** The transport secret, when it is there *)

(** X10.  When the owner's secret exists and carries no owner reference
    of the owner's kind and name (the lookup being answered),
    [validateSecretAndAddVRGOwnerRef] tries to add the owner.  If the
    update is answered it returns (true, nil), the owner is appended to the
    secret's owner references as a plain owner, and nothing else in the
    cluster changes.  If the update is refused it returns true together
    with the wrapped error of the update, and nothing is written. *)
Theorem secret_gets_the_owner_reference (f : Faults) (v : VSHandler)
  (sn : string) (sec : Secret) (w : World) :
  keyed (T := Secret) (cluster (state w)) →
  answers f VGet KSecret sn →
  secrets (cluster (state w)) !! sn = Some sec →
  ¬ hasOwnerRef (ownerKind (owner v)) (ownerName (owner v)) (secretMeta sec) →
  let run := validateSecretAndAddVRGOwnerRef f v sn w in
  let ref := {| orKind := ownerKind (owner v); orName := ownerName (owner v);
                orController := false; orBlockOwnerDeletion := false |} in
  (answers f VUpdate KSecret sn →
   run.1 = (true, None)
   ∧ cluster (state run.2)
     = withTable
         (<[sn := {| secretMeta :=
                       setOwnerReferences
                         (ownerReferences (secretMeta sec) ++ [ref])
                         (secretMeta sec) |}]>
            (secrets (cluster (state w))))
         (cluster (state w)))
  ∧ ((∀ t, f t VUpdate KSecret sn = true) →
     run.1 = (true, Some (EWrap "failed to add owner reference"
                            (EApi VUpdate KSecret sn)))
     ∧ state run.2 = state w).
Proof.
  intros Hk HG Hsec Hno run ref. subst run ref.
  assert (Hn : nameOf sec = sn) by exact (Hk _ _ Hsec).
  unfold hasOwnerRef in Hno.
  destruct (ctrlutil.indexOwnerRef (ownerReferences (secretMeta sec)) _)
    as [i|] eqn:Hidx; [destruct Hno; eauto|]. clear Hno.
  assert (Hrun : ∀ r w1, validateSecretAndAddVRGOwnerRef f v sn w = (r, w1) →
    ∃ u w0, state w0 = state w
            ∧ client.Update f (ctrlutil.SetOwnerReference (ownerKind (owner v))
                                 (ownerName (owner v)) sec) w0 = (u, w1)
            ∧ r = match u with
                  | Ok _ => (true, None)
                  | Err e => (true, Some (EWrap "failed to add owner reference" e))
                  end).
  { intros r w1 E.
    unfold validateSecretAndAddVRGOwnerRef, bind, ret in E.
    destruct (client.Get f sn w) as [g w0] eqn:EG.
    apply Get_inv in EG as [Hs0 ->]. cbn in E. rewrite HG in E.
    rewrite Hsec in E. cbn in E.
    unfold addOwnerReferenceAndUpdate, addOwnerReference, bind, ret in E.
    cbn zeta in E. cbn [metaOf Secret_stored] in E. rewrite Hidx in E.
    destruct (client.Update f _ w0) as [u w2] eqn:EU.
    exists u, w0. split; [exact Hs0|].
    destruct u as [o|e]; cbn in E; injection E as <- <-; auto. }
  destruct (validateSecretAndAddVRGOwnerRef f v sn w) as [r w1] eqn:E.
  destruct (Hrun r w1 eq_refl) as (u & w0 & Hs0 & EU & ->).
  apply Update_inv in EU. rewrite SetOwnerReference_name, Hn, Hs0 in EU.
  cbn [fst snd]. split.
  - intros HU. rewrite HU in EU. cbn in EU. rewrite Hsec in EU.
    destruct EU as [-> Hs1]. split; [reflexivity|]. rewrite Hs1. cbn.
    unfold ctrlutil.SetOwnerReference, ctrlutil.upsertOwnerRef. cbn.
    rewrite Hidx. reflexivity.
  - intros HR. rewrite HR in EU. destruct EU as [-> Hs1].
    split; [reflexivity | congruence].
Qed.

(** ** Handing a claim over: what is written before the wait *)

(** The claim [validatePVCAndAddVRGOwnerRef] leaves in the store: the one
    it found, when that already had the label and listed the owner, or the
    one it found with both added. *)
Lemma validatePVC_stored f v pvcName pvc w :
  answers f VGet KPVC pvcName → answers f VUpdate KPVC pvcName →
  pvcs (cluster (state w)) !! pvcName = Some pvc →
  name (pvcMeta pvc) = pvcName →
  let run := validatePVCAndAddVRGOwnerRef f v pvcName w in
  run.1 = Ok (stampedPVC v pvc)
  ∧ ((state run.2 = state w
      ∧ labels (pvcMeta pvc) !! ACMAppSubDoNotDeleteLabel
        = Some ACMAppSubDoNotDeleteLabelVal
      ∧ hasOwnerRef (ownerKind (owner v)) (ownerName (owner v)) (pvcMeta pvc))
     ∨ state run.2
       = written (withTable (<[pvcName := stampedPVC v pvc]>
                               (pvcs (cluster (state w))))
                    (cluster (state w))) (state w)).
Proof.
  intros HG HU Hp Hn. cbv zeta.
  unfold validatePVCAndAddVRGOwnerRef, getPVC, bind.
  run_get. cbn. rewrite HG, Hp. cbn.
  unfold addLabelAndVRGOwnerRefAndUpdate, stampedPVC.
  destruct (addLabel pvc _ _) as [pvc1 lu] eqn:EL.
  assert (Hn1 : name (pvcMeta pvc1) = pvcName).
  { unfold addLabel in EL. cbn in EL.
    repeat case_match; injection EL as <- <-; cbn; auto. }
  assert (Hlu : lu = false →
                pvc1 = pvc
                ∧ labels (pvcMeta pvc) !! ACMAppSubDoNotDeleteLabel
                  = Some ACMAppSubDoNotDeleteLabelVal).
  { intros ->. unfold addLabel in EL. cbn in EL.
    destruct (labels (pvcMeta pvc) !! ACMAppSubDoNotDeleteLabel) as [val|]
      eqn:Hl; [|discriminate].
    destruct (String.eqb val ACMAppSubDoNotDeleteLabelVal) eqn:Hv;
      cbn in EL; [|discriminate].
    apply String.eqb_eq in Hv. subst val. now injection EL as <-. }
  unfold addOwnerReference. cbn [fst snd].
  remember (ctrlutil.SetOwnerReference _ _ pvc1) as pvc2 eqn:E2.
  assert (Hn2 : name (pvcMeta pvc2) = pvcName) by (subst pvc2; cbn; auto).
  destruct (ctrlutil.indexOwnerRef (ownerReferences (metaOf pvc1)) _) eqn:Hidx;
    destruct lu; cbn [orb].
  2:{ cbn. split; [now rewrite E2|]. left. split; [exact Hs|].
      destruct (Hlu eq_refl) as [-> Hl]. split; [exact Hl|].
      unfold hasOwnerRef. cbn in Hidx. rewrite Hidx. eauto. }
  all: unfold bind; run_update; unfold nameOf in E; cbn in E;
    rewrite Hn2, HU, Hs, Hp in E; destruct E as [-> Hs2]; cbn;
    (split; [now rewrite E2|]); right; rewrite Hs2, E2; reflexivity.
Qed.

Lemma stampedPVC_spec v pvc :
  let pvc' := stampedPVC v pvc in
  name (pvcMeta pvc') = name (pvcMeta pvc)
  ∧ labels (pvcMeta pvc')
    = <[ACMAppSubDoNotDeleteLabel := ACMAppSubDoNotDeleteLabelVal]>
        (labels (pvcMeta pvc))
  ∧ annotations (pvcMeta pvc') = annotations (pvcMeta pvc)
  ∧ hasOwnerRef (ownerKind (owner v)) (ownerName (owner v)) (pvcMeta pvc')
  ∧ pvcAccessModes pvc' = pvcAccessModes pvc
  ∧ pvcStorageClassName pvc' = pvcStorageClassName pvc
  ∧ pvcDataSource pvc' = pvcDataSource pvc
  ∧ pvcResources pvc' = pvcResources pvc
  ∧ pvcPhase pvc' = pvcPhase pvc.
Proof.
  cbv zeta. unfold stampedPVC, addLabel. cbn.
  assert (Hidx : ∀ l, is_Some (ctrlutil.indexOwnerRef
            (ctrlutil.upsertOwnerRef
               {| orKind := ownerKind (owner v); orName := ownerName (owner v);
                  orController := false; orBlockOwnerDeletion := false |} l)
            {| orKind := ownerKind (owner v); orName := ownerName (owner v);
               orController := false; orBlockOwnerDeletion := false |}))
    by (intros l; apply indexOwnerRef_upsert).
  destruct (labels (pvcMeta pvc) !! ACMAppSubDoNotDeleteLabel) as [val|] eqn:Hl.
  - destruct (String.eqb val ACMAppSubDoNotDeleteLabelVal) eqn:Hv; cbn.
    + apply String.eqb_eq in Hv. subst val.
      rewrite insert_id by exact Hl. unfold hasOwnerRef. cbn.
      repeat split; apply Hidx.
    + unfold hasOwnerRef. cbn. repeat split; apply Hidx.
  - cbn. unfold hasOwnerRef. cbn. repeat split; apply Hidx.
Qed.

(** X11.  For a claim that exists (the requests for it being answered),
    [PreparePVCForFinalSync] leaves the claim stored with the do-not-delete
    label and with the owner among its owner references, whatever it
    returns: also when it returns (false, nil) to wait for the reconcile
    option.  The claim's other labels, its spec and its phase are as
    before, nothing but that claim is written, and while it waits the
    annotations are as before too. *)
Theorem claim_is_marked_before_the_wait (f : Faults) (v : VSHandler)
  (pvcName : string) (pvc : PersistentVolumeClaim) (w : World) :
  answers f VGet KPVC pvcName → answers f VUpdate KPVC pvcName →
  keyed (T := PersistentVolumeClaim) (cluster (state w)) →
  pvcs (cluster (state w)) !! pvcName = Some pvc →
  let run := PreparePVCForFinalSync f v pvcName w in
  ∃ pvc',
    cluster (state run.2)
    = withTable (<[pvcName := pvc']> (pvcs (cluster (state w))))
        (cluster (state w))
    ∧ labels (pvcMeta pvc')
      = <[ACMAppSubDoNotDeleteLabel := ACMAppSubDoNotDeleteLabelVal]>
          (labels (pvcMeta pvc))
    ∧ hasOwnerRef (ownerKind (owner v)) (ownerName (owner v)) (pvcMeta pvc')
    ∧ (pvcAccessModes pvc', pvcStorageClassName pvc', pvcDataSource pvc',
       pvcResources pvc', pvcPhase pvc')
      = (pvcAccessModes pvc, pvcStorageClassName pvc, pvcDataSource pvc,
         pvcResources pvc, pvcPhase pvc)
    ∧ (run.1 = (false, None) →
       annotations (pvcMeta pvc') = annotations (pvcMeta pvc)).
Proof.
  intros HG HU Hk Hp run. subst run.
  assert (Hn : name (pvcMeta pvc) = pvcName) by (apply (Hk _ _ Hp)).
  destruct (validatePVC_stored f v pvcName pvc w HG HU Hp Hn) as [Hr Hst].
  destruct (stampedPVC_spec v pvc)
    as (Hname & Hlab & Hann & Href & Hm & Hsc & Hds & Hres & Hph).
  cbv zeta in Hname, Hlab, Hann, Href, Hm, Hsc, Hds, Hres, Hph.
  rewrite Hn in Hname.
  unfold PreparePVCForFinalSync, bind.
  destruct (validatePVCAndAddVRGOwnerRef f v pvcName w) as [r w1].
  cbn [fst snd] in Hr, Hst. subst r.
  assert (Hold : is_Some (pvcs (cluster (state w1)) !! pvcName)).
  { destruct Hst as [(-> & _) | ->]; [eauto|].
    cbn. rewrite lookup_insert_eq. eauto. }
  cbn [fst snd]. rewrite Hann.
  destruct (match annotations (pvcMeta pvc) !! ACMReconcileOptionAnnotation with
            | Some reconcileOption => negb (String.eqb reconcileOption "merge")
            | None => false
            end) eqn:Hwait.
  - (* waiting: the state is what the validation left *)
    cbn [ret fst snd].
    destruct Hst as [(Hs & Hl & Ho) | Hs].
    + exists pvc. rewrite Hs, insert_id by exact Hp.
      split; [now destruct (cluster (state w))|].
      split; [now rewrite insert_id|]. auto.
    + exists (stampedPVC v pvc). rewrite Hs. cbn.
      split; [reflexivity|]. split; [exact Hlab|]. split; [exact Href|].
      split; [|auto]. now rewrite Hm, Hsc, Hds, Hres, Hph.
  - unfold bind. run_update. unfold nameOf in E. cbn in E.
    rewrite Hname, HU in E. destruct Hold as [old Hold]. rewrite Hold in E.
    destruct E as [-> Hs2]. cbn [fst snd ret].
    eexists. rewrite Hs2. cbn.
    split.
    { destruct Hst as [(-> & _) | ->]; [reflexivity|]. cbn.
      now rewrite insert_insert_eq. }
    cbn. split; [exact Hlab|]. split; [exact Href|].
    split; [|intros [=]]. now rewrite Hm, Hsc, Hds, Hres, Hph.
Qed.

(** ** Restoring a claim from the latest image *)

(** The snapshot [validateSnapshotAndAddDoNotDeleteLabel] returns and
    leaves in the store. *)
Lemma validateSnapshot_inv f ref w r w1 :
  validateSnapshotAndAddDoNotDeleteLabel f ref w = (r, w1) →
  answers f VGet KSnapshot (refName ref) →
  answers f VUpdate KSnapshot (refName ref) →
  keyed (T := VolumeSnapshot) (cluster (state w)) →
  match snapshots (cluster (state w)) !! refName ref with
  | None =>
      r = Err (EWrap "error getting volumesnapshot"
                 (ENotFound KSnapshot (refName ref)))
      ∧ state w1 = state w
  | Some snap =>
      let snap' :=
        (addLabel snap VolSyncDoNotDeleteLabel VolSyncDoNotDeleteLabelVal).1 in
      r = Ok snap'
      ∧ nameOf snap' = refName ref
      ∧ snapshots (cluster (state w1)) !! refName ref = Some snap'
      ∧ (state w1 = state w
         ∨ state w1
           = written (withTable (<[refName ref := snap']>
                                   (snapshots (cluster (state w))))
                        (cluster (state w))) (state w))
  end.
Proof.
  intros E HG HU Hk.
  unfold validateSnapshotAndAddDoNotDeleteLabel, bind, ret in E.
  destruct (client.Get f (refName ref) w) as [g w0] eqn:EG.
  apply Get_inv in EG as [Hs0 ->]. rewrite HG in E. cbn in E.
  destruct (snapshots (cluster (state w)) !! refName ref) as [snap|] eqn:Hsnap;
    cbn in E.
  2:{ injection E as <- <-. auto. }
  assert (Hn : nameOf snap = refName ref) by exact (Hk _ _ Hsnap).
  cbv zeta.
  destruct (addLabel snap _ _) as [snap' lu] eqn:EL. cbn [fst].
  assert (Hn' : nameOf snap' = refName ref).
  { clear E. unfold addLabel in EL. unfold nameOf in *. cbn in *.
    repeat case_match; injection EL as <- <-; cbn; auto. }
  destruct lu.
  - destruct (client.Update f snap' w0) as [u w2] eqn:EU.
    apply Update_inv in EU. rewrite Hn', HU, Hs0 in EU. cbn in EU.
    rewrite Hsnap in EU. destruct EU as [-> Hs2]. cbn in E.
    injection E as <- <-. split; [reflexivity|]. split; [exact Hn'|].
    rewrite Hs2. cbn. rewrite lookup_insert_eq. auto.
  - injection E as <- <-. split; [reflexivity|]. split; [exact Hn'|].
    rewrite Hs0. split; [|now left].
    unfold addLabel in EL. repeat case_match; try discriminate.
    now injection EL as <-.
Qed.

(** X12.  Without a usable latest image there is nothing to restore
    from: when the destination is missing, has no status, or its latest
    image is absent, unnamed or not a volume snapshot, [EnsurePVCfromRD]
    returns the no-latest-image error and writes nothing. *)
Theorem restore_needs_a_latest_image (f : Faults)
  (rdSpec : VolSyncReplicationDestinationSpec) (w : World) :
  let n := Name (rdProtectedPVC rdSpec) in
  answers f VGet KRD n →
  match (rds (cluster (state w)) !! n ≫= rdStatus) ≫= LatestImage with
  | Some img => refName img = "" ∨ refKind img ≠ VolumeSnapshotKind
  | None => True
  end →
  (EnsurePVCfromRD f rdSpec w).1 = Some (ENoLatestImage n)
  ∧ state (EnsurePVCfromRD f rdSpec w).2 = state w.
Proof.
  intros n HG Himg. subst n.
  destruct (EnsurePVCfromRD f rdSpec w) as [r w1] eqn:E.
  unfold EnsurePVCfromRD, bind, ret in E.
  destruct (getRDLatestImage f _ w) as [g w0] eqn:EG.
  apply getRDLatestImage_inv in EG as [Hs0 ->]. rewrite HG in E.
  cbn [fst snd] in *.
  destruct (rds (cluster (state w)) !! Name (rdProtectedPVC rdSpec))
    as [rd|]; cbn in Himg, E.
  2:{ injection E as <- <-. auto. }
  destruct (rdStatus rd) as [st|]; cbn in Himg, E.
  2:{ injection E as <- <-. auto. }
  destruct (LatestImage st) as [img|]; cbn in Himg, E.
  2:{ injection E as <- <-. auto. }
  destruct Himg as [Hname | Hkind].
  - rewrite Hname in E. cbn in E. injection E as <- <-. auto.
  - apply String.eqb_neq in Hkind. rewrite Hkind in E.
    rewrite orb_true_r in E. cbn in E. injection E as <- <-. auto.
Qed.

(** X13.  When the destination's latest image names a snapshot that is
    not in the cluster, [EnsurePVCfromRD] fails with the not-found error
    of the snapshot, wrapped, and writes nothing: no claim is created. *)
Theorem restore_needs_the_snapshot (f : Faults)
  (rdSpec : VolSyncReplicationDestinationSpec) (w : World)
  (rd : ReplicationDestination) (st : ReplicationDestinationStatus)
  (img : TypedLocalObjectReference) :
  let n := Name (rdProtectedPVC rdSpec) in
  answers f VGet KRD n → answers f VGet KSnapshot (refName img) →
  rds (cluster (state w)) !! n = Some rd →
  rdStatus rd = Some st → LatestImage st = Some img →
  isLatestImageReady (Some img) = true →
  snapshots (cluster (state w)) !! refName img = None →
  (EnsurePVCfromRD f rdSpec w).1
  = Some (EWrap "error getting volumesnapshot"
            (ENotFound KSnapshot (refName img)))
  ∧ state (EnsurePVCfromRD f rdSpec w).2 = state w.
Proof.
  intros n HG HGs Hrd Hst Himg Hready Hsnap. subst n.
  destruct (EnsurePVCfromRD f rdSpec w) as [r w1] eqn:E.
  unfold EnsurePVCfromRD, bind, ret in E.
  destruct (getRDLatestImage f _ w) as [g w0] eqn:EG.
  apply getRDLatestImage_inv in EG as [Hs0 ->]. rewrite HG, Hrd, Hst, Himg in E.
  cbn [fst snd] in *. rewrite Hready in E. cbn [negb] in E.
  unfold validateSnapshotAndEnsurePVC, validateSnapshotAndAddDoNotDeleteLabel,
    bind, ret in E.
  match type of E with
  | context [client.Get (T := VolumeSnapshot) f ?k w0] =>
      assert (Hk : k = refName img) by (repeat case_match; reflexivity);
      rewrite Hk in E; clear Hk
  end.
  destruct (client.Get (T := VolumeSnapshot) f (refName img) w0)
    as [gs w2] eqn:EGs.
  apply Get_inv in EGs as [Hs2 ->]. rewrite HGs, Hs0 in E.
  change (table (T := VolumeSnapshot) (cluster (state w)))
    with (snapshots (cluster (state w))) in E.
  rewrite Hsnap in E.
  cbn in E. injection E as <- <-. split; [reflexivity | congruence].
Qed.

(** The claim a restore creates from the descriptor and the image. *)
Lemma ensurePVC_created f rdSpec snapshotRef w r w1 :
  ensurePVCFromSnapshot f rdSpec snapshotRef w = (r, w1) →
  let p := rdProtectedPVC rdSpec in
  answers f VGet KPVC (Name p) → answers f VCreate KPVC (Name p) →
  pvcs (cluster (state w)) !! Name p = None →
  let pvc' :=
    {| pvcMeta := setCreated (setLabels (Labels p) (newMeta (Name p)));
       pvcAccessModes :=
         if (0 <? length (AccessModes p))%nat then AccessModes p
         else [ReadWriteOnce];
       pvcStorageClassName := StorageClassName p;
       pvcDataSource := Some snapshotRef;
       pvcResources := Resources p;
       pvcPhase := "" |} in
  r = Ok pvc'
  ∧ state w1
    = written (withTable (<[Name p := pvc']> (pvcs (cluster (state w))))
                 (cluster (state w))) (state w).
Proof.
  intros E p HG HC Hp pvc'. subst p pvc'.
  unfold ensurePVCFromSnapshot, bind in E.
  destruct (ctrlutil.CreateOrUpdate _ _ _ _ w) as [[x c] w0] eqn:EC.
  apply CreateOrUpdate_inv in EC. unfold mutatePVC in EC. cbn in EC.
  rewrite (right_id_L ∅ (∪)) in EC.
  destruct EC as [(_ & _ & t & Ht) | [(_ & EC) | (existing & Hex & _)]].
  - rewrite HG in Ht. discriminate.
  - destruct EC as [(e & _ & _ & [[t Ht] | Hsome]) | (_ & EC & Hs)].
    + rewrite HC in Ht. discriminate.
    + rewrite Hp in Hsome. destruct Hsome; discriminate.
    + injection EC as -> ->. cbn in E. injection E as <- <-.
      split; [reflexivity | exact Hs].
  - rewrite Hp in Hex. discriminate.
Qed.

(** A restore into a cluster that has no claim of the name yet. *)
Lemma EnsurePVCfromRD_fresh (f : Faults)
  (rdSpec : VolSyncReplicationDestinationSpec) (w : World)
  (rd : ReplicationDestination) (st : ReplicationDestinationStatus)
  (img : TypedLocalObjectReference) (snap : VolumeSnapshot) :
  let p := rdProtectedPVC rdSpec in
  let run := EnsurePVCfromRD f rdSpec w in
  let source :=
    {| refAPIGroup :=
         Some (match refAPIGroup img with
               | Some g => if String.eqb g "" then SnapshotGroupName else g
               | None => SnapshotGroupName
               end);
       refKind := refKind img; refName := refName img |} in
  let claim :=
    {| pvcMeta := setCreated (setLabels (Labels p) (newMeta (Name p)));
       pvcAccessModes :=
         if (0 <? length (AccessModes p))%nat then AccessModes p
         else [ReadWriteOnce];
       pvcStorageClassName := StorageClassName p;
       pvcDataSource := Some source;
       pvcResources := Resources p;
       pvcPhase := "" |} in
  quiet f → wf (cluster (state w)) →
  rds (cluster (state w)) !! Name p = Some rd →
  rdStatus rd = Some st → LatestImage st = Some img →
  isLatestImageReady (Some img) = true →
  snapshots (cluster (state w)) !! refName img = Some snap →
  pvcs (cluster (state w)) !! Name p = None →
  run.1 = None
  ∧ ∃ snap',
      cluster (state run.2)
      = withTable (<[refName img := snap']> (snapshots (cluster (state w))))
          (withTable (<[Name p := claim]> (pvcs (cluster (state w))))
             (cluster (state w)))
      ∧ labels (snapMeta snap')
        = <[VolSyncDoNotDeleteLabel := VolSyncDoNotDeleteLabelVal]>
            (labels (snapMeta snap))
      ∧ hasOwnerRef "PersistentVolumeClaim" (Name p) (snapMeta snap')
      ∧ (∀ o, o ∈ ownerReferences (snapMeta snap) →
              o ∈ ownerReferences (snapMeta snap')).
Proof.
  intros p run source claim Hq Hw Hrd Hst Himg Hready Hsnap Hp.
  subst run.
  destruct (EnsurePVCfromRD f rdSpec w) as [r w1] eqn:E.
  unfold EnsurePVCfromRD, bind, ret in E.
  destruct (getRDLatestImage f _ w) as [g w0] eqn:EG.
  apply getRDLatestImage_inv in EG as [Hs0 ->].
  fold p in E. rewrite Hq, Hrd, Hst, Himg in E.
  cbn [fst snd] in *. rewrite Hready in E. cbn [negb] in E.
  assert (Hsrc : match refAPIGroup img with
                 | Some g =>
                     if String.eqb g "" then
                       {| refAPIGroup := Some SnapshotGroupName;
                          refKind := refKind img; refName := refName img |}
                     else img
                 | None =>
                     {| refAPIGroup := Some SnapshotGroupName;
                        refKind := refKind img; refName := refName img |}
                 end = source).
  { subst source. destruct img as [[g|] k m]; cbn; [|reflexivity].
    destruct (String.eqb g ""); reflexivity. }
  rewrite Hsrc in E. clear Hsrc.
  unfold validateSnapshotAndEnsurePVC, bind, ret in E.
  destruct (validateSnapshotAndAddDoNotDeleteLabel f source w0)
    as [vs w2] eqn:EV.
  apply validateSnapshot_inv in EV;
    [|apply quiet_answers, Hq | apply quiet_answers, Hq
     |rewrite Hs0; apply (wf_keyed (T := VolumeSnapshot)); exact Hw].
  change (refName source) with (refName img) in EV.
  rewrite Hs0, Hsnap in EV. cbv zeta in EV.
  destruct EV as (-> & Hn1 & Hstored & Hs2). cbn [fst snd] in E.
  remember (addLabel snap VolSyncDoNotDeleteLabel VolSyncDoNotDeleteLabelVal).1
    as snap1 eqn:E1.
  assert (Hl1 : labels (snapMeta snap1)
                = <[VolSyncDoNotDeleteLabel := VolSyncDoNotDeleteLabelVal]>
                    (labels (snapMeta snap))).
  { subst snap1. unfold addLabel. cbn.
    destruct (labels (snapMeta snap) !! VolSyncDoNotDeleteLabel) as [val|]
      eqn:Hl; [|reflexivity].
    destruct (String.eqb val VolSyncDoNotDeleteLabelVal) eqn:Hv;
      [|reflexivity].
    apply String.eqb_eq in Hv. subst val. cbn. now rewrite insert_id. }
  assert (Ho1 : ownerReferences (snapMeta snap1) = ownerReferences (snapMeta snap)).
  { subst snap1. unfold addLabel. cbn. repeat case_match; reflexivity. }
  assert (Hc2 : cluster (state w2)
                = withTable (<[refName img := snap1]>
                               (snapshots (cluster (state w))))
                    (cluster (state w))).
  { destruct Hs2 as [Hs2 | Hs2]; rewrite Hs2 in *; [|reflexivity].
    rewrite Hsnap in Hstored. injection Hstored as <-.
    rewrite insert_id by exact Hsnap. now destruct (cluster (state w)). }
  destruct (ensurePVCFromSnapshot f rdSpec source w2) as [ep w3] eqn:EP.
  apply ensurePVC_created in EP;
    [|apply quiet_answers, Hq | apply quiet_answers, Hq | now rewrite Hc2].
  cbv zeta in EP. fold p claim in EP. destruct EP as [-> Hs3].
  cbn [fst snd] in E.
  destruct (addOwnerReferenceAndUpdate f snap1 _ _ w3) as [u w4] eqn:EU.
  apply addOwnerReferenceAndUpdate_inv in EU. cbn zeta in EU.
  rewrite SetOwnerReference_name, Hn1, Hq in EU.
  change (nameOf claim) with (Name p) in EU.
  assert (Hsnap3 : snapshots (cluster (state w3)) !! refName img = Some snap1).
  { rewrite Hs3, Hc2. cbn. now rewrite lookup_insert_eq. }
  assert (Hc3 : cluster (state w3)
                = withTable (<[refName img := snap1]>
                               (snapshots (cluster (state w))))
                    (withTable (<[Name p := claim]> (pvcs (cluster (state w))))
                       (cluster (state w)))).
  { rewrite Hs3, Hc2. reflexivity. }
  change (table (T := VolumeSnapshot) (cluster (state w3)))
    with (snapshots (cluster (state w3))) in EU.
  rewrite Hsnap3 in EU. injection E as <- <-.
  destruct (ctrlutil.indexOwnerRef (ownerReferences (metaOf snap1)) _)
    eqn:Hidx in EU.
  - destruct EU as [-> Hs4]. split; [reflexivity|].
    exists snap1. rewrite Hs4. split; [exact Hc3|]. split; [exact Hl1|].
    split; [unfold hasOwnerRef; cbn in Hidx; rewrite Hidx; eauto|].
    intros o Ho. now rewrite Ho1.
  - destruct EU as [-> Hs4]. split; [reflexivity|].
    eexists. rewrite Hs4. cbn. rewrite Hc3. cbn.
    rewrite insert_insert_eq. split; [reflexivity|]. cbn.
    split; [exact Hl1|]. split.
    + unfold hasOwnerRef. cbn. apply indexOwnerRef_upsert.
    + intros o Ho. unfold ctrlutil.SetOwnerReference, ctrlutil.upsertOwnerRef.
      cbn in Hidx |- *. rewrite Hidx. rewrite Ho1. apply elem_of_app. now left.
Qed.

(** X14.  With the destination's latest image ready, its snapshot in the
    cluster and no claim of the name yet (the server answering),
    [EnsurePVCfromRD] succeeds and leaves a claim built from the
    descriptor whose data source is the image, with the snapshot API group
    filled in when the image has none; the snapshot carries the
    do-not-delete label and lists the claim as an owner.  Nothing else in
    the cluster changes. *)
Theorem restore_creates_the_claim (f : Faults)
  (rdSpec : VolSyncReplicationDestinationSpec) (w : World)
  (rd : ReplicationDestination) (st : ReplicationDestinationStatus)
  (img : TypedLocalObjectReference) (snap : VolumeSnapshot) :
  let p := rdProtectedPVC rdSpec in
  let run := EnsurePVCfromRD f rdSpec w in
  let source :=
    {| refAPIGroup :=
         Some (match refAPIGroup img with
               | Some g => if String.eqb g "" then SnapshotGroupName else g
               | None => SnapshotGroupName
               end);
       refKind := refKind img; refName := refName img |} in
  let claim :=
    {| pvcMeta := setCreated (setLabels (Labels p) (newMeta (Name p)));
       pvcAccessModes :=
         if (0 <? length (AccessModes p))%nat then AccessModes p
         else [ReadWriteOnce];
       pvcStorageClassName := StorageClassName p;
       pvcDataSource := Some source;
       pvcResources := Resources p;
       pvcPhase := "" |} in
  quiet f → wf (cluster (state w)) →
  rds (cluster (state w)) !! Name p = Some rd →
  rdStatus rd = Some st → LatestImage st = Some img →
  isLatestImageReady (Some img) = true →
  snapshots (cluster (state w)) !! refName img = Some snap →
  pvcs (cluster (state w)) !! Name p = None →
  run.1 = None
  ∧ ∃ snap',
      cluster (state run.2)
      = withTable (<[refName img := snap']> (snapshots (cluster (state w))))
          (withTable (<[Name p := claim]> (pvcs (cluster (state w))))
             (cluster (state w)))
      ∧ labels (snapMeta snap')
        = <[VolSyncDoNotDeleteLabel := VolSyncDoNotDeleteLabelVal]>
            (labels (snapMeta snap))
      ∧ hasOwnerRef "PersistentVolumeClaim" (Name p) (snapMeta snap')
      ∧ (∀ o, o ∈ ownerReferences (snapMeta snap) →
              o ∈ ownerReferences (snapMeta snap')).
Proof.
  exact (EnsurePVCfromRD_fresh f rdSpec w rd st img snap).
Qed.

(** A restore that finds the claim it would create, and the snapshot
    labelled and owned by the claim, has nothing to do. *)
Lemma EnsurePVCfromRD_settled (f : Faults)
  (rdSpec : VolSyncReplicationDestinationSpec) (w : World)
  (rd : ReplicationDestination) (st : ReplicationDestinationStatus)
  (img : TypedLocalObjectReference) (snap : VolumeSnapshot) :
  let p := rdProtectedPVC rdSpec in
  let source :=
    {| refAPIGroup :=
         Some (match refAPIGroup img with
               | Some g => if String.eqb g "" then SnapshotGroupName else g
               | None => SnapshotGroupName
               end);
       refKind := refKind img; refName := refName img |} in
  let claim :=
    {| pvcMeta := setCreated (setLabels (Labels p) (newMeta (Name p)));
       pvcAccessModes :=
         if (0 <? length (AccessModes p))%nat then AccessModes p
         else [ReadWriteOnce];
       pvcStorageClassName := StorageClassName p;
       pvcDataSource := Some source;
       pvcResources := Resources p;
       pvcPhase := "" |} in
  quiet f →
  rds (cluster (state w)) !! Name p = Some rd →
  rdStatus rd = Some st → LatestImage st = Some img →
  isLatestImageReady (Some img) = true →
  snapshots (cluster (state w)) !! refName img = Some snap →
  labels (snapMeta snap) !! VolSyncDoNotDeleteLabel
  = Some VolSyncDoNotDeleteLabelVal →
  hasOwnerRef "PersistentVolumeClaim" (Name p) (snapMeta snap) →
  pvcs (cluster (state w)) !! Name p = Some claim →
  (EnsurePVCfromRD f rdSpec w).1 = None
  ∧ state (EnsurePVCfromRD f rdSpec w).2 = state w.
Proof.
  intros p source claim Hq Hrd Hst Himg Hready Hsnap Hlab Hown Hp.
  destruct (EnsurePVCfromRD f rdSpec w) as [r w1] eqn:E.
  unfold EnsurePVCfromRD, bind, ret in E.
  destruct (getRDLatestImage f _ w) as [g w0] eqn:EG.
  apply getRDLatestImage_inv in EG as [Hs0 ->].
  fold p in E. rewrite Hq, Hrd, Hst, Himg in E.
  cbn [fst snd] in *. rewrite Hready in E. cbn [negb] in E.
  assert (Hsrc : match refAPIGroup img with
                 | Some g =>
                     if String.eqb g "" then
                       {| refAPIGroup := Some SnapshotGroupName;
                          refKind := refKind img; refName := refName img |}
                     else img
                 | None =>
                     {| refAPIGroup := Some SnapshotGroupName;
                        refKind := refKind img; refName := refName img |}
                 end = source).
  { subst source. destruct img as [[g|] k m]; cbn; [|reflexivity].
    destruct (String.eqb g ""); reflexivity. }
  rewrite Hsrc in E. clear Hsrc.
  unfold validateSnapshotAndEnsurePVC, bind, ret in E.
  (* the snapshot: found, labelled already *)
  unfold validateSnapshotAndAddDoNotDeleteLabel, bind, ret in E.
  change (refName source) with (refName img) in E.
  destruct (client.Get (T := VolumeSnapshot) f (refName img) w0)
    as [gs w2] eqn:EGs.
  apply Get_inv in EGs as [Hs2 ->]. rewrite Hq, Hs0 in E.
  change (table (T := VolumeSnapshot) (cluster (state w)))
    with (snapshots (cluster (state w))) in E.
  rewrite Hsnap in E. cbn [fst snd] in E.
  assert (Hadd : addLabel snap VolSyncDoNotDeleteLabel VolSyncDoNotDeleteLabelVal
                 = (snap, false)).
  { unfold addLabel. cbn. rewrite Hlab. reflexivity. }
  rewrite Hadd in E. cbn [fst snd] in E.
  (* the claim: found, as the mutation leaves it *)
  destruct (ensurePVCFromSnapshot f rdSpec source w2) as [ep w3] eqn:EP.
  assert (HP : ep = Ok claim ∧ state w3 = state w2).
  { unfold ensurePVCFromSnapshot, bind in EP.
    destruct (ctrlutil.CreateOrUpdate _ _ _ _ w2) as [[x c] w4] eqn:EC.
    apply CreateOrUpdate_inv in EC. cbn [nameOf metaOf PVC_stored pvcMeta
      newMeta name kindOf table] in EC.
    fold p in EC. rewrite Hs2, Hs0 in EC.
    destruct EC as [(_ & _ & t & Ht) | [(Hnone & _) | (existing & Hex & EC)]].
    - rewrite Hq in Ht. discriminate.
    - rewrite Hp in Hnone. discriminate.
    - rewrite Hp in Hex. injection Hex as <-.
      assert (Hmut : mutatePVC rdSpec source claim false = (false, Ok claim)).
      { unfold mutatePVC. subst claim source. cbn.
        rewrite !String.eqb_refl. cbn. fold p.
        rewrite (idemp_L (∪)). reflexivity. }
      rewrite Hmut in EC. rewrite decide_True in EC by reflexivity.
      destruct EC as [EC Hs4]. injection EC as -> ->. cbn in EP.
      injection EP as <- <-. split; [reflexivity | congruence]. }
  destruct HP as [-> Hs3]. cbn [fst snd] in E.
  apply addOwnerReferenceAndUpdate_inv in E. cbn zeta in E.
  change (nameOf claim) with (Name p) in E.
  destruct Hown as [i Hi]. cbn in E. rewrite Hi in E.
  destruct E as [-> Hs1]. split; [reflexivity | congruence].
Qed.

(** X20.  A restore that has gone through can be repeated.  With the
    destination's latest image ready, its snapshot in the cluster and no
    claim of the name yet (the server answering), [EnsurePVCfromRD]
    succeeds, and a second call on what the first one left succeeds
    without writing anything. *)
Theorem restore_again_writes_nothing (f : Faults)
  (rdSpec : VolSyncReplicationDestinationSpec) (w : World)
  (rd : ReplicationDestination) (st : ReplicationDestinationStatus)
  (img : TypedLocalObjectReference) (snap : VolumeSnapshot) :
  let p := rdProtectedPVC rdSpec in
  let first := EnsurePVCfromRD f rdSpec w in
  let second := EnsurePVCfromRD f rdSpec first.2 in
  quiet f → wf (cluster (state w)) →
  rds (cluster (state w)) !! Name p = Some rd →
  rdStatus rd = Some st → LatestImage st = Some img →
  isLatestImageReady (Some img) = true →
  snapshots (cluster (state w)) !! refName img = Some snap →
  pvcs (cluster (state w)) !! Name p = None →
  first.1 = None ∧ second.1 = None ∧ state second.2 = state first.2.
Proof.
  intros p first second Hq Hw Hrd Hst Himg Hready Hsnap Hp.
  subst first second.
  destruct (EnsurePVCfromRD_fresh f rdSpec w rd st img snap Hq Hw Hrd Hst
              Himg Hready Hsnap Hp) as (Hout & snap' & Hc & Hl & Ho & _).
  split; [exact Hout|].
  apply (EnsurePVCfromRD_settled f rdSpec _ rd st img snap' Hq);
    try assumption.
  - rewrite Hc. exact Hrd.
  - rewrite Hc. apply lookup_insert_eq.
  - rewrite Hl. apply lookup_insert_eq.
  - rewrite Hc. apply lookup_insert_eq.
Qed.

(** ** The claim around the final sync *)

(** X15.  When the server answers, [pvcExistsAndInUse] reports no error,
    writes nothing, and returns true exactly when the claim exists and a
    pod mounts it: a claim that is gone counts as not in use, whatever the
    pods say.  [validatePVCBeforeFinalSync] lets a final sync proceed
    exactly when that is false, and lets every other run proceed without
    looking. *)
Theorem final_sync_waits_for_the_pods (f : Faults)
  (rsSpec : VolSyncReplicationSourceSpec) (w : World) :
  let n := Name (rsProtectedPVC rsSpec) in
  let used := pvcExistsAndInUse f n w in
  let final := validatePVCBeforeFinalSync f rsSpec true w in
  answers f VGet KPVC n → answers f VList KPod n →
  (used.1.2 = None ∧ state used.2 = state w
   ∧ (used.1.1 = true ↔ inUse (cluster (state w)) n))
  ∧ (final.1.2 = None ∧ state final.2 = state w
     ∧ (final.1.1 = true ↔ ¬ inUse (cluster (state w)) n))
  ∧ validatePVCBeforeFinalSync f rsSpec false w = ((true, None), w).
Proof.
  intros n used final HG HL. subst used final.
  assert (Hused :
    (pvcExistsAndInUse f n w).1.2 = None
    ∧ state (pvcExistsAndInUse f n w).2 = state w
    ∧ ((pvcExistsAndInUse f n w).1.1 = true ↔ inUse (cluster (state w)) n)).
  { destruct (pvcExistsAndInUse f n w) as [r w1] eqn:E.
    unfold pvcExistsAndInUse, getPVC, bind, ret in E.
    destruct (client.Get f n w) as [g w0] eqn:EG.
    apply Get_inv in EG as [Hs0 ->]. rewrite HG in E. cbn in E.
    destruct (pvcs (cluster (state w)) !! n) as [pvc|] eqn:Hp; cbn in E.
    2:{ injection E as <- <-. cbn. split; [reflexivity|].
        split; [exact Hs0|]. split; [discriminate|].
        intros [[x Hx] _]. congruence. }
    apply isPvcInUse_inv in E as [Hs1 Hr]. rewrite Hs0 in Hr, Hs1.
    destruct Hr as [[_ [t Ht]] | [[-> Hin] | [-> Hnot]]]; cbn.
    - rewrite HL in Ht. discriminate.
    - split; [reflexivity|]. split; [exact Hs1|].
      split; [intros _; split; [eauto | exact Hin] | reflexivity].
    - split; [reflexivity|]. split; [exact Hs1|].
      split; [discriminate | intros [_ Hin]; now destruct Hnot]. }
  split; [exact Hused|]. split; [|reflexivity].
  destruct Hused as (Herr & Hst & Hiff).
  unfold validatePVCBeforeFinalSync, bind, ret. cbn [negb].
  fold n. destruct (pvcExistsAndInUse f n w) as [[b e] w1].
  cbn [fst snd] in *. subst e.
  destruct b; cbn; (split; [reflexivity|]); (split; [exact Hst|]).
  - split; [discriminate|]. intros Hno. destruct Hno. now apply Hiff.
  - split; [|reflexivity]. intros _ Hin. apply Hiff in Hin. discriminate.
Qed.

(** X16.  [deletePVC] surfaces every refusal of the deletion except a
    not-found one.  When the request is answered it returns nil, also for
    a claim that is not there, in which case nothing is written; so the
    call can be repeated, and the second call returns nil as well.  When
    the request is refused it returns the refusal wrapped as "error
    deleting pvc" and writes nothing.  Whatever happens, no claim of
    another name and nothing that is not a claim changes. *)
Theorem delete_claim_can_be_repeated (f : Faults) (n : string) (w : World) :
  let first := deletePVC f n w in
  let second := deletePVC f n first.2 in
  (cluster (state first.2)
   = withTable (pvcs (cluster (state first.2))) (cluster (state w))
   ∧ ∀ k, k ≠ n →
          pvcs (cluster (state first.2)) !! k = pvcs (cluster (state w)) !! k)
  ∧ (answers f VDelete KPVC n →
     first.1 = None ∧ second.1 = None
     ∧ (pvcs (cluster (state w)) !! n = None → state first.2 = state w))
  ∧ ((∀ t, f t VDelete KPVC n = true) →
     first.1 = Some (EWrap "error deleting pvc" (EApi VDelete KPVC n))
     ∧ state first.2 = state w).
Proof.
  intros first second. subst first second.
  destruct (deletePVC f n w) as [r w1] eqn:E1. cbn [fst snd].
  pose proof E1 as E1'. apply deletePVC_inv in E1'.
  assert (Hframe :
    cluster (state w1) = withTable (pvcs (cluster (state w1))) (cluster (state w))
    ∧ ∀ k, k ≠ n →
           pvcs (cluster (state w1)) !! k = pvcs (cluster (state w)) !! k).
  { destruct E1' as [(_ & Hs & _) | [(_ & Hs & _) | (_ & _ & Hs)]];
      rewrite Hs.
    - split; [now destruct (cluster (state w)) | reflexivity].
    - split; [now destruct (cluster (state w)) | reflexivity].
    - cbn. split; [reflexivity|]. intros k Hk. now apply lookup_delete_ne. }
  split; [exact Hframe|]. split.
  - intros HD.
    assert (H1 : r = None
                 ∧ pvcs (cluster (state w1)) !! n = None
                 ∧ (pvcs (cluster (state w)) !! n = None → state w1 = state w)).
    { destruct E1' as [(_ & _ & t & Ht) | [(-> & Hs & Hp) | (-> & [x Hx] & Hs)]].
      - rewrite HD in Ht. discriminate.
      - split; [reflexivity|]. rewrite Hs. auto.
      - split; [reflexivity|]. rewrite Hs. cbn.
        split; [apply lookup_delete_eq | congruence]. }
    destruct H1 as (-> & Hgone & Hsame). split; [reflexivity|].
    split; [|exact Hsame].
    destruct (deletePVC f n w1) as [r2 w2] eqn:E2. cbn [fst snd].
    apply deletePVC_inv in E2.
    destruct E2 as [(_ & _ & t & Ht) | [(-> & _) | (-> & _)]];
      [rewrite HD in Ht; discriminate | reflexivity | reflexivity].
  - intros HR. unfold deletePVC, bind, ret in E1.
    destruct (client.Delete f n w) as [d w0] eqn:ED. apply Delete_inv in ED.
    rewrite HR in ED. destruct ED as [-> Hs]. cbn in E1.
    injection E1 as <- <-. auto.
Qed.

(** ** The S3 store accessors *)

Section Accessors.
Context {ObjectStorer S3StoreProfile GetError : Type}.
Variable NoS3StoreAvailable : string.
Variable get : string → ObjectStorer * S3StoreProfile + GetError.

Local Abbreviation gives n a :=
  (get n = inl (accessorObjectStorer a, accessorS3StoreProfile a)).

Lemma s3StoreAccessorsRange_spec names acc asked :
  let real := realProfiles NoS3StoreAvailable names in
  let run := s3StoreAccessorsRange NoS3StoreAvailable (recording get) names
               acc asked in
  match run.1 with
  | Some accs =>
      run.2 = (asked ++ real)%list
      ∧ ∃ new, accs = (acc ++ new)%list ∧ Forall2 (fun n a => gives n a) real new
  | None =>
      ∃ before n e after,
        real = (before ++ n :: after)%list
        ∧ run.2 = (asked ++ before ++ [n])%list
        ∧ get n = inr e
        ∧ ∀ m, m ∈ before → ∃ x, get m = inl x
  end.
Proof.
  cbv zeta. revert acc asked.
  induction names as [|name rest IH]; intros acc asked.
  - cbn. split; [now rewrite app_nil_r|]. exists []. split; [|constructor].
    now rewrite app_nil_r.
  - cbn [s3StoreAccessorsRange]. unfold realProfiles. rewrite filter_cons.
    destruct (String.eqb name NoS3StoreAvailable) eqn:Hn.
    + rewrite decide_False by discriminate. apply IH.
    + rewrite decide_True by reflexivity. fold (realProfiles NoS3StoreAvailable rest).
      change (recording get name asked)
        with (get name, (asked ++ [name])%list).
      destruct (get name) as [[os p]|e] eqn:Hg; cbv beta iota.
      * specialize (IH (acc ++ [{| accessorObjectStorer := os;
                                   accessorS3StoreProfile := p |}])%list
                      (asked ++ [name])%list).
        destruct (s3StoreAccessorsRange _ _ rest _ _).1 as [accs|].
        -- destruct IH as (Hasked & new & -> & Hall).
           split; [now rewrite Hasked, <- app_assoc|].
           eexists (_ :: new). split; [now rewrite <- app_assoc|].
           constructor; [exact Hg | exact Hall].
        -- destruct IH as (before & n & e & after & Hreal & Hasked & He & Hok).
           exists (name :: before), n, e, after.
           split; [now rewrite Hreal|].
           split; [now rewrite Hasked, <- app_assoc|].
           split; [exact He|].
           intros m Hm. apply elem_of_cons in Hm as [-> | Hm]; eauto.
      * cbn. exists [], name, e, (realProfiles NoS3StoreAvailable rest).
        repeat split; try reflexivity; try exact Hg.
        intros m Hm. inversion Hm.
Qed.

(** X17.  [s3StoreAccessorsGet] asks the getter for the profile names
    that are not the dummy one, in their order, and never for the dummy
    name.  When every one of them is answered it returns one accessor per
    name, in that order, holding what the getter gave; at the first name
    the getter fails on it stops, asks for no further name and returns
    nil.  So the result is nil exactly when the getter fails on a name it
    is asked for. *)
Theorem s3_accessors_all_or_nothing (names : list string) :
  let real := realProfiles NoS3StoreAvailable names in
  let run := s3StoreAccessorsGet NoS3StoreAvailable names (recording get) [] in
  (NoS3StoreAvailable ∉ run.2)
  ∧ (match run.1 with
     | Some accs =>
        run.2 = real ∧ Forall2 (fun n a => gives n a) real accs
     | None =>
        ∃ before n e after,
          real = (before ++ n :: after)%list
          ∧ run.2 = (before ++ [n])%list
          ∧ get n = inr e
          ∧ ∀ m, m ∈ before → ∃ x, get m = inl x
     end)
  ∧ (run.1 = None ↔ ∃ n e, n ∈ names ∧ n ≠ NoS3StoreAvailable ∧ get n = inr e).
Proof.
  cbv zeta. unfold s3StoreAccessorsGet.
  pose proof (s3StoreAccessorsRange_spec names [] []) as Hspec.
  cbv zeta in Hspec.
  assert (Hreal : ∀ n, n ∈ realProfiles NoS3StoreAvailable names
                       ↔ n ∈ names ∧ n ≠ NoS3StoreAvailable).
  { intros n. unfold realProfiles. rewrite list_elem_of_filter.
    rewrite String.eqb_neq. tauto. }
  destruct (s3StoreAccessorsRange _ _ names [] []) as [[accs|] asked];
    cbn [fst snd] in *.
  - destruct Hspec as (-> & new & -> & Hall). cbn.
    split; [intros Hin; apply Hreal in Hin; tauto|].
    split; [split; [reflexivity | exact Hall]|].
    split; [discriminate|].
    intros (n & e & Hn & Hne & He).
    assert (Hin : n ∈ realProfiles NoS3StoreAvailable names)
      by (apply Hreal; auto).
    apply list_elem_of_lookup in Hin as [i Hi].
    destruct (Forall2_lookup_l _ _ _ _ _ Hall Hi) as (a & _ & Ha).
    congruence.
  - destruct Hspec as (before & n & e & after & Hr & -> & He & Hok). cbn.
    assert (Hsub : ∀ m, m ∈ (before ++ [n])%list →
                        m ∈ realProfiles NoS3StoreAvailable names).
    { intros m Hm. rewrite Hr. apply elem_of_app in Hm as [Hm | Hm].
      - apply elem_of_app. now left.
      - apply list_elem_of_singleton in Hm as ->. apply elem_of_app. right.
        left. }
    split; [intros Hin; apply Hsub, Hreal in Hin; tauto|].
    split; [exists before, n, e, after; auto|].
    split; [intros _|reflexivity].
    exists n, e. assert (Hin : n ∈ (before ++ [n])%list)
      by (apply elem_of_app; right; left).
    apply Hsub, Hreal in Hin. tauto.
Qed.
End Accessors.

(** ** The schedule of a source *)

Lemma string_snoc (s : string) :
  s ≠ "" → ∃ num u, s = num +:+ String u "".
Proof.
  induction s as [|c s IH]; [congruence|]. intros _.
  destruct s as [|d s].
  - exists "", c. reflexivity.
  - destruct IH as (num & u & ->); [discriminate|].
    exists (String c num), u. reflexivity.
Qed.

(** X18.  The schedule of a source is the default one when the handler
    has no scheduling interval.  Otherwise it exists exactly when the
    interval is a prefix that [Atoi] accepts followed by one of m, h, d in
    either case, and then it embeds the prefix as it is written (sign and
    leading zeros included), except that a day count above 28 is written
    as 28. *)
Theorem schedule_exists_exactly (DefaultScheduleCronSpec : string)
  (v : VSHandler) (spec : string) :
  getScheduleCronSpec DefaultScheduleCronSpec v = Ok spec
  ↔ (schedulingInterval v = "" ∧ spec = DefaultScheduleCronSpec)
    ∨ ∃ num n u,
        schedulingInterval v = num +:+ String u ""
        ∧ Cron.Atoi num = Some n
        ∧ ((Cron.lower_ascii u = "m"%char
            ∧ spec = "*/" +:+ num +:+ " * * * *")
           ∨ (Cron.lower_ascii u = "h"%char
              ∧ spec = "0 */" +:+ num +:+ " * * *")
           ∨ (Cron.lower_ascii u = "d"%char
              ∧ spec = "0 0 */" +:+ (if n >? 28 then "28" else num)
                       +:+ " * *")).
Proof.
  unfold getScheduleCronSpec.
  destruct (String.eqb_spec (schedulingInterval v) "") as [He|Hne].
  { rewrite He. cbn. split.
    - intros [= <-]. now left.
    - intros [[_ ->] | (num & n & u & Hs & _)]; [reflexivity|].
      destruct num; discriminate Hs. }
  cbn [negb].
  destruct (string_snoc _ Hne) as (num & u & Hs). rewrite Hs.
  assert (Hinj : ∀ num' u', num +:+ String u "" = num' +:+ String u' "" →
                            num' = num ∧ u' = u).
  { intros num' u' Heq.
    assert (Hlen : String.length num = String.length num').
    { apply (f_equal String.length) in Heq. rewrite !length_snoc in Heq. lia. }
    pose proof (substring_snoc_prefix num u) as H1.
    pose proof (substring_snoc_last num u) as H2.
    rewrite Heq, Hlen in H1, H2.
    rewrite substring_snoc_prefix in H1. rewrite substring_snoc_last in H2.
    split; [exact H1 | now injection H2]. }
  destruct num as [|c num'] eqn:Hnum.
  { cbn. split; [discriminate|].
    intros [[He _] | (num2 & n & u2 & Heq & Ha & _)]; [discriminate He|].
    destruct (Hinj num2 u2 Heq) as [-> _]. discriminate Ha. }
  rewrite <- Hnum in *. rewrite Convert_snoc by (rewrite Hnum; discriminate).
  destruct (Cron.Atoi num) as [n|] eqn:Ha.
  2:{ split; [discriminate|].
      intros [[He _] | (num2 & n & u2 & Heq & Ha2 & _)].
      - rewrite Hnum in He. discriminate He.
      - destruct (Hinj num2 u2 Heq) as [-> _]. congruence. }
  cbn zeta. rewrite !unit_eqb. unfold CronSpecMaxDayOfMonth.
  assert (Hback :
    (num +:+ String u "" = "" ∧ spec = DefaultScheduleCronSpec)
    ∨ (∃ num2 n2 u2,
         num +:+ String u "" = num2 +:+ String u2 ""
         ∧ Cron.Atoi num2 = Some n2
         ∧ ((Cron.lower_ascii u2 = "m"%char
             ∧ spec = "*/" +:+ num2 +:+ " * * * *")
            ∨ (Cron.lower_ascii u2 = "h"%char
               ∧ spec = "0 */" +:+ num2 +:+ " * * *")
            ∨ (Cron.lower_ascii u2 = "d"%char
               ∧ spec = "0 0 */" +:+ (if n2 >? 28 then "28" else num2)
                        +:+ " * *"))) →
    (Cron.lower_ascii u = "m"%char ∧ spec = "*/" +:+ num +:+ " * * * *")
    ∨ (Cron.lower_ascii u = "h"%char ∧ spec = "0 */" +:+ num +:+ " * * *")
    ∨ (Cron.lower_ascii u = "d"%char
       ∧ spec = "0 0 */" +:+ (if n >? 28 then "28" else num) +:+ " * *")).
  { intros [[He _] | (num2 & n2 & u2 & Heq & Ha2 & Hu)].
    - rewrite Hnum in He. discriminate He.
    - destruct (Hinj num2 u2 Heq) as [-> ->].
      assert (n2 = n) as -> by congruence. exact Hu. }
  split.
  - intros Hok. right. exists num, n, u. split; [reflexivity|].
    split; [exact Ha|].
    destruct (Ascii.eqb_spec (Cron.lower_ascii u) "m") as [Hm|Hm].
    { left. split; [exact Hm|]. rewrite Hnum in Hok |- *. cbn in Hok.
      now injection Hok as <-. }
    destruct (Ascii.eqb_spec (Cron.lower_ascii u) "h") as [Hh|Hh].
    { right; left. split; [exact Hh|]. rewrite Hnum in Hok |- *. cbn in Hok.
      now injection Hok as <-. }
    destruct (Ascii.eqb_spec (Cron.lower_ascii u) "d") as [Hd|Hd].
    { right; right. split; [exact Hd|].
      destruct (n >? 28); cbn in Hok; now injection Hok as <-. }
    cbn in Hok. discriminate Hok.
  - intros Hex. apply Hback in Hex.
    destruct Hex as [[Hu ->] | [[Hu ->] | [Hu ->]]]; rewrite Hu.
    + reflexivity.
    + reflexivity.
    + destruct (n >? 28); reflexivity.
Qed.

(** * Further properties on the sample clusters *)

Lemma withClasses_wf l : wf (cluster (state (Sample.withClasses l))).
Proof.
  repeat split; try apply keyedMap_empty; try exact theSecret_keyed.
Qed.

Lemma withDestination_wf st : wf (cluster (state (Sample.withDestination st))).
Proof.
  apply clusterWith_wf;
    [exact theSecret_keyed | apply keyedMap_empty
    | apply keyedMap_empty | now apply keyedMap_singleton].
Qed.

Lemma threeDestinations_wf : wf (cluster (state Sample.threeDestinations)).
Proof.
  apply clusterWith_wf;
    [exact theSecret_keyed | apply keyedMap_empty | apply keyedMap_empty |].
  do 2 (apply keyedMap_insert; [|reflexivity]). now apply keyedMap_singleton.
Qed.

Lemma theSecret_present :
  is_Some (Sample.theSecret !! Sample.secretNameOf "vrg").
Proof. eexists. reflexivity. Qed.

(** The statement of X1 on four classes: the last default class of the
    provisioner wins over the first class and over another provisioner's
    default. *)
Lemma snapshot_class_is_the_preferred_one_witness :
  let w := Sample.withClasses Sample.fourClasses in
  (answers Sample.noFaults VGet KStorageClass "sc"
   ∧ answers Sample.noFaults VList KVSClass ""
   ∧ (∀ c, c ∈ Sample.fourClasses → vscName c ≠ ""))
  ∧ (GetVolumeSnapshotClassFromPVCStorageClass Sample.noFaults Sample.handler
       (Some "sc") w).1 = Ok "preferred".
Proof.
  cbv zeta.
  assert (Hnames : ∀ c, c ∈ Sample.fourClasses → vscName c ≠ "").
  { intros c Hc. unfold Sample.fourClasses in Hc.
    repeat (apply elem_of_cons in Hc as [-> | Hc]; [discriminate|]).
    inversion Hc. }
  split.
  { split; [apply quiet_answers, noFaults_quiet|].
    split; [apply quiet_answers, noFaults_quiet | exact Hnames]. }
  exact (snapshot_class_is_the_preferred_one Sample.noFaults Sample.handler
           "sc" {| Provisioner := "csi" |} Sample.fourClasses
           (Sample.withClasses Sample.fourClasses)
           (quiet_answers _ _ _ _ noFaults_quiet)
           (quiet_answers _ _ _ _ noFaults_quiet)
           ltac:(discriminate) eq_refl eq_refl Hnames).
Defined.

(** The statement of X2: the second call runs on a cluster without classes
    and a server that refuses every request, and still returns the list. *)
Lemma snapshot_classes_are_listed_once_witness :
  let w := Sample.withClasses [Sample.class "vsc" "csi" false] in
  let first := GetVolumeSnapshotClasses Sample.noFaults Sample.handler w in
  let w' := {| state := cached [Sample.class "vsc" "csi" false]
                          (state (Sample.withClasses []));
               ticks := 7 |} in
  (first.1 = Ok [Sample.class "vsc" "csi" false]
   ∧ volumeSnapshotClassList (state w') = volumeSnapshotClassList (state first.2))
  ∧ GetVolumeSnapshotClasses Sample.refuseAll Sample.handler w'
    = (Ok [Sample.class "vsc" "csi" false], w').
Proof.
  cbv zeta.
  assert (Hfirst : (GetVolumeSnapshotClasses Sample.noFaults Sample.handler
                      (Sample.withClasses [Sample.class "vsc" "csi" false])).1
                   = Ok [Sample.class "vsc" "csi" false])
    by (vm_compute; reflexivity).
  assert (Hcache : volumeSnapshotClassList
                     (state {| state := cached [Sample.class "vsc" "csi" false]
                                          (state (Sample.withClasses []));
                               ticks := 7 |})
                   = volumeSnapshotClassList
                       (state (GetVolumeSnapshotClasses Sample.noFaults
                                 Sample.handler
                                 (Sample.withClasses
                                    [Sample.class "vsc" "csi" false])).2))
    by (vm_compute; reflexivity).
  split; [split; [exact Hfirst | exact Hcache]|].
  exact (snapshot_classes_are_listed_once Sample.noFaults Sample.refuseAll
           Sample.handler _ _ _ Hfirst Hcache).
Defined.

(** The statement of X3 on a bound claim with a source whose final sync has
    completed: the final sync run removes the claim and nothing else of the
    claims. *)
Lemma reconcile_spares_claims_and_snapshots_witness :
  let w := Sample.beforeFinalSync Sample.synced in
  let rd := ReconcileRD Sample.secretNameOf Sample.defaultServiceType
              Sample.noFaults Sample.handler Sample.rdSpec w in
  let rs := ReconcileRS Sample.secretNameOf Sample.defaultSchedule
              Sample.noFaults Sample.handler Sample.rsSpec true w in
  wf (cluster (state w))
  ∧ (pvcs (cluster (state rd.2)) = pvcs (cluster (state w))
     ∧ snapshots (cluster (state rd.2)) = snapshots (cluster (state w)))
  ∧ snapshots (cluster (state rs.2)) = snapshots (cluster (state w))
  ∧ pvcs (cluster (state rs.2)) = delete "data" (pvcs (cluster (state w)))
  ∧ pvcs (cluster (state rs.2)) !! "data" = None.
Proof.
  cbv zeta. split; [apply beforeFinalSync_wf|].
  destruct (reconcile_spares_claims_and_snapshots Sample.secretNameOf
              Sample.defaultSchedule Sample.defaultServiceType Sample.noFaults
              Sample.handler Sample.rdSpec Sample.rsSpec true
              (Sample.beforeFinalSync Sample.synced)
              (beforeFinalSync_wf Sample.synced)) as (Hrd & Hsnap & Hpvc).
  split; [exact Hrd|]. split; [exact Hsnap|].
  assert (Hgone : pvcs (cluster (state (ReconcileRS Sample.secretNameOf
            Sample.defaultSchedule Sample.noFaults Sample.handler
            Sample.rsSpec true (Sample.beforeFinalSync Sample.synced)).2))
          !! "data" = None) by (vm_compute; reflexivity).
  split; [|exact Hgone].
  destruct Hpvc as [Hsame | (_ & _ & Hdel)]; [|exact Hdel].
  rewrite Hsame in Hgone. vm_compute in Hgone. discriminate Hgone.
Defined.

(** The statement of X4 on a cluster that has the storage class but no
    snapshot class. *)
Lemma blocked_reconcile_writes_no_role_witness :
  let w := Sample.withClasses [] in
  let rd := ReconcileRD Sample.secretNameOf Sample.defaultServiceType
              Sample.noFaults Sample.handler Sample.rdSpec w in
  let rs := ReconcileRS Sample.secretNameOf Sample.defaultSchedule
              Sample.noFaults Sample.handler Sample.rsSpec false w in
  (wf (cluster (state w))
   ∧ is_Some (secrets (cluster (state w)) !! Sample.secretNameOf "vrg")
   ∧ snapshotClassFor Sample.handler (state w) (Some "sc") = None)
  ∧ (is_Some rd.1.2 ∧ rds (cluster (state rd.2)) = rds (cluster (state w)))
  ∧ (is_Some rs.1.2 ∧ rss (cluster (state rs.2)) = rss (cluster (state w))).
Proof.
  cbv zeta.
  assert (Hnone : snapshotClassFor Sample.handler
                    (state (Sample.withClasses [])) (Some "sc") = None)
    by reflexivity.
  split; [split; [apply withClasses_wf | split; [exact theSecret_present
                                                | exact Hnone]]|].
  destruct (blocked_reconcile_writes_no_role Sample.secretNameOf
              Sample.defaultSchedule Sample.defaultServiceType Sample.noFaults
              Sample.handler Sample.rdSpec Sample.rsSpec false
              (Sample.withClasses []) (withClasses_wf [])
              theSecret_present) as [Hrd Hrs].
  split; [exact (Hrd eq_refl (or_introl Hnone))|].
  destruct (Hrs eq_refl (or_introl Hnone)) as [Hsame Herr].
  split; [|exact Hsame].
  destruct ((ReconcileRS Sample.secretNameOf Sample.defaultSchedule
               Sample.noFaults Sample.handler Sample.rsSpec false
               (Sample.withClasses [])).1.2) as [e|] eqn:E; [eauto|].
  destruct (Herr eq_refl) as [Hfinal _]. discriminate Hfinal.
Defined.

(** The statement of X5 with the interval 5x. *)
Lemma untranslatable_interval_stops_the_source_witness :
  let w := Sample.withSource None in
  let run := ReconcileRS Sample.secretNameOf Sample.defaultSchedule
               Sample.noFaults Sample.badInterval Sample.rsSpec false w in
  (quiet Sample.noFaults ∧ wf (cluster (state w))
   ∧ snapshotClassFor Sample.badInterval (state w) (Some "sc") = Some "vsc"
   ∧ getScheduleCronSpec Sample.defaultSchedule Sample.badInterval
     = Err (EIntervalUnit "5x"))
  ∧ run.1 = (false, None, Some (EIntervalUnit "5x"))
  ∧ rss (cluster (state run.2)) = rss (cluster (state w)).
Proof.
  cbv zeta.
  assert (Hvsc : snapshotClassFor Sample.badInterval
                   (state (Sample.withSource None)) (Some "sc") = Some "vsc")
    by (vm_compute; reflexivity).
  assert (Hspec : getScheduleCronSpec Sample.defaultSchedule Sample.badInterval
                  = Err (EIntervalUnit "5x")) by (vm_compute; reflexivity).
  split.
  { split; [exact noFaults_quiet|]. split; [apply withSource_wf|].
    split; [exact Hvsc | exact Hspec]. }
  apply (untranslatable_interval_stops_the_source Sample.secretNameOf
           Sample.defaultSchedule Sample.noFaults Sample.badInterval
           Sample.rsSpec (Sample.withSource None) (EIntervalUnit "5x")
           noFaults_quiet (withSource_wf None) eq_refl theSecret_present).
  - change (StorageClassName (rsProtectedPVC Sample.rsSpec)) with (Some "sc").
    rewrite Hvsc. eauto.
  - intros old Hold.
    assert (Hsrc : Some old = Some (Sample.source None))
      by (rewrite <- Hold; reflexivity).
    injection Hsrc as ->. exact I.
  - exact Hspec.
Defined.

(** The statement of X6 on the owner's destination whose status names a
    snapshot and no address yet. *)
Lemma reconciled_destination_witness :
  let w := Sample.withDestination (Some Sample.restored) in
  let run := ReconcileRD Sample.secretNameOf Sample.defaultServiceType
               Sample.noFaults Sample.handler Sample.rdSpec w in
  (wf (cluster (state w)) ∧ run.1.2 = None)
  ∧ ∃ rd se,
      rds (cluster (state run.2)) !! "data" = Some rd
      ∧ run.1.1 = (if rdStatusReady rd then Some rd else None)
      ∧ rdRsync rd
        = Some {| rdServiceType := Some Sample.defaultServiceType;
                  rdSSHKeys := Some "vrg-vs-secret";
                  rdCopyMethod := CopyMethodSnapshot;
                  rdCapacity := Some 2;
                  rdStorageClassName := Some "sc";
                  rdAccessModes := [ReadWriteOnce];
                  rdVolumeSnapshotClassName := Some "vsc" |}
      ∧ rdStatus rd = Some Sample.restored
      ∧ serviceExports (cluster (state run.2)) !! "volsync-rsync-dst-data"
        = Some se
      ∧ hasOwnerRef "ReplicationDestination" "data" (seMeta se).
Proof.
  cbv zeta.
  assert (Hok : (ReconcileRD Sample.secretNameOf Sample.defaultServiceType
            Sample.noFaults Sample.handler Sample.rdSpec
            (Sample.withDestination (Some Sample.restored))).1.2 = None)
    by (vm_compute; reflexivity).
  split; [split; [apply withDestination_wf | exact Hok]|].
  destruct (reconciled_destination Sample.secretNameOf
              Sample.defaultServiceType Sample.noFaults Sample.handler
              Sample.rdSpec (Sample.withDestination (Some Sample.restored))
              (withDestination_wf _) eq_refl theSecret_present Hok)
    as (rd & vsc & se & Hrd & Hout & Hvsc & Hspec & _ & _ & Hst & Hse & Href).
  assert (Hclass : snapshotClassFor Sample.handler
            (state (Sample.withDestination (Some Sample.restored)))
            (Some "sc") = Some "vsc") by (vm_compute; reflexivity).
  change (StorageClassName (rdProtectedPVC Sample.rdSpec))
    with (Some "sc") in Hvsc, Hspec.
  rewrite Hclass in Hvsc. injection Hvsc as <-.
  exists rd, se. split; [exact Hrd|]. split; [exact Hout|].
  split; [exact Hspec|]. split; [exact Hst|]. split; [exact Hse | exact Href].
Defined.

(** The statement of X7 on the owner's source that has synced once. *)
Lemma reconciled_source_witness :
  let w := Sample.withSource (Some Sample.synced) in
  let run := ReconcileRS Sample.secretNameOf Sample.defaultSchedule
               Sample.noFaults Sample.handler Sample.rsSpec false w in
  (wf (cluster (state w)) ∧ run.1.2 = None)
  ∧ ∃ rs,
      rss (cluster (state run.2)) !! "data" = Some rs
      ∧ run.1.1 = (false, Some rs)
      ∧ rsSourcePVC rs = "data"
      ∧ rsTrigger rs = Some {| trSchedule := Some "*/5 * * * *";
                               trManual := "" |}
      ∧ rsRsync rs
        = Some {| rsSSHKeys := Some "vrg-vs-secret";
                  rsAddress := Some "volsync-rsync-dst-data.app.svc.clusterset.local";
                  rsCopyMethod := CopyMethodSnapshot;
                  rsVolumeSnapshotClassName := Some "vsc" |}
      ∧ rsStatus rs = Some Sample.synced.
Proof.
  cbv zeta.
  assert (Hok : (ReconcileRS Sample.secretNameOf Sample.defaultSchedule
            Sample.noFaults Sample.handler Sample.rsSpec false
            (Sample.withSource (Some Sample.synced))).1.2 = None)
    by (vm_compute; reflexivity).
  split; [split; [apply withSource_wf | exact Hok]|].
  destruct (reconciled_source Sample.secretNameOf
              Sample.defaultSchedule Sample.noFaults Sample.handler
              Sample.rsSpec (Sample.withSource (Some Sample.synced))
              (withSource_wf _) eq_refl theSecret_present Hok)
    as (rs & vsc & spec & Hrs & Hout & Hvsc & Hcron & Hpvc & Htr & Hsync
        & _ & _ & Hst).
  assert (Hclass : snapshotClassFor Sample.handler
            (state (Sample.withSource (Some Sample.synced)))
            (Some "sc") = Some "vsc") by (vm_compute; reflexivity).
  assert (Hspec : getScheduleCronSpec Sample.defaultSchedule Sample.handler
                  = Ok "*/5 * * * *") by (vm_compute; reflexivity).
  change (StorageClassName (rsProtectedPVC Sample.rsSpec))
    with (Some "sc") in Hvsc.
  rewrite Hclass in Hvsc. injection Hvsc as <-.
  rewrite Hspec in Hcron. injection Hcron as <-.
  change (rss (cluster (state (Sample.withSource (Some Sample.synced))))
          !! Name (rsProtectedPVC Sample.rsSpec) ≫= rsStatus)
    with (Some Sample.synced) in Hst.
  rewrite Hst in Hout. 
  exists rs. split; [exact Hrs|]. split; [exact Hout|].
  split; [exact Hpvc|]. split; [exact Htr|]. split; [exact Hsync | exact Hst].
Defined.

(** The statement of X8 on three destinations, with data the only name
    listed: old goes, data and the other owner's destination stay. *)
Lemma cleanup_removes_only_the_unlisted_witness :
  let w := Sample.threeDestinations in
  let run := CleanupRDNotInSpecList Sample.noFaults Sample.handler
               [Sample.rdSpec] w in
  (wf (cluster (state w)) ∧ answers Sample.noFaults VList KRD "")
  ∧ run.1 = None
  ∧ rds (cluster (state run.2)) !! "old" = None
  ∧ rds (cluster (state run.2)) !! "data"
    = Some (Sample.destinationNamed "vrg" "data")
  ∧ rds (cluster (state run.2)) !! "foreign"
    = Some (Sample.destinationNamed "other" "foreign").
Proof.
  cbv zeta.
  assert (HL : answers Sample.noFaults VList KRD "")
    by apply quiet_answers, noFaults_quiet.
  split; [split; [exact threeDestinations_wf | exact HL]|].
  destruct (cleanup_removes_only_the_unlisted Sample.noFaults Sample.handler
              [Sample.rdSpec] Sample.threeDestinations
              threeDestinations_wf HL)
    as (Hout & _ & Hsub & Honly & Hall).
  split; [exact Hout|]. split; [|split].
  - apply (Hall (fun _ _ => eq_refl) "old"
             (Sample.destinationNamed "vrg" "old")).
    + reflexivity.
    + vm_compute. reflexivity.
    + intros Hin. apply list_elem_of_singleton in Hin. discriminate Hin.
  - destruct (rds (cluster (state (CleanupRDNotInSpecList Sample.noFaults
                Sample.handler [Sample.rdSpec] Sample.threeDestinations).2))
              !! "data") as [rd|] eqn:E.
    + apply (lookup_weaken _ _ _ _ E) in Hsub. rewrite <- Hsub. reflexivity.
    + destruct (Honly "data" (Sample.destinationNamed "vrg" "data")
                  eq_refl E) as [_ Hnot].
      destruct Hnot. apply list_elem_of_singleton. reflexivity.
  - destruct (rds (cluster (state (CleanupRDNotInSpecList Sample.noFaults
                Sample.handler [Sample.rdSpec] Sample.threeDestinations).2))
              !! "foreign") as [rd|] eqn:E.
    + apply (lookup_weaken _ _ _ _ E) in Hsub. rewrite <- Hsub. reflexivity.
    + destruct (Honly "foreign" (Sample.destinationNamed "other" "foreign")
                  eq_refl E) as [Hown _].
      vm_compute in Hown. discriminate Hown.
Defined.

(** The statement of X9 on the three destinations: deleting old removes it
    and leaves the other owner's destination and the owner's other one. *)
Lemma delete_role_spares_the_others_witness :
  let w := Sample.threeDestinations in
  let rd := DeleteRD Sample.noFaults Sample.handler "old" w in
  wf (cluster (state w))
  ∧ rd.1 = None
  ∧ rds (cluster (state rd.2)) !! "old" = None
  ∧ rds (cluster (state rd.2)) !! "data"
    = Some (Sample.destinationNamed "vrg" "data")
  ∧ rds (cluster (state rd.2)) !! "foreign"
    = Some (Sample.destinationNamed "other" "foreign").
Proof.
  cbv zeta. split; [exact threeDestinations_wf|].
  destruct (delete_role_spares_the_others Sample.noFaults Sample.handler
              "old" Sample.threeDestinations threeDestinations_wf)
    as [_ (_ & Hkeep & Hsub & Hgone)].
  destruct (Hgone (quiet_answers _ _ _ _ noFaults_quiet)
              (quiet_answers _ _ _ _ noFaults_quiet)) as [Hout Hnone].
  split; [exact Hout|]. split; [|split].
  - destruct (rds (cluster (state (DeleteRD Sample.noFaults Sample.handler
                "old" Sample.threeDestinations).2)) !! "old") as [x|] eqn:E;
      [|reflexivity].
    destruct Hnone. exists x. split; [exact E|].
    apply (lookup_weaken _ _ _ _ E) in Hsub.
    assert (Hx : Some x = Some (Sample.destinationNamed "vrg" "old"))
      by (rewrite <- Hsub; reflexivity).
    injection Hx as ->. reflexivity.
  - apply Hkeep; [reflexivity | left; discriminate].
  - apply Hkeep; [reflexivity | left; discriminate].
Defined.

(** The statement of X10 on the secret of the sample clusters, which lists
    no owner yet. *)
Lemma secret_gets_the_owner_reference_witness :
  let w := Sample.withSource None in
  let sec := {| secretMeta := Sample.existing "vrg-vs-secret" |} in
  let run := validateSecretAndAddVRGOwnerRef Sample.noFaults Sample.handler
               "vrg-vs-secret" w in
  (keyed (T := Secret) (cluster (state w))
   ∧ secrets (cluster (state w)) !! "vrg-vs-secret" = Some sec
   ∧ ¬ hasOwnerRef "VolumeReplicationGroup" "vrg" (secretMeta sec))
  ∧ run.1 = (true, None)
  ∧ secrets (cluster (state run.2)) !! "vrg-vs-secret"
    = Some {| secretMeta :=
                setOwnerReferences
                  [ {| orKind := "VolumeReplicationGroup"; orName := "vrg";
                       orController := false;
                       orBlockOwnerDeletion := false |} ]
                  (Sample.existing "vrg-vs-secret") |}.
Proof.
  cbv zeta.
  assert (Hk : keyed (T := Secret) (cluster (state (Sample.withSource None))))
    by (apply (wf_keyed (T := Secret)), withSource_wf).
  assert (Hno : ¬ hasOwnerRef "VolumeReplicationGroup" "vrg"
                    (Sample.existing "vrg-vs-secret"))
    by (intros [i Hi]; vm_compute in Hi; discriminate Hi).
  split; [split; [exact Hk | split; [reflexivity | exact Hno]]|].
  destruct (secret_gets_the_owner_reference Sample.noFaults Sample.handler
              "vrg-vs-secret" {| secretMeta := Sample.existing "vrg-vs-secret" |}
              (Sample.withSource None) Hk
              (quiet_answers _ _ _ _ noFaults_quiet) eq_refl Hno)
    as [Hok _].
  destruct (Hok (quiet_answers _ _ _ _ noFaults_quiet)) as [Hout Hnew].
  split; [exact Hout|]. rewrite Hnew. cbn. rewrite lookup_insert_eq.
  reflexivity.
Defined.

(** The statement of X11 on a claim whose reconcile option is still
    mergeAndOwn: the call returns (false, nil) and has marked the claim all
    the same. *)
Lemma claim_is_marked_before_the_wait_witness :
  let pvc := Sample.claimFromA ClaimBound Sample.stillOwned in
  let w := Sample.withClaim pvc in
  let run := PreparePVCForFinalSync Sample.noFaults Sample.handler "data" w in
  keyed (T := PersistentVolumeClaim) (cluster (state w))
  ∧ run.1 = (false, None)
  ∧ ∃ pvc',
      pvcs (cluster (state run.2)) !! "data" = Some pvc'
      ∧ labels (pvcMeta pvc') !! ACMAppSubDoNotDeleteLabel
        = Some ACMAppSubDoNotDeleteLabelVal
      ∧ hasOwnerRef "VolumeReplicationGroup" "vrg" (pvcMeta pvc')
      ∧ annotations (pvcMeta pvc') = Sample.stillOwned.
Proof.
  cbv zeta.
  assert (Hk : keyed (T := PersistentVolumeClaim)
            (cluster (state (Sample.withClaim
               (Sample.claimFromA ClaimBound Sample.stillOwned))))).
  { apply (withClaim_wf (Sample.claimFromA ClaimBound Sample.stillOwned)).
    reflexivity. }
  split; [exact Hk|].
  assert (Hout : (PreparePVCForFinalSync Sample.noFaults Sample.handler "data"
            (Sample.withClaim
               (Sample.claimFromA ClaimBound Sample.stillOwned))).1
          = (false, None)) by (vm_compute; reflexivity).
  split; [exact Hout|].
  destruct (claim_is_marked_before_the_wait Sample.noFaults Sample.handler
              "data" (Sample.claimFromA ClaimBound Sample.stillOwned)
              (Sample.withClaim (Sample.claimFromA ClaimBound Sample.stillOwned))
              (quiet_answers _ _ _ _ noFaults_quiet)
              (quiet_answers _ _ _ _ noFaults_quiet) Hk eq_refl)
    as (pvc' & Hc & Hl & Ho & _ & Ha).
  exists pvc'. rewrite Hc. cbn. rewrite lookup_insert_eq.
  split; [reflexivity|]. rewrite Hl, lookup_insert_eq.
  split; [reflexivity|]. split; [exact Ho|]. exact (Ha Hout).
Defined.

(** The statement of X12 on a destination that has no status yet. *)
Lemma restore_needs_a_latest_image_witness :
  let w := Sample.withDestination None in
  answers Sample.noFaults VGet KRD "data"
  ∧ (EnsurePVCfromRD Sample.noFaults Sample.rdSpec w).1
    = Some (ENoLatestImage "data")
  ∧ state (EnsurePVCfromRD Sample.noFaults Sample.rdSpec w).2 = state w.
Proof.
  cbv zeta. split; [apply quiet_answers, noFaults_quiet|].
  exact (restore_needs_a_latest_image Sample.noFaults Sample.rdSpec
           (Sample.withDestination None)
           (quiet_answers _ _ _ _ noFaults_quiet) I).
Defined.

(** The statement of X13 on a destination whose latest image is snapshot A,
    in a cluster without snapshots. *)
Lemma restore_needs_the_snapshot_witness :
  let w := Sample.withDestination (Some Sample.restored) in
  (isLatestImageReady (Some Sample.snapA) = true
   ∧ snapshots (cluster (state w)) !! "snap-a" = None)
  ∧ (EnsurePVCfromRD Sample.noFaults Sample.rdSpec w).1
    = Some (EWrap "error getting volumesnapshot" (ENotFound KSnapshot "snap-a"))
  ∧ pvcs (cluster (state (EnsurePVCfromRD Sample.noFaults Sample.rdSpec w).2))
    = ∅.
Proof.
  cbv zeta. split; [split; reflexivity|].
  destruct (restore_needs_the_snapshot Sample.noFaults Sample.rdSpec
              (Sample.withDestination (Some Sample.restored))
              (Sample.destination (Some Sample.restored)) Sample.restored
              Sample.snapA
              (quiet_answers _ _ _ _ noFaults_quiet)
              (quiet_answers _ _ _ _ noFaults_quiet)
              eq_refl eq_refl eq_refl eq_refl eq_refl) as [Hout Hs].
  split; [exact Hout|]. rewrite Hs. reflexivity.
Defined.

Lemma restorable_wf : wf (cluster (state Sample.restorable)).
Proof.
  repeat split; try apply keyedMap_empty; try exact theSecret_keyed;
    now apply keyedMap_singleton.
Qed.

(** The statement of X14 on a latest image without an API group. *)
Lemma restore_creates_the_claim_witness :
  let w := Sample.restorable in
  let run := EnsurePVCfromRD Sample.noFaults Sample.rdSpec w in
  (quiet Sample.noFaults ∧ wf (cluster (state w))
   ∧ isLatestImageReady (Some Sample.bareSnapA) = true)
  ∧ run.1 = None
  ∧ (∃ pvc, pvcs (cluster (state run.2)) !! "data" = Some pvc
            ∧ pvcDataSource pvc = Some Sample.snapA
            ∧ pvcResources pvc = Sample.storage 2
            ∧ pvcAccessModes pvc = [ReadWriteOnce])
  ∧ (∃ snap, snapshots (cluster (state run.2)) !! "snap-a" = Some snap
             ∧ labels (snapMeta snap) !! VolSyncDoNotDeleteLabel
               = Some VolSyncDoNotDeleteLabelVal
             ∧ hasOwnerRef "PersistentVolumeClaim" "data" (snapMeta snap)).
Proof.
  cbv zeta.
  split; [split; [exact noFaults_quiet | split; [exact restorable_wf
                                               | reflexivity]]|].
  destruct (restore_creates_the_claim Sample.noFaults Sample.rdSpec
              Sample.restorable
              (Sample.destination (Some Sample.restoredBare))
              Sample.restoredBare Sample.bareSnapA Sample.theSnapshot
              noFaults_quiet restorable_wf eq_refl eq_refl eq_refl eq_refl
              eq_refl eq_refl) as (Hout & snap' & Hc & Hl & Ho & _).
  split; [exact Hout|]. rewrite Hc. cbn. split.
  - eexists. rewrite lookup_insert_eq. split; [reflexivity|].
    cbn. repeat split; reflexivity.
  - exists snap'. rewrite lookup_insert_eq. split; [reflexivity|].
    rewrite Hl, lookup_insert_eq. split; [reflexivity | exact Ho].
Defined.

(** The statement of X15 on a claim a pod mounts: the final sync has to
    wait. *)
Lemma final_sync_waits_for_the_pods_witness :
  let w := Sample.mounted in
  (answers Sample.noFaults VGet KPVC "data"
   ∧ answers Sample.noFaults VList KPod "data"
   ∧ inUse (cluster (state w)) "data")
  ∧ (pvcExistsAndInUse Sample.noFaults "data" w).1 = (true, None)
  ∧ (validatePVCBeforeFinalSync Sample.noFaults Sample.rsSpec true w).1
    = (false, None).
Proof.
  cbv zeta.
  assert (Hin : inUse (cluster (state Sample.mounted)) "data").
  { split; [eexists; reflexivity|].
    exists {| podName := "app"; podClaimNames := ["data"] |}.
    split; apply list_elem_of_singleton; reflexivity. }
  split; [split; [apply quiet_answers, noFaults_quiet
                 | split; [apply quiet_answers, noFaults_quiet | exact Hin]]|].
  destruct (final_sync_waits_for_the_pods Sample.noFaults Sample.rsSpec
              Sample.mounted (quiet_answers _ _ _ _ noFaults_quiet)
              (quiet_answers _ _ _ _ noFaults_quiet))
    as ((He1 & _ & Hu) & (He2 & _ & Hf) & _).
  split.
  - apply injective_projections; [|exact He1]. now apply Hu.
  - apply injective_projections; [|exact He2].
    apply not_true_is_false. intros Ht. now apply Hf in Ht.
Defined.

(** The statement of X16 on a bound claim, with a server that answers and
    with one that refuses to delete claims. *)
Lemma delete_claim_can_be_repeated_witness :
  let w := Sample.withClaim (Sample.claimFromA ClaimBound ∅) in
  let first := deletePVC Sample.noFaults "data" w in
  let second := deletePVC Sample.noFaults "data" first.2 in
  let refused := deletePVC Sample.refuseDeletePVC "data" w in
  (answers Sample.noFaults VDelete KPVC "data"
   ∧ first.1 = None ∧ second.1 = None)
  ∧ refused.1 = Some (EWrap "error deleting pvc" (EApi VDelete KPVC "data"))
  ∧ state refused.2 = state w.
Proof.
  cbv zeta. split.
  - split; [apply quiet_answers, noFaults_quiet|].
    destruct (delete_claim_can_be_repeated Sample.noFaults "data"
                (Sample.withClaim (Sample.claimFromA ClaimBound ∅)))
      as (_ & Hok & _).
    destruct (Hok (quiet_answers _ _ _ _ noFaults_quiet)) as (H1 & H2 & _).
    split; [exact H1 | exact H2].
  - destruct (delete_claim_can_be_repeated Sample.refuseDeletePVC "data"
                (Sample.withClaim (Sample.claimFromA ClaimBound ∅)))
      as (_ & _ & Hrefused).
    exact (Hrefused (fun _ => eq_refl)).
Defined.

(** The statement of X19 on a destination whose status is complete, and on a
    source that has synced once. *)
Lemma ready_role_is_data_protected_witness :
  let wd := Sample.withDestination (Some Sample.ready) in
  let ws := Sample.withSource (Some Sample.synced) in
  let rd := ReconcileRD Sample.secretNameOf Sample.defaultServiceType
              Sample.noFaults Sample.handler Sample.rdSpec wd in
  let rs := ReconcileRS Sample.secretNameOf Sample.defaultSchedule
              Sample.noFaults Sample.handler Sample.rsSpec false ws in
  (wf (cluster (state wd)) ∧ rd.1.2 = None ∧ is_Some rd.1.1)
  ∧ (IsRDDataProtected Sample.noFaults "data" rd.2).1 = (true, None)
  ∧ (wf (cluster (state ws)) ∧ rs.1.2 = None ∧ is_Some rs.1.1.2)
  ∧ (IsRSDataProtected Sample.noFaults "data" rs.2).1 = (true, None).
Proof.
  cbv zeta.
  assert (Hd_ok : (ReconcileRD Sample.secretNameOf Sample.defaultServiceType
            Sample.noFaults Sample.handler Sample.rdSpec
            (Sample.withDestination (Some Sample.ready))).1.2 = None)
    by (vm_compute; reflexivity).
  assert (Hd_some : is_Some (ReconcileRD Sample.secretNameOf
            Sample.defaultServiceType Sample.noFaults Sample.handler
            Sample.rdSpec (Sample.withDestination (Some Sample.ready))).1.1)
    by (eexists; vm_compute; reflexivity).
  assert (Hs_ok : (ReconcileRS Sample.secretNameOf Sample.defaultSchedule
            Sample.noFaults Sample.handler Sample.rsSpec false
            (Sample.withSource (Some Sample.synced))).1.2 = None)
    by (vm_compute; reflexivity).
  assert (Hs_some : is_Some (ReconcileRS Sample.secretNameOf
            Sample.defaultSchedule Sample.noFaults Sample.handler
            Sample.rsSpec false
            (Sample.withSource (Some Sample.synced))).1.1.2)
    by (eexists; vm_compute; reflexivity).
  split; [split; [apply withDestination_wf | split; assumption]|].
  split.
  - destruct (ready_role_is_data_protected Sample.secretNameOf
                Sample.defaultSchedule Sample.defaultServiceType
                Sample.noFaults Sample.handler Sample.rdSpec Sample.rsSpec
                (Sample.withDestination (Some Sample.ready))
                (withDestination_wf _) theSecret_present) as [Hrd _].
    exact (Hrd eq_refl (quiet_answers _ _ _ _ noFaults_quiet) Hd_ok Hd_some).
  - split; [split; [apply withSource_wf | split; assumption]|].
    destruct (ready_role_is_data_protected Sample.secretNameOf
                Sample.defaultSchedule Sample.defaultServiceType
                Sample.noFaults Sample.handler Sample.rdSpec Sample.rsSpec
                (Sample.withSource (Some Sample.synced))
                (withSource_wf _) theSecret_present) as [_ Hrs].
    destruct (Hrs eq_refl (quiet_answers _ _ _ _ noFaults_quiet) Hs_ok)
      as [Herr Hiff].
    apply injective_projections; [|exact Herr]. now apply Hiff.
Defined.

(** The statement of X20 from the same cluster as X14. *)
Lemma restore_again_writes_nothing_witness :
  let w := Sample.restorable in
  let first := EnsurePVCfromRD Sample.noFaults Sample.rdSpec w in
  let second := EnsurePVCfromRD Sample.noFaults Sample.rdSpec first.2 in
  (quiet Sample.noFaults ∧ wf (cluster (state w))
   ∧ isLatestImageReady (Some Sample.bareSnapA) = true)
  ∧ first.1 = None ∧ second.1 = None ∧ state second.2 = state first.2.
Proof.
  cbv zeta.
  split; [split; [exact noFaults_quiet | split; [exact restorable_wf
                                               | reflexivity]]|].
  exact (restore_again_writes_nothing Sample.noFaults Sample.rdSpec
           Sample.restorable
           (Sample.destination (Some Sample.restoredBare))
           Sample.restoredBare Sample.bareSnapA Sample.theSnapshot
           noFaults_quiet restorable_wf eq_refl eq_refl eq_refl eq_refl
           eq_refl eq_refl).
Defined.
